(* ===== verification/_CoqProject ===== *)
-Q . S2P
Prelude.v
GoStrings.v
Url.v
Sha.v
Lru.v
Store.v
StoreTree.v
Paths.v
PathDir.v
NfsCache.v
NfsAttr.v
NfsProc.v
NfsProcProps.v
NfsWrite.v
NfsWriteProps.v
MemStore.v
FS.v
FSFacts.v
FSProps.v
Nfs.v
NfsProps.v
NfsServer.v
GitTree.v
GitPack.v
GitCat.v
GitStore.v
GitHandle.v
MemGit.v
GitStoreProps.v
GitMisses.v
Remote.v
RemoteProps.v
RemoteServes.v
Rpc.v
RpcProps.v
WebDav.v
WinFsp.v
Fuse.v
Stats.v
Status.v
Servers.v
FrontEnds.v
FuseProps.v
NfsServe.v
Served.v
FrontFuse.v
ServedFuse.v
ServedStatus.v
Names.v
Metrics.v
Os.v
Commands.v
DumpPack.v
