(* ===== verification/Prelude.v ===== *)
(** * gomodfs: a verification library

    gomodfs serves Go module zips, mod, info and ziphash files, and Tailscale
    Go toolchains, as a read-only file system.  A path names a module version
    and a file of it; the file system finds the data in a store (a git
    repository, or another server over HTTP) or downloads it from module
    proxies and stores it; NFS clients reach it through handles that must
    outlive the process, and FUSE, WebDAV and WinFSP clients by paths.  This
    library models those parts as executable definitions and proves that
    they do what they are for.

    ** Parts and files

    - [Prelude], [GoStrings], [Url], [Sha]: bytes, machine integers, the
      error values and monads that all files share; the functions of the Go
      standard library that the program calls, written out; SHA-1, SHA-256
      and FNV-1.
    - [Lru]: internal/lru/lru.go.  [Ring] is the cache as linked heap cells,
      [Spec] the abstract list, [Refine] and [Ops] the refinement.
    - [Store], [StoreTree], [MemStore]: store/store.go.  The [Store]
      interface as a class, the tree that a store holds of a module, and an
      in-memory instance with the laws a client relies on.
    - [Paths], [PathDir]: path.go, tsgo.go.  Parsing and printing of paths,
      the memo tables, and the memoizing map under concurrent callers.
    - [FS], [FSFacts], [FSProps]: gomodfs.go.  Zip roots, meta files,
      downloads, the handle maps, the walk over a module's files.
    - [NfsAttr], [NfsCache], [Nfs], [NfsProps], [NfsServer]: nfs.go, and
      file.go, time.go of temp-dev-fork/willscott/go-nfs.  Attributes, the
      read cache, [billyFS], handles, reads, and the handler that go-nfs is
      given.
    - [NfsProc], [NfsProcProps], [NfsWrite], [NfsWriteProps]:
      go-nfs/nfs_on*.go and file.go.  The NFS procedures that read, over a
      [NfsHandler] class, and those that write, over [NfsWriter].
    - [Rpc], [RpcProps]: portmap/portmap.go, go-nfs/conn.go and errors.go.
      Record marking, the portmapper, and one request's reply.
    - [NfsServe]: go-nfs/server.go, mount.go, fakelock.go and the rest of
      conn.go.  The registry of procedures, MOUNT, the locks, and the
      goroutines of a connection.
    - [WebDav], [WinFsp], [FrontEnds], [Served]: webdav.go and winfsp.go,
      what the front ends have in common, and the way of a module from a
      proxy to the clients.
    - [Fuse], [FuseProps], [FrontFuse], [ServedFuse]: fuse.go.  Each node
      type is a constructor of [node], and what a node keeps (a listing, a
      file's contents) is in the node that its methods return; the way of a
      module from a proxy to a FUSE client.
    - [Stats], [Status], [ServedStatus]: stats/stats.go, and [StatusJSON] of
      gomodfs.go.  Spans, clones and the page, over a heap of counters; the
      JSON of the status file, with a reader of it, and the file through the
      front ends.
    - [Servers]: go-nfs/server.go, portmap/portmap.go.  The loops that accept
      connections and packets, on what the calls of [Accept] return.
    - [Names]: nfsinterface.go, mountinterface.go, errors.go and log.go of
      go-nfs.  The names of procedures and statuses, and the logger.
    - [Metrics]: metrics.go.  The registering of the fields of [FS] by their
      struct tags.
    - [Os], [Commands]: cmd/gomodfs, and the mounting of gomodfs.go, fuse.go
      and winfsp.go.  [io] is the tree of a program's calls of the system.
    - [DumpPack]: cmd/dumppack, over the pack scanner of go-git.
    - [GitTree], [GitPack], [GitCat], [GitStore], [GitHandle], [MemGit] and
      their [GitStoreProps], [GitMisses]: store/gitstore/gitstore.go.
      Git trees, pack files, the queue of the cat-file helper, refs, what
      git lists of a tree and the handle made from it, and the store's
      operations; an in-memory repository.
    - [Remote], [RemoteProps], [RemoteServes]: store/remotestore.  The
      protocol, the client store and the server's handler.

    The clients are written against interfaces: [FS] against [Store],
    [ModEscape] and [World], [NfsProc] against [NfsHandler], whose instance
    is [NfsServer.nfs_handler], [GitStore] against [GitPack.Git]; what a
    theorem needs of a store is a class too, [StoreReads], [StorePuts] and
    [StorePutTree], with [MemStore] as an instance.  Names are
    those of the source, with an underscore where Rocq reserves the name;
    a Go method that may panic is a function to [option], an error a value
    of [res], and a state passes through [st] or [pst] (see below).

    ** What the theorems show

    - The linked cache computes what the abstract one does, and [Set] keeps
      the longest recent run that fits ([Lru]).
    - Parsing inverts the printing of every form of path; what it accepts
      is printed paths, the paths below a toolchain's marker, and the paths
      that name no file yet; the memo tables change no answer, under any
      interleaving ([Paths]).
    - Who is asked for what, in which order, and what is then remembered:
      no network with ReadOnly, one proxy for all files of a version, the
      first proxy that serves a meta file ([FSProps]).  The handle maps and
      the walk over a module terminate and are complete.
    - An NFS read is a slice of the file and reading on gives the file; the
      read cache is sound and bounded; a handle given out is understood by
      a server that starts later ([NfsProps]); paging through a directory
      gives each name once, and no call changes anything, each being
      refused with the status it should have ([NfsServer]).
    - NFS, WebDAV and WinFSP give the same contents for a path
      ([FrontEnds]), and those of a module that is new are the files of the
      first proxy's archive ([Served]); a walk through the FUSE nodes finds
      what parsing the whole path finds, except that it leaves the versions
      of mod, info and ziphash files escaped; FUSE reads a file from the
      store once ([FuseProps]), and gives the same contents as the others
      below a module's directory ([FrontFuse]), those of a new module from
      the archive too ([ServedFuse]).
    - Records survive fragmentation, the portmapper answers every call, each
      NFS request gets one reply ([RpcProps]), and so it does on a
      connection with up to 32 procedures at once ([NfsServe]).  Every
      connection accepted is served, and time-outs of [Accept] are waited out
      for between 5 ms and a second ([Servers]).
    - The statistics count every span, and a clone of them does not change
      ([Stats]); the status file, read over any front end and parsed, gives
      them back ([ServedStatus]).
    - The command serves only what its flags ask for, on listeners it
      opened, and mounts NFS with the port of the server it started
      ([Commands]).
    - Git trees do not depend on map order and read back what was added;
      packs parse by git's format and are counted; the cat-file queue is safe, and live
      while its helper lives, but strands a request that comes as the helper
      ends ([GitCat]); a module put in the git-backed store comes back: the
      handle, made from git's listing, knows its files, their directories,
      and nothing else ([GitStoreProps]).
    - The remote store refines the store of the server it talks to, for
      every path ([RemoteServes]).

    ** Loops and fuel

    A loop that is not structural has fuel, and runs out of it as a panic
    or an absent result, which the theorems exclude: the fuel is the number
    of cells for [Ring], the length of the path for the loops over parent
    directories (each parent is shorter), the length of the input for the
    record readers (each round reads a header), and the depth of the
    directories for the walks ([doDir], [walkFiles], [buildTree]).  A client
    of [FrontEnds], [FrontFuse] or [ServedStatus] that reads a file to its
    end has one round more than the file has bytes, since each round gets at
    least one.  The reader of [Status.Json] has the length of the text, since
    each value and member takes a byte, and the loop of [DumpPack] one round
    for each object.  [GitHandle.git_listing], which says what git prints,
    stops at the depth to which git lists trees ([git_max_depth]), and a
    module of [PutModule_GetFile] is not deeper.
    [buildDirMap] has no such bound for a rooted name, and
    [RemoteProps.buildDirMap_terminates] says so.

    Integers have the width of the source where they can overflow ([u32],
    [u64], [i64]); a length is a [nat] or a non-negative [Z].

    ** Parameters

    Code that is not in the repository is a parameter: the escaping of
    module paths ([ModEscape], with the laws its package documents), HTTP,
    zip, gzip, tar and dirhash ([World]), git's commands and zlib
    ([GitPack.Git]), LZ4 and JSON ([Remote]); XDR is not modelled, and the
    arguments and replies of procedures are values ([NfsWrite.Xdr] is the
    part that reading the attributes to set needs, [Mount.Xdr] the part that
    MOUNT and the locks need, and the reading of a call's header is an
    argument of [Serve.readRequestHeader]), the registry of Prometheus
    ([Metrics.Registry]) and the scanner of go-git ([DumpPack.Scanner]).
    The text of the uptime, the Expires text of the WebDAV server and the
    clock are arguments, and so is the order of a range over a map
    ([GoRange]); the front ends take the text of [Status.FS_StatusJSON] as
    an argument, which [ServedStatus] gives them.

    ** Not modelled

    Requests are sequential: a singleflight call runs its function and a
    locked section is one step.  The exceptions are the memoizing map of
    [Paths], the queue of [GitCat], the spans of [Stats] and the connection
    of [Serve], which are step relations or runs of events; in [Serve] what
    a procedure does is a parameter, so that its theorem covers any sharing
    of state between procedures.  The spans that the components start are
    left out of their models, and so are logging, tracing, debug dumps and
    the counts of Prometheus, since they do not affect what is served.  Of
    the commands, flag parsing, the routes of the debug server and the watch
    on the parent process are left out; the DAV, FUSE and WinFSP libraries
    are glue around what is modelled, and the programs under testing/ are
    tools of the tests. *)

From Stdlib Require Export ZArith NArith Ascii Lia.
From stdpp Require Export base tactics option countable gmap sets strings numbers list.

(** ** Byte strings

    Go's [string] and [[]byte] are both sequences of bytes, and the
    conversions between them do not change the bytes; both are [bytes]
    here.  [str] turns a literal into bytes. *)

Abbreviation bytes := (list ascii).

Definition str (s : string) : bytes := String.list_ascii_of_string s.

Arguments str s%_stdpp.

Declare Scope gomodfs_scope.
Delimit Scope gomodfs_scope with gomodfs.

(** A byte as a number, and the byte of a number (modulo 256). *)
Definition byte_val (a : ascii) : Z := Z.of_N (N_of_ascii a).

Definition byte_of (z : Z) : ascii := ascii_of_N (Z.to_N (z mod 256)).

Lemma byte_val_range a : (0 <= byte_val a < 256)%Z.
Proof.
  unfold byte_val. pose proof (N_ascii_bounded a). lia.
Qed.

Lemma byte_val_of z : byte_val (byte_of z) = (z mod 256)%Z.
Proof.
  unfold byte_val, byte_of.
  pose proof (Z.mod_pos_bound z 256 ltac:(lia)).
  rewrite N_ascii_embedding by lia. lia.
Qed.

Lemma byte_of_val a : byte_of (byte_val a) = a.
Proof.
  unfold byte_of, byte_val. pose proof (N_ascii_bounded a).
  rewrite Z.mod_small by lia. rewrite N2Z.id. apply ascii_N_embedding.
Qed.

Lemma byte_val_inj a b : byte_val a = byte_val b -> a = b.
Proof. intros H. rewrite <-(byte_of_val a), <-(byte_of_val b). by rewrite H. Qed.

Lemma length_str_app s t : length (str (s +:+ t)) = length (str s) + length (str t).
Proof. induction s as [|c s IH]; simpl; [done|]. by rewrite IH. Qed.

(** ** Machine integers *)

(** The unsigned and signed readings of a number at width [w]. *)
Definition uwrap (w : Z) (z : Z) : Z := (z mod 2 ^ w)%Z.

Definition swrap (w : Z) (z : Z) : Z :=
  ((z + 2 ^ (w - 1)) mod 2 ^ w - 2 ^ (w - 1))%Z.

Definition u32 : Z -> Z := uwrap 32.
Definition u64 : Z -> Z := uwrap 64.
Definition i64 : Z -> Z := swrap 64.

Lemma swrap_small w z :
  (0 < w)%Z -> (- 2 ^ (w - 1) <= z < 2 ^ (w - 1))%Z -> swrap w z = z.
Proof.
  intros Hw Hz. unfold swrap.
  assert (2 ^ w = 2 * 2 ^ (w - 1))%Z as Hp.
  { rewrite <-Z.pow_succ_r by lia. f_equal. lia. }
  rewrite Z.mod_small by lia. lia.
Qed.

Lemma i64_small z : (- 2 ^ 63 <= z < 2 ^ 63)%Z -> i64 z = z.
Proof. intros. apply swrap_small; simpl; lia. Qed.

Lemma i64_range z : (- 2 ^ 63 <= i64 z < 2 ^ 63)%Z.
Proof. unfold i64, swrap. pose proof (Z.mod_pos_bound (z + 2 ^ (64 - 1)) (2 ^ 64)). lia. Qed.

Lemma i64_mod z : (i64 z mod 2 ^ 64 = z mod 2 ^ 64)%Z.
Proof.
  unfold i64, swrap.
  rewrite Zminus_mod_idemp_l. f_equal. lia.
Qed.

(** Adding to, or subtracting from, an already wrapped number is the same
    as wrapping once at the end. *)
Lemma i64_eq a b : (a mod 2 ^ 64 = b mod 2 ^ 64)%Z -> i64 a = i64 b.
Proof.
  intros H. unfold i64, swrap.
  rewrite <-(Zplus_mod_idemp_l a), <-(Zplus_mod_idemp_l b). by rewrite H.
Qed.

Lemma i64_add_l a b : i64 (i64 a + b) = i64 (a + b).
Proof. apply i64_eq. rewrite <-Zplus_mod_idemp_l, i64_mod, Zplus_mod_idemp_l. done. Qed.

Lemma i64_sub_l a b : i64 (i64 a - b) = i64 (a - b).
Proof. apply i64_eq. rewrite <-Zminus_mod_idemp_l, i64_mod, Zminus_mod_idemp_l. done. Qed.

Lemma u64_small z : (0 <= z < 2 ^ 64)%Z -> u64 z = z.
Proof. intros. unfold u64, uwrap. by apply Z.mod_small. Qed.

Lemma u32_small z : (0 <= z < 2 ^ 32)%Z -> u32 z = z.
Proof. intros. unfold u32, uwrap. by apply Z.mod_small. Qed.

Lemma u32_range z : (0 <= u32 z < 2 ^ 32)%Z.
Proof. unfold u32, uwrap. apply Z.mod_pos_bound. lia. Qed.

Create HintDb gomodfs.
Create Rewrite HintDb gomodfs_rw.
#[export] Hint Rewrite byte_val_of byte_of_val i64_add_l i64_sub_l : gomodfs_rw.
#[export] Hint Resolve byte_val_range u32_range i64_range : gomodfs.

(** ** Errors

    The sentinel errors the program compares against, the errors made from
    text ([errors.New], and [fmt.Errorf] without [%w]), the wrapping ones
    ([fmt.Errorf] with [%w]), [errors.Join], and an NFS status error. *)
Inductive error : Type :=
  | EOF
  | ErrUnexpectedEOF
  | ErrShortBuffer
  | ErrCacheMiss
  | ErrIsDir
  | ErrNotExist
  | ErrPermission
  | ErrInvalid
  | EIO
  | errMissing
  | errReadonly
  | Canceled
  | DeadlineExceeded
  | errText (msg : string)
  | errWrap (msg : string) (e : error)
  | errJoin (es : list error)
  | NFSStatusError (status : Z) (wrapped : option error).

(** [errors.Is err target] for a sentinel [target]. *)
Fixpoint errors_Is (e : error) (target : error -> bool) : bool :=
  target e ||
  match e with
  | errWrap _ e' => errors_Is e' target
  | errJoin es => existsb (fun e' => errors_Is e' target) es
  | NFSStatusError _ (Some e') => errors_Is e' target
  | _ => false
  end.

Definition is_ErrCacheMiss (e : error) : bool :=
  match e with ErrCacheMiss => true | _ => false end.
Definition is_ErrNotExist (e : error) : bool :=
  match e with ErrNotExist => true | _ => false end.
Definition is_errMissing (e : error) : bool :=
  match e with errMissing => true | _ => false end.
Definition is_ErrIsDir (e : error) : bool :=
  match e with ErrIsDir => true | _ => false end.
(** [context.Canceled] or [context.DeadlineExceeded]. *)
Definition is_context (e : error) : bool :=
  match e with Canceled | DeadlineExceeded => true | _ => false end.

(** A Go [(value, error)] pair of which exactly one is meaningful. *)
Inductive res (A : Type) : Type :=
  | Ok (a : A)
  | Err (e : error).
Arguments Ok {A} a.
Arguments Err {A} e.

#[export] Instance res_ret : MRet res := @Ok.
#[export] Instance res_bind : MBind res := fun A B f m =>
  match m with Ok a => f a | Err e => Err e end.
#[export] Instance res_fmap : FMap res := fun A B f m =>
  match m with Ok a => Ok (f a) | Err e => Err e end.

Definition is_ok {A} (r : res A) : bool := match r with Ok _ => true | Err _ => false end.

(** [if err != nil { return f(err) }]. *)
Definition map_err {A} (f : error -> error) (r : res A) : res A :=
  match r with Ok a => Ok a | Err e => Err (f e) end.

Lemma map_err_ok {A} f (r : res A) a : map_err f r = Ok a <-> r = Ok a.
Proof. destruct r; naive_solver. Qed.

(** ** Stateful computations

    [st S A]: a computation that threads a state of type [S]; a Go method
    that may fail is an [st S (res A)].  The state persists when the
    computation fails, as the receiver's fields do. *)
Definition st (S A : Type) : Type := S -> A * S.

Definition st_ret {S A} (a : A) : st S A := fun s => (a, s).
Definition st_bind {S A B} (m : st S A) (f : A -> st S B) : st S B :=
  fun s => let '(a, s') := m s in f a s'.
Definition st_get {S} : st S S := fun s => (s, s).
Definition st_put {S} (s' : S) : st S unit := fun _ => (tt, s').
Definition st_modify {S} (f : S -> S) : st S unit := fun s => (tt, f s).

(** Bind on a fallible stateful computation: an error returns early. *)
Definition st_try {S A B} (m : st S (res A)) (f : A -> st S (res B)) : st S (res B) :=
  st_bind m (fun r => match r with Ok a => f a | Err e => st_ret (Err e) end).

(** A computation that may panic: [None] is a run-time panic (a nil
    dereference, an index out of range, an explicit [panic]). *)
Definition pst (S A : Type) : Type := S -> option (A * S).

Definition pst_ret {S A} (a : A) : pst S A := fun s => Some (a, s).
Definition pst_panic {S A} : pst S A := fun _ => None.
Definition pst_bind {S A B} (m : pst S A) (f : A -> pst S B) : pst S B :=
  fun s => match m s with Some (a, s') => f a s' | None => None end.
Definition pst_get {S} : pst S S := fun s => Some (s, s).
Definition pst_modify {S} (f : S -> S) : pst S unit := fun s => Some (tt, f s).

(** The same with an error result, which returns early. *)
Definition pst_try {S A B} (m : pst S (res A)) (f : A -> pst S (res B)) : pst S (res B) :=
  pst_bind m (fun r => match r with Ok a => f a | Err e => pst_ret (Err e) end).
Definition pst_ok {S A} (a : A) : pst S (res A) := pst_ret (Ok a).
Definition pst_err {S A} (e : error) : pst S (res A) := pst_ret (Err e).

Lemma try_ok {S A B} (m : pst S (res A)) (k : A -> pst S (res B)) f a f' :
  m f = Some (Ok a, f') -> pst_try m k f = k a f'.
Proof. intros Hm. unfold pst_try, pst_bind. by rewrite Hm. Qed.

Lemma try_err {S A B} (m : pst S (res A)) (k : A -> pst S (res B)) f e f' :
  m f = Some (Err e, f') -> pst_try m k f = Some (Err e, f').
Proof. intros Hm. unfold pst_try, pst_bind. by rewrite Hm. Qed.

Lemma bind_some {S A B} (m : pst S A) (k : A -> pst S B) f a f' :
  m f = Some (a, f') -> pst_bind m k f = k a f'.
Proof. intros Hm. unfold pst_bind. by rewrite Hm. Qed.

Notation "x <-? m ;; k" := (pst_try m (fun x => k))
  (at level 60, m at next level, right associativity) : gomodfs_scope.
Notation "x <-! m ;; k" := (pst_bind m (fun x => k))
  (at level 60, m at next level, right associativity) : gomodfs_scope.
Notation "m ;;! k" := (pst_bind m (fun _ => k))
  (at level 60, right associativity) : gomodfs_scope.
Notation "x <~ m ;; k" := (st_bind m (fun x => k))
  (at level 60, m at next level, right associativity) : gomodfs_scope.
Notation "x <?~ m ;; k" := (st_try m (fun x => k))
  (at level 60, m at next level, right associativity) : gomodfs_scope.

(** ** Automation *)

(** Case analysis on the scrutinee of a [match] or [if] in the goal or in
    a hypothesis, with the equations kept and contradictions closed. *)
Ltac case_goal :=
  match goal with
  | |- context [match ?x with _ => _ end] => destruct x eqn:?
  end; simplify_eq/=.

Ltac case_hyp H :=
  match type of H with
  | context [match ?x with _ => _ end] => destruct x eqn:?
  end; simplify_eq/=.

Ltac case_all H := repeat (case_hyp H; try done).

(** Turn a boolean decision in the context or the goal into its proposition. *)
Ltac to_prop :=
  repeat match goal with
  | H : bool_decide _ = true |- _ => apply bool_decide_eq_true in H
  | H : bool_decide _ = false |- _ => apply bool_decide_eq_false in H
  | H : _ && _ = true |- _ => apply andb_prop in H as [? ?]
  | H : (_ =? _)%Z = true |- _ => apply Z.eqb_eq in H
  | H : (_ =? _)%Z = false |- _ => apply Z.eqb_neq in H
  | H : (_ <? _)%Z = true |- _ => apply Z.ltb_lt in H
  | H : (_ <? _)%Z = false |- _ => apply Z.ltb_ge in H
  | H : (_ <=? _)%Z = true |- _ => apply Z.leb_le in H
  | H : (_ <=? _)%Z = false |- _ => apply Z.leb_gt in H
  | H : (_ =? _) = true |- _ => apply Nat.eqb_eq in H
  | H : (_ =? _) = false |- _ => apply Nat.eqb_neq in H
  | H : (_ <? _) = true |- _ => apply Nat.ltb_lt in H
  | H : (_ <? _) = false |- _ => apply Nat.ltb_ge in H
  | H : negb _ = true |- _ => apply negb_true_iff in H
  | H : negb _ = false |- _ => apply negb_false_iff in H
  end.


(** A closed decidable goal, by evaluating its decision procedure. *)
Ltac by_decide := refine (bool_decide_unpack _ _); vm_compute; exact I.


(** Names the value of a closed term: [H : t = v]. *)
Ltac eval_as t H :=
  let v := eval vm_compute in t in
  assert (t = v) as H by (vm_compute; reflexivity).
