(* ===== verification/GoStrings.v ===== *)
(** * Strings, paths and numbers of the Go standard library

    The functions of packages strings, path, strconv and encoding/hex that
    the program calls, on [bytes], with the lemmas the components share. *)

From S2P Require Import Prelude.

Definition slash : ascii := "/"%char.
Definition dot : ascii := "."%char.
Definition nl : ascii := byte_of 10.
Definition nul : ascii := byte_of 0.

(** ** Prefixes, suffixes and separators *)

(** [strings.CutPrefix(s, p)]: what follows [p], if [s] starts with it. *)
Fixpoint CutPrefix (s p : bytes) {struct p} : option bytes :=
  match p, s with
  | [], _ => Some s
  | c :: p', d :: s' => if decide (c = d) then CutPrefix s' p' else None
  | _ :: _, [] => None
  end.

Definition HasPrefix (s p : bytes) : bool :=
  match CutPrefix s p with Some _ => true | None => false end.

Definition TrimPrefix (s p : bytes) : bytes := default s (CutPrefix s p).

Definition CutSuffix (s p : bytes) : option bytes :=
  reverse <$> CutPrefix (reverse s) (reverse p).

Definition HasSuffix (s p : bytes) : bool :=
  match CutSuffix s p with Some _ => true | None => false end.

Definition TrimSuffix (s p : bytes) : bytes := default s (CutSuffix s p).

(** [strings.Cut(s, sep)]: around the first [sep]. *)
Fixpoint Cut (s sep : bytes) : option (bytes * bytes) :=
  match CutPrefix s sep with
  | Some r => Some ([], r)
  | None =>
      match s with
      | [] => None
      | c :: s' => '(a, b) ← Cut s' sep; Some (c :: a, b)
      end
  end.

Definition Contains (s sep : bytes) : bool :=
  match Cut s sep with Some _ => true | None => false end.

(** [strings.Split] for a one-byte separator. *)
Fixpoint split_byte (c : ascii) (s : bytes) : list bytes :=
  match s with
  | [] => [[]]
  | d :: s' =>
      if decide (d = c) then [] :: split_byte c s'
      else match split_byte c s' with
           | w :: ws => (d :: w) :: ws
           | [] => [[d]]
           end
  end.

(** [strings.SplitN] for a one-byte separator, with [n] at least 1. *)
Fixpoint SplitN (s : bytes) (c : ascii) (n : nat) : list bytes :=
  match n with
  | O | S O => [s]
  | S n' => match Cut s [c] with Some (a, b) => a :: SplitN b c n' | None => [s] end
  end.

(** [strings.Join] for a one-byte separator. *)
Fixpoint join_byte (c : ascii) (l : list bytes) : bytes :=
  match l with
  | [] => []
  | [w] => w
  | w :: l' => w ++ c :: join_byte c l'
  end.

(** Around the last [c]: [s[:i]] and [s[i+1:]] for [i = LastIndexByte(s, c)]. *)
Definition cut_last (c : ascii) (s : bytes) : option (bytes * bytes) :=
  '(a, b) ← Cut (reverse s) [c]; Some (reverse b, reverse a).

Fixpoint drop_while (P : ascii -> bool) (s : bytes) : bytes :=
  match s with
  | c :: s' => if P c then drop_while P s' else s
  | [] => []
  end.

(** [strings.TrimLeft] and [TrimRight] for a one-byte cutset. *)
Definition TrimLeft (s : bytes) (c : ascii) : bytes := drop_while (fun d => bool_decide (d = c)) s.
Definition TrimRight (s : bytes) (c : ascii) : bytes := reverse (TrimLeft (reverse s) c).

(** unicode.IsSpace on ASCII, and [strings.TrimSpace]. *)
Definition is_space (c : ascii) : bool :=
  let z := byte_val c in ((z =? 32) || (9 <=? z) && (z <=? 13))%Z.
Definition TrimSpace (s : bytes) : bytes :=
  reverse (drop_while is_space (reverse (drop_while is_space s))).

(** ** Package path *)

(** The last element of a slash-separated name. *)
Definition last_elem (s : bytes) : bytes :=
  match cut_last slash s with Some (_, b) => b | None => s end.

Definition path_Base (s : bytes) : bytes :=
  if decide (s = []) then str "." else
  let b := last_elem (TrimRight s slash) in
  if decide (b = []) then str "/" else b.

(** [path.Ext]: from the last dot of the last element, or empty. *)
Definition path_Ext (s : bytes) : bytes :=
  match cut_last dot (last_elem s) with
  | Some (_, e) => dot :: e
  | None => []
  end.

(** [path.Clean], on the elements of the name: [out] is the cleaned part,
    last element first. *)
Fixpoint clean_elems (rooted : bool) (out : list bytes) (l : list bytes) : list bytes :=
  match l with
  | [] => reverse out
  | w :: l' =>
      if decide (w = [] \/ w = str ".") then clean_elems rooted out l'
      else if decide (w = str "..") then
        match out with
        | o :: out' =>
            if decide (o = str "..") then clean_elems rooted (w :: out) l'
            else clean_elems rooted out' l'
        | [] => if rooted then clean_elems rooted [] l' else clean_elems rooted [w] l'
        end
      else clean_elems rooted (w :: out) l'
  end.

Definition path_Clean (s : bytes) : bytes :=
  if decide (s = []) then str "." else
  let rooted := bool_decide (head s = Some slash) in
  let b := join_byte slash (clean_elems rooted [] (split_byte slash s)) in
  if rooted then slash :: b else if decide (b = []) then str "." else b.

(** [path.Join]: the non-empty elements, joined and cleaned. *)
Definition path_Join (l : list bytes) : bytes :=
  let l' := filter (fun w => w <> []) l in
  if decide (l' = []) then [] else path_Clean (join_byte slash l').

(** [path.Dir]. *)
Definition path_Dir (s : bytes) : bytes :=
  match cut_last slash s with
  | Some (a, _) => path_Clean (a ++ [slash])
  | None => str "."
  end.

(** ** Decimal numbers and hexadecimal *)

Definition digit (d : Z) : ascii := byte_of (48 + d).

Fixpoint itoa_loop (fuel : nat) (n : Z) (acc : bytes) : bytes :=
  let acc' := digit (n mod 10) :: acc in
  match fuel with
  | O => acc'
  | S f => if (n / 10 =? 0)%Z then acc' else itoa_loop f (n / 10)%Z acc'
  end.

(** [strconv.Itoa], of a number whose decimal digits are at most the
    binary digits that the fuel counts. *)
Definition Itoa (n : Z) : bytes :=
  if (n <? 0)%Z then "-"%char :: itoa_loop (Z.to_nat (Z.log2 (- n))) (- n) []
  else itoa_loop (Z.to_nat (Z.log2 n)) n [].

Fixpoint parse_digits (acc : Z) (s : bytes) : option Z :=
  match s with
  | [] => Some acc
  | c :: s' =>
      let d := (byte_val c - 48)%Z in
      if ((0 <=? d) && (d <=? 9))%Z then parse_digits (10 * acc + d) s' else None
  end.

(** [strconv.ParseUint(s, 10, bits)]. *)
Definition ParseUint (bits : Z) (s : bytes) : option Z :=
  match s with
  | [] => None
  | _ => n ← parse_digits 0 s; if (n <? 2 ^ bits)%Z then Some n else None
  end.

(** [strconv.ParseInt(s, 10, bits)]. *)
Definition ParseInt (bits : Z) (s : bytes) : option Z :=
  match s with
  | [] => None
  | c :: s' =>
      let neg := bool_decide (c = "-"%char) in
      let body := if neg || bool_decide (c = "+"%char) then s' else s in
      match body with
      | [] => None
      | _ => n ← parse_digits 0 body;
             if neg then if (n <=? 2 ^ (bits - 1))%Z then Some (- n)%Z else None
             else if (n <? 2 ^ (bits - 1))%Z then Some n else None
      end
  end.

Definition Atoi : bytes -> option Z := ParseInt 64.

Definition hex_digit (d : Z) : ascii :=
  if (d <? 10)%Z then byte_of (48 + d) else byte_of (87 + d).

Definition hex_encode (s : bytes) : bytes :=
  mjoin ((fun c => [hex_digit (byte_val c / 16); hex_digit (byte_val c mod 16)]) <$> s).

(** The value of a hexadecimal digit, of either case. *)
Definition hex_val (c : ascii) : option Z :=
  let z := byte_val c in
  if ((48 <=? z) && (z <=? 57))%Z then Some (z - 48)%Z
  else if ((97 <=? z) && (z <=? 102))%Z then Some (z - 87)%Z
  else if ((65 <=? z) && (z <=? 70))%Z then Some (z - 55)%Z
  else None.

Fixpoint hex_decode (s : bytes) : option bytes :=
  match s with
  | [] => Some []
  | a :: b :: s' =>
      x ← hex_val a; y ← hex_val b; r ← hex_decode s';
      Some (byte_of (16 * x + y) :: r)
  | [_] => None
  end.

(** ** Lemmas *)

Lemma CutPrefix_Some s p r : CutPrefix s p = Some r <-> s = p ++ r.
Proof.
  revert s. induction p as [|c p IH]; intros s; simpl; [split; congruence|].
  destruct s as [|d s]; [split; congruence|]. case_decide; [subst|split; congruence].
  rewrite IH. split; congruence.
Qed.

Lemma CutPrefix_app p s : CutPrefix (p ++ s) p = Some s.
Proof. by apply CutPrefix_Some. Qed.

Lemma CutPrefix_None s p : CutPrefix s p = None <-> ~ p `prefix_of` s.
Proof.
  destruct (CutPrefix s p) as [r|] eqn:Hc.
  - apply CutPrefix_Some in Hc as ->. split; [done|]. intros []. by exists r.
  - split; [|done]. intros _ [r ->]. by rewrite CutPrefix_app in Hc.
Qed.

Lemma CutSuffix_Some s p r : CutSuffix s p = Some r <-> s = r ++ p.
Proof.
  unfold CutSuffix. rewrite fmap_Some. split.
  - intros (x & Hx%CutPrefix_Some & ->).
    rewrite <-(reverse_involutive s), Hx, reverse_app, reverse_involutive. done.
  - intros ->. exists (reverse r). by rewrite CutPrefix_Some, reverse_app, reverse_involutive.
Qed.

Lemma CutSuffix_app s p : CutSuffix (s ++ p) p = Some s.
Proof. by apply CutSuffix_Some. Qed.

Lemma TrimSuffix_app s p : TrimSuffix (s ++ p) p = s.
Proof. unfold TrimSuffix. by rewrite CutSuffix_app. Qed.

Lemma Cut_byte a c b : c ∉ a -> Cut (a ++ c :: b) [c] = Some (a, b).
Proof.
  induction a as [|d a IH]; intros Hc; simpl.
  - by rewrite decide_True.
  - rewrite decide_False by set_solver. rewrite IH by set_solver. done.
Qed.

Lemma Cut_byte_None a c : c ∉ a -> Cut a [c] = None.
Proof.
  induction a as [|d a IH]; intros Hc; simpl; [done|].
  rewrite decide_False by set_solver. by rewrite IH by set_solver.
Qed.

Lemma Cut_None_notin s c : Cut s [c] = None -> c ∉ s.
Proof.
  induction s as [|d s IH]; cbn; [by intros _ ?%elem_of_nil|].
  case_decide as Hd; [done|]. destruct (Cut s [c]) as [[]|]; [done|].
  intros _ [->|Hin]%elem_of_cons; [done|]. by apply IH.
Qed.

Lemma Cut_Some s sep a b : Cut s sep = Some (a, b) -> s = a ++ sep ++ b.
Proof.
  revert a. induction s as [|d s IH]; intros a; simpl.
  - destruct sep; naive_solver.
  - destruct (CutPrefix (d :: s) sep) as [r|] eqn:Hp.
    + intros [= <- <-]. by apply CutPrefix_Some in Hp.
    + destruct (Cut s sep) as [[x y]|]; intros Hc; simplify_eq/=. f_equal. by apply IH.
Qed.

Lemma Cut_byte_Some s c a b : Cut s [c] = Some (a, b) -> s = a ++ c :: b /\ c ∉ a.
Proof.
  revert a. induction s as [|d s IH]; intros a; simpl; [done|].
  case_decide as Hd; [intros [= <- <-]; subst; set_solver|].
  destruct (Cut s [c]) as [[x y]|]; intros Hc; simplify_eq/=.
  destruct (IH x eq_refl) as [-> Hx]. set_solver.
Qed.

(** A separator of at least two bytes, cut where its second byte first
    occurs. *)
Lemma Cut_second a c d sep b :
  d ∉ a -> c <> d -> Cut (a ++ c :: d :: sep ++ b) (c :: d :: sep) = Some (a, b).
Proof.
  intros Ha Hcd. induction a as [|x a IH].
  - cbn [app Cut]. change (c :: d :: sep ++ b) with ((c :: d :: sep) ++ b).
    by rewrite CutPrefix_app.
  - cbn [app]. change (Cut (x :: ?t) ?u) with
      (match CutPrefix (x :: t) u with
       | Some r => Some ([], r)
       | None => '(a, b) ← Cut t u; Some (x :: a, b)
       end).
    rewrite IH by set_solver.
    assert (CutPrefix (x :: a ++ c :: d :: sep ++ b) (c :: d :: sep) = None) as ->; [|done].
    apply CutPrefix_None. intros [r Hr]. simplify_eq.
    destruct a as [|y a]; simplify_eq/=. set_solver.
Qed.

Lemma cut_last_app c a b : c ∉ b -> cut_last c (a ++ c :: b) = Some (a, b).
Proof.
  intros Hb. unfold cut_last.
  replace (reverse (a ++ c :: b)) with (reverse b ++ c :: reverse a)
    by (rewrite reverse_app, reverse_cons, <-app_assoc; done).
  rewrite Cut_byte by (by rewrite elem_of_reverse). simpl. by rewrite !reverse_involutive.
Qed.

Lemma cut_last_None c s : c ∉ s -> cut_last c s = None.
Proof. intros Hs. unfold cut_last. by rewrite Cut_byte_None by (by rewrite elem_of_reverse). Qed.

Lemma cut_last_Some c s a b : cut_last c s = Some (a, b) -> s = a ++ c :: b /\ c ∉ b.
Proof.
  unfold cut_last. intros H.
  destruct (Cut (reverse s) [c]) as [[x y]|] eqn:Hc; simplify_eq/=.
  apply Cut_byte_Some in Hc as [Hs Hx]. rewrite elem_of_reverse. split; [|done].
  by rewrite <-(reverse_involutive s), Hs, reverse_app, reverse_cons, <-app_assoc.
Qed.

Lemma TrimRight_id s c : last s <> Some c -> TrimRight s c = s.
Proof.
  intros Hl. unfold TrimRight, TrimLeft. destruct s as [|d s _] using rev_ind; [done|].
  rewrite last_snoc in Hl. rewrite reverse_snoc. simpl.
  rewrite bool_decide_eq_false_2 by naive_solver.
  by rewrite reverse_cons, reverse_involutive.
Qed.

(** The base of a name whose last element is [b]. *)
Lemma path_Base_app a b : b <> [] -> slash ∉ b -> path_Base (a ++ slash :: b) = b.
Proof.
  intros Hne Hb. unfold path_Base. rewrite decide_False by (by destruct a).
  rewrite TrimRight_id.
  - unfold last_elem. rewrite cut_last_app by done. by rewrite decide_False.
  - destruct b as [|d b _] using rev_ind; [done|].
    rewrite app_comm_cons, app_assoc, last_snoc. set_solver.
Qed.

Lemma path_Base_elem b : b <> [] -> slash ∉ b -> path_Base b = b.
Proof.
  intros Hne Hb. unfold path_Base. rewrite decide_False by done. rewrite TrimRight_id.
  - unfold last_elem. rewrite cut_last_None by done. by rewrite decide_False.
  - destruct b as [|d b _] using rev_ind; [done|]. rewrite last_snoc. set_solver.
Qed.

Lemma path_Ext_elem a e : slash ∉ a -> slash ∉ e -> dot ∉ e -> path_Ext (a ++ dot :: e) = dot :: e.
Proof.
  intros Ha He Hd. unfold path_Ext, last_elem. rewrite (cut_last_None slash).
  - by rewrite cut_last_app.
  - rewrite elem_of_app, elem_of_cons. intros [?|[[=]|?]]; done.
Qed.

(** The extension is the end of the name. *)
Lemma path_Ext_suffix s : exists x, s = x ++ path_Ext s.
Proof.
  unfold path_Ext, last_elem.
  assert (exists y, s = y ++ match cut_last slash s with Some (_, b) => b | None => s end) as [y Hy].
  { destruct (cut_last slash s) as [[a b]|] eqn:Hc; [|by exists []].
    apply cut_last_Some in Hc as [-> _]. exists (a ++ [slash]). by rewrite <-app_assoc. }
  set (l := match cut_last slash s with Some (_, b) => b | None => s end) in *. clearbody l. subst s.
  destruct (cut_last dot l) as [[a b]|] eqn:Hc.
  - apply cut_last_Some in Hc as [-> _]. exists (y ++ a). by rewrite <-app_assoc.
  - exists (y ++ l). by rewrite app_nil_r.
Qed.

Lemma split_byte_nonempty c s : split_byte c s <> [].
Proof. induction s as [|d s IH]; simpl; [done|]. case_decide; [done|]. by case_match. Qed.

Lemma join_split c s : join_byte c (split_byte c s) = s.
Proof.
  induction s as [|d s IH]; simpl; [done|]. pose proof (split_byte_nonempty c s) as Hne.
  case_decide; [subst|]; destruct (split_byte c s) as [|w ws]; try done; simpl in *.
  - destruct ws; by rewrite <-IH.
  - destruct ws; by rewrite <-IH.
Qed.

Lemma split_byte_app c a b : c ∉ a -> split_byte c (a ++ c :: b) = a :: split_byte c b.
Proof.
  induction a as [|d a IH]; intros Ha; simpl; [by rewrite decide_True|].
  rewrite decide_False by set_solver. by rewrite IH by set_solver.
Qed.

Lemma join_byte_app c l1 l2 : l1 <> [] -> l2 <> [] -> join_byte c (l1 ++ l2) = join_byte c l1 ++ c :: join_byte c l2.
Proof.
  intros H1 H2. induction l1 as [|x l1 IH]; [done|]. destruct l1 as [|y l1].
  - cbn. by destruct l2.
  - change (x ++ c :: join_byte c ((y :: l1) ++ l2) = (x ++ c :: join_byte c (y :: l1)) ++ c :: join_byte c l2).
    rewrite IH by done. by rewrite <-app_assoc.
Qed.

Lemma split_byte_concat c a b : split_byte c (a ++ c :: b) = split_byte c a ++ split_byte c b.
Proof.
  induction a as [|d a IH]; cbn; [by rewrite decide_True|]. rewrite IH. case_decide; [done|].
  pose proof (split_byte_nonempty c a). by destruct (split_byte c a).
Qed.

Lemma split_byte_elem c a : c ∉ a -> split_byte c a = [a].
Proof.
  induction a as [|d a IH]; intros Ha; simpl; [done|].
  rewrite decide_False by set_solver. by rewrite IH by set_solver.
Qed.

Lemma split_join c l : l <> [] -> Forall (fun w => c ∉ w) l -> split_byte c (join_byte c l) = l.
Proof.
  intros Hne Hl. induction Hl as [|w l Hw Hl IH]; [done|]. destruct l as [|w' l].
  - by apply split_byte_elem.
  - change (join_byte c (w :: w' :: l)) with (w ++ c :: join_byte c (w' :: l)).
    rewrite split_byte_app by done. by rewrite IH.
Qed.

Lemma split_byte_no_sep c s : Forall (fun w => c ∉ w) (split_byte c s).
Proof.
  induction s as [|d s IH]; simpl; [repeat constructor; set_solver|].
  case_decide as Hd; [by constructor; [set_solver|]|].
  destruct IH as [|w ws Hw Hws]; repeat constructor; try done; set_solver.
Qed.

(** *** Numbers *)

Lemma byte_val_digit d : (0 <= d <= 9)%Z -> byte_val (digit d) = (48 + d)%Z.
Proof. intros Hd. unfold digit. rewrite byte_val_of. by rewrite Z.mod_small by lia. Qed.

Lemma parse_digit a d s :
  (0 <= d <= 9)%Z -> parse_digits a (digit d :: s) = parse_digits (10 * a + d) s.
Proof.
  intros Hd. cbn [parse_digits]. rewrite byte_val_digit by done.
  replace (48 + d - 48)%Z with d by lia.
  rewrite (proj2 (Z.leb_le 0 d)), (proj2 (Z.leb_le d 9)) by lia. done.
Qed.

Lemma parse_itoa_loop fuel n acc :
  (0 <= n < 2 ^ (Z.of_nat fuel + 1))%Z ->
  parse_digits 0 (itoa_loop fuel n acc) = parse_digits n acc.
Proof.
  revert n acc. induction fuel as [|f IH]; intros n acc Hn; cbn [itoa_loop];
    pose proof (Z.mod_pos_bound n 10 ltac:(lia)); pose proof (Z.div_mod n 10 ltac:(lia)).
  - assert (n = 0 \/ n = 1)%Z as [->| ->] by (simpl in Hn; lia); apply (parse_digit 0); lia.
  - destruct (Z.eqb_spec (n / 10) 0) as [Hz|Hz].
    + rewrite parse_digit by lia. f_equal. lia.
    + rewrite IH; [rewrite parse_digit by lia; f_equal; lia|].
      rewrite Nat2Z.inj_succ in Hn.
      replace (Z.succ (Z.of_nat f) + 1)%Z with (Z.succ (Z.of_nat f + 1)) in Hn by lia.
      rewrite Z.pow_succ_r in Hn by lia.
      split; [apply Z.div_pos; lia|apply Z.div_lt_upper_bound; lia].
Qed.

Lemma parse_Itoa n : (0 <= n)%Z -> parse_digits 0 (Itoa n) = Some n.
Proof.
  intros Hn. unfold Itoa. rewrite (proj2 (Z.ltb_ge n 0)) by lia.
  rewrite parse_itoa_loop; [done|]. split; [done|].
  rewrite Z2Nat.id by apply Z.log2_nonneg.
  destruct (Z.eq_dec n 0%Z) as [->|]; [done|]. apply Z.log2_spec. lia.
Qed.

Lemma itoa_loop_nonempty fuel n acc : itoa_loop fuel n acc <> [].
Proof. revert n acc. induction fuel; intros; simpl; [done|]. case_match; [done|]. auto. Qed.

Lemma ParseUint_Itoa bits n : (0 <= n < 2 ^ bits)%Z -> ParseUint bits (Itoa n) = Some n.
Proof.
  intros Hn. unfold ParseUint. pose proof (parse_Itoa n ltac:(lia)) as Hp.
  destruct (Itoa n) eqn:Hi.
  - unfold Itoa in Hi. rewrite (proj2 (Z.ltb_ge n 0)) in Hi by lia.
    by apply itoa_loop_nonempty in Hi.
  - rewrite Hp. simpl. by rewrite (proj2 (Z.ltb_lt n (2 ^ bits))) by lia.
Qed.

(** The bytes of a printed non-negative number are decimal digits. *)
Definition is_digit (c : ascii) : bool :=
  ((48 <=? byte_val c) && (byte_val c <=? 57))%Z.

Lemma itoa_loop_digits fuel n acc :
  Forall is_digit acc -> Forall is_digit (itoa_loop fuel n acc).
Proof.
  assert (forall n, is_digit (digit (n mod 10))) as Hd.
  { intros m. unfold is_digit. pose proof (Z.mod_pos_bound m 10 ltac:(lia)).
    rewrite byte_val_digit by lia.
    rewrite (proj2 (Z.leb_le _ _)), (proj2 (Z.leb_le _ _)) by lia. done. }
  revert n acc. induction fuel as [|f IH]; intros n acc Ha; cbn [itoa_loop]; [by constructor|].
  case_match; [by constructor|]. apply IH. by constructor.
Qed.

Lemma Itoa_digits n : (0 <= n)%Z -> Forall is_digit (Itoa n).
Proof.
  intros Hn. unfold Itoa. rewrite (proj2 (Z.ltb_ge n 0)) by lia. by apply itoa_loop_digits.
Qed.

Lemma Itoa_notin c n : (0 <= n)%Z -> is_digit c = false -> c ∉ Itoa n.
Proof.
  intros Hn Hc Hin. pose proof (Itoa_digits n Hn) as Hd. rewrite Forall_forall in Hd.
  specialize (Hd _ Hin). by rewrite Hc in Hd.
Qed.

Lemma itoa_loop_length fuel n acc : length (itoa_loop fuel n acc) <= S fuel + length acc.
Proof.
  revert n acc. induction fuel as [|fuel IH]; intros n acc; [cbn; lia|]. cbn [itoa_loop]. cbv zeta.
  case_match; [cbn; lia|]. etrans; [apply IH|]. cbn. lia.
Qed.

Lemma Itoa_length n : (0 <= n < 2 ^ 63)%Z -> length (Itoa n) <= 64.
Proof.
  intros Hn. unfold Itoa. rewrite (proj2 (Z.ltb_ge n 0)) by lia. etrans; [apply itoa_loop_length|].
  destruct (decide (n = 0)%Z) as [->|]; [cbn; lia|].
  assert (Z.log2 n < 63)%Z by (apply Z.log2_lt_pow2; lia). cbn. lia.
Qed.

Lemma ParseInt_Itoa bits n : (0 <= n < 2 ^ (bits - 1))%Z -> ParseInt bits (Itoa n) = Some n.
Proof.
  intros Hn. unfold ParseInt. pose proof (parse_Itoa n ltac:(lia)) as Hp.
  pose proof (Itoa_notin "-"%char n ltac:(lia) eq_refl).
  pose proof (Itoa_notin "+"%char n ltac:(lia) eq_refl).
  destruct (Itoa n) as [|c s] eqn:Hi.
  - unfold Itoa in Hi. rewrite (proj2 (Z.ltb_ge n 0)) in Hi by lia.
    by apply itoa_loop_nonempty in Hi.
  - rewrite !bool_decide_eq_false_2 by set_solver. cbn [orb]. rewrite Hp. simpl.
    by rewrite (proj2 (Z.ltb_lt n (2 ^ (bits - 1)))) by lia.
Qed.

(** *** Hexadecimal *)

Lemma hex_val_digit d : (0 <= d < 16)%Z -> hex_val (hex_digit d) = Some d.
Proof.
  intros Hd. unfold hex_val, hex_digit.
  destruct (Z.ltb_spec d 10); rewrite byte_val_of, Z.mod_small by lia;
    repeat match goal with
    | |- context [(?a <=? ?b)%Z] => destruct (Z.leb_spec a b); simpl; try lia
    end; f_equal; lia.
Qed.

Lemma hex_encode_cons c s :
  hex_encode (c :: s) = hex_digit (byte_val c / 16) :: hex_digit (byte_val c mod 16) :: hex_encode s.
Proof. done. Qed.

Lemma hex_decode_encode s : hex_decode (hex_encode s) = Some s.
Proof.
  induction s as [|c s IH]; [done|]. rewrite hex_encode_cons. cbn [hex_decode].
  pose proof (byte_val_range c). pose proof (Z.div_mod (byte_val c) 16 ltac:(lia)).
  pose proof (Z.mod_pos_bound (byte_val c) 16 ltac:(lia)).
  pose proof (Z.div_pos (byte_val c) 16 ltac:(lia) ltac:(lia)).
  pose proof (Z.div_lt_upper_bound (byte_val c) 16 16 ltac:(lia) ltac:(lia)).
  rewrite !hex_val_digit by lia. cbn [mbind option_bind]. rewrite IH. cbn [mbind option_bind].
  do 2 f_equal. rewrite <-(byte_of_val c) at 3. f_equal. simpl. lia.
Qed.

Lemma hex_encode_length s : length (hex_encode s) = 2 * length s.
Proof. induction s as [|c s IH]; [done|]. rewrite hex_encode_cons. cbn [length]. lia. Qed.

Lemma split_byte_lines c ls :
  Forall (fun l => c ∉ l) ls -> split_byte c (mjoin ((fun l => l ++ [c]) <$> ls)) = ls ++ [[]].
Proof.
  induction 1 as [|l ls Hl _ IH]; [done|].
  change (mjoin ((fun l => l ++ [c]) <$> l :: ls)) with ((l ++ [c]) ++ mjoin ((fun l => l ++ [c]) <$> ls)).
  rewrite <- app_assoc. cbn [app]. by rewrite split_byte_app, IH.
Qed.

(** ** The order of strings ([cmp.Compare]) *)

Fixpoint bytes_leb (a b : bytes) : bool :=
  match a, b with
  | [], _ => true
  | _, [] => false
  | x :: a', y :: b' =>
      (byte_val x <? byte_val y)%Z || (byte_val x =? byte_val y)%Z && bytes_leb a' b'
  end.

Definition bytes_le (a b : bytes) : Prop := bytes_leb a b.

#[export] Instance bytes_le_dec a b : Decision (bytes_le a b).
Proof. unfold bytes_le. apply _. Defined.

#[export] Instance bytes_le_total : Total bytes_le.
Proof.
  unfold bytes_le. intros a. induction a as [|x a IH]; intros [|y b]; simpl; auto.
  destruct (Z.ltb_spec (byte_val x) (byte_val y)), (Z.ltb_spec (byte_val y) (byte_val x)),
    (Z.eqb_spec (byte_val x) (byte_val y)), (Z.eqb_spec (byte_val y) (byte_val x));
    simpl; auto; lia.
Qed.

#[export] Instance bytes_le_trans : Transitive bytes_le.
Proof.
  unfold bytes_le. intros a. induction a as [|x a IH]; intros [|y b] [|z c]; simpl; auto; try done.
  intros Hab Hbc. specialize (IH b c).
  destruct (Z.ltb_spec (byte_val x) (byte_val y)), (Z.ltb_spec (byte_val y) (byte_val z)),
    (Z.ltb_spec (byte_val x) (byte_val z)), (Z.eqb_spec (byte_val x) (byte_val y)),
    (Z.eqb_spec (byte_val y) (byte_val z)), (Z.eqb_spec (byte_val x) (byte_val z));
    simpl in *; auto; try done; try lia.
Qed.

#[export] Instance bytes_le_antisymm : AntiSymm (=) bytes_le.
Proof.
  unfold bytes_le. intros a. induction a as [|x a IH]; intros [|y b]; simpl; try done.
  intros Hab Hba. specialize (IH b).
  destruct (Z.ltb_spec (byte_val x) (byte_val y)), (Z.ltb_spec (byte_val y) (byte_val x)),
    (Z.eqb_spec (byte_val x) (byte_val y)), (Z.eqb_spec (byte_val y) (byte_val x));
    simpl in *; try done; try lia.
  f_equal; [by apply byte_val_inj|auto].
Qed.

(** ** The order in which Go ranges over a map

    Unspecified, and different each time: [go_range c m] is the order of
    the [range] statement executed for [c] over [m], a parameter. *)
Class GoRange := { go_range : forall {A : Type}, bytes -> gmap bytes A -> list (bytes * A) }.
Class GoRangeLaws (R : GoRange) := {
  go_range_perm : forall {A} c (m : gmap bytes A), go_range c m ≡ₚ map_to_list m }.

Definition some_range : GoRange := {| go_range := fun _ _ m => map_to_list m |}.
Definition other_range : GoRange := {| go_range := fun _ _ m => reverse (map_to_list m) |}.

Lemma some_range_laws : GoRangeLaws some_range.
Proof. split. intros A c m. reflexivity. Qed.
Lemma other_range_laws : GoRangeLaws other_range.
Proof. split. intros A c m. simpl. by rewrite reverse_Permutation. Qed.
