(* ===== verification/Url.v ===== *)
(** * Package net/url: escaping

    [PathEscape] and [QueryEscape], which the git-backed and the remote
    store use to build ref names and request URLs, with their inverses. *)

From S2P Require Import Prelude GoStrings.

Local Open Scope gomodfs_scope.

Definition hex_digit_upper (d : Z) : ascii :=
  if (d <? 10)%Z then byte_of (48 + d) else byte_of (55 + d).

Definition is_alnum (c : ascii) : bool :=
  let z := byte_val c in
  ((97 <=? z) && (z <=? 122) || (65 <=? z) && (z <=? 90) || (48 <=? z) && (z <=? 57))%Z.

(** [shouldEscape] of a path segment, and of a query component but for the
    space, which becomes a plus sign. *)
Definition shouldEscape (c : ascii) : bool :=
  negb (is_alnum c || bool_decide (c ∈ str "-_.~$&+:=@")).
Definition shouldEscape_query (c : ascii) : bool :=
  negb (is_alnum c || bool_decide (c ∈ str "-_.~ ")).

Definition escape_byte (should : ascii -> bool) (c : ascii) : bytes :=
  if should c then ["%"%char; hex_digit_upper (byte_val c / 16); hex_digit_upper (byte_val c mod 16)] else [c].

Definition url_escape (should : ascii -> bool) (s : bytes) : bytes := mjoin (escape_byte should <$> s).

Definition PathEscape : bytes -> bytes := url_escape shouldEscape.

Fixpoint PathUnescape (s : bytes) : option bytes :=
  match s with
  | [] => Some []
  | c :: s' =>
      if decide (c = "%"%char) then
        match s' with
        | a :: b :: s'' =>
            x ← hex_val a; y ← hex_val b; r ← PathUnescape s''; Some (byte_of (16 * x + y) :: r)
        | _ => None
        end
      else r ← PathUnescape s'; Some (c :: r)
  end.

Definition swap_byte (a b c : ascii) : ascii := if decide (c = a) then b else c.

Definition QueryEscape (s : bytes) : bytes := swap_byte " " "+" <$> url_escape shouldEscape_query s.
Definition QueryUnescape (s : bytes) : option bytes := PathUnescape (swap_byte "+" " " <$> s).

(** ** What was escaped *)

Lemma hex_val_upper d : (0 <= d < 16)%Z -> hex_val (hex_digit_upper d) = Some d.
Proof.
  intros Hd. unfold hex_val, hex_digit_upper.
  destruct (Z.ltb_spec d 10); rewrite byte_val_of, Z.mod_small by lia;
    repeat (match goal with |- context [(?a <=? ?b)%Z] => destruct (Z.leb_spec a b) end; try lia);
    cbn [andb]; f_equal; lia.
Qed.

Lemma hex_digit_upper_val d c :
  (0 <= d < 16)%Z -> hex_digit_upper d = c -> (48 <= byte_val c <= 57 \/ 65 <= byte_val c <= 70)%Z.
Proof.
  intros Hd <-. unfold hex_digit_upper. destruct (Z.ltb_spec d 10); rewrite byte_val_of, Z.mod_small; lia.
Qed.

Lemma byte_hex c : (0 <= byte_val c / 16 < 16)%Z /\ (0 <= byte_val c mod 16 < 16)%Z /\
  byte_of (16 * (byte_val c / 16) + byte_val c mod 16) = c.
Proof.
  pose proof (byte_val_range c). split_and!.
  - apply Z.div_pos; lia.
  - apply Z.div_lt_upper_bound; lia.
  - apply Z.mod_pos_bound. lia.
  - apply Z.mod_pos_bound. lia.
  - rewrite <- Z.div_mod by lia. apply byte_of_val.
Qed.

Section escape.
Context (should : ascii -> bool).

Lemma url_escape_cons c s : url_escape should (c :: s) = escape_byte should c ++ url_escape should s.
Proof. done. Qed.

Lemma unescape_escape s : should "%"%char = true -> PathUnescape (url_escape should s) = Some s.
Proof.
  intros Hpct. induction s as [|c s IH]; [done|]. rewrite url_escape_cons. unfold escape_byte.
  destruct (should c) eqn:Hc; cbn [app PathUnescape].
  - destruct (byte_hex c) as (H1 & H2 & H3). rewrite decide_True by done.
    rewrite !hex_val_upper by done. cbn [mbind option_bind]. rewrite IH. cbn [mbind option_bind]. by rewrite H3.
  - rewrite decide_False by (intros ->; congruence). by rewrite IH.
Qed.

(** A byte that is escaped, and is no hexadecimal digit or percent sign,
    does not occur in an escaped string. *)
Lemma url_escape_notin c s :
  should c = true -> ~ (48 <= byte_val c <= 57 \/ 65 <= byte_val c <= 70)%Z -> c <> "%"%char ->
  c ∉ url_escape should s.
Proof.
  intros Hc Hv Hp. induction s as [|x s IH]; [by intros ?%elem_of_nil|].
  rewrite url_escape_cons, not_elem_of_app. split; [|done]. unfold escape_byte.
  destruct (byte_hex x) as (H1 & H2 & _). destruct (should x) eqn:Hx.
  - rewrite !not_elem_of_cons. split_and!; [done| | |apply not_elem_of_nil];
      intros Hx'; apply Hv; [apply (hex_digit_upper_val _ _ H1)|apply (hex_digit_upper_val _ _ H2)]; done.
  - intros ->%list_elem_of_singleton. congruence.
Qed.

(** A byte that is not escaped occurs only if it did. *)
Lemma url_escape_in c s :
  ~ (48 <= byte_val c <= 57 \/ 65 <= byte_val c <= 70)%Z -> c <> "%"%char -> c ∈ url_escape should s -> c ∈ s.
Proof.
  intros Hv Hp. induction s as [|x s IH]; [done|]. rewrite url_escape_cons, elem_of_app. unfold escape_byte.
  intros [Hx|Hx]; [|right; auto]. destruct (byte_hex x) as (H1 & H2 & _). destruct (should x).
  - exfalso. apply Hv. apply elem_of_cons in Hx as [?|Hx]; [done|].
    apply elem_of_cons in Hx as [Hx|Hx]; [by apply (hex_digit_upper_val _ _ H1)|].
    apply list_elem_of_singleton in Hx. by apply (hex_digit_upper_val _ _ H2).
  - apply list_elem_of_singleton in Hx as ->. by left.
Qed.
End escape.

Lemma PathUnescape_Escape s : PathUnescape (PathEscape s) = Some s.
Proof. by apply unescape_escape. Qed.

Lemma PathEscape_notin c s :
  shouldEscape c = true -> (byte_val c < 48)%Z -> c <> "%"%char -> c ∉ PathEscape s.
Proof. intros Hc Hv. apply url_escape_notin; [done|lia]. Qed.

Lemma QueryUnescape_Escape s : QueryUnescape (QueryEscape s) = Some s.
Proof.
  unfold QueryUnescape, QueryEscape. rewrite <- list_fmap_compose.
  rewrite <- (unescape_escape shouldEscape_query s eq_refl). apply (f_equal PathUnescape).
  etransitivity; [|apply list_fmap_id]. apply list_fmap_ext. intros i c Hc.
  apply list_elem_of_lookup_2 in Hc. unfold compose, swap_byte, id.
  destruct (decide (c = " "%char)) as [->|Hs]; [done|].
  destruct (decide (c = "+"%char)) as [->|]; [|done]. exfalso. revert Hc.
  apply url_escape_notin; [done| |done]. change (byte_val "+") with 43%Z. lia.
Qed.
