(* ===== verification/Sha.v ===== *)
(** * Hash functions of the Go standard library

    SHA-256 (crypto/sha256), SHA-1 (crypto/sha1) and 64-bit FNV-1
    (hash/fnv's New64), executable on [bytes], with the lengths of their
    results. *)

From S2P Require Import Prelude.

Local Open Scope Z_scope.

Definition be_bytes (n : nat) (z : Z) : bytes :=
  (fun i => byte_of (Z.shiftr z (8 * Z.of_nat i))) <$> reverse (seq 0 n).

Definition be_val (s : bytes) : Z := fold_left (fun acc c => acc * 256 + byte_val c) s 0.

Definition rotr (x k : Z) : Z := Z.lor (Z.shiftr x k) (u32 (Z.shiftl x (32 - k))).
Definition rotl (x k : Z) : Z := Z.lor (u32 (Z.shiftl x k)) (Z.shiftr x (32 - k)).
Definition not32 (x : Z) : Z := 4294967295 - x.

(** The message padded with 1, zeros and its bit length, in 64-byte blocks. *)
Definition pad (s : bytes) : bytes :=
  let n := Z.of_nat (length s) in
  let zeros := Z.to_nat ((119 - n mod 64) mod 64) in
  s ++ byte_of 128 :: replicate zeros (byte_of 0) ++ be_bytes 8 (8 * n).

Fixpoint words (n : nat) (s : bytes) : list Z :=
  match n with
  | O => []
  | S n' => be_val (take 4 s) :: words n' (drop 4 s)
  end.

Fixpoint blocks (fuel : nat) (s : bytes) : list (list Z) :=
  match fuel, s with
  | S f, _ :: _ => words 16 s :: blocks f (drop 64 s)
  | _, _ => []
  end.

(** ** SHA-256 *)

(** The constants are the first 32 bits of the fractional parts of the cube
    roots (for the rounds) and square roots (for the initial state) of the
    first primes. *)
Definition is_prime (p : nat) : bool :=
  forallb (fun d => negb (Nat.eqb (Nat.modulo p d) 0)) (seq 2 (p - 2)).
Definition primes (n : nat) : list Z := Z.of_nat <$> filter is_prime (seq 2 (n - 2)).

(** The largest [r] below [r + 2 ^ bits] with [r ^ 3 <= x]. *)
Fixpoint cube_root (bits : nat) (r x : Z) : Z :=
  match bits with
  | O => r
  | S bits' =>
      let r' := r + 2 ^ Z.of_nat bits' in
      cube_root bits' (if r' ^ 3 <=? x then r' else r) x
  end.

Definition K256 : list Z :=
  Eval vm_compute in (fun p => u32 (cube_root 36 0 (Z.shiftl p 96))) <$> primes 312.

Definition H256 : list Z :=
  Eval vm_compute in (fun p => u32 (Z.sqrt (Z.shiftl p 64))) <$> primes 20.

(** The message schedule, newest word first. *)
Fixpoint schedule256 (n : nat) (w : list Z) : list Z :=
  match n with
  | O => w
  | S n' =>
      let x := nth 14 w 0 in
      let y := nth 1 w 0 in
      let s0 := Z.lxor (Z.lxor (rotr x 7) (rotr x 18)) (Z.shiftr x 3) in
      let s1 := Z.lxor (Z.lxor (rotr y 17) (rotr y 19)) (Z.shiftr y 10) in
      schedule256 n' (u32 (nth 15 w 0 + s0 + nth 6 w 0 + s1) :: w)
  end.

Definition round256 (st : list Z) (kw : Z * Z) : list Z :=
  match st with
  | [a; b; c; d; e; f; g; h] =>
      let S1 := Z.lxor (Z.lxor (rotr e 6) (rotr e 11)) (rotr e 25) in
      let ch := Z.lxor (Z.land e f) (Z.land (not32 e) g) in
      let t1 := h + S1 + ch + kw.1 + kw.2 in
      let S0 := Z.lxor (Z.lxor (rotr a 2) (rotr a 13)) (rotr a 22) in
      let maj := Z.lxor (Z.lxor (Z.land a b) (Z.land a c)) (Z.land b c) in
      [u32 (t1 + S0 + maj); a; b; c; u32 (d + t1); e; f; g]
  | _ => st
  end.

Definition compress256 (h : list Z) (block : list Z) : list Z :=
  let w := reverse (schedule256 48 (reverse block)) in
  zip_with (fun x y => u32 (x + y)) h (fold_left round256 (zip K256 w) h).

Definition sha256 (s : bytes) : bytes :=
  let p := pad s in
  mjoin (be_bytes 4 <$> fold_left compress256 (blocks (length p) p) H256).

(** ** SHA-1 *)

Definition H1 : list Z := [0x67452301; 0xefcdab89; 0x98badcfe; 0x10325476; 0xc3d2e1f0].

Fixpoint schedule1 (n : nat) (w : list Z) : list Z :=
  match n with
  | O => w
  | S n' =>
      schedule1 n'
        (rotl (Z.lxor (Z.lxor (nth 2 w 0) (nth 7 w 0)) (Z.lxor (nth 13 w 0) (nth 15 w 0))) 1 :: w)
  end.

Definition round1 (st : list Z) (iw : nat * Z) : list Z :=
  match st with
  | [a; b; c; d; e] =>
      let '(f, k) :=
        if Nat.ltb iw.1 20 then (Z.lor (Z.land b c) (Z.land (not32 b) d), 0x5a827999)
        else if Nat.ltb iw.1 40 then (Z.lxor (Z.lxor b c) d, 0x6ed9eba1)
        else if Nat.ltb iw.1 60 then
          (Z.lor (Z.lor (Z.land b c) (Z.land b d)) (Z.land c d), 0x8f1bbcdc)
        else (Z.lxor (Z.lxor b c) d, 0xca62c1d6) in
      [u32 (rotl a 5 + f + e + k + iw.2); a; rotl b 30; c; d]
  | _ => st
  end.

Definition compress1 (h : list Z) (block : list Z) : list Z :=
  let w := reverse (schedule1 64 (reverse block)) in
  zip_with (fun x y => u32 (x + y)) h (fold_left round1 (imap pair w) h).

Definition sha1 (s : bytes) : bytes :=
  let p := pad s in
  mjoin (be_bytes 4 <$> fold_left compress1 (blocks (length p) p) H1).

(** ** FNV-1, 64 bits *)

Definition fnv64 (s : bytes) : Z :=
  fold_left (fun h c => Z.lxor (u64 (h * 1099511628211)) (byte_val c)) s 14695981039346656037.

#[global] Arguments sha256 : simpl never.
#[global] Arguments sha1 : simpl never.
#[global] Arguments fnv64 : simpl never.
#[global] Strategy 1000 [sha256 sha1 fnv64].

(** ** Lengths *)

Lemma be_bytes_length n z : length (be_bytes n z) = n.
Proof. unfold be_bytes. by rewrite length_fmap, length_reverse, length_seq. Qed.

Lemma mjoin_be_bytes_length l : length (mjoin (be_bytes 4 <$> l)) = (4 * length l)%nat.
Proof.
  induction l as [|x l IH]; [done|].
  change (mjoin (be_bytes 4 <$> x :: l)) with (be_bytes 4 x ++ mjoin (be_bytes 4 <$> l)).
  rewrite length_app, be_bytes_length, IH. simpl. lia.
Qed.

Lemma fold_round_length {B} (f : list Z -> B -> list Z) l h n :
  (forall st x, length st = n -> length (f st x) = n) ->
  length h = n -> length (fold_left f l h) = n.
Proof. intros Hf. revert h. induction l as [|x l IH]; intros h Hh; [done|]. apply IH, Hf, Hh. Qed.

Lemma round256_length st kw : length st = 8%nat -> length (round256 st kw) = 8%nat.
Proof. intros H. by do 9 (destruct st as [|? st]; try done). Qed.

Lemma round1_length st iw : length st = 5%nat -> length (round1 st iw) = 5%nat.
Proof. intros H. do 6 (destruct st as [|? st]; try done). cbn. by repeat case_match. Qed.

Lemma sha256_length s : length (sha256 s) = 32%nat.
Proof.
  unfold sha256. cbv zeta. rewrite mjoin_be_bytes_length, (fold_round_length _ _ _ 8); [done| |done].
  intros h b Hh. unfold compress256. rewrite length_zip_with, (fold_round_length _ _ _ 8); [by rewrite Hh| |done].
  intros. by apply round256_length.
Qed.

Lemma sha1_length s : length (sha1 s) = 20%nat.
Proof.
  unfold sha1. cbv zeta. rewrite mjoin_be_bytes_length, (fold_round_length _ _ _ 5); [done| |done].
  intros h b Hh. unfold compress1. rewrite length_zip_with, (fold_round_length _ _ _ 5); [by rewrite Hh| |done].
  intros. by apply round1_length.
Qed.

(** The bytes of a number hold it modulo their width. *)
Lemma be_val_cons c s : be_val (c :: s) = (byte_val c * 256 ^ Z.of_nat (length s) + be_val s)%Z.
Proof.
  unfold be_val. cbn [fold_left]. rewrite Z.mul_0_l, Z.add_0_l. generalize (byte_val c) as acc.
  assert (forall acc, fold_left (fun n c => n * 256 + byte_val c)%Z s acc =
    (acc * 256 ^ Z.of_nat (length s) + fold_left (fun n c => n * 256 + byte_val c) s 0)%Z) as Hg; [|exact Hg].
  induction s as [|d s IH]; intros acc; cbn [fold_left length]; [lia|].
  rewrite IH, (IH (0 * 256 + byte_val d)%Z). rewrite Nat2Z.inj_succ, Z.pow_succ_r by lia. lia.
Qed.

Lemma be_bytes_S n z : be_bytes (S n) z = byte_of (Z.shiftr z (8 * Z.of_nat n)) :: be_bytes n z.
Proof. unfold be_bytes. by rewrite seq_S, reverse_snoc. Qed.

Lemma be_val_be_bytes n z : be_val (be_bytes n z) = (z mod 2 ^ (8 * Z.of_nat n))%Z.
Proof.
  induction n as [|n IH]; [by rewrite Z.mod_1_r|].
  rewrite be_bytes_S, be_val_cons, IH, be_bytes_length, byte_val_of, Z.shiftr_div_pow2 by lia.
  replace (8 * Z.of_nat (S n))%Z with (8 * Z.of_nat n + 8)%Z by lia.
  rewrite Z.pow_add_r, Z.rem_mul_r by lia.
  assert (256 ^ Z.of_nat n = 2 ^ (8 * Z.of_nat n))%Z as -> by (by rewrite Z.pow_mul_r by lia).
  change (2 ^ 8)%Z with 256%Z. lia.
Qed.

Lemma be_val_u32 n : (0 <= n < 2 ^ 32)%Z -> be_val (be_bytes 4 n) = n.
Proof. intros Hn. rewrite be_val_be_bytes. by apply Z.mod_small. Qed.
