(* ===== verification/Lru.v ===== *)
(** * internal/lru/lru.go: the typed least-recently-used cache

    [Ring] is the code: entries are heap cells linked in a ring through
    [prev] and [next] pointers, found through the [lookup] map, and every
    method is the sequence of pointer assignments of the source.  A nil
    dereference is a panic ([None]).  [Spec] is the abstract cache, a list
    of key-value pairs, most recently used first.  [Ring.repr] relates the
    two and [Refine] shows that every method of the ring computes what the
    abstract one does. *)

From S2P Require Import Prelude.

Local Open Scope gomodfs_scope.

(** ** The abstract cache *)

Module Spec.
Section spec.
Context {K V : Type} `{Countable K}.

(** [MaxSize] and the size of an entry, the cache's configuration. *)
Context (mx : Z) (esz : K -> V -> Z).

Definition total (l : list (K * V)) : Z :=
  foldr (fun kv acc => (esz kv.1 kv.2 + acc)%Z) 0%Z l.

Fixpoint find (k : K) (l : list (K * V)) : option V :=
  match l with
  | [] => None
  | kv :: l' => if decide (kv.1 = k) then Some kv.2 else find k l'
  end.

Definition remove (k : K) (l : list (K * V)) : list (K * V) :=
  filter (fun kv => kv.1 ≠ k) l.

(** The loop condition of [Set]: [c.MaxSize != 0 && c.curSize > c.MaxSize]. *)
Definition over (l : list (K * V)) : bool :=
  negb (mx =? 0)%Z && (mx <? i64 (total l))%Z.

(** Evict from the back (here: the front of the reversed list) while over. *)
Fixpoint evict_rev (rl : list (K * V)) : option (list (K * V)) :=
  if over (reverse rl)
  then match rl with [] => None | _ :: rl' => evict_rev rl' end
  else Some rl.

Definition evict (l : list (K * V)) : option (list (K * V)) :=
  reverse <$> evict_rev (reverse l).

Definition set (k : K) (v : V) (l : list (K * V)) : option (list (K * V)) :=
  evict ((k, v) :: remove k l).

Definition get_ok (k : K) (l : list (K * V)) : option V * list (K * V) :=
  match find k l with
  | Some v => (Some v, (k, v) :: remove k l)
  | None => (None, l)
  end.

Definition delete_oldest (l : list (K * V)) : option (K * V) * list (K * V) :=
  match reverse l with
  | [] => (None, l)
  | kv :: rl => (Some kv, reverse rl)
  end.
End spec.
End Spec.

(** ** The ring *)

Module Ring.

(** An [*entry]: nil or the address of a cell. *)
Definition ptr : Type := option positive.

Section ring.
Context {K V : Type} `{Countable K}.

Record entry := Entry { prev : ptr; next : ptr; key : K; value : V }.

(** The fields of [Cache], and the cells its entries live in.  A nil
    [lookup] map reads as empty and is made by the first [Set]. *)
Record cache := Cache {
  MaxSize : Z;
  EntrySize : option (K -> V -> Z);
  curSize : Z;
  head : ptr;
  lookup : option (gmap K positive);
  heap : gmap positive entry }.

Definition lookup_map (c : cache) : gmap K positive := default ∅ (lookup c).

Definition upd_head (p : ptr) (c : cache) : cache :=
  Cache (MaxSize c) (EntrySize c) (curSize c) p (lookup c) (heap c).
Definition upd_lookup (m : option (gmap K positive)) (c : cache) : cache :=
  Cache (MaxSize c) (EntrySize c) (curSize c) (head c) m (heap c).
Definition upd_curSize (z : Z) (c : cache) : cache :=
  Cache (MaxSize c) (EntrySize c) z (head c) (lookup c) (heap c).
Definition upd_heap (h : gmap positive entry) (c : cache) : cache :=
  Cache (MaxSize c) (EntrySize c) (curSize c) (head c) (lookup c) h.

Definition with_prev (q : ptr) (e : entry) : entry := Entry q (next e) (key e) (value e).
Definition with_next (q : ptr) (e : entry) : entry := Entry (prev e) q (key e) (value e).
Definition with_value (v : V) (e : entry) : entry := Entry (prev e) (next e) (key e) v.

Abbreviation M A := (pst cache A).

(** [*p], [p.prev = q], [p.next = q], [p.value = v], and [&entry{...}]. *)
Definition deref (p : ptr) : M entry := fun c =>
  match p ≫= fun a => heap c !! a with Some e => Some (e, c) | None => None end.
Definition assign (f : entry -> entry) (p : ptr) : M unit := fun c =>
  match p with
  | Some a => match heap c !! a with
              | Some _ => Some (tt, upd_heap (alter f a (heap c)) c)
              | None => None
              end
  | None => None
  end.
Definition set_prev (p q : ptr) : M unit := assign (with_prev q) p.
Definition set_next (p q : ptr) : M unit := assign (with_next q) p.
Definition alloc (e : entry) : M positive := fun c =>
  let a := fresh (dom (heap c)) in Some (a, upd_heap (<[a := e]> (heap c)) c).
Definition get_head : M ptr := fun c => Some (head c, c).

Definition size_of (o : option (K -> V -> Z)) (k : K) (v : V) : Z :=
  match o with None => 1 | Some f => f k v end.

Definition entrySize (c : cache) (k : K) (v : V) : Z := size_of (EntrySize c) k v.

Definition newAtFront (k : K) (v : V) : M positive :=
  ret <-! alloc (Entry None None k v) ;;
  h <-! get_head ;;
  match h with
  | None =>
      set_prev (Some ret) (Some ret) ;;!
      set_next (Some ret) (Some ret) ;;!
      pst_modify (upd_head (Some ret)) ;;!
      pst_ret ret
  | Some _ =>
      set_next (Some ret) h ;;!
      e <-! deref h ;; set_prev (Some ret) (prev e) ;;!
      e <-! deref h ;; set_next (prev e) (Some ret) ;;!
      set_prev h (Some ret) ;;!
      pst_modify (upd_head (Some ret)) ;;!
      pst_ret ret
  end.

Definition moveToFront (ent : positive) : M unit :=
  h <-! get_head ;;
  if decide (h = Some ent) then pst_ret tt else
  e <-! deref (Some ent) ;; set_next (prev e) (next e) ;;!
  e <-! deref (Some ent) ;; set_prev (next e) (prev e) ;;!
  e <-! deref h ;; set_prev (Some ent) (prev e) ;;!
  set_next (Some ent) h ;;!
  e <-! deref h ;; set_next (prev e) (Some ent) ;;!
  set_prev h (Some ent) ;;!
  pst_modify (upd_head (Some ent)).

Definition deleteElement (ent : positive) : M unit :=
  e <-! deref (Some ent) ;;
  (if decide (next e = Some ent) then pst_modify (upd_head None) else
     e <-! deref (Some ent) ;; set_prev (next e) (prev e) ;;!
     e <-! deref (Some ent) ;; set_next (prev e) (next e) ;;!
     h <-! get_head ;;
     if decide (h = Some ent)
     then e <-! deref (Some ent) ;; pst_modify (upd_head (next e))
     else pst_ret tt) ;;!
  e <-! deref (Some ent) ;;
  pst_modify (fun c => upd_lookup (delete (key e) <$> lookup c) c) ;;!
  pst_modify (fun c => upd_curSize (i64 (curSize c - entrySize c (key e) (value e))) c).

(** [c.deleteElement(c.head.prev)]. *)
Definition deleteOldest : M unit :=
  h <-! get_head ;;
  e <-! deref h ;;
  match prev e with
  | Some a => deleteElement a
  | None => pst_panic
  end.

(** The [for] loop of [Set].  Every round that does not panic removes a
    key from [lookup], so the fuel [Set] gives it is never used up. *)
Fixpoint evict_loop (fuel : nat) : M unit := fun c =>
  if negb (MaxSize c =? 0)%Z && (MaxSize c <? curSize c)%Z
  then match fuel with
       | O => None
       | S fuel' => (deleteOldest ;;! evict_loop fuel') c
       end
  else Some (tt, c).

Definition Set_ (k : K) (v : V) : M unit :=
  pst_modify (fun c =>
    match lookup c with None => upd_lookup (Some ∅) c | Some _ => c end) ;;!
  c <-! pst_get ;;
  match lookup_map c !! k with
  | Some ent =>
      moveToFront ent ;;!
      e <-! deref (Some ent) ;;
      pst_modify (fun c => upd_curSize (i64 (curSize c - entrySize c k (value e))) c) ;;!
      assign (with_value v) (Some ent)
  | None =>
      ent <-! newAtFront k v ;;
      pst_modify (fun c => upd_lookup (<[k := ent]> <$> lookup c) c)
  end ;;!
  pst_modify (fun c => upd_curSize (i64 (curSize c + entrySize c k v)) c) ;;!
  c <-! pst_get ;;
  evict_loop (S (size (lookup_map c))).

Definition Clear : M unit :=
  pst_modify (fun c => upd_curSize 0 (upd_lookup None (upd_head None c))).

(** [GetOk]: the value is meaningful when it is [Some]; a miss returns the
    zero value and [false]. *)
Definition GetOk (k : K) : M (option V) :=
  c <-! pst_get ;;
  match lookup_map c !! k with
  | Some ent =>
      moveToFront ent ;;!
      e <-! deref (Some ent) ;; pst_ret (Some (value e))
  | None => pst_ret None
  end.

Definition Get (zero : V) (k : K) : M V :=
  o <-! GetOk k ;; pst_ret (default zero o).

Definition Contains (k : K) : M bool :=
  o <-! GetOk k ;; pst_ret (bool_decide (is_Some o)).

Definition PeekOk (k : K) : M (option V) :=
  c <-! pst_get ;;
  match lookup_map c !! k with
  | Some ent => e <-! deref (Some ent) ;; pst_ret (Some (value e))
  | None => pst_ret None
  end.

Definition Delete (k : K) : M unit :=
  c <-! pst_get ;;
  match lookup_map c !! k with
  | Some ent => deleteElement ent
  | None => pst_ret tt
  end.

Definition DeleteOldest : M (option (K * V)) :=
  h <-! get_head ;;
  match h with
  | None => pst_ret None
  | Some _ =>
      e <-! deref h ;;
      ent <-! deref (prev e) ;;
      deleteOldest ;;!
      pst_ret (Some (key ent, value ent))
  end.

Definition Len (c : cache) : nat := size (lookup_map c).
Definition Size (c : cache) : Z := curSize c.

(** [ForEach]: the pairs [fn] is called with, in order.  The loop stops
    when it is back at [head]; the fuel bounds it by the number of cells. *)
Fixpoint forEach_loop (fuel : nat) (cur : ptr) : M (list (K * V)) :=
  match fuel with
  | O => pst_panic
  | S fuel' =>
      e <-! deref cur ;;
      h <-! get_head ;;
      if decide (next e = h) then pst_ret [(key e, value e)] else
      r <-! forEach_loop fuel' (next e) ;;
      pst_ret ((key e, value e) :: r)
  end.

Definition ForEach : M (list (K * V)) :=
  h <-! get_head ;;
  match h with
  | None => pst_ret []
  | Some _ => c <-! pst_get ;; forEach_loop (size (heap c)) h
  end.

(** The zero value, with its two configuration fields. *)
Definition zero (mx : Z) (esz : option (K -> V -> Z)) : cache :=
  Cache mx esz 0 None None ∅.
End ring.
Arguments entry : clear implicits.
Arguments cache K V {_ _}.
End Ring.

(** ** The ring invariant *)

Module RingFacts.
Import Ring.
Section facts.
Context {K V : Type} `{Countable K}.
Implicit Types h : gmap positive (entry K V).

Definition nxt h a : option ptr := next <$> h !! a.
Definition prv h a : option ptr := prev <$> h !! a.

(** [b] follows [a]: each points to the other. *)
Definition linked h a b : Prop := nxt h a = Some (Some b) ∧ prv h b = Some (Some a).

(** From [a] through [ls] to [b], consecutive cells are linked. *)
Fixpoint path h (a : positive) (ls : list positive) (b : positive) : Prop :=
  match ls with
  | [] => linked h a b
  | x :: ls' => linked h a x ∧ path h x ls' b
  end.

(** The cells of [ls], in order, form a ring. *)
Definition ring h (ls : list positive) : Prop :=
  match ls with [] => True | x :: r => path h x r x end.

Lemma path_app h a l1 x l2 b :
  path h a (l1 ++ x :: l2) b ↔ path h a l1 x ∧ path h x l2 b.
Proof. revert a. induction l1 as [|y l1 IH]; intros a; simpl; [done|]. rewrite IH. tauto. Qed.

Lemma ring_rotate h l1 l2 : ring h (l1 ++ l2) → ring h (l2 ++ l1).
Proof.
  destruct l1 as [|x l1]; [by rewrite app_nil_r|].
  destruct l2 as [|y l2]; [by rewrite app_nil_r|].
  simpl. rewrite !path_app. tauto.
Qed.

(** A path depends only on the [next] of its sources and the [prev] of its
    targets. *)
Lemma path_frame h h' a ls b :
  (∀ x, x ∈ a :: ls → nxt h' x = nxt h x) →
  (∀ x, x ∈ ls ++ [b] → prv h' x = prv h x) →
  path h a ls b → path h' a ls b.
Proof.
  revert a. induction ls as [|y ls IH]; intros a Hn Hp; simpl.
  - unfold linked. rewrite Hn, Hp by set_solver. done.
  - intros [[H1 H2] H3]. split.
    + unfold linked. rewrite Hn, Hp by set_solver. done.
    + apply IH; [set_solver..|done].
Qed.

Lemma nxt_alter f h p x :
  (∀ e, next (f e) = next e) → nxt (alter f p h) x = nxt h x.
Proof.
  intros Hf. unfold nxt. rewrite lookup_alter. case_decide; [subst|done].
  destruct (h !! x); simpl; [by rewrite Hf|done].
Qed.

Lemma prv_alter f h p x :
  (∀ e, prev (f e) = prev e) → prv (alter f p h) x = prv h x.
Proof.
  intros Hf. unfold prv. rewrite lookup_alter. case_decide; [subst|done].
  destruct (h !! x); simpl; [by rewrite Hf|done].
Qed.

Lemma alive_alter f h p x : is_Some (h !! x) → is_Some (alter f p h !! x).
Proof. by rewrite lookup_alter_is_Some. Qed.

Lemma nxt_with_next h p q :
  is_Some (h !! p) → nxt (alter (with_next q) p h) p = Some q.
Proof. intros [e He]. unfold nxt. by rewrite lookup_alter_eq, He. Qed.

Lemma nxt_with_next_ne h p q x : p ≠ x → nxt (alter (with_next q) p h) x = nxt h x.
Proof. intros. unfold nxt. by rewrite lookup_alter_ne. Qed.

Lemma prv_with_prev h p q :
  is_Some (h !! p) → prv (alter (with_prev q) p h) p = Some q.
Proof. intros [e He]. unfold prv. by rewrite lookup_alter_eq, He. Qed.

Lemma prv_with_prev_ne h p q x : p ≠ x → prv (alter (with_prev q) p h) x = prv h x.
Proof. intros. unfold prv. by rewrite lookup_alter_ne. Qed.

(** Rewrites that read a link through a pointer assignment. *)
Ltac alive := repeat apply alive_alter; eauto.
Ltac link :=
  repeat first
    [ rewrite (nxt_alter (with_prev _)) by done
    | rewrite (prv_alter (with_next _)) by done
    | rewrite nxt_with_next by alive | rewrite nxt_with_next_ne by congruence
    | rewrite prv_with_prev by alive | rewrite prv_with_prev_ne by congruence ]; try done.

Lemma nxt_Some h a p : nxt h a = Some p → is_Some (h !! a).
Proof. unfold nxt. destruct (h !! a); naive_solver. Qed.
Lemma prv_Some h a p : prv h a = Some p → is_Some (h !! a).
Proof. unfold prv. destruct (h !! a); naive_solver. Qed.

Lemma ring_alive h ls x : ring h ls → x ∈ ls → is_Some (h !! x).
Proof.
  intros Hr (l1 & l2 & ->)%list_elem_of_split.
  apply ring_rotate in Hr. simpl in Hr.
  destruct (l2 ++ l1) as [|y l]; simpl in Hr.
  - destruct Hr as [Hn _]. by eapply nxt_Some.
  - destruct Hr as [[Hn _] _]. by eapply nxt_Some.
Qed.

(** The two ends of a ring read from its first cell. *)
Lemma ring_ends h x r :
  ring h (x :: r) →
  nxt h x = Some (Some (List.hd x r)) ∧ prv h x = Some (Some (List.last r x)).
Proof.
  destruct r as [|y r]; simpl; [by intros [? ?]|].
  intros [[Hx _] Hp]. split; [done|].
  assert (∀ y r, path h y r x → prv h x = Some (Some (List.last (y :: r) x))) as Hlast.
  { clear. intros y r. revert y. induction r as [|z r IH]; intros y.
    - by intros [_ ?].
    - intros [_ Hp]. rewrite (IH z Hp). done. }
  by rewrite (Hlast y r Hp).
Qed.

(** In a duplicate-free list, the first cells are not the last, and the
    later ones are not the first. *)
Lemma NoDup_ends (x : positive) r' z y :
  NoDup (x :: r' ++ [z]) → (y ∈ x :: r' → z ≠ y) ∧ (y ∈ r' ++ [z] → x ≠ y).
Proof.
  intros [Hx Hr]%NoDup_cons. split; intros Hy ->; [|done].
  apply NoDup_app in Hr as (_ & Hr & _). apply elem_of_cons in Hy as [->|Hy].
  - set_solver.
  - apply (Hr y); set_solver.
Qed.

(** Unlinking the first cell of a ring leaves the ring of the others. *)
Lemma unlink_ring h ent x r :
  NoDup (ent :: x :: r) → ring h (ent :: x :: r) →
  let z := List.last (x :: r) ent in
  ring (alter (with_prev (Some z)) x (alter (with_next (Some x)) z h)) (x :: r).
Proof.
  intros Hnd Hr z.
  assert (∀ y, y ∈ ent :: x :: r → is_Some (h !! y)) as Hal
    by (intros; by eapply ring_alive).
  apply NoDup_cons in Hnd as [_ Hnd].
  destruct (exists_last (l := x :: r)) as (r' & z' & Hz); [done|].
  assert (z = z') as -> by (unfold z; by rewrite Hz, last_last).
  destruct r' as [|x' r']; simplify_eq/=.
  - unfold linked. assert (is_Some (h !! z')) by (apply Hal; set_solver). split; link.
  - destruct Hr as [_ Hp]. rewrite path_app in *. destruct Hp as [Hp1 _].
    assert (is_Some (h !! z')) by (apply Hal; set_solver).
    assert (is_Some (h !! x')) by (apply Hal; set_solver).
    split; [|unfold linked; split; link].
    eapply path_frame; [| |exact Hp1]; intros y Hy; apply (NoDup_ends _ _ _ y) in Hnd;
      link; destruct Hnd as [Hnd1 Hnd2].
    + rewrite nxt_with_next_ne by auto. link.
    + rewrite prv_with_prev_ne by auto. link.
Qed.

(** Linking a fresh cell between the last and the first of a ring. *)
Lemma insert_ring h ent x r :
  NoDup (ent :: x :: r) → ring h (x :: r) → is_Some (h !! ent) →
  let z := List.last (x :: r) ent in
  ring (alter (with_prev (Some ent)) x (alter (with_next (Some ent)) z
         (alter (with_next (Some x)) ent (alter (with_prev (Some z)) ent h))))
    (ent :: x :: r).
Proof.
  intros [Hent Hnd]%NoDup_cons Hr Hee z.
  assert (∀ y, y ∈ x :: r → is_Some (h !! y)) as Hal
    by (intros; by eapply ring_alive).
  destruct (exists_last (l := x :: r)) as (r' & z' & Hz); [done|].
  assert (z = z') as -> by (unfold z; by rewrite Hz, last_last).
  assert (is_Some (h !! x)) by (apply Hal; set_solver).
  assert (is_Some (h !! z')) by (apply Hal; rewrite Hz; set_solver).
  assert (ent ≠ x) by set_solver. assert (ent ≠ z') by (rewrite Hz in Hent; set_solver).
  split; [unfold linked; split; link|].
  destruct r' as [|x' r']; simplify_eq/=; [unfold linked; split; link|].
  rewrite path_app in *. destruct Hr as [Hp _].
  split; [|unfold linked; split; link].
  eapply path_frame; [| |exact Hp]; intros y Hy;
    assert (ent ≠ y) by set_solver; apply (NoDup_ends _ _ _ y) in Hnd as [Hnd1 Hnd2]; link.
  - rewrite nxt_with_next_ne by auto. link.
  - rewrite prv_with_prev_ne by auto. link.
Qed.
End facts.
End RingFacts.

(** ** The ring represents a list *)

Module Repr.
Import Ring RingFacts.
Section repr.
Context {K V : Type} `{Countable K}.
Implicit Types (h : gmap positive (entry K V)) (c : cache K V)
  (pl : list (positive * (K * V))).

Definition kv_at h (a : positive) : option (K * V) :=
  (fun e => (key e, value e)) <$> h !! a.

(** The cells [pl.*1] form the ring, from [head]; they hold the pairs
    [pl.*2], whose keys are distinct; [lookup] finds exactly them. *)
Record core c pl : Prop := {
  core_nodup : NoDup pl.*1;
  core_keys : NoDup pl.*2.*1;
  core_ring : ring (heap c) pl.*1;
  core_head : head c = list.head pl.*1;
  core_cells : Forall (fun x => kv_at (heap c) x.1 = Some x.2) pl;
  core_lookup : forall k a, lookup_map c !! k = Some a <-> exists v, (a, (k, v)) ∈ pl }.

Lemma bind_deref {A} c a e (k : entry K V -> pst _ A) :
  heap c !! a = Some e → pst_bind (deref (Some a)) k c = k e c.
Proof. intros He. unfold pst_bind, deref. simpl. by rewrite He. Qed.

Lemma bind_assign {A} c a f (k : unit -> pst _ A) :
  is_Some (heap c !! a) →
  pst_bind (assign f (Some a)) k c = k tt (upd_heap (alter f a (heap c)) c).
Proof. intros [e He]. unfold pst_bind, assign. by rewrite He. Qed.

Lemma ring_cell h x r :
  ring h (x :: r) →
  ∃ e, h !! x = Some e ∧ next e = Some (List.hd x r) ∧ prev e = Some (List.last r x).
Proof.
  intros Hr. destruct (ring_alive h (x :: r) x Hr) as [e He]; [set_solver|].
  destruct (ring_ends h x r Hr) as [Hn Hp]. unfold nxt, prv in *.
  rewrite He in *. exists e. naive_solver.
Qed.

Lemma kv_at_alter h f a b :
  (∀ e, key (f e) = key e ∧ value (f e) = value e) → kv_at (alter f a h) b = kv_at h b.
Proof.
  intros Hf. unfold kv_at. rewrite lookup_alter. case_decide; [subst|done].
  destruct (h !! b) as [e|]; simpl; [|done]. destruct (Hf e) as [-> ->]. done.
Qed.

Lemma alter_prev_next h a b q q' :
  alter (with_next q) a (alter (with_prev q') b h) =
  alter (with_prev q') b (alter (with_next q) a h).
Proof.
  apply map_eq. intros i. rewrite !lookup_alter.
  repeat case_decide; subst; try done; by destruct (h !! i).
Qed.

Lemma last_default {A} (l : list A) x d : List.last (x :: l) d = List.last l x.
Proof.
  revert x d. induction l as [|y l IH]; intros x d; [done|].
  transitivity (List.last (y :: l) d); [done|]. by rewrite !IH.
Qed.

(** Reordering the represented list. *)
Lemma core_cells_perm c pl pl' :
  pl ≡ₚ pl' → core c pl →
  NoDup pl'.*1 ∧ NoDup pl'.*2.*1 ∧
  (forall k a, lookup_map c !! k = Some a <-> exists v, (a, (k, v)) ∈ pl').
Proof.
  intros Hp [? ? ? ? ? Hl]. rewrite <-Hp. split_and!; [done..|].
  intros k a. rewrite Hl. by setoid_rewrite Hp.
Qed.

(** Two heaps with the same cells, up to their links. *)
Definition same_kv h h' : Prop := ∀ b, kv_at h' b = kv_at h b.

Lemma same_kv_alive h h' b : same_kv h h' → is_Some (h !! b) → is_Some (h' !! b).
Proof. intros Hs. specialize (Hs b). unfold kv_at in Hs. destruct (h !! b), (h' !! b); naive_solver. Qed.

Lemma last_in (x : positive) r d : List.last (x :: r) d ∈ x :: r.
Proof.
  destruct (exists_last (l := x :: r)) as (r' & z' & ->); [done|].
  rewrite last_last. set_solver.
Qed.

(** The statements [ent.prev.next = ent.next; ent.next.prev = ent.prev]. *)
Lemma exec_unlink {A} c ent x r (m : pst _ A) :
  NoDup (ent :: x :: r) → ring (heap c) (ent :: x :: r) →
  ∃ h', (e <-! deref (Some ent) ;; set_next (prev e) (next e) ;;!
         e <-! deref (Some ent) ;; set_prev (next e) (prev e) ;;! m) c = m (upd_heap h' c) ∧
    ring h' (x :: r) ∧ same_kv (heap c) h' ∧ h' !! ent = heap c !! ent.
Proof.
  intros Hnd Hr. pose proof (unlink_ring _ _ _ _ Hnd Hr) as Hr2. cbv zeta in Hr2.
  destruct (ring_cell _ _ _ Hr) as (e & He & Hen & Hep).
  rewrite last_default in Hr2. set (z := List.last r x) in *. rewrite last_default in Hep.
  fold z in Hep. pose proof (last_in x r ent) as Hz. rewrite last_default in Hz. fold z in Hz.
  apply NoDup_cons in Hnd as [Hnd _].
  eexists. split; [|split; [exact Hr2|split]].
  - rewrite (bind_deref _ _ e) by done. rewrite Hep, Hen. unfold set_next.
    rewrite bind_assign by (eapply ring_alive; set_solver).
    rewrite (bind_deref _ _ e) by (simpl; rewrite lookup_alter_ne; [done|set_solver]).
    rewrite Hep, Hen. unfold set_prev. rewrite bind_assign; [done|].
    apply alive_alter. eapply ring_alive; set_solver.
  - intros b. by rewrite !kv_at_alter.
  - rewrite !lookup_alter_ne; [done|set_solver..].
Qed.

(** The same two statements in the other order. *)
Lemma exec_unlink' {A} c ent x r (m : pst _ A) :
  NoDup (ent :: x :: r) → ring (heap c) (ent :: x :: r) →
  ∃ h', (e <-! deref (Some ent) ;; set_prev (next e) (prev e) ;;!
         e <-! deref (Some ent) ;; set_next (prev e) (next e) ;;! m) c = m (upd_heap h' c) ∧
    ring h' (x :: r) ∧ same_kv (heap c) h' ∧ h' !! ent = heap c !! ent.
Proof.
  intros Hnd Hr. pose proof (unlink_ring _ _ _ _ Hnd Hr) as Hr2. cbv zeta in Hr2.
  destruct (ring_cell _ _ _ Hr) as (e & He & Hen & Hep).
  rewrite last_default in Hr2. set (z := List.last r x) in *. rewrite last_default in Hep.
  fold z in Hep. pose proof (last_in x r ent) as Hz. rewrite last_default in Hz. fold z in Hz.
  apply NoDup_cons in Hnd as [Hnd _]. rewrite <-alter_prev_next in Hr2.
  eexists. split; [|split; [exact Hr2|split]].
  - rewrite (bind_deref _ _ e) by done. rewrite Hep, Hen. unfold set_prev.
    rewrite bind_assign by (eapply ring_alive; set_solver).
    rewrite (bind_deref _ _ e) by (simpl; rewrite lookup_alter_ne; [done|set_solver]).
    rewrite Hep, Hen. unfold set_next. rewrite bind_assign; [done|].
    apply alive_alter. eapply ring_alive; set_solver.
  - intros b. by rewrite !kv_at_alter.
  - rewrite !lookup_alter_ne; [done|set_solver..].
Qed.

(** The statements that link [ent] before [head], in [moveToFront]. *)
Lemma exec_insert {A} c ent x r (m : pst _ A) :
  NoDup (ent :: x :: r) → ring (heap c) (x :: r) → is_Some (heap c !! ent) →
  ∃ h', (e <-! deref (Some x) ;; set_prev (Some ent) (prev e) ;;!
         set_next (Some ent) (Some x) ;;!
         e <-! deref (Some x) ;; set_next (prev e) (Some ent) ;;!
         set_prev (Some x) (Some ent) ;;! m) c = m (upd_heap h' c) ∧
    ring h' (ent :: x :: r) ∧ same_kv (heap c) h'.
Proof.
  intros Hnd Hr Hent. pose proof (insert_ring _ _ _ _ Hnd Hr Hent) as Hr2. cbv zeta in Hr2.
  destruct (ring_cell _ _ _ Hr) as (e & He & _ & Hep).
  rewrite last_default in Hr2. set (z := List.last r x) in *.
  pose proof (last_in x r ent) as Hz. rewrite last_default in Hz. fold z in Hz.
  apply NoDup_cons in Hnd as [Hnd _].
  eexists. split; [|split; [exact Hr2|]].
  - rewrite (bind_deref _ _ e) by done. rewrite Hep. unfold set_prev, set_next.
    rewrite bind_assign by done. rewrite bind_assign by (by apply alive_alter).
    rewrite (bind_deref _ _ e) by (simpl; rewrite !lookup_alter_ne; [done|set_solver..]).
    rewrite Hep. rewrite bind_assign by (do 2 apply alive_alter; eapply ring_alive; set_solver).
    rewrite bind_assign; [done|]. do 3 apply alive_alter. eauto.
  - intros b. by rewrite !kv_at_alter.
Qed.

Lemma cells_same h h' pl :
  same_kv h h' → Forall (fun x => kv_at h x.1 = Some x.2) pl →
  Forall (fun x => kv_at h' x.1 = Some x.2) pl.
Proof. intros Hs Hf. eapply Forall_impl; [exact Hf|]. intros x Hx. by rewrite Hs. Qed.

Lemma moveToFront_core c p1 x p2 :
  core c (p1 ++ x :: p2) →
  ∃ h', moveToFront x.1 c = Some (tt, upd_head (Some x.1) (upd_heap h' c)) ∧
    core (upd_head (Some x.1) (upd_heap h' c)) (x :: p1 ++ p2).
Proof.
  intros Hc. destruct (core_cells_perm c _ (x :: p1 ++ p2) ltac:(by rewrite Permutation_middle) Hc)
    as (Hnd & Hks & Hlk).
  pose proof Hc as [Hnd0 _ Hr Hh Hkv _]. destruct x as [ent kv].
  unfold moveToFront, pst_bind at 1, get_head. rewrite Hh.
  destruct p1 as [|[hd kvh] p1].
  { csimpl. rewrite decide_True by done. exists (heap c).
    assert (upd_head (Some ent) (upd_heap (heap c) c) = c) as ->; [|done].
    destruct c; simpl in *. by subst. }
  change (list.head (((hd, kvh) :: p1) ++ (ent, kv) :: p2).*1) with (Some hd).
  rewrite fmap_app in Hr, Hnd0. csimpl in *. rewrite fmap_app in Hnd.
  rewrite decide_False by (intros [= ->]; apply NoDup_cons in Hnd0; set_solver).
  apply (ring_rotate _ (hd :: p1.*1) (ent :: p2.*1)) in Hr. csimpl in Hr.
  destruct (p2.*1 ++ hd :: p1.*1) as [|x r] eqn:Hxr; [by destruct p2|].
  assert (NoDup (ent :: x :: r)) as Hnd2 by (rewrite <-Hxr, (Permutation_app_comm p2.*1); done).
  edestruct (exec_unlink (A := unit) c ent x r) as (h1 & -> & Hr1 & Hs1 & _); [done..|].
  rewrite <-Hxr in Hr1. apply (ring_rotate _ p2.*1 (hd :: p1.*1)) in Hr1. csimpl in Hr1.
  assert (is_Some (h1 !! ent)) as Hent.
  { eapply same_kv_alive; [done|]. apply (ring_alive _ (ent :: x :: r)); [exact Hr|set_solver]. }
  edestruct (exec_insert (A := unit) (upd_heap h1 c) ent hd) as (h2 & -> & Hr2 & Hs2); [done..|].
  exists h2. split; [done|]. split; csimpl; rewrite ?fmap_app; try done.
  - revert Hks. csimpl. rewrite !fmap_app. done.
  - apply (cells_same (heap c)).
    + intros b. by rewrite Hs2, Hs1.
    + change (_ :: _ :: _ ++ _) with ((ent, kv) :: ((hd, kvh) :: p1) ++ p2). by rewrite Permutation_middle.
Qed.

(** The same link-in statements in the order of [newAtFront]. *)
Lemma exec_insert' {A} c ent x r (m : pst _ A) :
  NoDup (ent :: x :: r) → ring (heap c) (x :: r) → is_Some (heap c !! ent) →
  ∃ h', (set_next (Some ent) (Some x) ;;!
         e <-! deref (Some x) ;; set_prev (Some ent) (prev e) ;;!
         e <-! deref (Some x) ;; set_next (prev e) (Some ent) ;;!
         set_prev (Some x) (Some ent) ;;! m) c = m (upd_heap h' c) ∧
    ring h' (ent :: x :: r) ∧ same_kv (heap c) h'.
Proof.
  intros Hnd Hr Hent. pose proof (insert_ring _ _ _ _ Hnd Hr Hent) as Hr2. cbv zeta in Hr2.
  destruct (ring_cell _ _ _ Hr) as (e & He & _ & Hep).
  rewrite last_default in Hr2. set (z := List.last r x) in *.
  pose proof (last_in x r ent) as Hz. rewrite last_default in Hz. fold z in Hz.
  apply NoDup_cons in Hnd as [Hnd _].
  rewrite (alter_prev_next _ ent ent) in Hr2.
  eexists. split; [|split; [exact Hr2|]].
  - unfold set_prev, set_next. rewrite bind_assign by done.
    rewrite (bind_deref _ _ e) by (simpl; rewrite !lookup_alter_ne; [done|set_solver..]).
    rewrite Hep. rewrite bind_assign by (by apply alive_alter).
    rewrite (bind_deref _ _ e) by (simpl; rewrite !lookup_alter_ne; [done|set_solver..]).
    rewrite Hep. rewrite bind_assign by (do 2 apply alive_alter; eapply ring_alive; set_solver).
    rewrite bind_assign; [done|]. do 3 apply alive_alter. eauto.
  - intros b. by rewrite !kv_at_alter.
Qed.

(** Registering a linked-in cell as the front of the list. *)
Lemma core_push c h pl a k v m :
  core c pl → lookup c = Some m → k ∉ pl.*2.*1 → a ∉ pl.*1 →
  ring h (a :: pl.*1) → Forall (fun x => kv_at h x.1 = Some x.2) ((a, (k, v)) :: pl) →
  core (upd_lookup (Some (<[k := a]> m)) (upd_head (Some a) (upd_heap h c))) ((a, (k, v)) :: pl).
Proof.
  intros [Hnd Hks Hr Hh Hkv Hlk] Hm Hk Ha Hr' Hkv'. split; csimpl; try done.
  - by constructor.
  - by constructor.
  - intros k' a'. unfold lookup_map in *; simpl. rewrite Hm in Hlk. simpl in Hlk.
    rewrite lookup_insert_Some, Hlk. split.
    + intros [[-> ->]|[Hne [v' Hv']]]; [exists v|exists v']; set_solver.
    + intros [v' [[= -> -> ->]|Hv']%elem_of_cons]; [by left|right].
      split; [|by exists v']. intros ->. apply Hk.
      apply list_elem_of_fmap. exists (k', v'). split; [done|].
      apply list_elem_of_fmap. by exists (a', (k', v')).
Qed.

(** [newAtFront], and the registration of the new entry that follows it. *)
Lemma newAtFront_core c pl k v :
  core c pl → is_Some (lookup c) → k ∉ pl.*2.*1 →
  ∃ a c', (ent <-! newAtFront k v ;;
           pst_modify (fun c => upd_lookup (<[k := ent]> <$> lookup c) c)) c = Some (tt, c') ∧
    core c' ((a, (k, v)) :: pl) ∧
    curSize c' = curSize c ∧ MaxSize c' = MaxSize c ∧ EntrySize c' = EntrySize c.
Proof.
  intros Hc [m Hm] Hk. pose proof Hc as [Hnd Hks Hr Hh Hkv Hlk].
  set (a := fresh (dom (heap c))). assert (a ∉ pl.*1) as Ha.
  { intros Hin. apply (is_fresh (dom (heap c))). apply elem_of_dom.
    apply (ring_alive _ _ _ Hr Hin). }
  set (h0 := <[a := Entry None None k v]> (heap c)).
  assert (is_Some (h0 !! a)) as Hal by (unfold h0; rewrite lookup_insert_eq; eauto).
  assert (Forall (λ x, kv_at h0 x.1 = Some x.2) ((a, (k, v)) :: pl)) as Hkv0.
  { apply Forall_cons. split; [unfold kv_at, h0; by rewrite lookup_insert_eq|].
    rewrite Forall_forall in Hkv |- *. intros x Hx. rewrite <-(Hkv _ Hx).
    unfold kv_at, h0. rewrite lookup_insert_ne; [done|]. intros ->. apply Ha.
    by apply list_elem_of_fmap_2. }
  exists a. unfold newAtFront, pst_bind at 1 2, alloc. fold a h0.
  unfold pst_bind at 1, get_head. csimpl. rewrite Hh.
  destruct pl as [|[x kv] pl]; csimpl in *.
  - unfold set_prev, set_next. rewrite bind_assign by done.
    rewrite bind_assign by (by apply alive_alter).
    unfold pst_bind, pst_modify, pst_ret. csimpl. rewrite Hm. csimpl.
    eexists. split; [done|]. split; [|done]. csimpl.
    apply (core_push c _ []); csimpl; try done.
    + unfold linked. rewrite nxt_with_next by (by apply alive_alter).
      rewrite prv_alter, prv_with_prev by done. done.
    + apply (cells_same h0); [|done]. intros b. by rewrite !kv_at_alter.
  - assert (ring h0 (x :: pl.*1)) as Hr0.
    { eapply path_frame; [| |exact Hr]; intros y Hy; unfold nxt, prv, h0;
        rewrite lookup_insert_ne; set_solver. }
    edestruct (exec_insert' (A := positive) (upd_heap h0 c) a x pl.*1) as (h1 & -> & Hr1 & Hs1);
      [by constructor|done..|].
    unfold pst_bind, pst_modify, pst_ret. csimpl. rewrite Hm. csimpl. eexists. split; [done|]. split; [|done].
    apply (core_push c _ ((x, kv) :: pl)); csimpl; try done. by apply (cells_same h0).
Qed.

(** Removing a cell from the represented list. *)
Lemma core_pop c h p1 a k v p2 hd :
  core c (p1 ++ (a, (k, v)) :: p2) →
  ring h (p1 ++ p2).*1 → same_kv (heap c) h → hd = list.head (p1 ++ p2).*1 →
  core (upd_lookup (delete k <$> lookup c) (upd_head hd (upd_heap h c))) (p1 ++ p2).
Proof.
  intros [Hnd Hks Hr Hh Hkv Hlk] Hr' Hs ->.
  rewrite <-(Permutation_middle p1 p2) in Hnd, Hks, Hkv. csimpl in *.
  apply NoDup_cons in Hnd as [Ha Hnd]. apply NoDup_cons in Hks as [Hk Hks].
  split; csimpl; try done.
  - apply (cells_same (heap c)); [done|]. by apply Forall_cons in Hkv as [_ ?].
  - intros k' a'. unfold lookup_map in *; simpl.
    assert (default ∅ (delete k <$> lookup c) = delete k (default ∅ (lookup c))) as ->.
    { destruct (lookup c); simpl; [done|]. by rewrite delete_empty. }
    rewrite lookup_delete_Some, Hlk. split.
    + intros [Hne [v' Hv']]. exists v'. set_solver.
    + intros [v' Hv']. split; [|exists v'; set_solver]. intros ->. apply Hk.
      apply list_elem_of_fmap. exists (k', v'). split; [done|].
      apply list_elem_of_fmap. by exists (a', (k', v')).
Qed.

Definition same_cfg c c' : Prop := MaxSize c' = MaxSize c ∧ EntrySize c' = EntrySize c.

Lemma core_curSize c pl z : core c pl → core (upd_curSize z c) pl.
Proof. by intros []. Qed.

Lemma upd_heap_id c : upd_heap (heap c) c = c.
Proof. by destruct c. Qed.

Lemma core_cell c pl a k v :
  core c pl → (a, (k, v)) ∈ pl → ∃ e, heap c !! a = Some e ∧ key e = k ∧ value e = v.
Proof.
  intros [_ _ _ _ Hkv _] Hin. rewrite Forall_forall in Hkv.
  specialize (Hkv _ Hin). unfold kv_at in Hkv. csimpl in *.
  destruct (heap c !! a) as [e|]; naive_solver.
Qed.

Lemma deleteElement_core c p1 a k v p2 :
  core c (p1 ++ (a, (k, v)) :: p2) →
  ∃ c', deleteElement a c = Some (tt, c') ∧ core c' (p1 ++ p2) ∧
    curSize c' = i64 (curSize c - entrySize c k v) ∧ same_cfg c c'.
Proof.
  intros Hc. destruct (core_cell _ _ a k v Hc) as (e & He & Hek & Hev); [set_solver|].
  pose proof Hc as [Hnd Hks Hr Hh Hkv Hlk].
  rewrite fmap_app in Hr, Hnd, Hh. csimpl in *. apply ring_rotate in Hr. csimpl in Hr.
  assert (NoDup (a :: p2.*1 ++ p1.*1)) as Hnd'.
  { rewrite (Permutation_app_comm p2.*1), Permutation_middle. done. }
  unfold deleteElement. rewrite (bind_deref _ _ e) by done.
  destruct (p2.*1 ++ p1.*1) as [|x r] eqn:Hxr.
  - apply app_nil in Hxr as [->%fmap_nil_inv ->%fmap_nil_inv]. csimpl in *.
    destruct Hr as [Hn _]. unfold nxt in Hn. rewrite He in Hn. injection Hn as Hn.
    rewrite decide_True by done. unfold pst_bind at 1, pst_modify at 1.
    rewrite (bind_deref _ _ e) by done. unfold pst_bind, pst_modify. csimpl. rewrite Hek, Hev.
    eexists. split; [done|]. split; [|done]. apply core_curSize.
    pose proof (core_pop c (heap c) [] a k v [] None Hc I ltac:(done) eq_refl) as Hp.
    by rewrite upd_heap_id in Hp.
  - destruct (ring_cell _ _ _ Hr) as (e' & He' & Hen & _). simplify_eq. csimpl in Hen.
    rewrite decide_False by (rewrite Hen; intros [= ->]; apply NoDup_cons in Hnd'; set_solver).
    set (D := (e <-! deref (Some a);; _)). unfold pst_bind at 1. subst D. cbv beta.
    edestruct (exec_unlink' (A := unit) c a x r) as (h1 & -> & Hr1 & Hs1 & Ha1); [done..|].
    unfold pst_bind at 1, get_head. csimpl. rewrite <-Hxr in Hr1. apply ring_rotate in Hr1.
    set (hd := list.head (p1 ++ p2).*1).
    assert ((if decide (head c = Some a)
             then e <-! deref (Some a) ;; pst_modify (upd_head (next e)) else pst_ret tt)
            (upd_heap h1 c) = Some (tt, upd_head hd (upd_heap h1 c))) as ->.
    { rewrite Hh. unfold hd. rewrite fmap_app. destruct p1 as [|[y kvy] p1]; csimpl in *.
      - rewrite decide_True by done. rewrite (bind_deref _ _ e) by (csimpl; by rewrite Ha1).
        rewrite app_nil_r in Hxr. rewrite Hen, Hxr. done.
      - rewrite decide_False; [by destruct c; csimpl in *; subst|].
        intros [= ->]. apply NoDup_cons in Hnd' as [Ha _]. apply Ha. rewrite <-Hxr. set_solver. }
    rewrite (bind_deref _ _ e) by (csimpl; by rewrite Ha1).
    unfold pst_bind, pst_modify. csimpl.
    eexists. split; [done|]. split; [|done]. apply core_curSize.
    apply (core_pop c h1 p1 a (key e) (value e) p2 hd); try done. by rewrite fmap_app.
Qed.
End repr.
End Repr.

(** ** Facts about the abstract cache *)

Module SpecFacts.
Section facts.
Context {K V : Type} `{Countable K}.
Implicit Types l : list (K * V).

Lemma find_Some k v l : NoDup l.*1 → (k, v) ∈ l → Spec.find k l = Some v.
Proof.
  induction l as [|[k' v'] l IH]; csimpl; [set_solver|].
  intros [Hk Hnd]%NoDup_cons [[= -> ->]|Hin]%elem_of_cons.
  - by rewrite decide_True.
  - rewrite decide_False; [by apply IH|]. intros ->. apply Hk.
    apply list_elem_of_fmap. by exists (k, v).
Qed.

Lemma find_None k l : k ∉ l.*1 → Spec.find k l = None.
Proof.
  induction l as [|[k' v'] l IH]; csimpl; [done|].
  intros Hk. rewrite decide_False by set_solver. apply IH. set_solver.
Qed.

Lemma remove_notin k l : k ∉ l.*1 → Spec.remove k l = l.
Proof.
  unfold Spec.remove. induction l as [|[k' v'] l IH]; csimpl; [done|].
  intros Hk. rewrite filter_cons_True by (csimpl; set_solver). by rewrite IH by set_solver.
Qed.

Lemma remove_split k v l1 l2 :
  NoDup (l1 ++ (k, v) :: l2).*1 → Spec.remove k (l1 ++ (k, v) :: l2) = l1 ++ l2.
Proof.
  rewrite fmap_app. csimpl. rewrite <-Permutation_middle.
  intros [Hk _]%NoDup_cons. unfold Spec.remove. rewrite filter_app.
  rewrite filter_cons_False by (csimpl; naive_solver).
  f_equal; apply remove_notin; set_solver.
Qed.

Context (mx : Z) (esz : K -> V -> Z).

Lemma total_perm l l' : l ≡ₚ l' → Spec.total esz l = Spec.total esz l'.
Proof. induction 1; simpl; lia. Qed.

Lemma total_middle x l1 l2 :
  Spec.total esz (l1 ++ x :: l2) = (esz x.1 x.2 + Spec.total esz (l1 ++ l2))%Z.
Proof. by rewrite <-(total_perm _ _ (Permutation_middle l1 l2 x)). Qed.

Lemma evict_nil : Spec.evict mx esz [] = if Spec.over mx esz [] then None else Some [].
Proof. unfold Spec.evict. simpl. unfold reverse; simpl. by destruct (Spec.over mx esz []). Qed.

Lemma evict_snoc l x :
  Spec.evict mx esz (l ++ [x]) =
    if Spec.over mx esz (l ++ [x]) then Spec.evict mx esz l else Some (l ++ [x]).
Proof.
  unfold Spec.evict. rewrite reverse_snoc. cbn [Spec.evict_rev].
  rewrite reverse_cons, reverse_involutive.
  destruct (Spec.over mx esz (l ++ [x])); [done|]. simpl.
  by rewrite reverse_cons, reverse_involutive.
Qed.
End facts.
End SpecFacts.

(** ** The ring implements the list *)

Module Refine.
Import Ring RingFacts Repr SpecFacts.
Section refine.
Context {K V : Type} `{Countable K}.
Context (mx : Z) (eo : option (K -> V -> Z)).
Implicit Types (c : cache K V) (l : list (K * V)) (pl : list (positive * (K * V))).

Local Abbreviation esz := (size_of eo).

(** The cache [c] holds the list [l], most recently used first. *)
Definition refines c l : Prop :=
  MaxSize c = mx ∧ EntrySize c = eo ∧
  ∃ pl, pl.*2 = l ∧ core c pl ∧ curSize c = i64 (Spec.total esz l).

(** [lookup] finds the cell of a key, or the list does not have it. *)
Lemma lookup_split c pl k a :
  core c pl → lookup_map c !! k = Some a → ∃ p1 v p2, pl = p1 ++ (a, (k, v)) :: p2.
Proof.
  intros Hc Ha. apply (core_lookup _ _ Hc) in Ha as [v (p1 & p2 & ->)%list_elem_of_split].
  naive_solver.
Qed.

Lemma lookup_absent c pl k : core c pl → lookup_map c !! k = None → k ∉ pl.*2.*1.
Proof.
  intros Hc Hn ([k' v] & -> & ([a kv] & Hkv & Hin)%list_elem_of_fmap)%list_elem_of_fmap.
  csimpl in *. subst. assert (lookup_map c !! k' = Some a) by (apply (core_lookup _ _ Hc); eauto).
  congruence.
Qed.

Lemma lookup_size c pl : core c pl → size (lookup_map c) = length pl.
Proof.
  intros Hc. assert (NoDup (((λ x, (x.2.1, x.1)) <$> pl).*1)) as Hnd.
  { rewrite <-list_fmap_compose. pose proof (core_keys _ _ Hc) as Hk.
    by rewrite <-list_fmap_compose in Hk. }
  assert (lookup_map c = list_to_map ((λ x, (x.2.1, x.1)) <$> pl)) as ->.
  { apply map_eq. intros k. apply option_eq. intros a.
    rewrite (core_lookup _ _ Hc), <-elem_of_list_to_map by done.
    rewrite list_elem_of_fmap. split.
    - intros [v Hv]. by exists (a, (k, v)).
    - intros ([a' [k' v']] & [= -> ->] & Hin). by exists v'. }
  rewrite map_size_list_to_map by done. by rewrite length_fmap.
Qed.

Lemma refines_zero : refines (zero mx eo) [].
Proof.
  split_and!; [done..|]. exists []. split; [done|]. split; [|done].
  split; csimpl; try done; try (by constructor).
  intros k a. unfold lookup_map. csimpl. rewrite lookup_empty. set_solver.
Qed.

Lemma GetOk_refines c l k :
  refines c l →
  ∃ c', GetOk k c = Some ((Spec.get_ok k l).1, c') ∧ refines c' (Spec.get_ok k l).2.
Proof.
  intros (Hmx & Heo & pl & <- & Hc & Hsz). unfold GetOk, pst_bind at 1, pst_get, Spec.get_ok.
  destruct (lookup_map c !! k) as [a|] eqn:Ha.
  - destruct (lookup_split _ _ _ _ Hc Ha) as (p1 & v & p2 & ->).
    pose proof (core_keys _ _ Hc) as Hnd. rewrite fmap_app in Hnd |- *. csimpl in *.
    rewrite (find_Some k v) by set_solver. csimpl.
    destruct (moveToFront_core c p1 (a, (k, v)) p2 Hc) as (h' & Hm & Hc'). csimpl in *.
    destruct (core_cell _ _ a k v Hc') as (e & He & _ & Hv); [set_solver|].
    unfold pst_bind at 1. rewrite Hm. rewrite (bind_deref _ _ e) by done. rewrite Hv.
    eexists. split; [done|]. split_and!; [done..|].
    eexists. split; [|split; [exact Hc'|]].
    + csimpl. rewrite fmap_app, remove_split by done. done.
    + csimpl. rewrite Hsz, remove_split by done. f_equal.
      rewrite fmap_app. csimpl. by rewrite total_middle.
  - pose proof (lookup_absent _ _ _ Hc Ha) as Hk. rewrite find_None by done.
    exists c. split; [done|]. split_and!; [done..|]. by exists pl.
Qed.

Lemma PeekOk_refines c l k : refines c l → PeekOk k c = Some (Spec.find k l, c).
Proof.
  intros (Hmx & Heo & pl & <- & Hc & Hsz). unfold PeekOk, pst_bind at 1, pst_get.
  destruct (lookup_map c !! k) as [a|] eqn:Ha.
  - destruct (lookup_split _ _ _ _ Hc Ha) as (p1 & v & p2 & ->).
    destruct (core_cell _ _ a k v Hc) as (e & He & _ & Hv); [set_solver|].
    rewrite (bind_deref _ _ e) by done. rewrite Hv, (find_Some k v); [done|apply (core_keys _ _ Hc)|].
    rewrite fmap_app. csimpl. set_solver.
  - pose proof (lookup_absent _ _ _ Hc Ha). by rewrite find_None.
Qed.

Lemma Delete_refines c l k :
  refines c l → ∃ c', Delete k c = Some (tt, c') ∧ refines c' (Spec.remove k l).
Proof.
  intros (Hmx & Heo & pl & <- & Hc & Hsz). unfold Delete, pst_bind at 1, pst_get.
  destruct (lookup_map c !! k) as [a|] eqn:Ha.
  - destruct (lookup_split _ _ _ _ Hc Ha) as (p1 & v & p2 & ->).
    destruct (deleteElement_core _ _ _ _ _ _ Hc) as (c' & -> & Hc' & Hsz' & Hcfg1 & Hcfg2).
    exists c'. split; [done|]. split_and!; [congruence..|].
    pose proof (core_keys _ _ Hc) as Hnd. rewrite fmap_app in *. csimpl in *.
    exists (p1 ++ p2). rewrite remove_split, fmap_app by done. split_and!; [done..|].
    rewrite Hsz', Hsz, total_middle. csimpl.
    rewrite i64_sub_l. unfold entrySize. rewrite Heo. f_equal. lia.
  - pose proof (lookup_absent _ _ _ Hc Ha). rewrite remove_notin by done.
    exists c. split; [done|]. split_and!; [done..|]. by exists pl.
Qed.

Lemma deleteOldest_refines c l x :
  refines c (l ++ [x]) →
  (∃ c', deleteOldest c = Some (tt, c') ∧ refines c' l) ∧
  DeleteOldest c = (deleteOldest ;;! pst_ret (Some x)) c.
Proof.
  intros (Hmx & Heo & pl & Hl & Hc & Hsz).
  destruct (exists_last (l := pl)) as (pl' & [a [k v]] & ->); [by intros ->; destruct l|].
  rewrite fmap_app in Hl. apply app_inj_tail in Hl as [<- <-]. csimpl in *.
  assert (∃ hd e, head c = Some hd ∧ heap c !! hd = Some e ∧ prev e = Some a) as (hd & e & Hhd & He & Hp).
  { pose proof (core_ring _ _ Hc) as Hr. pose proof (core_head _ _ Hc) as Hh.
    destruct (pl' ++ [(a, (k, v))]).*1 as [|hd r] eqn:Hpl; [by destruct pl'|].
    destruct (ring_cell _ _ _ Hr) as (e & He & _ & Hp). exists hd, e. split_and!; [done..|].
    rewrite Hp. f_equal. rewrite fmap_app in Hpl. csimpl in Hpl.
    rewrite <-(last_default r hd hd), <-Hpl, last_last. done. }
  destruct (deleteElement_core c pl' a k v [] Hc) as (c' & Hd & Hc' & Hsz' & Hcfg1 & Hcfg2).
  destruct (core_cell _ _ a k v Hc) as (e' & He' & Hk & Hv); [set_solver|].
  rewrite app_nil_r in Hc'. split.
  - exists c'. unfold deleteOldest, pst_bind at 1, get_head. rewrite Hhd.
    rewrite (bind_deref _ _ e) by done. rewrite Hp. split; [done|].
    split_and!; [congruence..|]. exists pl'. split_and!; [done..|].
    rewrite Hsz', Hsz, total_middle, app_nil_r. csimpl.
    rewrite i64_sub_l. unfold entrySize. rewrite Heo. f_equal. lia.
  - unfold DeleteOldest, pst_bind at 1, get_head. rewrite Hhd.
    rewrite (bind_deref _ _ e) by done. rewrite Hp. rewrite (bind_deref _ _ e') by done.
    by rewrite Hk, Hv.
Qed.

Lemma evict_refines fuel c l :
  refines c l → length l < fuel →
  match Spec.evict mx esz l with
  | Some l' => ∃ c', evict_loop fuel c = Some (tt, c') ∧ refines c' l'
  | None => evict_loop fuel c = None
  end.
Proof.
  revert c fuel. induction l as [|x l IH] using rev_ind; intros c fuel Hr Hf.
  - rewrite evict_nil. pose proof Hr as (Hmx & _ & pl & Hpl & Hc & Hsz).
    destruct fuel as [|fuel]; [simpl in Hf; lia|]. cbn [evict_loop].
    rewrite Hmx, Hsz. fold (Spec.over mx esz []).
    destruct (Spec.over mx esz []); [|by exists c].
    apply fmap_nil_inv in Hpl as ->. unfold deleteOldest, pst_bind at 1 2, get_head.
    by rewrite (core_head _ _ Hc).
  - rewrite length_app in Hf. csimpl in Hf. destruct fuel as [|fuel]; [lia|].
    rewrite evict_snoc. pose proof Hr as (Hmx & _ & pl & Hpl & Hc & Hsz). cbn [evict_loop].
    rewrite Hmx, Hsz. fold (Spec.over mx esz (l ++ [x])).
    destruct (Spec.over mx esz (l ++ [x])); [|by exists c].
    destruct (deleteOldest_refines _ _ _ Hr) as [(c' & Hd & Hr') _].
    unfold pst_bind. rewrite Hd. apply IH; [done|lia].
Qed.

(** Overwriting the value of the front cell. *)
Lemma core_assign_value c a k v v' pl :
  core c ((a, (k, v)) :: pl) →
  core (upd_heap (alter (with_value v') a (heap c)) c) ((a, (k, v')) :: pl).
Proof.
  intros Hc. destruct (core_cell _ _ a k v Hc) as (e & He & Hek & _); [set_solver|].
  destruct Hc as [Hnd Hks Hr Hh Hkv Hlk]. csimpl in *. split; csimpl; try done.
  - change (ring (alter (with_value v') a (heap c)) (a :: pl.*1)).
    eapply path_frame; [| |exact Hr]; intros; [apply nxt_alter|apply prv_alter]; done.
  - apply Forall_cons in Hkv as [_ Hkv]. apply NoDup_cons in Hnd as [Ha _].
    apply Forall_cons. split; csimpl.
    + unfold kv_at. rewrite lookup_alter_eq, He. csimpl. by rewrite Hek.
    + rewrite Forall_forall in Hkv |- *. intros x Hx. rewrite <-(Hkv _ Hx).
      unfold kv_at. rewrite lookup_alter_ne; [done|]. intros ->. apply Ha.
      by apply list_elem_of_fmap_2.
  - intros k' a'. rewrite (Hlk k' a'). split; intros [w Hw]; apply elem_of_cons in Hw as [Hw|Hw].
    + simplify_eq. exists v'. by left.
    + exists w. by right.
    + simplify_eq. exists v. by left.
    + exists w. by right.
Qed.

(** The two branches of [Set], up to the addition of the new size. *)
Lemma set_hit c p1 a k v0 v p2 :
  core c (p1 ++ (a, (k, v0)) :: p2) →
  ∃ c', (moveToFront a ;;!
         e <-! deref (Some a) ;;
         pst_modify (fun c => upd_curSize (i64 (curSize c - entrySize c k (value e))) c) ;;!
         assign (with_value v) (Some a)) c = Some (tt, c') ∧
    core c' ((a, (k, v)) :: p1 ++ p2) ∧
    curSize c' = i64 (curSize c - entrySize c k v0) ∧ same_cfg c c'.
Proof.
  intros Hc. destruct (moveToFront_core c p1 (a, (k, v0)) p2 Hc) as (h' & Hm & Hc').
  csimpl in *. destruct (core_cell _ _ a k v0 Hc') as (e & He & _ & Hv); [set_solver|].
  unfold pst_bind at 1. rewrite Hm. rewrite (bind_deref _ _ e) by done. rewrite Hv.
  unfold pst_bind, pst_modify, assign. csimpl. csimpl in He. rewrite He.
  eexists. split; [done|]. split_and!; [|done..].
  exact (core_assign_value _ a k v0 v _ (core_curSize _ _ _ Hc')).
Qed.

Lemma core_init c pl :
  core c pl →
  let c' := match lookup c with None => upd_lookup (Some ∅) c | Some _ => c end in
  core c' pl ∧ is_Some (lookup c') ∧ lookup_map c' = lookup_map c ∧
  curSize c' = curSize c ∧ same_cfg c c'.
Proof.
  intros Hc c'. unfold c'. destruct (lookup c) as [m|] eqn:Hm.
  - rewrite Hm. by split_and!.
  - assert (lookup_map (upd_lookup (Some ∅) c) = lookup_map c) as Hl
      by (unfold lookup_map; by rewrite Hm).
    split_and!; try done. destruct Hc as [Hnd Hks Hr Hh Hkv Hlk]. split; try done.
    intros k a. by rewrite Hl, Hlk.
Qed.

(** [Set] up to its eviction loop. *)
Lemma set_stored c l k v :
  refines c l →
  ∃ c3, Set_ k v c = evict_loop (S (length (Spec.remove k l)) + 1) c3 ∧
    refines c3 ((k, v) :: Spec.remove k l).
Proof.
  intros (Hmx & Heo & pl & <- & Hc & Hsz). unfold Set_, pst_bind at 1, pst_modify at 1.
  destruct (core_init _ _ Hc) as (Hc1 & Hsome & Hlm & Hsz1 & Hmx1 & Heo1).
  set (c1 := match lookup c with None => _ | Some _ => c end) in *.
  unfold pst_bind at 1, pst_get at 1. rewrite Hlm.
  set (m := match lookup_map c !! k with Some ent => _ | None => _ end).
  assert (∃ c2 pl2, m c1 = Some (tt, c2) ∧ core c2 pl2 ∧ same_cfg c1 c2 ∧
            pl2.*2 = (k, v) :: Spec.remove k pl.*2 ∧
            curSize c2 = i64 (Spec.total esz (Spec.remove k pl.*2)))
    as (c2 & pl2 & Hm & Hc2 & [Hmx2 Heo2] & Hpl2 & Hsz2).
  { unfold m. destruct (lookup_map c !! k) as [a|] eqn:Ha.
    - destruct (lookup_split _ _ _ _ Hc Ha) as (p1 & v0 & p2 & ->).
      destruct (set_hit _ _ _ _ _ v _ Hc1) as (c2 & -> & Hc2 & Hs2 & Hcfg).
      pose proof (core_keys _ _ Hc) as Hnd. rewrite fmap_app in *. csimpl in *.
      eexists c2, _. split; [done|]. split; [exact Hc2|]. split; [done|].
      rewrite remove_split by done. csimpl. rewrite fmap_app. split; [done|].
      rewrite Hs2, Hsz1, Hsz, total_middle, i64_sub_l. csimpl.
      unfold entrySize. rewrite Heo1, Heo. f_equal. lia.
    - pose proof (lookup_absent _ _ _ Hc Ha) as Hk.
      destruct (newAtFront_core _ _ k v Hc1 Hsome Hk) as (a & c2 & -> & Hc2 & Hs2 & Hcfg).
      exists c2, ((a, (k, v)) :: pl). rewrite remove_notin by done.
      split_and!; try done; [apply Hcfg..|]. by rewrite Hs2, Hsz1. }
  unfold pst_bind at 1. rewrite Hm. unfold pst_bind, pst_modify, pst_get.
  set (c3 := upd_curSize _ c2). exists c3. split.
  - f_equal. change (lookup_map c3) with (lookup_map c2).
    rewrite (lookup_size _ _ Hc2), <-(length_fmap snd pl2).
    change (snd <$> pl2) with pl2.*2. rewrite Hpl2. csimpl. lia.
  - split_and!; [unfold c3; csimpl; congruence..|]. exists pl2. split; [done|].
    split; [by apply core_curSize|]. unfold c3. csimpl. rewrite Hsz2, i64_add_l.
    unfold entrySize. rewrite Heo2, Heo1, Heo. csimpl. f_equal. lia.
Qed.

Lemma Set_refines c l k v :
  refines c l →
  match Spec.set mx esz k v l with
  | Some l' => ∃ c', Set_ k v c = Some (tt, c') ∧ refines c' l'
  | None => Set_ k v c = None
  end.
Proof.
  intros Hr. destruct (set_stored _ _ k v Hr) as (c3 & -> & Hr3).
  apply evict_refines; [done|]. csimpl. lia.
Qed.

Lemma DeleteOldest_refines c l :
  refines c l →
  ∃ c', DeleteOldest c = Some ((Spec.delete_oldest l).1, c') ∧
    refines c' (Spec.delete_oldest l).2.
Proof.
  intros Hr. destruct l as [|x l _] using rev_ind.
  - exists c. split; [|done]. pose proof Hr as (_ & _ & pl & Hpl & Hc & _).
    apply fmap_nil_inv in Hpl as ->. unfold DeleteOldest, pst_bind, get_head.
    by rewrite (core_head _ _ Hc).
  - destruct (deleteOldest_refines _ _ _ Hr) as [(c' & Hd & Hr') Hdo].
    unfold Spec.delete_oldest. rewrite reverse_snoc, reverse_involutive. csimpl.
    exists c'. rewrite Hdo. unfold pst_bind. by rewrite Hd.
Qed.

Lemma Clear_refines c l : refines c l → ∃ c', Clear c = Some (tt, c') ∧ refines c' [].
Proof.
  intros (Hmx & Heo & pl & <- & Hc & Hsz). eexists. split; [done|].
  split_and!; [done..|]. exists []. split; [done|]. split; [|done].
  split; csimpl; try done; try (by constructor).
  intros k a. unfold lookup_map. csimpl. rewrite lookup_empty. set_solver.
Qed.

Lemma Len_refines c l : refines c l → Len c = length l.
Proof.
  intros (_ & _ & pl & <- & Hc & _). unfold Len. by rewrite (lookup_size _ _ Hc), length_fmap.
Qed.

Lemma core_next c p1 a k v p2 :
  core c (p1 ++ (a, (k, v)) :: p2) →
  ∃ e, heap c !! a = Some e ∧ key e = k ∧ value e = v ∧
    next e = Some (List.hd a (p2.*1 ++ p1.*1)).
Proof.
  intros Hc. destruct (core_cell _ _ a k v Hc) as (e & He & Hk & Hv); [set_solver|].
  pose proof (core_ring _ _ Hc) as Hr. rewrite fmap_app in Hr. apply ring_rotate in Hr.
  destruct (ring_cell (heap c) a (p2.*1 ++ p1.*1) Hr) as (e' & He' & Hn & _). naive_solver.
Qed.

Lemma forEach_loop_refines c pl p1 x p2 fuel :
  core c pl → pl = p1 ++ x :: p2 → length p2 < fuel →
  forEach_loop fuel (Some x.1) c = Some ((x :: p2).*2, c).
Proof.
  intros Hc. revert p1 x fuel. induction p2 as [|y p2 IH]; intros p1 [a [k v]] fuel -> Hf;
    (destruct fuel as [|fuel]; [lia|]); cbn [forEach_loop];
    destruct (core_next _ _ _ _ _ _ Hc) as (e & He & Hk & Hv & Hn);
    rewrite (bind_deref _ _ e) by done; unfold pst_bind at 1, get_head;
    rewrite (core_head _ _ Hc), Hn, Hk, Hv.
  - rewrite decide_True; [done|]. by destruct p1 as [|[? ?] p1].
  - pose proof (core_nodup _ _ Hc) as Hnd. rewrite fmap_app in Hnd |- *. csimpl in *.
    rewrite decide_False.
    + unfold pst_bind. rewrite (IH (p1 ++ [(a, (k, v))]) y fuel); [done| |lia].
      by rewrite <-app_assoc.
    + destruct p1 as [|[? ?] p1]; csimpl in *; intros [= Heq];
        apply NoDup_cons in Hnd as [Hnd _]; set_solver.
Qed.

Lemma ForEach_refines c l : refines c l → ForEach c = Some (l, c).
Proof.
  intros (_ & _ & pl & <- & Hc & _). unfold ForEach, pst_bind, get_head, pst_get.
  rewrite (core_head _ _ Hc). destruct pl as [|x pl]; [done|].
  csimpl. apply (forEach_loop_refines c (x :: pl) []); [done..|].
  pose proof (core_nodup _ _ Hc) as Hnd.
  assert (length (x :: pl).*1 ≤ size (heap c)) as Hle; [|rewrite length_fmap in Hle; simpl in Hle; lia].
  rewrite <-(size_list_to_set (C := gset positive)) by done. rewrite <-size_dom.
  apply subseteq_size. intros a Ha%elem_of_list_to_set.
  apply elem_of_dom, (ring_alive _ _ _ (core_ring _ _ Hc) Ha).
Qed.
End refine.
End Refine.

(** ** Sequences of operations *)

Module Ops.
Import Ring Refine SpecFacts.
Section ops.
Context {K V : Type} `{Countable K}.

(** The exported methods, and what each returns. *)
Inductive op : Type :=
  | OSet (k : K) (v : V) | OGet (k : K) | OContains (k : K) | OPeek (k : K)
  | ODelete (k : K) | ODeleteOldest | OClear | OForEach | OLen | OSize.

Inductive out : Type :=
  | RUnit | RVal (o : option V) | RBool (b : bool) | RPair (o : option (K * V))
  | RList (l : list (K * V)) | RLen (n : nat) | RSize (z : Z).

Definition exec (o : op) : pst (cache K V) out :=
  match o with
  | OSet k v => Set_ k v ;;! pst_ret RUnit
  | OGet k => r <-! GetOk k ;; pst_ret (RVal r)
  | OContains k => r <-! Contains k ;; pst_ret (RBool r)
  | OPeek k => r <-! PeekOk k ;; pst_ret (RVal r)
  | ODelete k => Delete k ;;! pst_ret RUnit
  | ODeleteOldest => r <-! DeleteOldest ;; pst_ret (RPair r)
  | OClear => Clear ;;! pst_ret RUnit
  | OForEach => r <-! ForEach ;; pst_ret (RList r)
  | OLen => c <-! pst_get ;; pst_ret (RLen (Len c))
  | OSize => c <-! pst_get ;; pst_ret (RSize (Size c))
  end.

Definition spec_exec (mx : Z) (esz : K -> V -> Z) (o : op) : pst (list (K * V)) out := fun l =>
  match o with
  | OSet k v => l' ← Spec.set mx esz k v l; Some (RUnit, l')
  | OGet k => Some (RVal (Spec.get_ok k l).1, (Spec.get_ok k l).2)
  | OContains k => Some (RBool (bool_decide (is_Some (Spec.get_ok k l).1)), (Spec.get_ok k l).2)
  | OPeek k => Some (RVal (Spec.find k l), l)
  | ODelete k => Some (RUnit, Spec.remove k l)
  | ODeleteOldest => Some (RPair (Spec.delete_oldest l).1, (Spec.delete_oldest l).2)
  | OClear => Some (RUnit, [])
  | OForEach => Some (RList l, l)
  | OLen => Some (RLen (length l), l)
  | OSize => Some (RSize (i64 (Spec.total esz l)), l)
  end.

(** The results of a sequence of calls, up to and without the first one
    that panics. *)
Fixpoint run {S : Type} (step : op -> pst S out) (ops : list op) (s : S) : list out :=
  match ops with
  | [] => []
  | o :: ops' =>
      match step o s with
      | Some (r, s') => r :: run step ops' s'
      | None => []
      end
  end.

Lemma exec_refines mx eo c l o :
  refines mx eo c l →
  match spec_exec mx (size_of eo) o l with
  | Some (r, l') => ∃ c', exec o c = Some (r, c') ∧ refines mx eo c' l'
  | None => exec o c = None
  end.
Proof.
  intros Hr. destruct o as [k v|k|k|k|k| | | | |]; unfold exec, spec_exec, pst_bind, pst_ret, pst_get.
  - pose proof (Set_refines _ _ _ _ k v Hr) as Hs.
    destruct (Spec.set mx (size_of eo) k v l) as [l'|]; csimpl; [|by rewrite Hs].
    destruct Hs as (c' & -> & Hr'). eauto.
  - destruct (GetOk_refines _ _ _ _ k Hr) as (c' & -> & Hr'). eauto.
  - destruct (GetOk_refines _ _ _ _ k Hr) as (c' & Hg & Hr').
    unfold Contains, pst_bind, pst_ret. rewrite Hg. eauto.
  - rewrite (PeekOk_refines _ _ _ _ k Hr). eauto.
  - destruct (Delete_refines _ _ _ _ k Hr) as (c' & -> & Hr'). eauto.
  - destruct (DeleteOldest_refines _ _ _ _ Hr) as (c' & -> & Hr'). eauto.
  - destruct (Clear_refines _ _ _ _ Hr) as (c' & -> & Hr'). eauto.
  - rewrite (ForEach_refines _ _ _ _ Hr). eauto.
  - rewrite (Len_refines _ _ _ _ Hr). eauto.
  - pose proof Hr as (_ & _ & pl & <- & _ & Hsz). unfold Size. rewrite Hsz. eauto.
Qed.

Lemma run_refines mx eo ops c l :
  refines mx eo c l → run exec ops c = run (spec_exec mx (size_of eo)) ops l.
Proof.
  revert c l. induction ops as [|o ops IH]; intros c l Hr; [done|]. cbn [run].
  pose proof (exec_refines _ _ _ _ o Hr) as Hstep.
  destruct (spec_exec mx (size_of eo) o l) as [[r l']|]; [|by rewrite Hstep].
  destruct Hstep as (c' & -> & Hr'). f_equal. by apply IH.
Qed.

(** C1: the cache of lru.go (a ring of cells linked by pointers, with its
    [lookup] map and its running size) behaves as a list of key-value pairs
    kept most recently used first: for every configuration and every
    sequence of calls of the exported methods on the zero value, each call
    returns what the list returns, and panics exactly when the list's does
    (an eviction that finds nothing left to evict). *)
Theorem lru_refines_list mx eo (ops : list op) :
  run exec ops (zero mx eo) = run (spec_exec mx (size_of eo)) ops [].
Proof. apply run_refines, refines_zero. Qed.
End ops.
Arguments op : clear implicits.
Arguments out : clear implicits.

Lemma prefix_of_snoc {A} (l l'' : list A) x :
  l'' `prefix_of` l ++ [x] → l'' = l ++ [x] ∨ l'' `prefix_of` l.
Proof.
  intros [k Hk]. destruct k as [|y k _] using rev_ind.
  - left. by rewrite Hk, app_nil_r.
  - right. rewrite app_assoc in Hk. apply app_inj_tail in Hk as [-> _]. by exists k.
Qed.

(** *** What [Set] keeps *)
Section bound.
Context {K V : Type} `{Countable K}.
Context (mx : Z) (esz : K -> V -> Z).
Implicit Types l : list (K * V).

Lemma total_app l l' : Spec.total esz (l ++ l') = (Spec.total esz l + Spec.total esz l')%Z.
Proof. induction l as [|x l IH]; csimpl; [done|]. rewrite IH. lia. Qed.

Lemma total_nonneg l : (∀ k v, 0 <= esz k v)%Z → (0 <= Spec.total esz l)%Z.
Proof. intros Hs. induction l as [|x l IH]; csimpl; [done|]. specialize (Hs x.1 x.2). lia. Qed.

(** [l'] is the longest front part of [l] that fits in [mx] bytes, where
    [mx = 0] is no limit. *)
Definition longest_fit l l' : Prop :=
  l' `prefix_of` l ∧
  (if (mx =? 0)%Z then l' = l else
     (Spec.total esz l' <= mx)%Z ∧
     ∀ l'', l'' `prefix_of` l → (Spec.total esz l'' <= mx)%Z → l'' `prefix_of` l').

Lemma evict_longest l :
  (0 <= mx)%Z → (∀ k v, 0 <= esz k v)%Z → (Spec.total esz l < 2 ^ 63)%Z →
  ∃ l', Spec.evict mx esz l = Some l' ∧ longest_fit l l'.
Proof.
  intros Hmx Hs. induction l as [|x l IH] using rev_ind; intros Hov.
  - rewrite evict_nil. unfold Spec.over, longest_fit. csimpl. rewrite (i64_small 0) by lia.
    rewrite (proj2 (Z.ltb_ge mx 0)) by lia. rewrite andb_false_r.
    exists []. repeat split; [done|]. by case_match.
  - rewrite evict_snoc. pose proof (total_nonneg (l ++ [x]) Hs) as Hnn.
    unfold Spec.over. rewrite i64_small by lia.
    destruct (mx =? 0)%Z eqn:Hz; csimpl.
    + exists (l ++ [x]). unfold longest_fit. by rewrite Hz.
    + destruct (Z.ltb_spec mx (Spec.total esz (l ++ [x]))) as [Hlt|Hle].
      * pose proof (total_app l [x]) as Hta. pose proof (total_nonneg [x] Hs).
        destruct IH as (l' & He & Hp & Hfit); [lia|]. exists l'. split; [done|].
        unfold longest_fit. rewrite Hz in Hfit |- *. destruct Hfit as [Hfit Hmax].
        split; [by apply prefix_app_r|]. split; [done|]. intros l'' Hl'' Ht.
        apply prefix_of_snoc in Hl'' as [->|Hl'']; [lia|]. by apply Hmax.
      * exists (l ++ [x]). split; [done|]. unfold longest_fit. rewrite Hz. by split_and!.
Qed.
End bound.

(** C2: with a non-negative [MaxSize] and entry sizes, and as long as the
    sizes sum below 2^63, [Set] does not panic; afterwards the cache holds
    the new entry and the entries that were used most recently, the longest
    run of them that fits in [MaxSize] (every one of them when [MaxSize] is
    0), in order. *)
Theorem set_keeps_longest_fit {K V} `{Countable K} mx (eo : option (K -> V -> Z)) c l k v :
  refines mx eo c l →
  (0 <= mx)%Z → (∀ k v, 0 <= size_of eo k v)%Z →
  (Spec.total (size_of eo) ((k, v) :: Spec.remove k l) < 2 ^ 63)%Z →
  ∃ c' l', Set_ k v c = Some (tt, c') ∧ refines mx eo c' l' ∧
    longest_fit mx (size_of eo) ((k, v) :: Spec.remove k l) l'.
Proof.
  intros Hr Hmx Hs Hov. pose proof (Set_refines _ _ _ _ k v Hr) as Hset.
  destruct (evict_longest mx (size_of eo) _ Hmx Hs Hov) as (l' & Hev & Hfit).
  unfold Spec.set in Hset. rewrite Hev in Hset. destruct Hset as (c' & ? & ?). eauto.
Qed.

Lemma set_keeps_longest_fit_witness :
  let esz := fun (_ v : nat) => Z.of_nat v in
  ∃ c c' l', refines 4 (Some esz) c [(1, 1); (2, 2)] ∧
    Set_ 3 3 c = Some (tt, c') ∧ refines 4 (Some esz) c' l' ∧
    longest_fit 4 esz [(3, 3); (1, 1); (2, 2)] l'.
Proof.
  intros esz.
  destruct (Set_refines 4 (Some esz) _ _ 2 2 (refines_zero _ _)) as (c1 & _ & Hr1).
  destruct (Set_refines 4 (Some esz) _ _ 1 1 Hr1) as (c2 & _ & Hr2).
  exists c2. destruct (set_keeps_longest_fit 4 (Some esz) c2 [(1, 1); (2, 2)] 3 3 Hr2)
    as (c' & l' & H1 & H2 & H3); [done|intros k v; apply Nat2Z.is_nonneg|done|].
  by exists c', l'.
Defined.

(** The same by evaluation: the ring's own results. *)
Example ring_run :
  run exec [OSet 1 1; OSet 2 2; OGet 1; OSet 3 3; OForEach; OLen; OSize; ODeleteOldest; OClear; OLen]
    (zero 4 (Some (fun (_ v : nat) => Z.of_nat v))) =
  [RUnit; RUnit; RVal (Some 1); RUnit; RList [(3, 3); (1, 1)]; RLen 2; RSize 4;
   RPair (Some (1, 1)); RUnit; RLen 0].
Proof. vm_compute. reflexivity. Qed.
End Ops.
