(* ===== verification/Store.v ===== *)
(** * store/store.go: the storage interface

    The types that the file system and the stores exchange, and the [Store]
    interface as a class of operations over a state of type [S] and module
    handles of type [H].  The file system ([FS]) is written against the
    class, and [MemStore] is an instance; the git-backed and the remote store
    ([GitStore], [Remote]) have operations of the same names, which may
    panic. *)

From S2P Require Import Prelude GoStrings.

Record ModuleVersion := MkMV { Module : bytes; Version : bytes }.

#[export] Instance ModuleVersion_eq_dec : EqDecision ModuleVersion.
Proof. solve_decision. Defined.

#[export] Instance ModuleVersion_countable : Countable ModuleVersion.
Proof.
  apply (inj_countable' (fun mv => (Module mv, Version mv)) (fun p => MkMV p.1 p.2)).
  by intros [].
Defined.

Definition IsValid (mv : ModuleVersion) : bool :=
  negb (bool_decide (Module mv = [])) && negb (bool_decide (Version mv = [])).

(** ** File modes (io/fs): permission bits and [ModeDir] *)

Definition ModeDir : Z := 2 ^ 31.
Definition mode_IsDir (m : Z) : bool := negb (Z.land m ModeDir =? 0)%Z.
Definition mode_Perm (m : Z) : Z := Z.land m 511.

Record Dirent := MkDirent { d_Name : bytes; d_Mode : Z; d_Size : Z }.

#[export] Instance Dirent_eq_dec : EqDecision Dirent.
Proof. solve_decision. Defined.

(** 2009-11-12 13:14:15 UTC; a [time.Time] is its nanoseconds since the
    epoch. *)
Definition second : Z := 1000000000.
Definition FakeStaticFileTime : Z := 1258031655 * second.

(** [os.FileInfo]: the results of its methods. *)
Record FileInfo := MkFileInfo {
  fi_Name : bytes; fi_Size : Z; fi_Mode : Z; fi_ModTime : Z; fi_IsDir : bool }.

(** A file to store: its path, mode, size and what [Open] then reads. *)
Record PutFile := MkPutFile {
  pf_Path : bytes; pf_Mode : Z; pf_Size : Z; pf_Open : res bytes }.

(** The three byte slices may be nil. *)
Record PutModuleData := MkPutModuleData {
  InfoFile : option bytes; ModFile : option bytes; ZipHash : option bytes; Files : list PutFile }.

Class Store (S H : Type) := {
  CachedModules : st S (res (list ModuleVersion));
  GetZipRoot : ModuleVersion -> st S (res H);
  GetInfoFile : ModuleVersion -> st S (res bytes);
  GetModFile : ModuleVersion -> st S (res bytes);
  PutModFile : ModuleVersion -> bytes -> st S (res unit);
  PutInfoFile : ModuleVersion -> bytes -> st S (res unit);
  GetZipHash : H -> st S (res bytes);
  GetFile : H -> bytes -> st S (res bytes);
  Stat : H -> bytes -> st S (res FileInfo);
  Readdir : H -> bytes -> st S (res (list Dirent));
  PutModule : ModuleVersion -> PutModuleData -> st S (res H) }.

(** ** golang.org/x/mod/module

    The escaping of module paths and versions is a third-party package; the
    operations are parameters, and [ModEscapeLaws] states what the package
    documents and the program relies on. *)
Class ModEscape := {
  EscapePath : bytes -> res bytes;
  EscapeVersion : bytes -> res bytes;
  UnescapePath : bytes -> res bytes;
  UnescapeVersion : bytes -> res bytes }.

Class ModEscapeLaws `(E : ModEscape) : Prop := {
  Unescape_EscapePath p e : EscapePath p = Ok e -> UnescapePath e = Ok p;
  Unescape_EscapeVersion v e : EscapeVersion v = Ok e -> UnescapeVersion e = Ok v;
  Escape_UnescapePath p e : UnescapePath e = Ok p -> EscapePath p = Ok e;
  Escape_UnescapeVersion v e : UnescapeVersion e = Ok v -> EscapeVersion v = Ok e;
  (** An escaped path has no [@], its first element has a dot, its last
      element is not empty, and no element begins with a dot; a version is
      one non-empty element. *)
  EscapePath_at p e : EscapePath p = Ok e -> "@"%char ∉ e;
  EscapePath_dot p e : EscapePath p = Ok e ->
    exists a b, e = a ++ dot :: b /\ slash ∉ a;
  EscapeVersion_elem v e : EscapeVersion v = Ok e -> e <> [] /\ slash ∉ e;
  (** The empty string is neither a path nor a version. *)
  EscapePath_nonempty p e : EscapePath p = Ok e -> p <> [];
  EscapeVersion_nonempty v e : EscapeVersion v = Ok e -> v <> [] }.

(** A concrete escaping with the rule of the package (an upper-case letter
    is written as ["!"] and its lower case) and simple validity checks, for
    evaluating the model. *)
Module BangEscape.

Definition is_upper (c : ascii) : bool := ((65 <=? byte_val c) && (byte_val c <=? 90))%Z.

Fixpoint bang (s : bytes) : bytes :=
  match s with
  | [] => []
  | c :: s' => if is_upper c then "!"%char :: byte_of (byte_val c + 32) :: bang s' else c :: bang s'
  end.

(** [unescapeString]: an upper-case letter, or a ["!"] that no lower-case
    letter follows, is an error. *)
Fixpoint unbang (s : bytes) : option bytes :=
  match s with
  | [] => Some []
  | c :: s' =>
      if decide (c = "!"%char) then
        match s' with
        | d :: s'' =>
            if ((97 <=? byte_val d) && (byte_val d <=? 122))%Z
            then r ← unbang s''; Some (byte_of (byte_val d - 32) :: r) else None
        | [] => None
        end
      else if is_upper c then None
      else r ← unbang s'; Some (c :: r)
  end.

Definition path_ok (s : bytes) : bool :=
  match Cut s [dot] with
  | Some (a, _) => bool_decide (slash ∉ a) && bool_decide ("@"%char ∉ s) && bool_decide ("!"%char ∉ s)
  | None => false
  end.

Definition version_ok (s : bytes) : bool :=
  bool_decide (s <> []) && bool_decide (slash ∉ s) && bool_decide ("!"%char ∉ s).

Definition escape (ok : bytes -> bool) (s : bytes) : res bytes :=
  if ok s then Ok (bang s) else Err (errText "invalid").
Definition unescape (ok : bytes -> bool) (e : bytes) : res bytes :=
  match unbang e with
  | Some s => if ok s then Ok s else Err (errText "invalid")
  | None => Err (errText "invalid")
  end.

#[export] Instance bang_escape : ModEscape := {
  EscapePath := escape path_ok;
  EscapeVersion := escape version_ok;
  UnescapePath := unescape path_ok;
  UnescapeVersion := unescape version_ok }.

Lemma upper_lower c :
  is_upper c -> byte_val (byte_of (byte_val c + 32)) = (byte_val c + 32)%Z /\
  (97 <= byte_val c + 32 <= 122)%Z.
Proof.
  unfold is_upper. intros Hc%Is_true_true. to_prop. rewrite byte_val_of, Z.mod_small; lia.
Qed.

Lemma unbang_bang s : "!"%char ∉ s -> unbang (bang s) = Some s.
Proof.
  induction s as [|c s IH]; intros Hs; [done|]. cbn [bang].
  destruct (is_upper c) eqn:Hc; cbn [unbang].
  - destruct (upper_lower c) as [Hv Hr]; [by rewrite Hc|].
    rewrite decide_True by done. rewrite Hv, (proj2 (Z.leb_le _ _)), (proj2 (Z.leb_le _ _)) by lia.
    rewrite IH by set_solver. cbn [andb mbind option_bind].
    replace (byte_val c + 32 - 32)%Z with (byte_val c) by lia. by rewrite byte_of_val.
  - rewrite decide_False by set_solver. rewrite Hc, IH by set_solver. done.
Qed.

Lemma bang_unbang e s : unbang e = Some s -> bang s = e.
Proof.
  remember (length e) as n eqn:Hn. revert e s Hn.
  induction n as [n IH] using lt_wf_ind. intros [|c e] s Hn; cbn [unbang]; [by intros [= <-]|].
  case_decide as Hc.
  - destruct e as [|d e]; [done|]. intros H. case_hyp H.
    destruct (unbang e) as [r|] eqn:Hr; simplify_eq/=. to_prop.
    assert (byte_val (byte_of (byte_val d - 32)) = byte_val d - 32)%Z as Hv
      by (rewrite byte_val_of, Z.mod_small; lia).
    unfold is_upper. rewrite Hv, (proj2 (Z.leb_le _ _)), (proj2 (Z.leb_le _ _)) by lia.
    cbn [andb]. replace (byte_val d - 32 + 32)%Z with (byte_val d) by lia.
    rewrite byte_of_val. do 2 f_equal. apply (IH (length e)); [simpl; lia|done..].
  - intros H. case_hyp H. destruct (unbang e) as [r|] eqn:Hr; simplify_eq/=.
    rewrite Heqb. f_equal. apply (IH (length e)); [simpl; lia|done..].
Qed.

Lemma bang_app a b : bang (a ++ b) = bang a ++ bang b.
Proof. induction a as [|c a IH]; [done|]. cbn [app bang]. case_match; cbn [app]; by rewrite IH. Qed.

(** A byte that escaping does not make comes from the unescaped string. *)
Lemma bang_in c s : c <> "!"%char -> ~ (97 <= byte_val c <= 122)%Z -> c ∈ bang s -> c ∈ s.
Proof.
  intros Hb Hl. induction s as [|d s IH]; cbn [bang]; [done|].
  destruct (is_upper d) eqn:Hd; [|set_solver].
  destruct (upper_lower d) as [Hv Hr]; [by rewrite Hd|].
  intros [?|[->|Hin]%elem_of_cons]%elem_of_cons; [done| |set_solver]. lia.
Qed.

Lemma bang_nil s : bang s = [] -> s = [].
Proof. destruct s; cbn [bang]; [done|]. by case_match. Qed.

Lemma escape_Ok ok s e : escape ok s = Ok e <-> ok s = true /\ e = bang s.
Proof. unfold escape. destruct (ok s); naive_solver. Qed.

Lemma unescape_Ok ok s e : unescape ok e = Ok s <-> unbang e = Some s /\ ok s = true.
Proof.
  unfold unescape. destruct (unbang e) as [r|]; [destruct (ok r) eqn:?|];
    split; intros; destruct_and?; simplify_eq; try done; congruence.
Qed.

Lemma path_ok_true s :
  path_ok s = true ->
  (exists a b, s = a ++ dot :: b /\ slash ∉ a) /\ "@"%char ∉ s /\ "!"%char ∉ s.
Proof.
  unfold path_ok. destruct (Cut s [dot]) as [[a b]|] eqn:Hc; [|done]. intros ?. to_prop.
  apply Cut_byte_Some in Hc as [-> _].
  split_and!; [by exists a, b|done..].
Qed.

Lemma version_ok_true s : version_ok s = true -> s <> [] /\ slash ∉ s /\ "!"%char ∉ s.
Proof. unfold version_ok. intros. by to_prop. Qed.

Lemma bang_notin c s : c <> "!"%char -> (byte_val c <? 97)%Z = true -> c ∉ s -> c ∉ bang s.
Proof. intros ?? Hn Hin. to_prop. apply Hn, bang_in; [done|lia|done]. Qed.

#[export] Instance bang_laws : ModEscapeLaws bang_escape.
Proof.
  split; cbn; intros a b.
  - intros [Hok ->]%escape_Ok. apply unescape_Ok. split; [|done].
    by apply unbang_bang, path_ok_true.
  - intros [Hok ->]%escape_Ok. apply unescape_Ok. split; [|done].
    by apply unbang_bang, version_ok_true.
  - intros [Hu Hok]%unescape_Ok. apply escape_Ok. split; [done|]. symmetry. by apply bang_unbang.
  - intros [Hu Hok]%unescape_Ok. apply escape_Ok. split; [done|]. symmetry. by apply bang_unbang.
  - intros [Hok ->]%escape_Ok. apply bang_notin; [done|done|by apply path_ok_true].
  - intros [Hok ->]%escape_Ok. apply path_ok_true in Hok as [(x & y & -> & Hx) _].
    exists (bang x), (bang y). rewrite bang_app. split; [done|].
    apply bang_notin; [done|done|done].
  - intros [Hok ->]%escape_Ok. apply version_ok_true in Hok as (Hne & Hs & _).
    split; [by intros Hn%bang_nil|]. apply bang_notin; [done|done|done].
  - intros [Hok _]%escape_Ok ->. done.
  - intros [Hok _]%escape_Ok ->. done.
Qed.
End BangEscape.
