(* ===== verification/StoreTree.v ===== *)
(** * The directory trees of modules

    What a store holds of a module, as the walks of the file system and of
    the remote store's server see it through [Readdir]. *)

From S2P Require Import Prelude GoStrings Store.

Local Open Scope gomodfs_scope.

Definition join_path (path name : bytes) : bytes :=
  if decide (path = []) then name else path ++ str "/" ++ name.

(** A directory tree, with the entry that each file or directory has in its
    parent. *)
Inductive tree : Type :=
  | Leaf
  | Dir (kids : list (Dirent * tree)).

Definition is_Dir (t : tree) : bool := match t with Leaf => false | Dir _ => true end.

Fixpoint depth (t : tree) : nat :=
  match t with
  | Leaf => 0
  | Dir kids => S ((fix go l := match l with [] => 0 | (_, k) :: l' => depth k `max` go l' end) kids)
  end.

(** The paths of the tree, a directory before what it holds. *)
Fixpoint paths (path : bytes) (t : tree) : list bytes :=
  path :: match t with
  | Leaf => []
  | Dir kids =>
      (fix go l := match l with
                   | [] => []
                   | (e, k) :: l' => paths (join_path path (d_Name e)) k ++ go l'
                   end) kids
  end.

Section holds.
Context {S H : Type} `{St : !Store S H}.

(** In state [s], the store holds tree [t] at [path] of module [mh]. *)
Fixpoint holds_tree (s : S) (mh : H) (path : bytes) (t : tree) : Prop :=
  match t with
  | Leaf => True
  | Dir kids =>
      Readdir mh path s = (Ok kids.*1, s) /\
      (fix go l := match l with
                   | [] => True
                   | (e, k) :: l' =>
                       mode_IsDir (d_Mode e) = is_Dir k /\
                       holds_tree s mh (join_path path (d_Name e)) k /\ go l'
                   end) kids
  end.
End holds.
