(* ===== verification/Paths.v ===== *)
(** * path.go and tsgo.go: what a path of the file system means

    [parsePath] and the functions it calls, with the memo tables the code
    keeps ([seenPairs], [funcSmallSet]) as explicit state, and the printing
    functions of gomodfs.go they are inverse to ([cdPath],
    [modVerZipPrefix]). *)

From S2P Require Import Prelude GoStrings Store.

Local Open Scope gomodfs_scope.

(** ** Tailscale Go toolchains (tsgo.go) *)

Record tsgoTriple := MkTriple { t_OS : bytes; t_Arch : bytes; t_Hash : bytes }.

#[export] Instance tsgoTriple_eq_dec : EqDecision tsgoTriple.
Proof. solve_decision. Defined.

#[export] Instance tsgoTriple_countable : Countable tsgoTriple.
Proof.
  apply (inj_countable' (fun t => (t_OS t, t_Arch t, t_Hash t)) (fun p => MkTriple p.1.1 p.1.2 p.2)).
  by intros [].
Defined.

Definition tsGoGeese : list bytes := [str "linux"; str "darwin"; str "windows"].
Definition tsGoGoarches : list bytes := [str "amd64"; str "arm64"].

Definition wkTSGoExtracted : bytes := str "tsgo.extracted".
Definition statusFile : bytes := str ".gomodfs-status".
Definition tsGoModule : bytes := str "github.com/tailscale/go".

Definition tsgoExtractedFileContents (hash : bytes) : bytes := hash ++ [nl].

Definition validTSGoOSARCH (goos goarch : bytes) : bool :=
  (bool_decide (goos = str "linux") || bool_decide (goos = str "darwin") ||
   bool_decide (goos = str "windows")) &&
  (bool_decide (goarch = str "amd64") || bool_decide (goarch = str "arm64")).

Definition isTSGoModule (mv : ModuleVersion) : option tsgoTriple :=
  if decide (Module mv <> tsGoModule) then None else
  rest ← CutPrefix (Version mv) (str "tsgo-");
  '(goos, rest) ← Cut rest (str "-");
  '(goarch, hash) ← Cut rest (str "-");
  Some (MkTriple goos goarch hash).

(** The functions that [funcSmallSet] memoizes. *)
Definition tsGoVersion (t : tsgoTriple) : bytes :=
  str "tsgo-" ++ t_OS t ++ str "-" ++ t_Arch t ++ str "-" ++ t_Hash t.
Definition tsGoZipRoot (t : tsgoTriple) : bytes :=
  str "tsgo-" ++ t_OS t ++ str "-" ++ t_Arch t ++ str "/" ++ t_Hash t.

(** ** Parsed paths (path.go) *)

Record gmPath := MkPath {
  WellKnown : bytes;
  NotExist : bool;
  CacheDownloadFileExt : bytes;
  InZip : bool;
  Path : bytes;
  ModVersion : ModuleVersion }.

Definition noMV : ModuleVersion := MkMV [] [].
Definition zeroPath : gmPath := MkPath [] false [] false [] noMV.

Definition set_NotExist (p : gmPath) : gmPath :=
  MkPath (WellKnown p) true (CacheDownloadFileExt p) (InZip p) (Path p) (ModVersion p).
Definition set_ModVersion (mv : ModuleVersion) (p : gmPath) : gmPath :=
  MkPath (WellKnown p) (NotExist p) (CacheDownloadFileExt p) (InZip p) (Path p) mv.

Definition isHexChar (r : ascii) : bool :=
  let z := byte_val r in
  ((48 <=? z) && (z <=? 57) || (97 <=? z) && (z <=? 102) || (65 <=? z) && (z <=? 70))%Z.

Definition parseTSGoPath (name : bytes) : gmPath :=
  match CutPrefix name (str "tsgo-") with None => zeroPath | Some name =>
  match Cut name (str "/") with None => zeroPath | Some (osHyphenArch, rest) =>
  match Cut osHyphenArch (str "-") with None => zeroPath | Some (goos, goarch) =>
  if negb (validTSGoOSARCH goos goarch) then set_NotExist zeroPath else
  let '(firstSeg, rest) := default (rest, []) (Cut rest (str "/")) in
  let '(hash, wantExtractedFile) :=
    match CutSuffix firstSeg (str ".extracted") with
    | Some hash => (hash, true)
    | None => (firstSeg, false)
    end in
  let ret := if decide (length hash = 40) then zeroPath else set_NotExist zeroPath in
  if negb (forallb isHexChar hash) then set_NotExist ret else
  let mv := MkMV tsGoModule (tsGoVersion (MkTriple goos goarch hash)) in
  if wantExtractedFile then MkPath wkTSGoExtracted (NotExist ret) [] false [] mv
  else MkPath [] (NotExist ret) [] true (TrimSuffix rest (str "/")) mv
  end end end.

(** [seenPairs]. *)
Abbreviation memo := (gmap (bytes * bytes) ModuleVersion).

Section paths.
Context `{E : ModEscape}.

(** [parseModVersion]; on failure the module version is what had been set. *)
Definition parseModVersion (escMod escVer : bytes) : st memo (ModuleVersion * bool) :=
  seenPairs <~ st_get ;;
  match seenPairs !! (escMod, escVer) with
  | Some mv => st_ret (mv, true)
  | None =>
      match UnescapePath escMod with
      | Err _ => st_ret (noMV, false)
      | Ok m =>
          match UnescapeVersion escVer with
          | Err _ => st_ret (MkMV m [], false)
          | Ok v =>
              _ <~ st_modify (<[(escMod, escVer) := MkMV m v]>) ;;
              st_ret (MkMV m v, true)
          end
      end
  end.

Definition parsePath (name : bytes) : st memo gmPath :=
  if decide (name = statusFile) then st_ret (MkPath statusFile false [] false [] noMV) else
  let base := path_Base name in
  let isDotFile := negb (bool_decide (name = [])) && HasPrefix base (str ".") in
  if HasPrefix name (str "tsgo-") then
    st_ret (if isDotFile then set_NotExist zeroPath else parseTSGoPath name)
  else
  match CutPrefix name (str "cache/download/") with
  | Some dlSuffix =>
      if isDotFile then st_ret (set_NotExist zeroPath) else
      match Cut dlSuffix (str "/@v/") with
      | None => st_ret zeroPath
      | Some (escMod, escVer) =>
          let ext := path_Ext escVer in
          if decide (ext = []) then st_ret zeroPath else
          if decide (ext = str ".mod" \/ ext = str ".ziphash" \/ ext = str ".info") then
            let ret := MkPath [] false (drop 1 ext) false [] noMV in
            let escVer := TrimSuffix escVer ext in
            r <~ parseModVersion escMod escVer ;;
            let ret := set_ModVersion r.1 ret in
            st_ret (if r.2 then ret else set_NotExist ret)
          else st_ret (set_NotExist zeroPath)
      end
  | None =>
      match Cut name (str "@") with
      | None => st_ret (if isDotFile then set_NotExist zeroPath else zeroPath)
      | Some (escMod, verAndPath) =>
          let '(escVer, path) := default (verAndPath, []) (Cut verAndPath (str "/")) in
          r <~ parseModVersion escMod escVer ;;
          st_ret (if r.2 : bool then MkPath [] false [] true (TrimSuffix path (str "/")) r.1
                  else set_NotExist (set_ModVersion r.1 zeroPath))
      end
  end.

(** ** Printing paths (gomodfs.go) *)

(** The error results of the escapes are dropped: they leave [""]. *)
Definition ok_or_empty (r : res bytes) : bytes := match r with Ok e => e | Err _ => [] end.

Definition cdPath (mv : ModuleVersion) (ext : bytes) : bytes :=
  let escMod := ok_or_empty (EscapePath (Module mv)) in
  let escVer := ok_or_empty (EscapeVersion (Version mv)) in
  str "cache/download/" ++ escMod ++ str "/@v/" ++ escVer ++ str "." ++ ext.

Definition modVerZipPrefix (mv : ModuleVersion) : res bytes :=
  match isTSGoModule mv with
  | Some trip => Ok (tsGoZipRoot trip)
  | None =>
      modEsc ← EscapePath (Module mv);
      verEsc ← EscapeVersion (Version mv);
      Ok (modEsc ++ str "@" ++ verEsc)
  end.

Definition joinSegs (s : list bytes) : bytes := join_byte slash s.
Definition splitSegs (s : bytes) : list bytes :=
  if decide (s = []) then [] else split_byte slash s.
End paths.

(** ** The memo table is transparent *)

Module MemoFacts.
Section facts.
Context `{E : ModEscape}.

(** Every entry of the table is the unescaping of its key. *)
Definition consistent (m : memo) : Prop :=
  forall em ev mv, m !! (em, ev) = Some mv ->
    UnescapePath em = Ok (Module mv) /\ UnescapeVersion ev = Ok (Version mv).

(** What [parseModVersion] computes when the table misses. *)
Definition unescape_pair (em ev : bytes) : ModuleVersion * bool :=
  match UnescapePath em with
  | Err _ => (noMV, false)
  | Ok m => match UnescapeVersion ev with Err _ => (MkMV m [], false) | Ok v => (MkMV m v, true) end
  end.

Lemma parseModVersion_spec m em ev :
  consistent m ->
  (parseModVersion em ev m).1 = unescape_pair em ev /\ consistent (parseModVersion em ev m).2.
Proof.
  intros Hm. unfold parseModVersion, st_bind, st_get, st_modify, st_ret, unescape_pair.
  destruct (m !! (em, ev)) as [mv|] eqn:Hl.
  - destruct (Hm _ _ _ Hl) as [-> ->]. by destruct mv.
  - destruct (UnescapePath em) eqn:Hp; [|done]. destruct (UnescapeVersion ev) eqn:Hv; [|done].
    split; [done|]. intros em' ev' mv'. csimpl.
    rewrite lookup_insert_Some. intros [[[= <- <-] <-]|[_ ?]]; [done|]. by apply Hm.
Qed.

Lemma consistent_empty : consistent ∅.
Proof. intros ???. by rewrite lookup_empty. Qed.

Lemma bind_parse m em ev {A} (f : ModuleVersion * bool -> A) :
  consistent m ->
  exists m', st_bind (parseModVersion em ev) (fun r => st_ret (f r)) m = (f (unescape_pair em ev), m') /\
    consistent m'.
Proof.
  intros Hm. destruct (parseModVersion_spec m em ev Hm) as [Hr Hc]. unfold st_bind, st_ret.
  destruct (parseModVersion em ev m) as [r m']. simpl in *. subst. eauto.
Qed.

Lemma parsePath_spec m name :
  consistent m ->
  (parsePath name m).1 = (parsePath name ∅).1 /\ consistent (parsePath name m).2.
Proof.
  intros Hm. unfold parsePath.
  repeat (case_match; try done);
    match goal with
    | |- context [st_bind (parseModVersion ?a ?b) (fun r => st_ret (@?f r)) m] =>
        destruct (bind_parse m a b f Hm) as (m1 & -> & ?);
        destruct (bind_parse ∅ a b f consistent_empty) as (m2 & -> & ?)
    end; done.
Qed.

(** The parse of a name, as any run computes it. *)
Definition parsed (name : bytes) : gmPath := (parsePath name ∅).1.

Fixpoint parse_all (names : list bytes) : st memo (list gmPath) :=
  match names with
  | [] => st_ret []
  | n :: names' => r <~ parsePath n ;; rs <~ parse_all names' ;; st_ret (r :: rs)
  end.
End facts.
End MemoFacts.
Export MemoFacts.

(** The memo table of path.go never changes a result: in any sequence of
    calls of [parsePath], each call returns what it returns on the empty
    table. *)
Theorem memo_transparent `{E : ModEscape} (names : list bytes) :
  (parse_all names ∅).1 = parsed <$> names.
Proof.
  assert (forall m, consistent m -> (parse_all names m).1 = parsed <$> names) as H;
    [|apply H, consistent_empty].
  induction names as [|n names IH]; intros m Hm; [done|].
  cbn [parse_all fmap list_fmap]. unfold st_bind, st_ret.
  destruct (parsePath_spec m n Hm) as [Hr Hm'].
  destruct (parsePath n m) as [r m']. simpl in *.
  specialize (IH m' Hm'). destruct (parse_all names m') as [rs m'']. simpl in *.
  by rewrite Hr, IH.
Qed.

(** ** Round trips *)

Module PathFacts.
Section facts.
Context `{L : ModEscapeLaws}.

Lemma HasPrefix_dot s : HasPrefix s (str ".") = bool_decide (head s = Some dot).
Proof.
  destruct s as [|c s]; [done|]. unfold HasPrefix, str. cbn.
  case_decide as Hc; [subst; by rewrite bool_decide_eq_true_2|].
  rewrite bool_decide_eq_false_2; [done|]. intros [= ->]. done.
Qed.

(** A name whose first element has a dot does not start with a directory
    that has none. *)
Lemma CutPrefix_elem a b w w' :
  slash ∉ a -> dot ∉ w -> CutPrefix (a ++ dot :: b) (w ++ slash :: w') = None.
Proof.
  intros Ha Hw. apply CutPrefix_None. intros [r Hr]. revert w Hw Hr.
  induction a as [|c a IH]; intros [|d w] Hw Hr; simplify_eq/=; [set_solver..|].
  apply (IH ltac:(set_solver) w); [set_solver|done].
Qed.

(** A prefix without [c] of a string cut at [c] is a prefix of its first part. *)
Lemma prefix_of_cut_at (p s : bytes) c t r :
  c ∉ p -> s ++ c :: t = p ++ r -> p `prefix_of` s.
Proof.
  revert s. induction p as [|d p IH]; intros s Hc Heq; [apply prefix_nil|].
  destruct s as [|e s]; simplify_eq/=; [set_solver|].
  apply prefix_cons. apply IH; [set_solver|done].
Qed.

Lemma HasPrefix_cut_at p s c t :
  c ∉ p -> CutPrefix s p = None -> HasPrefix (s ++ c :: t) p = false.
Proof.
  intros Hc Hs. unfold HasPrefix. destruct (CutPrefix (s ++ c :: t) p) as [r|] eqn:Hp; [|done].
  apply CutPrefix_Some in Hp. apply CutPrefix_None in Hs. destruct Hs.
  by eapply prefix_of_cut_at.
Qed.

Lemma unescape_pair_escaped mv em ev :
  EscapePath (Module mv) = Ok em -> EscapeVersion (Version mv) = Ok ev ->
  unescape_pair em ev = (mv, true).
Proof.
  intros Hm Hv. unfold unescape_pair.
  rewrite (Unescape_EscapePath _ _ Hm), (Unescape_EscapeVersion _ _ Hv). by destruct mv.
Qed.

Lemma run_parse em ev (f : ModuleVersion * bool -> gmPath) :
  (st_bind (parseModVersion em ev) (fun r => st_ret (f r)) ∅).1 = f (unescape_pair em ev).
Proof. destruct (bind_parse ∅ em ev f consistent_empty) as (m' & -> & _). done. Qed.

(** The paths made from the result of [parseModVersion]. *)
Definition cache_result (ext : bytes) (r : ModuleVersion * bool) : gmPath :=
  let ret := set_ModVersion r.1 (MkPath [] false ext false [] noMV) in
  if r.2 then ret else set_NotExist ret.
Definition module_result (path : bytes) (r : ModuleVersion * bool) : gmPath :=
  if r.2 then MkPath [] false [] true (TrimSuffix path (str "/")) r.1
  else set_NotExist (set_ModVersion r.1 zeroPath).

Lemma ext_cases ext :
  ext ∈ [str "mod"; str "ziphash"; str "info"] ->
  ext = str "mod" \/ ext = str "ziphash" \/ ext = str "info".
Proof. rewrite !elem_of_cons, elem_of_nil. tauto. Qed.

(** The steps of [parsePath] under ["cache/download/"]. *)
Lemma parsed_cache em ev ext :
  "@"%char ∉ em -> slash ∉ ev -> head ev <> Some dot -> ev <> [] ->
  ext ∈ [str "mod"; str "ziphash"; str "info"] ->
  parsed (str "cache/download/" ++ em ++ str "/@v/" ++ ev ++ str "." ++ ext) =
    cache_result ext (unescape_pair em ev).
Proof.
  intros Hem Hev Hdot Hne Hext. assert (slash ∉ ext /\ dot ∉ ext) as [Hes Hed]
    by (apply ext_cases in Hext as [->|[->| ->]]; split; by_decide).
  set (b := ev ++ str "." ++ ext). unfold parsed, parsePath.
  rewrite decide_False by done.
  assert (path_Base (str "cache/download/" ++ em ++ str "/@v/" ++ b) = b) as ->.
  { replace (str "cache/download/" ++ em ++ str "/@v/" ++ b)
      with ((str "cache/download/" ++ em ++ str "/@v") ++ slash :: b) by (by rewrite <- !app_assoc).
    apply path_Base_app; subst b; [by destruct ev|]. set_solver. }
  rewrite HasPrefix_dot, (bool_decide_eq_false_2 (head b = _)) by (subst b; by destruct ev).
  rewrite andb_false_r.
  change (HasPrefix (str "cache/download/" ++ _) (str "tsgo-")) with false. cbv iota.
  rewrite CutPrefix_app.
  change (str "/@v/" ++ b) with (slash :: "@"%char :: str "v/" ++ b).
  rewrite (Cut_second em slash "@"%char (str "v/")) by done.
  subst b. cbv zeta. change (str "." ++ ext) with (dot :: ext).
  rewrite path_Ext_elem by done. rewrite decide_False by done.
  rewrite decide_True by (apply ext_cases in Hext as [->|[->| ->]]; auto).
  rewrite TrimSuffix_app, run_parse. done.
Qed.

(** The steps of [parsePath] on a path below an escaped module root. *)
Lemma parsed_module em ev rest :
  "@"%char ∉ em -> slash ∉ ev -> (exists a b, em = a ++ dot :: b /\ slash ∉ a) ->
  CutPrefix em (str "tsgo-") = None -> rest = [] \/ head rest = Some slash ->
  parsed (em ++ str "@" ++ ev ++ rest) =
    module_result (drop 1 rest) (unescape_pair em ev).
Proof.
  intros Hem Hev (a & b & -> & Ha) Hts Hrest. unfold parsed, parsePath.
  assert ("@"%char ∉ statusFile) as Hst by by_decide.
  rewrite decide_False by (intros Heq; apply Hst; rewrite <-Heq; set_solver).
  change (str "@" ++ ev ++ rest) with ("@"%char :: ev ++ rest).
  rewrite (HasPrefix_cut_at (str "tsgo-")) by (done || by_decide).
  rewrite <-app_assoc.
  change (str "cache/download/") with (str "cache" ++ slash :: str "download/").
  rewrite <-app_comm_cons.
  rewrite (CutPrefix_elem a _ (str "cache")) by (done || by_decide).
  rewrite app_comm_cons, app_assoc.
  rewrite Cut_byte by done.
  assert (default (ev ++ rest, []) (Cut (ev ++ rest) (str "/")) = (ev, drop 1 rest)) as ->.
  { change (str "/") with [slash].
    destruct rest as [|c rest]; [by rewrite app_nil_r, Cut_byte_None|].
    destruct Hrest as [?|[= ->]]; [done|]. by rewrite Cut_byte. }
  by rewrite run_parse.
Qed.

Lemma valid_os_arch goos goarch :
  validTSGoOSARCH goos goarch = true ->
  "-"%char ∉ goos /\ slash ∉ goos /\ slash ∉ goarch /\ "-"%char ∉ goarch.
Proof.
  unfold validTSGoOSARCH. intros [Ho Ha]%andb_prop.
  repeat match goal with
  | H : _ || _ = true |- _ => apply orb_prop in H as [H|H]
  end; to_prop; subst; split_and!; by_decide.
Qed.

Lemma hex_no_dot_slash hash : forallb isHexChar hash = true -> dot ∉ hash /\ slash ∉ hash.
Proof.
  rewrite forallb_forall. intros Hh. split; intros Hin; apply list_elem_of_In, Hh in Hin; done.
Qed.

(** The steps of [parseTSGoPath] on a path below a toolchain's root. *)
Lemma parseTSGo_root t rest suffix :
  validTSGoOSARCH (t_OS t) (t_Arch t) = true ->
  forallb isHexChar (t_Hash t) = true -> length (t_Hash t) = 40 ->
  suffix = [] \/ suffix = str ".extracted" ->
  rest = [] \/ head rest = Some slash ->
  parseTSGoPath (tsGoZipRoot t ++ suffix ++ rest) =
    if decide (suffix = [])
    then MkPath [] false [] true (TrimSuffix (drop 1 rest) (str "/")) (MkMV tsGoModule (tsGoVersion t))
    else MkPath wkTSGoExtracted false [] false [] (MkMV tsGoModule (tsGoVersion t)).
Proof.
  intros Hv Hhex Hlen Hsuf Hrest. destruct t as [goos goarch hash]. cbn [t_OS t_Arch t_Hash] in *.
  destruct (valid_os_arch _ _ Hv) as (H1 & H2 & H3 & H4).
  destruct (hex_no_dot_slash _ Hhex) as [Hd Hs].
  unfold parseTSGoPath, tsGoZipRoot. cbn [t_OS t_Arch t_Hash].
  rewrite <- !app_assoc, CutPrefix_app.
  change (str "-" ++ goarch ++ ?x) with ("-"%char :: goarch ++ x).
  replace (goos ++ "-"%char :: goarch ++ str "/" ++ hash ++ suffix ++ rest)
    with ((goos ++ "-"%char :: goarch) ++ slash :: hash ++ suffix ++ rest)
    by (by rewrite <- !app_assoc).
  change (str "/") with [slash]. rewrite Cut_byte by (rewrite elem_of_app, elem_of_cons; intros [?|[?|?]]; done).
  change (str "-") with ["-"%char]. rewrite Cut_byte by done. rewrite Hv. cbn [negb].
  assert (default (hash ++ suffix ++ rest, []) (Cut (hash ++ suffix ++ rest) [slash])
          = (hash ++ suffix, drop 1 rest)) as ->.
  { assert (slash ∉ str ".extracted") by by_decide.
    assert (slash ∉ hash ++ suffix) by (destruct Hsuf as [->| ->];
      [by rewrite app_nil_r|rewrite elem_of_app; tauto]).
    rewrite app_assoc. destruct rest as [|c rest]; [by rewrite app_nil_r, Cut_byte_None|].
    destruct Hrest as [?|[= ->]]; [done|]. by rewrite Cut_byte. }
  destruct Hsuf as [->| ->].
  - rewrite app_nil_r. destruct (CutSuffix hash (str ".extracted")) as [r|] eqn:Hc.
    { apply CutSuffix_Some in Hc as ->. destruct Hd. set_solver. }
    rewrite Hhex. by rewrite !decide_True by done.
  - rewrite CutSuffix_app, Hhex. rewrite decide_True by done. by rewrite decide_False by done.
Qed.

Lemma unescape_pair_true em ev mv :
  unescape_pair em ev = (mv, true) ->
  EscapePath (Module mv) = Ok em /\ EscapeVersion (Version mv) = Ok ev.
Proof.
  unfold unescape_pair. destruct (UnescapePath em) eqn:Hp; [|done].
  destruct (UnescapeVersion ev) eqn:Hv; [|done]. intros [= <-]. cbn.
  split; [by apply Escape_UnescapePath|by apply Escape_UnescapeVersion].
Qed.

(** [root] is a directory that holds the files of [mv]: its escaped name,
    or its toolchain directory. *)
Definition is_root (mv : ModuleVersion) (root : bytes) : Prop :=
  (exists em ev, EscapePath (Module mv) = Ok em /\ EscapeVersion (Version mv) = Ok ev /\
     root = em ++ str "@" ++ ev) \/
  (exists t, mv = MkMV tsGoModule (tsGoVersion t) /\ root = tsGoZipRoot t /\
     validTSGoOSARCH (t_OS t) (t_Arch t) = true /\
     length (t_Hash t) = 40 /\ forallb isHexChar (t_Hash t) = true).

(** [name] is [root], or below it at [p]. *)
Definition below (root p name : bytes) : Prop :=
  (name = root /\ p = []) \/ exists rest, name = root ++ slash :: rest /\ p = TrimSuffix rest (str "/").

Lemma below_cut root s c t :
  default (s, []) (Cut s (str "/")) = (c, t) -> below (root ++ c) (TrimSuffix t (str "/")) (root ++ s).
Proof.
  change (str "/") with [slash]. destruct (Cut s [slash]) as [[a b]|] eqn:Hc; intros [= <- <-].
  - apply Cut_byte_Some in Hc as [-> _]. right. exists b. by rewrite <-app_assoc.
  - by left.
Qed.

(** What [parsePath] accepts without finding anything in it: a path, not of
    a dotfile, of a toolchain without its hash, of the download cache
    without a module's file, or without a version. *)
Definition toolchain_dir (name : bytes) : Prop :=
  exists os arch rest, slash ∉ os ++ arch /\ name = str "tsgo-" ++ os ++ str "-" ++ arch ++ slash :: rest.
Definition nothing_named (name : bytes) : Prop :=
  name = [] \/ HasPrefix (path_Base name) (str ".") = false /\
    (HasPrefix name (str "tsgo-") = true /\ ~ toolchain_dir name \/
     (exists dl, name = str "cache/download/" ++ dl /\
       forall em ev, Cut dl (str "/@v/") = Some (em, ev) -> path_Ext ev = []) \/
     "@"%char ∉ name).

Lemma parseTSGo_sound name :
  let r := parseTSGoPath name in
  HasPrefix name (str "tsgo-") = true -> NotExist r = false ->
  r = zeroPath /\ ~ toolchain_dir name \/
  (exists mv root p, is_root mv root /\
     (r = MkPath [] false [] true p mv /\ below root p name \/
      r = MkPath wkTSGoExtracted false [] false [] mv /\ below (root ++ str ".extracted") p name)).
Proof.
  cbv zeta. unfold parseTSGoPath, HasPrefix.
  destruct (CutPrefix name (str "tsgo-")) as [s|] eqn:H1; [intros _|done]. apply CutPrefix_Some in H1 as ->.
  assert (forall os arch rest, slash ∉ os ++ arch -> str "tsgo-" ++ s = str "tsgo-" ++ os ++ str "-" ++ arch ++ slash :: rest ->
    Cut s [slash] = Some (os ++ str "-" ++ arch, rest)) as Hform.
  { intros os arch rest Hs Heq. apply (inj (app _)) in Heq as ->. rewrite 2!app_assoc, <- (app_assoc os), Cut_byte; [done|].
    rewrite not_elem_of_app in Hs. rewrite !not_elem_of_app. split_and!; [tauto|by_decide|tauto]. }
  destruct (Cut s (str "/")) as [[osarch rest]|] eqn:H2.
  2:{ intros _. left. split; [done|]. intros (os & arch & rest & Hs & Heq). change (str "/") with [slash] in H2.
      by rewrite (Hform _ _ _ Hs Heq) in H2. }
  destruct (Cut osarch (str "-")) as [[goos goarch]|] eqn:H3.
  2:{ intros _. left. split; [done|]. intros (os & arch & rest' & Hs & Heq). change (str "/") with [slash] in H2.
      rewrite (Hform _ _ _ Hs Heq) in H2. injection H2 as <- _. apply Cut_None_notin in H3. set_solver. }
  clear Hform. apply (Cut_byte_Some _ slash) in H2 as [-> _].
  apply (Cut_byte_Some _ "-"%char) in H3 as [-> _].
  destruct (validTSGoOSARCH goos goarch) eqn:Hv; [cbn [negb]|done].
  destruct (default (rest, []) (Cut rest (str "/"))) as [seg rest'] eqn:H4.
  set (pre := str "tsgo-" ++ goos ++ str "-" ++ goarch ++ str "/").
  assert (str "tsgo-" ++ (goos ++ "-"%char :: goarch) ++ slash :: rest = pre ++ rest) as ->.
  { unfold pre. by rewrite <- !app_assoc. }
  pose proof (below_cut pre _ _ _ H4) as Hb.
  assert (forall hash, length hash = 40 -> forallb isHexChar hash = true ->
    is_root (MkMV tsGoModule (tsGoVersion (MkTriple goos goarch hash))) (pre ++ hash)) as Hroot.
  { intros hash Hl Hh. right. exists (MkTriple goos goarch hash). split_and!; try done.
    unfold tsGoZipRoot, pre. cbn [t_OS t_Arch t_Hash]. by rewrite <- !app_assoc. }
  destruct (CutSuffix seg (str ".extracted")) as [hash|] eqn:H5.
  - apply CutSuffix_Some in H5 as ->. rewrite app_assoc in Hb.
    destruct (forallb isHexChar hash) eqn:Hh; [cbn [negb]|by case_decide].
    case_decide; [|done]. cbn. intros _. right. eexists _, _, _. split; [by apply Hroot|]. right. by split.
  - destruct (forallb isHexChar seg) eqn:Hh; [cbn [negb]|by case_decide].
    case_decide; [|done]. cbn. intros _. right. eexists _, _, _. split; [by apply Hroot|]. left. by split.
Qed.
End facts.
End PathFacts.
Export PathFacts.

(** C7: printing a cache file's path and parsing it back gives the module
    version and the extension, for every module version that
    golang.org/x/mod/module can escape and whose version does not begin with
    a dot. *)
Theorem parse_cdPath `{L : ModEscapeLaws} mv em ev ext :
  EscapePath (Module mv) = Ok em -> EscapeVersion (Version mv) = Ok ev ->
  head ev <> Some dot -> ext ∈ [str "mod"; str "ziphash"; str "info"] ->
  parsed (cdPath mv ext) = MkPath [] false ext false [] mv.
Proof.
  intros Hm Hv Hd Hext. unfold cdPath. rewrite Hm, Hv. cbn [ok_or_empty].
  destruct (EscapeVersion_elem _ _ Hv). rewrite parsed_cache; try done.
  - by rewrite (unescape_pair_escaped mv).
  - by eapply EscapePath_at.
Qed.

Import BangEscape.

Lemma parse_cdPath_witness :
  parsed (cdPath (MkMV (str "github.com/AzureAD/x") (str "v1.2.1")) (str "ziphash")) =
  MkPath [] false (str "ziphash") false [] (MkMV (str "github.com/AzureAD/x") (str "v1.2.1")).
Proof.
  apply (parse_cdPath _ (str "github.com/!azure!a!d/x") (str "v1.2.1")); [reflexivity..|done|by_decide].
Defined.

(** C8: printing the directory of a module version ([modVerZipPrefix]) and
    parsing it back, alone or with a path below it, gives the module version
    and that path (less a trailing slash).  The module's path must not begin
    with ["tsgo-"], which [parsePath] takes for a toolchain. *)
Theorem parse_modVerZipPrefix `{L : ModEscapeLaws} mv root rest :
  isTSGoModule mv = None -> modVerZipPrefix mv = Ok root -> CutPrefix root (str "tsgo-") = None ->
  parsed root = MkPath [] false [] true [] mv /\
  parsed (root ++ str "/" ++ rest) = MkPath [] false [] true (TrimSuffix rest (str "/")) mv.
Proof.
  intros Hts Hroot Hpre. unfold modVerZipPrefix in Hroot. rewrite Hts in Hroot.
  destruct (EscapePath (Module mv)) as [em|] eqn:Hm; [|done].
  destruct (EscapeVersion (Version mv)) as [ev|] eqn:Hv; [|done]. cbn [mbind res_bind] in Hroot.
  assert (root = em ++ str "@" ++ ev) as -> by congruence. destruct (EscapeVersion_elem _ _ Hv) as [_ Hs].
  assert (CutPrefix em (str "tsgo-") = None) as Hpre'.
  { apply CutPrefix_None in Hpre. apply CutPrefix_None. intros ?. by apply Hpre, prefix_app_r. }
  split.
  - rewrite <-(app_nil_r ev). rewrite parsed_module; try done;
      [|by eapply EscapePath_at|by eapply EscapePath_dot|by left].
    by rewrite (unescape_pair_escaped mv).
  - rewrite <- !app_assoc. rewrite parsed_module; try done;
      [|by eapply EscapePath_at|by eapply EscapePath_dot|by right].
    by rewrite (unescape_pair_escaped mv).
Qed.

Lemma parse_modVerZipPrefix_witness :
  let mv := MkMV (str "github.com/DataDog/zstd") (str "v1.4.5") in
  parsed (str "github.com/!data!dog/zstd@v1.4.5") = MkPath [] false [] true [] mv /\
  parsed (str "github.com/!data!dog/zstd@v1.4.5" ++ str "/" ++ str "a/b/") =
    MkPath [] false [] true (TrimSuffix (str "a/b/") (str "/")) mv.
Proof. intros mv. apply (parse_modVerZipPrefix mv); reflexivity. Defined.

(** The same for a Tailscale Go toolchain (a supported OS and
    architecture and a 40-digit hash): its root directory, a path below it
    that does not end in a dot file, and its ".extracted" marker. *)
Theorem parse_tsGoZipRoot `{E : ModEscape} t :
  validTSGoOSARCH (t_OS t) (t_Arch t) = true ->
  forallb isHexChar (t_Hash t) = true -> length (t_Hash t) = 40 ->
  let mv := MkMV tsGoModule (tsGoVersion t) in
  isTSGoModule mv = Some t /\ modVerZipPrefix mv = Ok (tsGoZipRoot t) /\
  parsed (tsGoZipRoot t) = MkPath [] false [] true [] mv /\
  parsed (tsGoZipRoot t ++ str ".extracted") = MkPath wkTSGoExtracted false [] false [] mv /\
  forall rest, HasPrefix (path_Base (tsGoZipRoot t ++ str "/" ++ rest)) (str ".") = false ->
    parsed (tsGoZipRoot t ++ str "/" ++ rest) =
    MkPath [] false [] true (TrimSuffix rest (str "/")) mv.
Proof.
  intros Hv Hh Hl mv.
  assert (forall x, HasPrefix (path_Base (tsGoZipRoot t ++ x)) (str ".") = false ->
    parsed (tsGoZipRoot t ++ x) = parseTSGoPath (tsGoZipRoot t ++ x)) as Hp.
  { intros x Hx. unfold parsed, parsePath. rewrite decide_False by done. by rewrite Hx, andb_false_r. }
  destruct (hex_no_dot_slash _ Hh) as [Hd Hs]. destruct (valid_os_arch _ _ Hv) as (H1 & H2 & H3 & H4).
  assert (forall x, slash ∉ x -> HasPrefix (path_Base (tsGoZipRoot t ++ x)) (str ".") = false) as Hbase.
  { intros x Hx. unfold tsGoZipRoot.
    replace ((str "tsgo-" ++ t_OS t ++ str "-" ++ t_Arch t ++ str "/" ++ t_Hash t) ++ x)
      with ((str "tsgo-" ++ t_OS t ++ str "-" ++ t_Arch t) ++ slash :: t_Hash t ++ x)
      by (by rewrite <- !app_assoc).
    rewrite path_Base_app; [|by destruct (t_Hash t)|by rewrite elem_of_app; tauto].
    rewrite HasPrefix_dot. apply bool_decide_eq_false_2. destruct (t_Hash t); [done|].
    intros [= ->]. set_solver. }
  assert (isTSGoModule mv = Some t) as Hts.
  { unfold isTSGoModule, mv, tsGoVersion. cbn [Module Version]. rewrite decide_False by tauto.
    rewrite CutPrefix_app. cbn [mbind option_bind].
    change (Cut (t_OS t ++ str "-" ++ ?x) (str "-")) with (Cut (t_OS t ++ "-"%char :: x) ["-"%char]).
    rewrite Cut_byte by done. cbn [mbind option_bind].
    change (Cut (t_Arch t ++ str "-" ++ ?x) (str "-")) with (Cut (t_Arch t ++ "-"%char :: x) ["-"%char]).
    rewrite Cut_byte by done. by destruct t. }
  pose proof (fun suffix rest => parseTSGo_root t rest suffix Hv Hh Hl) as Hr.
  split_and!; [done|by unfold modVerZipPrefix; rewrite Hts| | |].
  - specialize (Hr [] [] ltac:(by left) ltac:(by left)). 
    specialize (Hp [] ltac:(apply Hbase; set_solver)). cbn [app] in Hr.
    rewrite app_nil_r in Hr, Hp. by rewrite Hp, Hr.
  - specialize (Hr (str ".extracted") [] ltac:(by right) ltac:(by left)).
    rewrite app_nil_r in Hr. rewrite Hp, Hr; [done|]. apply Hbase. by_decide.
  - intros rest Hb. specialize (Hr [] (slash :: rest) ltac:(by left) ltac:(by right)).
    rewrite Hp by done. exact Hr.
Qed.

Lemma parse_tsGoZipRoot_witness :
  let t := MkTriple (str "linux") (str "arm64") (str "1cd3bf1a6eaf559aa8c00e749289559c884cef09") in
  isTSGoModule (MkMV tsGoModule (tsGoVersion t)) = Some t /\
  parsed (tsGoZipRoot t ++ str "/" ++ str "bin/") =
    MkPath [] false [] true (TrimSuffix (str "bin/") (str "/")) (MkMV tsGoModule (tsGoVersion t)).
Proof.
  intros t. destruct (parse_tsGoZipRoot t) as (H1 & _ & _ & _ & H2); [done..|].
  split; [exact H1|]. by apply H2.
Defined.

(** C9: all that [parsePath] accepts.  When it does not report [NotExist]
    the whole result is one of five: the status file, for its name; a cache
    file of a module version, for the path that [cdPath] prints; a path in a
    zip, for a root of the module version or a path below it, of which the
    result's [Path] is what follows; a toolchain's marker, for
    "<root>.extracted", or, though no such path is ever printed, for any
    path below it; or nothing at all, for a path that is no dotfile and that
    names no file yet: a toolchain's without its hash, one in the download
    cache without a module's file, or one without an "@". *)
Theorem parsePath_sound `{L : ModEscapeLaws} name :
  let r := parsed name in
  NotExist r = false ->
  (name = statusFile /\ r = MkPath statusFile false [] false [] noMV) \/
  (exists mv ext, ext ∈ [str "mod"; str "ziphash"; str "info"] /\
     name = cdPath mv ext /\ r = MkPath [] false ext false [] mv) \/
  (exists mv root p, is_root mv root /\ below root p name /\ r = MkPath [] false [] true p mv) \/
  (exists mv root p, is_root mv root /\ below (root ++ str ".extracted") p name /\
     r = MkPath wkTSGoExtracted false [] false [] mv) \/
  (nothing_named name /\ r = zeroPath).
Proof.
  cbv zeta. unfold parsed, parsePath. destruct (decide (name = statusFile)) as [->|]; [intros _; by left|].
  set (dot := negb (bool_decide (name = [])) && HasPrefix (path_Base name) (str ".")).
  assert (dot = false -> name = [] \/ HasPrefix (path_Base name) (str ".") = false) as Hdot.
  { unfold dot. destruct (decide (name = [])); [by left|]. rewrite bool_decide_eq_false_2 by done. by right. }
  destruct (HasPrefix name (str "tsgo-")) eqn:Hts.
  { destruct dot; [done|]. cbn [st_ret fst]. intros Hne.
    destruct (parseTSGo_sound name Hts Hne) as [[Hr Hn]|(mv & root & p & Hroot & [[Hr Hb]|[Hr Hb]])].
    - do 4 right. split; [|done]. destruct (Hdot eq_refl); [by left|]. right. split; [done|]. by left.
    - right; right; left. eauto 6.
    - right; right; right; left. eauto 6. }
  destruct (CutPrefix name (str "cache/download/")) as [dl|] eqn:Hdl.
  - apply CutPrefix_Some in Hdl. destruct dot; [done|].
    assert ((forall em ev, Cut dl (str "/@v/") = Some (em, ev) -> path_Ext ev = []) -> nothing_named name) as Hnone.
    { intros Hx. destruct (Hdot eq_refl); [by left|]. right. split; [done|]. right. left. by exists dl. }
    destruct (Cut dl (str "/@v/")) as [[em ev]|] eqn:Hcut; [|intros _; do 4 right; split; [by apply Hnone|done]].
    apply Cut_Some in Hcut as ->. cbv zeta.
    case_decide as He; [intros _; do 4 right; split; [apply Hnone; by intros ? ? [= <- <-]|done]|].
    case_decide as Hext; [|done]. rewrite run_parse. destruct (path_Ext_suffix ev) as [x Hx].
    destruct (unescape_pair em (TrimSuffix ev (path_Ext ev))) as [mv ok] eqn:Hu. cbn [fst snd].
    destruct ok; [|done]. intros _. right; left. apply unescape_pair_true in Hu as [Hm Hv].
    exists mv, (drop 1 (path_Ext ev)). split; [by destruct Hext as [->|[->| ->]]; by_decide|]. split; [|done].
    rewrite Hdl. unfold cdPath. rewrite Hm, Hv.
    rewrite Hx at 2. rewrite TrimSuffix_app. cbn [ok_or_empty]. do 2 f_equal.
    rewrite Hx at 1. f_equal. f_equal. by destruct Hext as [->|[->| ->]].
  - destruct (Cut name (str "@")) as [[em vp]|] eqn:Hcut.
    2:{ destruct dot; [done|]. intros _. do 4 right. split; [|done]. destruct (Hdot eq_refl); [by left|]. right.
        split; [done|]. do 2 right. by apply Cut_None_notin. }
    apply Cut_Some in Hcut as Hname. destruct (default (vp, []) (Cut vp (str "/"))) as [ev p] eqn:Hp.
    rewrite run_parse. destruct (unescape_pair em ev) as [mv ok] eqn:Hu. cbn [fst snd].
    destruct ok; [|done]. intros _. right; right; left.
    apply unescape_pair_true in Hu as [Hm Hv]. exists mv, (em ++ str "@" ++ ev), (TrimSuffix p (str "/")).
    split; [left; eauto|]. split; [|done].
    apply (below_cut (em ++ str "@")) in Hp. by rewrite <- !app_assoc, <- Hname in Hp.
Qed.

Lemma parsePath_sound_witness :
  let name := str "github.com/!data!dog/zstd@v1.4.5/a/b" in
  NotExist (parsed name) = false /\
  exists root, is_root (MkMV (str "github.com/DataDog/zstd") (str "v1.4.5")) root /\
    below root (str "a/b") name.
Proof.
  intros name. split; [reflexivity|].
  destruct (parsePath_sound name) as [[H _]|[(mv & ext & _ & _ & H)|[(mv & root & p & Hr & Hb & H)|[(mv & root & p & _ & _ & H)|[_ H]]]]];
    [reflexivity|discriminate H..| |discriminate H|discriminate H].
  injection H as <- <-. eauto.
Defined.

(** A path below a toolchain's marker, which is a file, is taken for the
    marker. *)
Example tsgo_below_marker :
  let name := str "tsgo-linux-amd64/1cd3bf1a6eaf559aa8c00e749289559c884cef09.extracted/any/thing" in
  NotExist (parsed name) = false /\ WellKnown (parsed name) = wkTSGoExtracted.
Proof. split; reflexivity. Qed.

(** A toolchain path whose hash has not 40 digits: the result is marked as
    both not existing and in a zip, and names a module version. *)
Example tsgo_short_hash :
  parsed (str "tsgo-linux-amd64/abc/x") =
  MkPath [] true [] true (str "x") (MkMV tsGoModule (str "tsgo-linux-amd64-abc")).
Proof. reflexivity. Qed.

(** A module whose path begins with "tsgo-" is taken for a toolchain. *)
Example tsgo_module_path :
  modVerZipPrefix (MkMV (str "tsgo-x.com/m") (str "v1.0.0")) = Ok (str "tsgo-x.com/m@v1.0.0") /\
  parsed (str "tsgo-x.com/m@v1.0.0") = zeroPath.
Proof. split; reflexivity. Qed.

(** ** [funcSmallSet] under concurrent callers

    Every caller runs the returned closure for one key; a step is one access
    to [latestMap] or to [mu].  A schedule is the list of the callers in the
    order they step. *)

Module SmallSet.
Section small_set.
Context {K V : Type} `{Countable K} (f : K -> V).

(** Where a caller is: before the first load, before [mu.Lock()], before the
    second load, holding the snapshot it will extend with [f k], before the
    deferred unlock, and returned. *)
Inductive pc : Type :=
  | PLoad (k : K)
  | PLock (k : K)
  | PReload (k : K)
  | PFill (k : K) (latest : option (gmap K V))
  | PUnlock (k : K) (v : V)
  | PDone (k : K) (v : V).

Record state := State {
  latestMap : option (gmap K V);
  mu : option nat;
  callers : gmap nat pc;
  calls : list K }.

Definition hit (m : option (gmap K V)) (k : K) : option V := default ∅ m !! k.

Definition goto (t : nat) (p : pc) (s : state) : state :=
  State (latestMap s) (mu s) (<[t := p]> (callers s)) (calls s).

(** A step of caller [t]; [None] when it cannot step.  [calls] records the
    keys that [f] is called with. *)
Definition funcSmallSet (t : nat) (s : state) : option state :=
  p ← callers s !! t;
  match p with
  | PLoad k =>
      match hit (latestMap s) k with
      | Some v => Some (goto t (PDone k v) s)
      | None => Some (goto t (PLock k) s)
      end
  | PLock k =>
      match mu s with
      | Some _ => None
      | None => Some (State (latestMap s) (Some t) (<[t := PReload k]> (callers s)) (calls s))
      end
  | PReload k =>
      match hit (latestMap s) k with
      | Some v => Some (goto t (PUnlock k v) s)
      | None => Some (State (latestMap s) (mu s)
                        (<[t := PFill k (latestMap s)]> (callers s)) (k :: calls s))
      end
  | PFill k latest =>
      let v := f k in
      let clone := default ∅ latest in
      Some (State (Some (<[k := v]> clone)) (mu s) (<[t := PUnlock k v]> (callers s)) (calls s))
  | PUnlock k v =>
      Some (State (latestMap s) None (<[t := PDone k v]> (callers s)) (calls s))
  | PDone _ _ => None
  end.

(** A caller that cannot step leaves the state as it is. *)
Fixpoint run (sched : list nat) (s : state) : state :=
  match sched with
  | [] => s
  | t :: sched' => run sched' (default s (funcSmallSet t s))
  end.

Definition init (keys : list K) : state :=
  State None None (map_imap (fun _ k => Some (PLoad k)) (list_to_map (imap pair keys))) [].

Definition holds_lock (p : pc) : Prop :=
  match p with PReload _ | PFill _ _ | PUnlock _ _ => True | _ => False end.

(** What a caller at each place may rely on. *)
Definition pc_ok (s : state) (p : pc) : Prop :=
  match p with
  | PFill k latest => latest = latestMap s /\ hit (latestMap s) k = None
  | PUnlock k v | PDone k v => hit (latestMap s) k = Some v
  | _ => True
  end.

Record inv (s : state) : Prop := {
  inv_map : forall k v, hit (latestMap s) k = Some v -> v = f k;
  inv_pc : forall t p, callers s !! t = Some p -> pc_ok s p;
  inv_mu : forall t p, callers s !! t = Some p -> holds_lock p -> mu s = Some t;
  inv_nodup : NoDup (calls s);
  inv_calls : forall k, k ∈ calls s ->
    is_Some (hit (latestMap s) k) \/ exists t, callers s !! t = Some (PFill k (latestMap s)) }.

Lemma inv_goto s t p :
  inv s -> pc_ok s p -> (holds_lock p -> mu s = Some t) ->
  (forall k l, callers s !! t <> Some (PFill k l)) -> inv (goto t p s).
Proof.
  intros [Hm Hpc Hmu Hnd Hc] Hp Hl Hnf. split; cbn; try done.
  - intros t' p'. rewrite lookup_insert_Some. intros [[<- <-]|[_ Hx]]; [done|by apply (Hpc t')].
  - intros t' p'. rewrite lookup_insert_Some. intros [[<- <-]|[_ Hx]]; [done|by apply Hmu].
  - intros k Hk. destruct (Hc k Hk) as [?|[t' Ht']]; [by left|right]. exists t'.
    rewrite lookup_insert_ne; [done|]. intros ->. by apply (Hnf k (latestMap s)).
Qed.

Ltac by_goto := apply inv_goto; [done|done|cbn; first [done|by intros []]|intros ?? Hx; congruence].

Lemma step_inv t s s' : inv s -> funcSmallSet t s = Some s' -> inv s'.
Proof.
  intros Hi Hs. unfold funcSmallSet in Hs.
  destruct (callers s !! t) as [p|] eqn:Ht; [cbn in Hs|done].
  pose proof Hi as [Hm Hpc Hmu Hnd Hc]. pose proof (Hpc t p Ht) as Hp.
  pose proof (Hmu t p Ht) as Hl. destruct p as [k|k|k|k latest|k v|k v]; cbn in Hp, Hl.
  - destruct (hit (latestMap s) k) as [v|] eqn:Hh; injection Hs as <-; by_goto.
  - destruct (mu s) eqn:Hmu0; [done|]. injection Hs as <-.
    assert (forall t' p', callers s !! t' = Some p' -> ~ holds_lock p') as Hno
      by (intros t' p' Hx Hh; by specialize (Hmu t' p' Hx Hh)).
    apply (inv_goto (State (latestMap s) (Some t) (callers s) (calls s)) t (PReload k));
      [|done|done|cbn; intros ?? Hx; congruence].
    split; cbn; try done. intros t' p' Hx Hh. by destruct (Hno _ _ Hx).
  - specialize (Hl I). destruct (hit (latestMap s) k) as [v|] eqn:Hh; injection Hs as <-;
      [by_goto|]. split; cbn; try done.
    + intros t' p'. rewrite lookup_insert_Some. intros [[<- <-]|[_ Hx]]; [done|by apply (Hpc t')].
    + intros t' p'. rewrite lookup_insert_Some. intros [[<- <-]|[_ Hx]]; [done|by apply Hmu].
    + constructor; [|done]. intros [Hk|[t' Ht']]%Hc; [by rewrite Hh in Hk; destruct Hk|].
      assert (mu s = Some t') as Heq by (by apply (Hmu t' _ Ht')). simplify_eq.
    + intros k' [->|Hk]%elem_of_cons; [right; exists t; by rewrite lookup_insert_eq|].
      destruct (Hc k' Hk) as [?|[t' Ht']]; [by left|].
      assert (mu s = Some t') as Heq by (by apply (Hmu t' _ Ht')). simplify_eq.
  - destruct Hp as [-> Hh]. specialize (Hl I). injection Hs as <-.
    set (m := default ∅ (latestMap s)) in *.
    assert (forall k' v', hit (latestMap s) k' = Some v' -> <[k := f k]> m !! k' = Some v') as Hmono.
    { intros k' v' Hk'. rewrite lookup_insert_ne; [done|]. intros ->. unfold hit in *. fold m in Hh, Hk'. congruence. }
    split; unfold hit; cbn.
    + intros k' v'. rewrite lookup_insert_Some. intros [[<- <-]|[_ ?]]; [done|by apply Hm].
    + intros t' p'. rewrite lookup_insert_Some. intros [[<- <-]|[Hne Hx]].
      * cbn. unfold hit. cbn. by rewrite lookup_insert_eq.
      * specialize (Hpc _ _ Hx). destruct p'; cbn in *; unfold hit; cbn; auto.
        assert (mu s = Some t') by (by apply (Hmu t' _ Hx)). congruence.
    + intros t' p'. rewrite lookup_insert_Some. intros [[<- <-]|[_ Hx]]; [done|by apply Hmu].
    + done.
    + intros k' Hk'. destruct (decide (k = k')) as [<-|Hne]; [left; by rewrite lookup_insert_eq|].
      destruct (Hc k' Hk') as [[v' Hv']|[t' Ht']]; [left; rewrite (Hmono _ v') by done; eauto|].
      assert (mu s = Some t') by (by apply (Hmu t' _ Ht')). simplify_eq.
  - specialize (Hl I). injection Hs as <-. split; cbn; try done.
    + intros t' p'. rewrite lookup_insert_Some. intros [[<- <-]|[_ Hx]]; [done|by apply (Hpc t')].
    + intros t' p'. rewrite lookup_insert_Some. intros [[<- <-]|[Hne Hx]]; [done|].
      intros Hh. specialize (Hmu _ _ Hx Hh). congruence.
    + intros k' Hk'. destruct (Hc k' Hk') as [?|[t' Ht']]; [by left|right]. exists t'.
      rewrite lookup_insert_ne; [done|]. intros ->. congruence.
  - done.
Qed.

Lemma init_inv keys : inv (init keys).
Proof.
  assert (forall t p, callers (init keys) !! t = Some p -> exists k, p = PLoad k) as Hp.
  { intros t p. unfold init. cbn. rewrite map_lookup_imap.
    destruct (list_to_map _ !! t) as [k|]; cbn; intros [= <-]. eauto. }
  split; unfold hit; cbn.
  - intros k v. by rewrite lookup_empty.
  - intros t p [k ->]%Hp. done.
  - intros t p [k ->]%Hp. done.
  - constructor.
  - intros k Hk. by apply elem_of_nil in Hk.
Qed.

Lemma run_inv sched s : inv s -> inv (run sched s).
Proof.
  revert s. induction sched as [|t sched IH]; intros s Hs; [done|]. cbn [run]. apply IH.
  destruct (funcSmallSet t s) as [s'|] eqn:Hst; [by eapply step_inv|done].
Qed.
End small_set.
End SmallSet.

(** C12: the function that [funcSmallSet] returns is [f], for any number of
    concurrent callers under any interleaving of their accesses to the map
    and the mutex: a caller that has returned returned [f k], [f] was called
    at most once for each key, and no value that was stored is lost. *)
Theorem funcSmallSet_memoizes {K V} `{Countable K} (f : K -> V) keys sched :
  let s := SmallSet.run f sched (SmallSet.init keys) in
  (forall t k v, SmallSet.callers s !! t = Some (SmallSet.PDone k v) ->
     v = f k /\ SmallSet.hit (SmallSet.latestMap s) k = Some v) /\
  NoDup (SmallSet.calls s) /\
  (forall k v, SmallSet.hit (SmallSet.latestMap s) k = Some v -> v = f k).
Proof.
  intros s. destruct (SmallSet.run_inv f sched _ (SmallSet.init_inv f keys)) as [Hm Hpc _ Hnd _].
  split_and!; [|done|done]. intros t k v Ht. pose proof (Hpc _ _ Ht) as Hh. split; [|done]. by apply Hm.
Qed.
