(* ===== verification/PathDir.v ===== *)
(** * Walking up a relative path with path.Dir

    [path.Dir] of a relative path is shorter than the path, until it is
    ["."]: why the loops over parent directories end.  And the paths that
    are joined from good elements, which [path.Dir] takes apart. *)

From S2P Require Import Prelude GoStrings.

Definition relative (s : bytes) : Prop := head s <> Some slash.

(** An element of a cleaned path. *)
Definition elem_ok (w : bytes) : Prop := w <> [] /\ slash ∉ w.

Definition weight (l : list bytes) : nat := sum_list (S ∘ length <$> l).
Definition nonempty (l : list bytes) : list bytes := filter (fun w => w <> []) l.

Lemma weight_cons w l : weight (w :: l) = S (length w) + weight l.
Proof. done. Qed.

Lemma weight_reverse l : weight (reverse l) = weight l.
Proof. unfold weight. by rewrite (reverse_Permutation l). Qed.

Lemma length_join c l : length (join_byte c l) = pred (weight l).
Proof.
  induction l as [|w l IH]; [done|]. destruct l as [|w' l]; [cbn; lia|].
  change (join_byte c (w :: w' :: l)) with (w ++ c :: join_byte c (w' :: l)).
  rewrite length_app, weight_cons. cbn [length]. rewrite IH, weight_cons. lia.
Qed.

Lemma weight_split c s : weight (split_byte c s) = S (length s).
Proof.
  pose proof (length_join c (split_byte c s)) as Hl. rewrite join_split in Hl.
  pose proof (split_byte_nonempty c s) as Hne.
  destruct (split_byte c s) as [|w l]; [done|]. rewrite weight_cons in *. lia.
Qed.

Lemma weight_nonempty l : weight (nonempty l) <= weight l.
Proof.
  induction l as [|w l IH]; [done|]. unfold nonempty in *. rewrite filter_cons.
  case_decide; rewrite ?weight_cons; lia.
Qed.

Lemma split_snoc c a : split_byte c (a ++ [c]) = split_byte c a ++ [[]].
Proof.
  induction a as [|d a IH]; cbn; [by rewrite decide_True|]. rewrite IH.
  pose proof (split_byte_nonempty c a) as Hne.
  case_decide; [done|]. by destruct (split_byte c a).
Qed.

(** Cleaning does not make a path longer, and its elements are proper. *)
Lemma clean_elems_weight out l :
  weight (clean_elems false out l) <= weight out + weight (nonempty l).
Proof.
  revert out. induction l as [|w l IH]; intros out; cbn [clean_elems].
  - rewrite weight_reverse. cbn. lia.
  - unfold nonempty in *. destruct (decide (w = [] \/ w = str ".")) as [Hw|Hw].
    { rewrite filter_cons. case_decide; rewrite ?weight_cons; specialize (IH out); lia. }
    rewrite filter_cons_True by (intros ->; apply Hw; by left). rewrite weight_cons.
    destruct (decide (w = str "..")) as [->|].
    + destruct out as [|o out'].
      * etrans; [apply IH|]. rewrite !weight_cons. cbn. lia.
      * case_decide; (etrans; [apply IH|]); rewrite !weight_cons; lia.
    + etrans; [apply IH|]. rewrite !weight_cons. lia.
Qed.

Lemma clean_elems_ok out l :
  Forall elem_ok out -> Forall (fun w => slash ∉ w) l -> Forall elem_ok (clean_elems false out l).
Proof.
  intros Hout Hl. revert out Hout. induction Hl as [|w l Hw Hl IH]; intros out Hout; cbn [clean_elems].
  - by apply Forall_reverse.
  - destruct (decide (w = [] \/ w = str ".")) as [Hd|Hd]; [by apply IH|].
    assert (elem_ok w) as Hok by (split; [intros ->; apply Hd; by left|done]).
    destruct (decide (w = str "..")).
    + destruct out as [|o out']; [apply IH; constructor; [done|constructor]|].
      case_decide; apply IH; [by constructor|by inversion Hout].
    + apply IH. by constructor.
Qed.

Lemma relative_join l : Forall elem_ok l -> relative (join_byte slash l).
Proof.
  intros Hl. destruct Hl as [|w l [Hne Hs] Hl]; [done|].
  destruct w as [|c w]; [done|]. intros Heq. apply Hs.
  destruct l; cbn in Heq; injection Heq as ->; by left.
Qed.

Lemma path_Clean_dir a :
  a <> [] -> relative a -> length (path_Clean (a ++ [slash])) <= length a /\ relative (path_Clean (a ++ [slash])).
Proof.
  intros Hne Hrel. unfold path_Clean. rewrite decide_False by (by destruct a).
  rewrite bool_decide_eq_false_2 by (by destruct a).
  set (l := clean_elems false [] (split_byte slash (a ++ [slash]))).
  assert (weight l <= S (length a)) as Hw.
  { etrans; [apply clean_elems_weight|]. rewrite split_snoc. unfold nonempty. rewrite filter_app.
    change (filter _ [[]]) with (@nil bytes). rewrite app_nil_r.
    etrans; [|apply Nat.eq_le_incl, (weight_split slash)]. apply weight_nonempty. }
  assert (Forall elem_ok l) as Hok.
  { apply clean_elems_ok; [done|]. apply split_byte_no_sep. }
  case_decide as Hd.
  - split; [|done]. destruct a; [done|cbn; lia].
  - split; [rewrite length_join; lia|by apply relative_join].
Qed.

(** The parent of a relative path with a slash is a shorter relative path;
    without one it is ["."]. *)
Lemma path_Dir_shorter s :
  relative s -> path_Dir s = str "." \/ (length (path_Dir s) < length s /\ relative (path_Dir s)).
Proof.
  intros Hrel. unfold path_Dir. destruct (cut_last slash s) as [[a b]|] eqn:Hc; [right|by left].
  apply cut_last_Some in Hc as [-> _].
  assert (a <> []) as Hne by (intros ->; by apply Hrel).
  destruct (path_Clean_dir a Hne) as [H1 H2].
  - by destruct a.
  - split; [|done]. rewrite length_app. cbn. lia.
Qed.

(** ** Joined paths *)

Definition good_elem (w : bytes) : Prop := w <> [] /\ slash ∉ w /\ w <> str "." /\ w <> str "..".

#[export] Instance good_elem_dec w : Decision (good_elem w).
Proof. unfold good_elem. apply _. Defined.

Lemma clean_good out l : Forall good_elem l -> clean_elems false out l = reverse out ++ l.
Proof.
  intros Hl. revert out. induction Hl as [|w l (Hne & _ & Hd & Hdd) _ IH]; intros out; cbn [clean_elems].
  - by rewrite app_nil_r.
  - rewrite !decide_False by tauto. rewrite IH, reverse_cons, <- app_assoc. done.
Qed.

Lemma join_snoc (c : ascii) l w : l <> [] -> join_byte c (l ++ [w]) = join_byte c l ++ c :: w.
Proof.
  induction l as [|x l IH]; intros Hl; [done|]. destruct l as [|y l]; [done|].
  change (x ++ c :: join_byte c ((y :: l) ++ [w]) = (x ++ c :: join_byte c (y :: l)) ++ c :: w).
  rewrite IH by done. by rewrite <- app_assoc.
Qed.

Lemma join_head l : Forall good_elem l -> l <> [] -> exists c s, join_byte slash l = c :: s /\ c <> slash.
Proof.
  intros Hl Hne. destruct Hl as [|w l (Hw & Hs & _) _]; [done|]. destruct w as [|c w]; [done|].
  destruct l; cbn; (eexists _, _; split; [done|]; set_solver).
Qed.

Lemma join_inj l l' :
  Forall good_elem l -> Forall good_elem l' -> join_byte slash l = join_byte slash l' -> l = l'.
Proof.
  intros Hl Hl' H. destruct (decide (l = [])) as [->|Hn], (decide (l' = [])) as [->|Hn']; [done|..].
  - destruct (join_head l') as (c & s & Hc & _); [done|done|]. by rewrite Hc in H.
  - destruct (join_head l) as (c & s & Hc & _); [done|done|]. by rewrite Hc in H.
  - rewrite <- (split_join slash l), <- (split_join slash l'), H; [done|done| |done|].
    + eapply Forall_impl; [exact Hl'|]. by intros w (_ & ? & _).
    + eapply Forall_impl; [exact Hl|]. by intros w (_ & ? & _).
Qed.

Lemma path_Clean_join l : Forall good_elem l -> l <> [] -> path_Clean (join_byte slash l ++ [slash]) = join_byte slash l.
Proof.
  intros Hl Hne. destruct (join_head l Hl Hne) as (c & s & Hc & Hs). unfold path_Clean.
  rewrite decide_False by (by rewrite Hc). rewrite bool_decide_eq_false_2 by (rewrite Hc; cbn; congruence).
  rewrite split_snoc, split_join; [|done|by eapply Forall_impl; [exact Hl|intros w (_ & ? & _)]].
  assert (clean_elems false [] (l ++ [[]]) = l) as ->; [|by rewrite Hc].
  assert (forall out, clean_elems false out (l ++ [[]]) = reverse out ++ l) as H; [|apply H].
  clear Hc Hs. induction Hl as [|w l (Hw & _ & Hd & Hdd) _ IH]; intros out; cbn [app clean_elems].
  - rewrite decide_True by (by left). by rewrite app_nil_r.
  - rewrite !decide_False by tauto. destruct l as [|w' l].
    + cbn [app clean_elems]. rewrite decide_True by (by left). by rewrite reverse_cons.
    + rewrite IH by done. by rewrite reverse_cons, <- app_assoc.
Qed.

Lemma path_Dir_join d n :
  Forall good_elem d -> good_elem n ->
  path_Dir (join_byte slash (d ++ [n])) = if decide (d = []) then str "." else join_byte slash d.
Proof.
  intros Hd (Hn & Hs & _). unfold path_Dir. case_decide as He.
  - subst. cbn [app join_byte]. by rewrite cut_last_None.
  - rewrite join_snoc by done. rewrite cut_last_app by done. by apply path_Clean_join.
Qed.

Lemma path_Base_join d n : good_elem n -> path_Base (join_byte slash (d ++ [n])) = n.
Proof.
  intros (Hn & Hs & _). destruct (decide (d = [])) as [->|He].
  - by apply path_Base_elem.
  - rewrite join_snoc by done. by apply path_Base_app.
Qed.

Lemma join_not_dot d : Forall good_elem d -> join_byte slash d <> str ".".
Proof.
  intros Hd Hj. destruct Hd as [|w l (_ & _ & Hw & _) Hl]; [done|].
  destruct l as [|w' l]; [done|]. destruct w as [|c w]; [done|]. cbn in Hj. injection Hj as _ Hj.
  by destruct w.
Qed.
