(* ===== verification/NfsCache.v ===== *)
(** * The NFS read cache (nfs.go)

    Two LRU caches and a table of reference counts: [entCache] maps a file
    handle to its attributes and the SHA-256 of its contents, [blobCache]
    maps a SHA-256 to the contents, and [blobCount] counts the entries that
    share a blob.  The caches are the abstract lists of [Lru.Spec], which
    [Lru.Ops.lru_refines_list] justifies. *)

From S2P Require Import Prelude GoStrings Sha Lru.
Import Lru.SpecFacts.

Local Open Scope gomodfs_scope.
Local Open Scope Z_scope.

Section read_cache.
(** The attributes of a file ([nfs.FileAttribute]). *)
Context {Attr : Type}.

Record readCacheEntry := Entry { attr : Attr; blobHash : bytes }.

(** Both caches have [MaxSize] 0, that is no limit; entries of [entCache]
    count 1, and [setReadCache] makes [blobCache] count bytes. *)
Definition ent_size (_ : bytes) (_ : readCacheEntry) : Z := 1.
Definition blob_size (_ : bytes) (v : bytes) : Z := Z.of_nat (length v).

Record readCache := ReadCache {
  entCache : list (bytes * readCacheEntry);
  blobCache : list (bytes * bytes);
  blobCount : gmap bytes Z }.

Definition empty_cache : readCache := ReadCache [] [] ∅.

Abbreviation M := (pst readCache).

Definition upd_ent l (c : readCache) : readCache := ReadCache l (blobCache c) (blobCount c).
Definition upd_blob l (c : readCache) : readCache := ReadCache (entCache c) l (blobCount c).
Definition upd_count m (c : readCache) : readCache := ReadCache (entCache c) (blobCache c) m.

(** [fs.blobCount[h]]: 0 when absent. *)
Definition count (c : readCache) (h : bytes) : Z := default 0 (blobCount c !! h).

Definition decrBlobCountLocked (h : bytes) : M unit := fun c =>
  let v := count c h in
  if v <=? 0 then None
  else if v =? 1 then
    Some (tt, upd_blob (Spec.remove h (blobCache c)) (upd_count (delete h (blobCount c)) c))
  else Some (tt, upd_count (<[h := v - 1]> (blobCount c)) c).

(** [fs.blobCache.Size()]. *)
Definition blobCache_Size (c : readCache) : Z := i64 (Spec.total blob_size (blobCache c)).

(** The [for] loop of [setReadCache]; every round but the last removes an
    entry of [entCache], which bounds the fuel. *)
Fixpoint shrink (fuel : nat) (max : Z) : M unit := fun c =>
  if max <? blobCache_Size c then
    match Spec.delete_oldest (entCache c) with
    | (None, _) => Some (tt, c)
    | (Some (_, v), l) =>
        match fuel with
        | O => None
        | S fuel' => (decrBlobCountLocked (blobHash v) ;;! shrink fuel' max) (upd_ent l c)
        end
    end
  else Some (tt, c).

(** [max] is what [fs.GetFileCacheSize()] returns. *)
Definition setReadCache (max : Z) (h : bytes) (a : Attr) (contents : bytes) : M unit :=
  let ent := Entry a (sha256 contents) in
  c <-! pst_get ;;
  match Spec.find h (entCache c) with
  | Some was => decrBlobCountLocked (blobHash was)
  | None => pst_ret tt
  end ;;!
  (fun c => match Spec.set 0 ent_size h ent (entCache c) with
            | Some l => Some (tt, upd_ent l c)
            | None => None
            end) ;;!
  pst_modify (fun c => upd_count (<[blobHash ent := i64 (count c (blobHash ent) + 1)]> (blobCount c)) c) ;;!
  (fun c => match Spec.set 0 blob_size (blobHash ent) contents (blobCache c) with
            | Some l => Some (tt, upd_blob l c)
            | None => None
            end) ;;!
  c <-! pst_get ;;
  shrink (length (entCache c)) max.

(** The first part of [getFileContents]: a hit in both caches. *)
Definition cached (h : bytes) : M (option (bytes * Attr)) := fun c =>
  let '(o, l) := Spec.get_ok h (entCache c) in
  let c := upd_ent l c in
  match o with
  | None => Some (None, c)
  | Some ent =>
      let '(b, l) := Spec.get_ok (blobHash ent) (blobCache c) in
      let c := upd_blob l c in
      match b with
      | None => Some (None, c)
      | Some blob => Some (Some (blob, attr ent), c)
      end
  end.

(** ** The invariant *)

Definition hashes (c : readCache) : list bytes := blobHash ∘ snd <$> entCache c.

(** How many entries have blob [h]. *)
Definition refs (h : bytes) (l : list bytes) : nat := length (filter (h =.) l).

(** The counts of [m] are the numbers of entries with each blob. *)
Definition counts_ok (m : gmap bytes Z) (l : list bytes) : Prop :=
  forall h, m !! h = if decide (refs h l = 0%nat) then None else Some (Z.of_nat (refs h l)).

(** The blob half of the cache holds exactly the blobs that the references
    [l] name. *)
Record blobs_ok (c : readCache) (l : list bytes) : Prop := {
  ok_blobs : NoDup (blobCache c).*1;
  ok_hash : Forall (fun kv => sha256 kv.2 = kv.1) (blobCache c);
  ok_counts : counts_ok (blobCount c) l;
  ok_live : forall h, h ∈ (blobCache c).*1 <-> h ∈ l }.

Definition inv (c : readCache) : Prop := NoDup (entCache c).*1 /\ blobs_ok c (hashes c).

Lemma refs_cons h x l : refs h (x :: l) = ((if decide (h = x) then 1 else 0) + refs h l)%nat.
Proof. unfold refs. rewrite filter_cons. by repeat case_decide. Qed.

Lemma refs_perm h l l' : l ≡ₚ l' -> refs h l = refs h l'.
Proof. intros Hp. unfold refs. by rewrite Hp. Qed.

Lemma refs_0 h l : refs h l = 0%nat <-> h ∉ l.
Proof.
  induction l as [|x l IH]; [unfold refs; cbn; split; [by intros _ ?%elem_of_nil|done]|].
  rewrite refs_cons, not_elem_of_cons. case_decide; naive_solver lia.
Qed.

Lemma counts_perm m l l' : l ≡ₚ l' -> counts_ok m l -> counts_ok m l'.
Proof. intros Hp Hc h. by rewrite (Hc h), (refs_perm _ _ _ Hp). Qed.

Lemma counts_count c l h : counts_ok (blobCount c) l -> count c h = Z.of_nat (refs h l).
Proof. intros Hc. unfold count. rewrite (Hc h). case_decide as Hd; [by rewrite Hd|done]. Qed.

(** Dropping one reference. *)
Lemma counts_decr m x l :
  counts_ok m (x :: l) ->
  counts_ok (if decide (refs x l = 0%nat) then delete x m else <[x := Z.of_nat (refs x l)]> m) l.
Proof.
  intros Hc h. specialize (Hc h). rewrite refs_cons in Hc.
  destruct (decide (h = x)) as [->|Hne].
  - destruct (decide (refs x l = 0%nat)); [by rewrite lookup_delete_eq|by rewrite lookup_insert_eq].
  - destruct (decide (refs x l = 0%nat));
      [rewrite lookup_delete_ne by done|rewrite lookup_insert_ne by done]; exact Hc.
Qed.

Lemma counts_incr m x l :
  counts_ok m l -> counts_ok (<[x := Z.of_nat (refs x l) + 1]> m) (x :: l).
Proof.
  intros Hc h. rewrite refs_cons. destruct (decide (h = x)) as [->|Hne].
  - rewrite lookup_insert_eq, decide_False by lia. f_equal. lia.
  - rewrite lookup_insert_ne by done. exact (Hc h).
Qed.

Lemma blobs_perm c l l' : l ≡ₚ l' -> blobs_ok c l -> blobs_ok c l'.
Proof.
  intros Hp [H1 H2 H3 H4]. split; [done|done|by eapply counts_perm|].
  intros h. by rewrite H4, Hp.
Qed.

Lemma remove_elem {V} k k' (l : list (bytes * V)) :
  k' ∈ (Spec.remove k l).*1 <-> k' ∈ l.*1 /\ k' <> k.
Proof.
  unfold Spec.remove. rewrite !list_elem_of_fmap. split.
  - intros (kv & -> & [Hne Hin]%list_elem_of_filter). split; [by exists kv|done].
  - intros [(kv & -> & Hin) Hne]. exists kv. split; [done|]. by apply list_elem_of_filter.
Qed.

Lemma remove_nodup {V} k (l : list (bytes * V)) : NoDup l.*1 -> NoDup (Spec.remove k l).*1.
Proof.
  unfold Spec.remove. induction l as [|[k' v] l IH]; csimpl; [done|].
  intros [Hk Hnd]%NoDup_cons. rewrite filter_cons. case_decide; [|by apply IH].
  csimpl. apply NoDup_cons. split; [|by apply IH]. intros Hin. apply Hk.
  by apply (remove_elem k) in Hin as [? _].
Qed.

Lemma decr_ok c x l :
  blobs_ok c (x :: l) ->
  exists c', decrBlobCountLocked x c = Some (tt, c') /\ blobs_ok c' l /\ entCache c' = entCache c /\
    blobCache c' = if decide (x ∈ l) then blobCache c else Spec.remove x (blobCache c).
Proof.
  intros [H1 H2 H3 H4]. unfold decrBlobCountLocked.
  rewrite (counts_count _ _ _ H3), refs_cons, decide_True by done.
  pose proof (counts_decr _ _ _ H3) as H5. pose proof (refs_0 x l) as Hr.
  destruct (Z.leb_spec (Z.of_nat (1 + refs x l)) 0); [lia|].
  destruct (Z.eqb_spec (Z.of_nat (1 + refs x l)) 1).
  - rewrite decide_True in H5 by lia. assert (x ∉ l) as Hx by (apply Hr; lia).
    eexists. split; [done|]. rewrite decide_False by done. split_and!; [|done..].
    split; cbn; [by apply remove_nodup| |done|].
    + rewrite Forall_forall in H2 |- *. intros kv [_ ?]%list_elem_of_filter. auto.
    + intros h. rewrite remove_elem, H4, elem_of_cons. set_solver.
  - rewrite decide_False in H5 by lia. assert (x ∈ l) as Hx.
    { destruct (decide (x ∈ l)) as [|Hx]; [done|]. apply Hr in Hx. lia. }
    eexists. split; [done|]. rewrite decide_True by done. split_and!; [|done..].
    replace (Z.of_nat (1 + refs x l) - 1) with (Z.of_nat (refs x l)) by lia.
    split; cbn; [done..|]. intros h. rewrite H4, elem_of_cons. set_solver.
Qed.

Lemma set_0 {K V} `{Countable K} (esz : K -> V -> Z) k v l :
  Spec.set 0 esz k v l = Some ((k, v) :: Spec.remove k l).
Proof.
  unfold Spec.set. generalize ((k, v) :: Spec.remove k l). clear. intros l.
  destruct l as [|x l _] using rev_ind; [by rewrite evict_nil|by rewrite evict_snoc].
Qed.

(** Referencing and storing a blob. *)
Lemma incr_ok c x v l :
  blobs_ok c l -> sha256 v = x -> Z.of_nat (length l) < 2 ^ 62 ->
  blobs_ok (upd_blob ((x, v) :: Spec.remove x (blobCache c))
             (upd_count (<[x := i64 (count c x + 1)]> (blobCount c)) c)) (x :: l).
Proof.
  intros [H1 H2 H3 H4] Hv Hlen. rewrite (counts_count _ _ _ H3).
  assert (refs x l <= length l)%nat by apply length_filter.
  rewrite i64_small by lia. split; cbn.
  - apply NoDup_cons. split; [|by apply remove_nodup]. rewrite remove_elem. tauto.
  - constructor; [done|]. rewrite Forall_forall in H2 |- *.
    intros kv [_ ?]%list_elem_of_filter. auto.
  - by apply counts_incr.
  - intros h. rewrite !elem_of_cons, remove_elem, H4. destruct (decide (h = x)); tauto.
Qed.

Lemma hashes_remove h c :
  NoDup (entCache c).*1 ->
  forall e, Spec.find h (entCache c) = Some e ->
  hashes c ≡ₚ blobHash e :: (blobHash ∘ snd <$> Spec.remove h (entCache c)).
Proof.
  unfold hashes. generalize (entCache c) as l. induction l as [|[k v] l IH]; csimpl; [done|].
  intros [Hk Hnd]%NoDup_cons e. case_decide as Hd; [subst|].
  - intros [= ->]. rewrite (remove_split h e [] l); [done|]. by apply NoDup_cons.
  - intros He. unfold Spec.remove. rewrite filter_cons_True by done. csimpl.
    change (filter _ l) with (Spec.remove h l). rewrite (IH Hnd e He). apply Permutation_swap.
Qed.

Lemma find_elem {V} k (l : list (bytes * V)) v :
  NoDup l.*1 -> Spec.find k l = Some v <-> (k, v) ∈ l.
Proof.
  intros Hnd. split; [|by apply find_Some]. clear Hnd.
  induction l as [|[k' v'] l IH]; csimpl; [done|].
  case_decide; [subst; intros [= ->]; by left|]. intros ?. right. auto.
Qed.

Lemma find_is_Some {V} k (l : list (bytes * V)) : is_Some (Spec.find k l) <-> k ∈ l.*1.
Proof.
  induction l as [|[k' v'] l IH]; csimpl; [rewrite elem_of_nil; by split; [intros []|]|].
  rewrite elem_of_cons. case_decide as Hd; [subst|rewrite IH].
  - split; [by left|by eexists].
  - split; [by right|by intros [?|?]; [congruence|]].
Qed.

Lemma delete_oldest_snoc {K V} `{Countable K} (l : list (K * V)) x :
  Spec.delete_oldest (l ++ [x]) = (Some x, l).
Proof. unfold Spec.delete_oldest. by rewrite reverse_snoc, reverse_involutive. Qed.

Lemma hashes_upd l (c : readCache) : hashes (upd_ent l c) = blobHash ∘ snd <$> l.
Proof. done. Qed.

(** One round of [shrink]: the oldest entry goes, and its blob with it
    unless another entry has it. *)
Lemma shrink_round c l x :
  inv c -> entCache c = l ++ [x] ->
  exists c', decrBlobCountLocked (blobHash x.2) (upd_ent l c) = Some (tt, c') /\ inv c' /\
    entCache c' = l /\
    forall k v, k ∈ hashes c' -> Spec.find k (blobCache c) = Some v -> Spec.find k (blobCache c') = Some v.
Proof.
  intros [Hnd Hb] Hl. unfold hashes in Hb. rewrite Hl in *.
  rewrite fmap_app in Hnd, Hb. csimpl in Hb.
  apply (blobs_perm _ _ (blobHash x.2 :: (blobHash ∘ snd <$> l))) in Hb;
    [|by rewrite (Permutation_app_comm _ [_])].
  assert (blobs_ok (upd_ent l c) (blobHash x.2 :: (blobHash ∘ snd <$> l))) as Hb'
    by (by destruct Hb).
  destruct (decr_ok _ _ _ Hb') as (c' & -> & Hok & He & Hbl). cbn in He, Hbl.
  assert (hashes c' = blobHash ∘ snd <$> l) as Hh by (unfold hashes; by rewrite He).
  exists c'. split_and!; [done| |done|].
  - split; [rewrite He; by apply NoDup_app in Hnd as (? & _)|by rewrite Hh].
  - intros k v Hk Hf. rewrite Hh in Hk. apply find_elem; [apply Hok|].
    apply find_elem in Hf; [|apply Hb]. rewrite Hbl. case_decide as Hx; [done|].
    apply list_elem_of_filter. split; [|done]. cbn. by intros ->.
Qed.

Lemma no_blobs c : blobs_ok c [] -> blobCache c = [].
Proof.
  intros [_ _ _ Hlive]. destruct (blobCache c) as [|[k v] l] eqn:Hb; [done|].
  assert (k ∈ []) as ?%elem_of_nil; [|done]. apply Hlive. csimpl. by left.
Qed.

(** The blobs of a cache with one entry. *)
Lemma one_blob c k v : blobs_ok c [k] -> Spec.find k (blobCache c) = Some v -> blobCache c = [(k, v)].
Proof.
  intros [Hnd _ _ Hlive] Hf. destruct (blobCache c) as [|[k1 v1] [|[k2 v2] l]] eqn:Hb; [done| |].
  - cbn in Hf. case_decide; by simplify_eq.
  - exfalso. assert (k1 = k) by (apply list_elem_of_singleton, Hlive; csimpl; by left).
    assert (k2 = k) by (apply list_elem_of_singleton, Hlive; csimpl; right; by left).
    subst. csimpl in Hnd. apply NoDup_cons in Hnd as [Hnd _]. apply Hnd. by left.
Qed.

Lemma shrink_spec fuel max c :
  inv c -> (length (entCache c) <= fuel)%nat ->
  exists c', shrink fuel max c = Some (tt, c') /\ inv c' /\
    entCache c' `prefix_of` entCache c /\
    (blobCache_Size c' <= max \/ entCache c' = []) /\
    (forall k v, k ∈ hashes c' -> Spec.find k (blobCache c) = Some v ->
       Spec.find k (blobCache c') = Some v) /\
    (forall he r v, entCache c = he :: r -> Spec.find (blobHash he.2) (blobCache c) = Some v ->
       Z.of_nat (length v) <= max < 2 ^ 63 -> head (entCache c') = Some he).
Proof.
  revert c. induction fuel as [|fuel IH]; intros c Hi Hf; cbn [shrink].
  - destruct (entCache c) eqn:He; [|by cbn in Hf; lia]. cbn.
    exists c. case_match; split_and!; try done; by rewrite ?He; auto.
  - destruct (Z.ltb_spec max (blobCache_Size c)) as [Hlt|Hge].
    2:{ exists c. split_and!; try done; [by left|]. by intros ??? ->. }
    destruct (entCache c) as [|x l _] eqn:He using rev_ind.
    { exists c. cbn. split_and!; try done; by rewrite ?He; auto. }
    rewrite delete_oldest_snoc. destruct x as [h0 e0].
    destruct (shrink_round c l (h0, e0) Hi He) as (c1 & Hd & Hi1 & He1 & Hb1).
    unfold pst_bind. cbn in Hd. rewrite Hd. rewrite length_app in Hf. cbn in Hf.
    destruct (IH c1) as (c' & Hs & Hi' & Hp & Hsz & Hbl & Hhd); [done|rewrite He1; lia|].
    exists c'. rewrite He1 in Hp. split_and!; try done.
    + by apply prefix_app_r.
    + intros k v Hk Hv. apply Hbl; [done|]. apply Hb1; [|done].
      destruct Hp as [suf Hp]. unfold hashes in *. rewrite He1, Hp, fmap_app. set_solver.
    + intros he r v Heq Hv Hmax. destruct l as [|y l]; simplify_eq/=.
      * exfalso. destruct Hi as [_ Hok]. unfold hashes in Hok. rewrite He in Hok.
        unfold blobCache_Size in Hlt. rewrite (one_blob _ _ _ Hok Hv) in Hlt. cbn in Hlt.
        unfold blob_size in Hlt. rewrite i64_small in Hlt by lia. lia.
      * apply (Hhd he l v); [done| |done]. apply Hb1; [|done].
        unfold hashes. rewrite He1. csimpl. by left.
Qed.

Lemma setReadCache_spec max c h a contents :
  inv c -> Z.of_nat (length (entCache c)) < 2 ^ 61 -> 0 <= max < 2 ^ 63 ->
  exists c', setReadCache max h a contents c = Some (tt, c') /\ inv c' /\
    entCache c' `prefix_of` (h, Entry a (sha256 contents)) :: Spec.remove h (entCache c) /\
    blobCache_Size c' <= max /\
    (Z.of_nat (length contents) <= max ->
     exists c'', cached h c' = Some (Some (contents, a), c'')).
Proof.
  intros [Hnd Hok] Hlen Hmax. unfold setReadCache, pst_bind at 1, pst_get at 1.
  set (l := Spec.remove h (entCache c)). set (x := sha256 contents).
  set (m := match Spec.find h (entCache c) with Some _ => _ | None => _ end).
  assert (exists c1, m c = Some (tt, c1) /\ entCache c1 = entCache c /\
            blobs_ok c1 (blobHash ∘ snd <$> l)) as (c1 & Hm & He1 & Hok1).
  { unfold m. destruct (Spec.find h (entCache c)) as [was|] eqn:Hf.
    - apply (blobs_perm _ _ _ (hashes_remove _ _ Hnd _ Hf)) in Hok.
      destruct (decr_ok _ _ _ Hok) as (c1 & -> & ? & ? & _). by exists c1.
    - exists c. split_and!; [done..|]. unfold l. rewrite remove_notin; [done|].
      intros Hin%find_is_Some. rewrite Hf in Hin. by destruct Hin. }
  unfold pst_bind at 1. rewrite Hm. unfold pst_bind, pst_modify, pst_get.
  rewrite set_0, He1. fold l. cbn [entCache upd_ent upd_count blobCache upd_blob].
  rewrite set_0.
  assert (length (blobHash ∘ snd <$> l) <= length (entCache c))%nat as Hll.
  { rewrite length_fmap. apply length_filter. }
  pose proof (incr_ok c1 x contents _ Hok1 eq_refl ltac:(lia)) as Hok2.
  set (c2 := upd_blob _ (upd_count _ (upd_ent _ c1))).
  assert (inv c2) as Hi2.
  { split.
    - change (NoDup (h :: (Spec.remove h (entCache c)).*1)). apply NoDup_cons.
      split; [rewrite remove_elem; tauto|by apply remove_nodup].
    - change (blobs_ok c2 (x :: (blobHash ∘ snd <$> l))). by destruct Hok2. }
  destruct (shrink_spec (length (entCache c2)) max c2 Hi2 ltac:(done))
    as (c' & Hs & Hi' & Hp & Hsz & Hbl & Hhd).
  exists c'. split; [exact Hs|]. split; [done|]. split; [exact Hp|].
  split.
  - destruct Hsz as [|Hnil]; [done|]. destruct Hi' as [_ Hok']. unfold hashes in Hok'.
    rewrite Hnil in Hok'. unfold blobCache_Size. rewrite (no_blobs _ Hok'). cbn. rewrite i64_small; lia.
  - intros Hc. assert (Spec.find x (blobCache c2) = Some contents) as Hx
      by (unfold c2, upd_blob; cbn [blobCache Spec.find fst snd]; by rewrite decide_True).
    specialize (Hhd _ _ _ eq_refl Hx ltac:(lia)). unfold cached.
    destruct (entCache c') as [|he l'] eqn:He'; [done|]. cbn in Hhd. injection Hhd as ->.
    unfold Spec.get_ok at 1. cbn [Spec.find fst snd]. rewrite decide_True by done.
    cbn [upd_ent blobCache blobHash]. unfold Spec.get_ok. rewrite (Hbl x contents); [eauto| |done].
    unfold hashes. rewrite He'. csimpl. by left.
Qed.

(** C13: [setReadCache] never panics (the reference counts never go wrong)
    and keeps the invariant: a blob is cached exactly while some entry has
    its hash, and [blobCount] counts those entries.  Afterwards the cache
    holds a run of the most recently used entries that starts with the new
    one, within [max] bytes of blobs; and the file just cached is a hit, with
    its own contents, if it fits in [max] on its own. *)
Theorem setReadCache_ok max c h a contents :
  inv c -> Z.of_nat (length (entCache c)) < 2 ^ 61 -> 0 <= max < 2 ^ 63 ->
  exists c', setReadCache max h a contents c = Some (tt, c') /\ inv c' /\
    entCache c' `prefix_of` (h, Entry a (sha256 contents)) :: Spec.remove h (entCache c) /\
    blobCache_Size c' <= max /\
    (Z.of_nat (length contents) <= max ->
     exists c'', cached h c' = Some (Some (contents, a), c'')).
Proof. apply setReadCache_spec. Qed.

Lemma find_perm {V} k (l : list (bytes * V)) v :
  NoDup l.*1 -> Spec.find k l = Some v -> l ≡ₚ (k, v) :: Spec.remove k l.
Proof.
  intros Hnd Hf. apply find_elem in Hf as (l1 & l2 & ->)%list_elem_of_split; [|done].
  rewrite remove_split by done. by rewrite Permutation_middle.
Qed.

Lemma get_ok_perm {V} k (l : list (bytes * V)) :
  NoDup l.*1 -> (Spec.get_ok k l).1 = Spec.find k l /\ (Spec.get_ok k l).2 ≡ₚ l.
Proof.
  intros Hnd. unfold Spec.get_ok. destruct (Spec.find k l) as [v|] eqn:Hf; [|done].
  split; [done|]. symmetry. by apply find_perm.
Qed.

Lemma inv_perm c c' :
  entCache c' ≡ₚ entCache c -> blobCache c' ≡ₚ blobCache c -> blobCount c' = blobCount c ->
  inv c -> inv c'.
Proof.
  intros He Hb Hn [Hnd [H1 H2 H3 H4]]. split; [by rewrite He|].
  assert (hashes c ≡ₚ hashes c') as Hh by (unfold hashes; by rewrite He).
  split; [by rewrite Hb|by rewrite Hb|rewrite Hn; by eapply counts_perm|].
  intros h. by rewrite Hb, H4, Hh.
Qed.

(** A lookup keeps the cached files and never panics; a hit is the attributes
    of the entry and contents with its hash. *)
Lemma cached_ok c h :
  inv c ->
  exists o c', cached h c = Some (o, c') /\ inv c' /\ entCache c' ≡ₚ entCache c /\
    forall b a, o = Some (b, a) -> (h, Entry a (sha256 b)) ∈ entCache c.
Proof.
  intros Hi. pose proof Hi as [Hnd Hok]. unfold cached.
  destruct (get_ok_perm h _ Hnd) as [He1 He2].
  destruct (Spec.get_ok h (entCache c)) as [o l]. cbn in He1, He2. subst o.
  destruct (Spec.find h (entCache c)) as [ent|] eqn:Hf.
  2:{ eexists _, _. split; [done|]. split; [by apply (inv_perm c)|]. by split. }
  cbn [upd_ent blobCache]. destruct (get_ok_perm (blobHash ent) _ (ok_blobs _ _ Hok)) as [Hb1 Hb2].
  destruct (Spec.get_ok (blobHash ent) (blobCache c)) as [b l']. cbn in Hb1, Hb2. subst b.
  apply find_elem in Hf; [|done].
  destruct (Spec.find (blobHash ent) (blobCache c)) as [blob|] eqn:Hfb; eexists _, _;
    (split; [done|]; split; [by apply (inv_perm c)|]; split; [done|]); [|done].
  intros b a [= <- <-]. apply find_elem in Hfb; [|apply Hok].
  pose proof (ok_hash _ _ Hok) as Hh. rewrite Forall_forall in Hh. specialize (Hh _ Hfb). cbn in Hh.
  rewrite Hh. by destruct ent.
Qed.

Lemma inv_empty : inv empty_cache.
Proof. split; [apply NoDup_nil_2|]. by split; [apply NoDup_nil_2|constructor|intros ?|]. Qed.

(** A sequence of calls, and what each returns. *)
Inductive op : Type :=
  | OSet (h : bytes) (a : Attr) (contents : bytes)
  | OGet (h : bytes).

Fixpoint run (max : Z) (ops : list op) : M (list (option (bytes * Attr))) :=
  match ops with
  | [] => pst_ret []
  | OSet h a contents :: ops' =>
      setReadCache max h a contents ;;! r <-! run max ops' ;; pst_ret (None :: r)
  | OGet h :: ops' => o <-! cached h ;; r <-! run max ops' ;; pst_ret (o :: r)
  end.

(** Every hit is what was last set for the handle: the attributes, and
    contents with the same SHA-256. *)
Fixpoint agrees (last : gmap bytes (Attr * bytes)) (ops : list op) (r : list (option (bytes * Attr))) : Prop :=
  match ops, r with
  | [], [] => True
  | OSet h a contents :: ops', None :: r' => agrees (<[h := (a, contents)]> last) ops' r'
  | OGet h :: ops', o :: r' =>
      (forall b a, o = Some (b, a) ->
         exists contents, last !! h = Some (a, contents) /\ sha256 b = sha256 contents) /\
      agrees last ops' r'
  | _, _ => False
  end.

Definition tracks (last : gmap bytes (Attr * bytes)) (c : readCache) : Prop :=
  forall h e, (h, e) ∈ entCache c ->
    exists contents, last !! h = Some (attr e, contents) /\ blobHash e = sha256 contents.

Lemma tracks_set last c c' h a contents :
  tracks last c -> entCache c' `prefix_of` (h, Entry a (sha256 contents)) :: Spec.remove h (entCache c) ->
  tracks (<[h := (a, contents)]> last) c'.
Proof.
  intros Ht [suf Hp] h' e Hin. assert ((h', e) ∈ entCache c' ++ suf) as Hin' by set_solver.
  rewrite <-Hp in Hin'. apply elem_of_cons in Hin' as [[= -> ->]|[Hne Hin']%list_elem_of_filter].
  - exists contents. by rewrite lookup_insert_eq.
  - cbn in Hne. rewrite lookup_insert_ne by done. by apply Ht.
Qed.

Lemma run_agrees max ops last c :
  0 <= max < 2 ^ 63 -> inv c -> tracks last c ->
  Z.of_nat (length (entCache c)) + Z.of_nat (length ops) < 2 ^ 61 ->
  exists r c', run max ops c = Some (r, c') /\ inv c' /\ agrees last ops r.
Proof.
  intros Hmax. revert last c. induction ops as [|[h a contents|h] ops IH]; intros last c Hi Ht Hlen;
    cbn [run length] in *; unfold pst_bind, pst_ret.
  - by eexists _, _.
  - destruct (setReadCache_spec max c h a contents Hi ltac:(lia) Hmax) as (c1 & -> & Hi1 & Hp & _).
    pose proof (prefix_length _ _ Hp) as Hl. cbn [length] in Hl.
    assert (length (Spec.remove h (entCache c)) <= length (entCache c))%nat by apply length_filter.
    destruct (IH (<[h := (a, contents)]> last) c1) as (r & c' & -> & Hi' & Hr);
      [done|by eapply tracks_set|lia|]. by eexists _, _.
  - destruct (cached_ok c h Hi) as (o & c1 & -> & Hi1 & Hp & Ho).
    destruct (IH last c1) as (r & c' & -> & Hi' & Hr); [done| |rewrite Hp; lia|].
    { intros h' e. rewrite Hp. apply Ht. }
    eexists _, _. split; [done|]. split; [done|]. split; [|done].
    intros b a Hba. by apply Ho, Ht in Hba.
Qed.

(** C14: for every sequence of cache fills and lookups on the empty cache,
    nothing panics, and a lookup that hits returns the attributes last set
    for its handle and contents with the SHA-256 of the contents last set. *)
Theorem read_cache_sound max ops :
  0 <= max < 2 ^ 63 -> Z.of_nat (length ops) < 2 ^ 61 ->
  exists r c', run max ops empty_cache = Some (r, c') /\ inv c' /\ agrees ∅ ops r.
Proof.
  intros Hmax Hops.
  apply run_agrees; [done|apply inv_empty|by intros ? ? ?%elem_of_nil|cbn; lia].
Qed.
End read_cache.

Lemma setReadCache_ok_witness :
  exists c1, setReadCache 4 (str "h") 1%nat (str "abc") empty_cache = Some (tt, c1) /\ inv c1 /\
    blobCache_Size c1 <= 4 /\
    exists c2, cached (str "h") c1 = Some (Some (str "abc", 1%nat), c2).
Proof.
  destruct (setReadCache_ok 4 empty_cache (str "h") 1%nat (str "abc") inv_empty)
    as (c1 & H1 & Hi1 & _ & Hs & Hc); [done|done|].
  exists c1. split_and!; [done..|]. by apply Hc.
Defined.

Lemma read_cache_sound_witness :
  exists r c, run 4 [OSet (str "h") 1%nat (str "abc"); OGet (str "h"); OSet (str "k") 2%nat (str "abd");
                     OGet (str "h"); OGet (str "k")] empty_cache = Some (r, c) /\
    r = [None; Some (str "abc", 1%nat); None; None; Some (str "abd", 2%nat)] /\ inv c.
Proof.
  set (ops := [OSet (str "h") 1%nat (str "abc"); OGet (str "h"); OSet (str "k") 2%nat (str "abd");
    OGet (str "h"); OGet (str "k")]).
  destruct (read_cache_sound 4 ops) as (r & c & Hr & Hi & _); [done|done|].
  exists r, c. split; [exact Hr|]. split; [|exact Hi].
  assert (fst <$> run 4 ops empty_cache =
    Some [None; Some (str "abc", 1%nat); None; None; Some (str "abd", 2%nat)]) as E
    by (vm_compute; reflexivity).
  rewrite Hr in E. by injection E.
Defined.
