(* ===== verification/NfsAttr.v ===== *)
(** * go-nfs: file attributes and times (file.go, time.go), status codes
    (nfsinterface.go) and read results (handler.go), and the program's file
    infos (webdav.go) *)

From S2P Require Import Prelude GoStrings Sha Store.

Local Open Scope Z_scope.

(** ** File infos (webdav.go) *)

(** [regFileInfo]: mode 0 reads as 0444, an unset [modTime] as
    [FakeStaticFileTime]; [now] is the time that [modTimeNow] reads. *)
Record regFileInfo := MkReg {
  r_name : bytes; r_size : Z; r_mode : Z; r_modTime : option Z; r_modTimeNow : bool }.

Definition reg_Mode (r : regFileInfo) : Z := if r_mode r =? 0 then 292 else r_mode r.
Definition reg_ModTime (now : Z) (r : regFileInfo) : Z :=
  if r_modTimeNow r then now else default FakeStaticFileTime (r_modTime r).
Definition reg_info (now : Z) (r : regFileInfo) : FileInfo :=
  MkFileInfo (r_name r) (r_size r) (reg_Mode r) (reg_ModTime now r) false.

Definition openSetFile : regFileInfo :=
  MkReg (str ".vfs-openset-dir") 0 292 (Some FakeStaticFileTime) false.

(** [dirFileInfo]; its [Name] panics when [baseName] is empty, and the
    callers here do not call it then. *)
Definition dir_info (baseName : bytes) : FileInfo :=
  MkFileInfo baseName 0 (Z.lor ModeDir 365) FakeStaticFileTime true.

(** ** NFS attributes *)

Inductive FileType : Type :=
  | FileTypeRegular | FileTypeDirectory | FileTypeBlock | FileTypeCharacter
  | FileTypeLink | FileTypeSocket | FileTypeFIFO.

#[export] Instance FileType_eq_dec : EqDecision FileType.
Proof. solve_decision. Defined.

(** The wire values, from 1. *)
Definition FileType_val (t : FileType) : Z :=
  match t with
  | FileTypeRegular => 1 | FileTypeDirectory => 2 | FileTypeBlock => 3 | FileTypeCharacter => 4
  | FileTypeLink => 5 | FileTypeSocket => 6 | FileTypeFIFO => 7
  end.

Record FileTime := MkTime { Seconds : Z; Nseconds : Z }.

#[export] Instance FileTime_eq_dec : EqDecision FileTime.
Proof. solve_decision. Defined.

(** [ToNFSTime]: [t.UnixNano() % time.Second] has the sign of [t]. *)
Definition ToNFSTime (t : Z) : FileTime := MkTime (u32 (t / second)) (u32 (Z.rem t second)).

Definition Native (t : FileTime) : Z := Seconds t * second + Nseconds t.

Definition EqualTimespec (t : FileTime) (sec nsec : Z) : bool :=
  (Nseconds t =? u32 nsec) && (Seconds t =? u32 sec).

Record FileAttribute := MkAttr {
  a_Type : FileType; a_FileMode : Z; a_Nlink : Z; a_UID : Z; a_GID : Z;
  a_Filesize : Z; a_Used : Z; a_SpecData : Z * Z; a_FSID : Z; a_Fileid : Z;
  a_Atime : FileTime; a_Mtime : FileTime; a_Ctime : FileTime }.

Record FileCacheAttribute := MkCacheAttr { c_Filesize : Z; c_Mtime : FileTime; c_Ctime : FileTime }.

Definition AsCache (f : FileAttribute) : FileCacheAttribute :=
  MkCacheAttr (a_Filesize f) (a_Mtime f) (a_Ctime f).

(** The mode bits of io/fs that [ToFileAttribute] tests. *)
Definition ModeSymlink : Z := 2 ^ 27.
Definition ModeDevice : Z := 2 ^ 26.
Definition ModeNamedPipe : Z := 2 ^ 25.
Definition ModeSocket : Z := 2 ^ 24.
Definition ModeCharDevice : Z := 2 ^ 21.
Definition has_bit (m b : Z) : bool := negb (Z.land m b =? 0).

(** [ToFileAttribute], for the infos of this program: their [Sys] is nil, so
    [file.GetInfo] is nil and the file id is the hash of the path. *)
Definition ToFileAttribute (info : FileInfo) (filePath : bytes) : FileAttribute :=
  let m := fi_Mode info in
  let t :=
    if fi_IsDir info then FileTypeDirectory
    else if has_bit m ModeSymlink then FileTypeLink
    else if has_bit m ModeCharDevice then FileTypeCharacter
    else if has_bit m ModeDevice then FileTypeBlock
    else if has_bit m ModeSocket then FileTypeSocket
    else if has_bit m ModeNamedPipe then FileTypeFIFO
    else FileTypeRegular in
  let time := ToNFSTime (fi_ModTime info) in
  MkAttr t (mode_Perm m) 1 0 0 (u64 (fi_Size info)) (u64 (fi_Size info)) (0, 0) 0
    (fnv64 filePath) time time time.

Record NFSReadResult := MkReadResult { rr_Attr : FileAttribute; rr_EOF : bool; rr_Data : bytes }.

(** The status codes of nfsinterface.go that the modelled code uses. *)
Definition NFSStatusNoEnt : Z := 2.
Definition NFSStatusIO : Z := 5.
Definition NFSStatusAccess : Z := 13.
Definition NFSStatusNotDir : Z := 20.
Definition NFSStatusInval : Z := 22.
Definition NFSStatusStale : Z := 70.
Definition NFSStatusBadCookie : Z := 10003.
Definition NFSStatusTooSmall : Z := 10005.
Definition NFSStatusServerFault : Z := 10006.

(** A time whose seconds fit in 32 bits survives the conversion. *)
Lemma Native_ToNFSTime t : 0 <= t < 2 ^ 32 * second -> Native (ToNFSTime t) = t.
Proof.
  intros Ht. unfold Native, ToNFSTime. cbn [Seconds Nseconds].
  assert (0 < second) as Hs by done.
  pose proof (Z.mod_pos_bound t second Hs). pose proof (Z.div_mod t second ltac:(lia)).
  rewrite Z.rem_mod_nonneg by lia. rewrite !u32_small.
  - lia.
  - unfold second in *. lia.
  - split; [apply Z.div_pos; lia|apply Z.div_lt_upper_bound; lia].
Qed.
