(* ===== verification/NfsProc.v ===== *)
(** * go-nfs: the procedures that read

    GETATTR, LOOKUP, ACCESS, READLINK, READ, READDIR and READDIRPLUS over
    the [Handler] and the file system of the user of the library
    ([NfsHandler]; the program's own is [NfsServer.nfs_handler]).  A procedure's arguments are
    what decoding them gave, and its result is the values of the reply, or
    the error that the reply is made from ([Rpc]); the encoding is by a
    library, and encoding to memory does not fail.  FSSTAT, FSINFO and
    PATHCONF are here too. *)

From stdpp Require Import sorting.
From S2P Require Import Prelude GoStrings Sha Store NfsAttr.

Local Open Scope gomodfs_scope.
Local Open Scope Z_scope.

Definition status_err {A} (status : Z) (e : option error) : res A := Err (NFSStatusError status e).

(** [os.IsPermission] and [os.IsNotExist], which do not unwrap. *)
Definition os_IsPermission (e : error) : bool := match e with ErrPermission => true | _ => false end.
Definition os_IsNotExist (e : error) : bool := match e with ErrNotExist => true | _ => false end.

Record FSStat := MkFSStat {
  TotalSize : Z; FreeSize : Z; AvailableSize : Z;
  TotalFiles : Z; FreeFiles : Z; AvailableFiles : Z; CacheHint : Z }.

(** The [Handler] interface, with the methods of the file system that
    [FromHandle] returns and of the files that it opens.  The optional
    interfaces are options: [ReadHandler], and the methods of
    [CachingHandler]. *)
Class NfsHandler (U : Type) := {
  nh_File : Type;
  nh_ToHandle : list bytes -> pst U bytes;
  nh_FromHandle : bytes -> pst U (res (list bytes));
  nh_HandleLimit : Z;
  nh_Join : list bytes -> bytes;
  nh_ReadDir : bytes -> pst U (res (list FileInfo));
  nh_Lstat : bytes -> pst U (res FileInfo);
  nh_Stat : bytes -> pst U (res FileInfo);
  nh_Readlink : bytes -> pst U (res bytes);
  nh_Open : bytes -> pst U (res nh_File);
  nh_Close : nh_File -> pst U unit;
  (** [ReadAt] of a number of bytes at an offset: the bytes read and an error. *)
  nh_ReadAt : nh_File -> Z -> Z -> pst U (bytes * option error);
  nh_FSStat : FSStat -> pst U (res FSStat);
  nh_CanWrite : bool;
  nh_IsSymlink : bool;
  nh_OnNFSRead : option (bytes -> Z -> Z -> pst U (res NFSReadResult));
  nh_VerifierFor : option (bytes -> list FileInfo -> Z);
  nh_DataForVerifier : bytes -> Z -> option (list FileInfo) }.

Section proc.
Context {U : Type} {Uh : NfsHandler U}.
Abbreviation M A := (pst U (res A)).

(** The result of a call as a value. *)
Definition attempt {A} (m : M A) : M (res A) := r <-! m ;; pst_ok r.

(** [xdr.Read] of the arguments. *)
Definition args {A} (a : res A) : M A := pst_ret (map_err (fun e => NFSStatusError NFSStatusInval (Some e)) a).

Definition from_handle (h : bytes) : M (list bytes) :=
  r <-? attempt (nh_FromHandle h) ;;
  pst_ret (map_err (fun e => NFSStatusError NFSStatusStale (Some e)) r).

Definition tryStat (path : list bytes) : M (option FileAttribute) :=
  let fullPath := nh_Join path in
  r <-? attempt (nh_Lstat fullPath) ;;
  match r with
  | Err _ => pst_ok None
  | Ok attrs => pst_ok (Some (ToFileAttribute attrs fullPath))
  end.

(** ** GETATTR, LOOKUP, ACCESS *)

Definition onGetAttr (a : res bytes) : M FileAttribute :=
  handle <-? args a ;;
  path <-? from_handle handle ;;
  let fullPath := nh_Join path in
  r <-? attempt (nh_Lstat fullPath) ;;
  match r with
  | Err e => pst_ret (status_err (if os_IsNotExist e then NFSStatusNoEnt else NFSStatusIO) (Some e))
  | Ok info => pst_ok (ToFileAttribute info fullPath)
  end.

Record lookupReply := MkLookup { lr_handle : bytes; lr_attr : option FileAttribute; lr_dirAttr : option FileAttribute }.

Definition lookupSuccessResponse (handle : bytes) (entPath dirPath : list bytes) : M lookupReply :=
  a <-? tryStat entPath ;; d <-? tryStat dirPath ;; pst_ok (MkLookup handle a d).

Record DirOpArg := MkDirOp { do_Handle : bytes; do_Filename : bytes }.

Definition onLookup (a : res DirOpArg) : M lookupReply :=
  obj <-? args a ;;
  p <-? from_handle (do_Handle obj) ;;
  r <-? attempt (nh_Lstat (nh_Join p)) ;;
  match r with
  | Err e => pst_ret (status_err NFSStatusNotDir (Some e))
  | Ok dirInfo =>
      if negb (fi_IsDir dirInfo) then pst_ret (status_err NFSStatusNotDir None) else
      if decide (do_Filename obj = str ".") then lookupSuccessResponse (do_Handle obj) p p
      else if decide (do_Filename obj = str "..") then
        if decide (p = []) then pst_ret (status_err NFSStatusAccess (Some ErrPermission)) else
        let pPath := take (pred (length p)) p in
        pHandle <-! nh_ToHandle pPath ;;
        lookupSuccessResponse pHandle pPath p
      else
        let reqPath := p ++ [do_Filename obj] in
        r <-? attempt (nh_Lstat (nh_Join reqPath)) ;;
        match r with
        | Err _ => pst_ret (status_err NFSStatusNoEnt (Some ErrNotExist))
        | Ok _ => newHandle <-! nh_ToHandle reqPath ;; lookupSuccessResponse newHandle reqPath p
        end
  end.

Definition onAccess (root : res bytes) (mask : res Z) : M (option FileAttribute * Z) :=
  roothandle <-? args root ;;
  path <-? from_handle roothandle ;;
  mask <-? args mask ;;
  attr <-? tryStat path ;;
  let mask := if negb nh_CanWrite then Z.land mask (Z.lor 1 (Z.lor 2 32)) else mask in
  let mask2 := Z.lor (Z.lor mask 1) 2 in
  let mask2 := match attr with
               | Some at_ => if decide (a_Type at_ = FileTypeDirectory) then Z.lor mask2 32 else mask2
               | None => mask2
               end in
  pst_ok (attr, mask2).

(** ** READDIR and READDIRPLUS *)

Definition joinPath (parent elements : list bytes) : list bytes := parent ++ elements.

(** [binary.BigEndian.Uint64] of the bytes in the other order. *)
Definition byte_reverse64 (a : Z) : Z := be_val (reverse (be_bytes 8 a)).
Definition cookieVerifierEqual (a b : Z) : bool := (a =? b) || (byte_reverse64 a =? b).

Definition hashPathAndContents (path : bytes) (contents : list FileInfo) : Z :=
  be_val (take 8 (sha256 (path ++ mjoin (fi_Name <$> contents)))).

(** [sort.Slice] by name. *)
Definition name_le (a b : FileInfo) : Prop := bytes_le (fi_Name a) (fi_Name b).
#[local] Instance name_le_dec a b : Decision (name_le a b).
Proof. unfold name_le. apply _. Defined.
Definition sort_by_name (l : list FileInfo) : list FileInfo := merge_sort name_le l.

Definition getDirListingWithVerifier (fsHandle : bytes) (verifier : Z) : M (list FileInfo * Z) :=
  p <-? from_handle fsHandle ;;
  let path := nh_Join p in
  match (if negb (verifier =? 0) && bool_decide (is_Some nh_VerifierFor) then nh_DataForVerifier path verifier else None) with
  | Some entries => pst_ok (entries, verifier)
  | None =>
      r <-? attempt (nh_ReadDir path) ;;
      match r with
      | Err e => pst_ret (status_err (if os_IsPermission e then NFSStatusAccess else NFSStatusNotDir) (Some e))
      | Ok contents =>
          let contents := sort_by_name contents in
          pst_ok (contents, match nh_VerifierFor with
                            | Some f => f path contents
                            | None => hashPathAndContents path contents
                            end)
      end
  end.

Record readDirArgs := MkReadDirArgs { rd_Handle : bytes; rd_Cookie : Z; rd_CookieVerif : Z; rd_Count : Z }.
Record readDirEntity := MkEntity { e_FileID : Z; e_Name : bytes; e_Cookie : Z; e_Next : bool }.
Record readDirReply := MkReadDirReply {
  rp_attr : option FileAttribute; rp_verifier : Z; rp_entities : list readDirEntity; rp_eof : bool }.

(** The ids of a directory and its parent. *)
Definition dot_ids (p : list bytes) : M (option FileAttribute * Z) :=
  dda <-? (if decide (p = []) then pst_ok None else tryStat (take (pred (length p)) p)) ;;
  da <-? tryStat p ;;
  pst_ok (da, match dda with Some a => a_Fileid a | None => 0 end).
Definition file_id (a : option FileAttribute) : Z := match a with Some a => a_Fileid a | None => 0 end.

(** The loop over the contents from index [i]; the result is the entities
    and whether the end was reached. *)
Fixpoint readdir_loop (args : readDirArgs) (maxEntities : Z) (p : list bytes) (contents : list FileInfo)
    (i : Z) (started : bool) (maxBytes : Z) (entities : list readDirEntity) : list readDirEntity * bool :=
  match contents with
  | [] => (entities, true)
  | c :: contents' =>
      let cookie := u64 (i + 2) in
      if started then
        let maxBytes := u32 (maxBytes + 512) in
        if (rd_Count args <? maxBytes) || (maxEntities <? Z.of_nat (length entities)) then (entities, false)
        else
          let attrs := ToFileAttribute c (path_Join (p ++ [fi_Name c])) in
          readdir_loop args maxEntities p contents' (i + 1) started maxBytes
            (entities ++ [MkEntity (a_Fileid attrs) (fi_Name c) cookie true])
      else readdir_loop args maxEntities p contents' (i + 1) (cookie =? rd_Cookie args) maxBytes entities
  end.

(** No next for the last entity. *)
Fixpoint end_list (l : list readDirEntity) : list readDirEntity :=
  match l with
  | [] => []
  | [e] => [MkEntity (e_FileID e) (e_Name e) (e_Cookie e) false]
  | e :: l' => e :: end_list l'
  end.

Definition bad_cookie (cookie cookieVerif verifier : Z) : bool :=
  (0 <? cookie) && (0 <? cookieVerif) && negb (cookieVerifierEqual verifier cookieVerif).

Definition onReadDir (a : res readDirArgs) : M readDirReply :=
  obj <-? args a ;;
  if rd_Count obj <? 1024 then pst_ret (status_err NFSStatusTooSmall (Some ErrShortBuffer)) else
  p <-? from_handle (rd_Handle obj) ;;
  lv <-? getDirListingWithVerifier (rd_Handle obj) (rd_CookieVerif obj) ;;
  let '(contents, verifier) := lv in
  if bad_cookie (rd_Cookie obj) (rd_CookieVerif obj) verifier then pst_ret (status_err NFSStatusBadCookie None) else
  let started := rd_Cookie obj =? 0 in
  dots <-? (if started then
              ids <-? dot_ids p ;;
              pst_ok [MkEntity (file_id ids.1) (str ".") 0 true; MkEntity ids.2 (str "..") 1 true]
            else pst_ok []) ;;
  let '(entities, eof) := readdir_loop obj (Z.quot nh_HandleLimit 2) p contents 0 started 100 dots in
  attr <-? tryStat p ;;
  pst_ok (MkReadDirReply attr verifier (end_list entities) eof).

Record readDirPlusArgs := MkReadDirPlusArgs {
  rdp_Handle : bytes; rdp_Cookie : Z; rdp_CookieVerif : Z; rdp_DirCount : Z; rdp_MaxCount : Z }.
Record readDirPlusEntity := MkPlusEntity {
  pe_entity : readDirEntity; pe_Attributes : option FileAttribute; pe_Handle : option bytes }.
Record readDirPlusReply := MkReadDirPlusReply {
  rpp_attr : option FileAttribute; rpp_verifier : Z; rpp_entities : list readDirPlusEntity; rpp_eof : bool }.

Definition openSetName : bytes := str ".vfs-openset-dir".

(** As [readdir_loop], with [saw] for [sawOpenSet]. *)
Fixpoint readdirplus_loop (args : readDirPlusArgs) (maxEntities : Z) (p : list bytes) (contents : list FileInfo)
    (i : Z) (started : bool) (dirBytes maxBytes : Z) (saw : bool) (entities : list readDirPlusEntity)
    : pst U (list readDirPlusEntity * bool * bool) :=
  match contents with
  | [] => pst_ret (entities, true, saw)
  | c :: contents' =>
      let saw := saw || bool_decide (fi_Name c = openSetName) in
      let cookie := u64 (i + 2) in
      if started then
        let dirBytes := u32 (dirBytes + Z.of_nat (length (fi_Name c)) + 20) in
        let maxBytes := u32 (maxBytes + 512) in
        if (rdp_DirCount args <? dirBytes) || (rdp_MaxCount args <? maxBytes) || (maxEntities <? Z.of_nat (length entities))
        then pst_ret (entities, false, saw)
        else
          let filePath := joinPath p [fi_Name c] in
          handle <-! nh_ToHandle filePath ;;
          let attrs := ToFileAttribute c (path_Join filePath) in
          readdirplus_loop args maxEntities p contents' (i + 1) started dirBytes maxBytes saw
            (entities ++ [MkPlusEntity (MkEntity (a_Fileid attrs) (fi_Name c) cookie true) (Some attrs) (Some handle)])
      else readdirplus_loop args maxEntities p contents' (i + 1) (cookie =? rdp_Cookie args) dirBytes maxBytes saw entities
  end.

Fixpoint end_plus (l : list readDirPlusEntity) : list readDirPlusEntity :=
  match l with
  | [] => []
  | [e] => [MkPlusEntity (MkEntity (e_FileID (pe_entity e)) (e_Name (pe_entity e)) (e_Cookie (pe_entity e)) false)
              (pe_Attributes e) (pe_Handle e)]
  | e :: l' => e :: end_plus l'
  end.

(** [ForWindowsClients] is a field of the server. *)
Definition onReadDirPlus (ForWindowsClients : bool) (a : res readDirPlusArgs) : M readDirPlusReply :=
  obj <-? args a ;;
  if (rdp_DirCount obj <? 512) || (rdp_MaxCount obj <? 4096) then pst_ret (status_err NFSStatusTooSmall None) else
  p <-? from_handle (rdp_Handle obj) ;;
  lv <-? getDirListingWithVerifier (rdp_Handle obj) (rdp_CookieVerif obj) ;;
  let '(contents, verifier) := lv in
  if bad_cookie (rdp_Cookie obj) (rdp_CookieVerif obj) verifier then pst_ret (status_err NFSStatusBadCookie None) else
  let started := rdp_Cookie obj =? 0 in
  dots <-? (if started then
              ids <-? dot_ids p ;;
              pst_ok [MkPlusEntity (MkEntity (file_id ids.1) (str ".") 0 true) ids.1 None;
                      MkPlusEntity (MkEntity ids.2 (str "..") 1 true) None None]
            else pst_ok []) ;;
  r <-! readdirplus_loop obj (Z.quot nh_HandleLimit 2) p contents 0 started 0 100 false dots ;;
  let '(entities, eof, saw) := r in
  attr <-? tryStat p ;;
  pst_ok (MkReadDirPlusReply attr verifier (end_plus entities) (if saw && ForWindowsClients then false else eof)).

(** ** READ and READLINK *)

Definition MaxRead : Z := Z.shiftl 1 24.
Definition CheckRead : Z := Z.shiftl 1 15.

Record nfsReadArgs := MkReadArgs { ra_Handle : bytes; ra_Offset : Z; ra_Count : Z }.
Record nfsReadResponse := MkReadResponse { rs_Count : Z; rs_EOF : Z; rs_Data : bytes }.

(** An [NFSStatusError] stays as it is. *)
Definition server_fault (e : error) : error :=
  match e with NFSStatusError _ _ => e | _ => NFSStatusError NFSStatusServerFault (Some e) end.

(** The rest of [onRead] for a handler that is not a [ReadHandler]; the file
    is closed at every return. *)
Definition read_file (obj : nfsReadArgs) (path : list bytes) (fh : nh_File) : M (option FileAttribute * nfsReadResponse) :=
  r <-? attempt (if CheckRead <? ra_Count obj then
                 r <-? attempt (nh_Stat (nh_Join path)) ;;
                 match r with
                 | Err e => pst_ret (status_err NFSStatusAccess (Some e))
                 | Ok info =>
                     pst_ok (if i64 (fi_Size info - i64 (ra_Offset obj)) <? ra_Count obj
                             then u32 (fi_Size info - ra_Offset obj) else ra_Count obj)
                 end
               else pst_ok (ra_Count obj)) ;;
  match r with
  | Err e => nh_Close fh ;;! pst_err e
  | Ok count =>
      let count := if MaxRead <? count then MaxRead else count in
      c <-! nh_ReadAt fh count (i64 (ra_Offset obj)) ;;
      let '(data, e) := c in
      let eof := match e with Some e => errors_Is e (fun e => match e with EOF => true | _ => false end) | None => false end in
      match e with
      | Some e' => if negb eof then nh_Close fh ;;! pst_ret (status_err NFSStatusIO (Some e')) else
          attr <-? tryStat path ;;
          nh_Close fh ;;! pst_ok (attr, MkReadResponse (u32 (Z.of_nat (length data))) 1 data)
      | None =>
          attr <-? tryStat path ;;
          nh_Close fh ;;! pst_ok (attr, MkReadResponse (u32 (Z.of_nat (length data))) 0 data)
      end
  end.

Definition onRead (a : res nfsReadArgs) : M (option FileAttribute * nfsReadResponse) :=
  obj <-? args a ;;
  match nh_OnNFSRead with
  | Some OnNFSRead =>
      r <-? attempt (OnNFSRead (ra_Handle obj) (ra_Offset obj) (ra_Count obj)) ;;
      match r with
      | Err e => pst_err (server_fault e)
      | Ok nres => pst_ok (Some (rr_Attr nres), MkReadResponse (u32 (Z.of_nat (length (rr_Data nres))))
                             (if rr_EOF nres then 1 else 0) (rr_Data nres))
      end
  | None =>
      path <-? from_handle (ra_Handle obj) ;;
      r <-? attempt (nh_Open (nh_Join path)) ;;
      match r with
      | Err e => pst_ret (status_err (if os_IsNotExist e then NFSStatusNoEnt else NFSStatusAccess) (Some e))
      | Ok fh => read_file obj path fh
      end
  end.

(** The error of [Inval] is the inner [err], which is nil. *)
Definition onReadLink (a : res bytes) : M (option FileAttribute * bytes) :=
  handle <-? args a ;;
  path <-? from_handle handle ;;
  r <-? attempt (nh_Readlink (nh_Join path)) ;;
  match r with
  | Err e =>
      i <-? attempt (nh_Stat (nh_Join path)) ;;
      if (match i with Ok info => negb (has_bit (fi_Mode info) ModeSymlink) | Err _ => false end)
      then pst_ret (status_err NFSStatusInval None)
      else pst_ret (status_err (if os_IsNotExist e then NFSStatusNoEnt else NFSStatusAccess) (Some e))
  | Ok out => attr <-? tryStat path ;; pst_ok (attr, out)
  end.

(** ** FSSTAT, FSINFO, PATHCONF *)

Definition onFSStat (a : res bytes) : M (option FileAttribute * FSStat) :=
  roothandle <-? args a ;;
  path <-? from_handle roothandle ;;
  let big := Z.shiftl 1 62 in
  let avail := if negb nh_CanWrite then 0 else big in
  r <-? attempt (nh_FSStat (MkFSStat big big avail big big avail 0)) ;;
  match r with
  | Err e => pst_err (server_fault e)
  | Ok defaults => attr <-? tryStat path ;; pst_ok (attr, defaults)
  end.

Definition FSInfoPropertyLink : Z := 1.
Definition FSInfoPropertySymlink : Z := 2.
Definition FSInfoPropertyHomogeneous : Z := 8.
Definition FSInfoPropertyCanSetTime : Z := 16.

Record fsinfores := MkFSInfo {
  Rtmax : Z; Rtpref : Z; Rtmult : Z; Wtmax : Z; Wtpref : Z; Wtmult : Z; Dtpref : Z;
  Maxfilesize : Z; TimeDelta : Z; Properties : Z }.

Definition onFSInfo (a : res bytes) : M (option FileAttribute * fsinfores) :=
  roothandle <-? args a ;;
  path <-? from_handle roothandle ;;
  attr <-? tryStat path ;;
  let p := 0 in
  let p := if nh_IsSymlink then Z.lor (Z.lor p FSInfoPropertyLink) FSInfoPropertySymlink else p in
  let p := Z.lor p FSInfoPropertyHomogeneous in
  let p := if nh_CanWrite then Z.lor p FSInfoPropertyCanSetTime else p in
  let m := Z.shiftl 1 30 in
  pst_ok (attr, MkFSInfo m m 4096 m m 4096 8192 (Z.shiftl 1 62) 1 p).

Definition PathNameMax : Z := 255.

Record PathConf := MkPathConf {
  LinkMax : Z; NameMax : Z; NoTrunc : Z; ChownRestricted : Z; CaseInsensitive : Z; CasePreserving : Z }.

Definition onPathConf (a : res bytes) : M (option FileAttribute * PathConf) :=
  roothandle <-? args a ;;
  path <-? from_handle roothandle ;;
  attr <-? tryStat path ;;
  pst_ok (attr, MkPathConf 1 PathNameMax 1 0 0 1).
End proc.
