(* ===== verification/NfsProcProps.v ===== *)
(** * go-nfs: reading a directory page by page

    A client that starts at cookie 0 and resumes at the last cookie of each
    page gets every name of the directory exactly once, with READDIR and
    with READDIRPLUS. *)

From stdpp Require Import sorting.
From S2P Require Import Prelude GoStrings Sha Store StoreTree NfsAttr NfsProc.

Local Open Scope gomodfs_scope.
Local Open Scope Z_scope.

(** ** Computations that keep an invariant

    From a state with [Inv], [m] does not panic, gives a result with [P] and
    a state with [Inv]. *)
Definition yields {U A} (Inv : U -> Prop) (m : pst U A) (P : A -> Prop) : Prop :=
  forall u, Inv u -> exists a u', m u = Some (a, u') /\ Inv u' /\ P a.

Definition is_ok {A} (P : A -> Prop) (r : res A) : Prop := exists a, r = Ok a /\ P a.

Section yields.
Context {U : Type} (Inv : U -> Prop).
Abbreviation yields := (yields Inv).

Lemma yields_ret {A} (a : A) (P : A -> Prop) : P a -> yields (pst_ret a) P.
Proof. intros HP u Hu. by exists a, u. Qed.

Lemma yields_bind {A B} (m : pst U A) (k : A -> pst U B) P Q :
  yields m P -> (forall a, P a -> yields (k a) Q) -> yields (pst_bind m k) Q.
Proof.
  intros Hm Hk u Hu. destruct (Hm u Hu) as (a & u' & Hmu & Hu' & HP).
  rewrite (bind_some _ _ _ _ _ Hmu). by apply Hk.
Qed.

Lemma yields_try {A B} (m : pst U (res A)) (k : A -> pst U (res B)) P Q :
  yields m (is_ok P) -> (forall a, P a -> yields (k a) Q) -> yields (pst_try m k) Q.
Proof. intros Hm Hk. eapply yields_bind; [exact Hm|]. intros r (a & -> & HP). by apply Hk. Qed.

Lemma yields_ok {A} (a : A) (P : A -> Prop) : P a -> yields (pst_ok a) (is_ok P).
Proof. intros HP. apply yields_ret. by exists a. Qed.

Lemma yields_mono {A} (m : pst U A) (P Q : A -> Prop) : yields m P -> (forall a, P a -> Q a) -> yields m Q.
Proof. intros Hm HPQ u Hu. destruct (Hm u Hu) as (a & u' & ? & ? & ?). exists a, u'. auto. Qed.

Lemma yields_attempt {A} (m : pst U (res A)) P : yields m P -> yields (attempt m) (is_ok P).
Proof. intros Hm. eapply yields_bind; [exact Hm|]. intros r HP. by apply yields_ok. Qed.
End yields.

(** ** Pages

    A page is the names and cookies of its entries, the verifier, and
    whether it is the last one. *)

Definition page_result : Type := list (bytes * Z) * Z * bool.

(** The client: [fuel] pages at most, and an error when there is no
    progress. *)
Fixpoint read_dir_all {U} (page : Z -> Z -> pst U (res page_result)) (fuel : nat) (cookie verif : Z) : pst U (res (list bytes)) :=
  match fuel with
  | O => pst_err (errText "too many pages")
  | S fuel' =>
      r <-? page cookie verif ;;
      let '(es, v, eof) := r in
      if eof : bool then pst_ok es.*1
      else match last es with
           | None => pst_err (errText "empty page")
           | Some (_, c) => rest <-? read_dir_all page fuel' c v ;; pst_ok (es.*1 ++ rest)
           end
  end.

Definition dots : list bytes := [str "."; str ".."].

(** The entries of [names] from index [i], with their cookies. *)
Fixpoint cookies (i : nat) (names : list bytes) : list (bytes * Z) :=
  match names with [] => [] | n :: names' => (n, Z.of_nat i + 2) :: cookies (S i) names' end.

(** What a server of [names] promises of the page that starts at index [i]. *)
Definition page_ok (names : list bytes) (v : Z) (i : nat) (r : page_result) : Prop :=
  exists k, r = ((if decide (i = O) then zip dots [0; 1] else []) ++ cookies i (take k (drop i names)), v,
                 bool_decide (i + k = length names)%nat)
    /\ (i + k <= length names)%nat /\ (i < length names -> 0 < k)%nat.

Definition cookie_at (i : nat) : Z := if decide (i = O) then 0 else Z.of_nat i + 1.

Lemma fst_cookies i names : (cookies i names).*1 = names.
Proof. revert i. induction names as [|n l IH]; intros i; [done|]. cbn. by rewrite IH. Qed.

Lemma length_cookies i names : length (cookies i names) = length names.
Proof. by rewrite <-(length_fmap fst), fst_cookies. Qed.

Lemma last_cookies i names c :
  last (cookies i names) = Some c -> c.2 = Z.of_nat (i + length names) + 1.
Proof.
  revert i. induction names as [|n l IH]; intros i; [done|]. cbn [cookies]. destruct l as [|n' l].
  - intros H. change (Some (n, Z.of_nat i + 2) = Some c) in H. simplify_eq/=. lia.
  - intros H. change (last (cookies (S i) (n' :: l)) = Some c) in H. rewrite (IH _ H). cbn [length]. lia.
Qed.

Section client.
Context {U : Type} (Inv : U -> Prop) (page : Z -> Z -> pst U (res page_result)) (names : list bytes) (v : Z).
Context (Hpage : forall i verif, (i <= length names)%nat -> i = O \/ verif = v ->
  yields Inv (page (cookie_at i) verif) (is_ok (page_ok names v i))).

Lemma read_dir_from fuel i verif :
  (i <= length names)%nat -> (length names - i < fuel)%nat -> i = O \/ verif = v ->
  yields Inv (read_dir_all page fuel (cookie_at i) verif)
    (is_ok (fun l => l = (if decide (i = O) then dots else []) ++ drop i names)).
Proof.
  revert i verif. induction fuel as [|fuel IH]; intros i verif Hi Hf Hv; [lia|]. cbn [read_dir_all].
  eapply yields_try; [by apply Hpage|]. intros r (k & -> & Hk & Hpos). cbn beta iota.
  set (d := if decide (i = O) then zip dots [0; 1] else []).
  assert (d.*1 = if decide (i = O) then dots else []) as Hd by (subst d; by case_decide).
  rewrite fmap_app, Hd, fst_cookies. case_bool_decide as Hend.
  { apply yields_ok. f_equal. apply take_ge. rewrite length_drop. lia. }
  specialize (Hpos ltac:(lia)).
  assert (exists x, last (d ++ cookies i (take k (drop i names))) = Some x /\ x.2 = cookie_at (i + k)) as ([n c] & -> & Hc).
  { rewrite last_app. destruct (last (cookies i _)) as [x|] eqn:Hl.
    - exists x. split; [done|]. rewrite (last_cookies _ _ _ Hl), length_take, length_drop.
      unfold cookie_at. rewrite (decide_False (P := (i + k = O)%nat)) by lia. lia.
    - apply last_None in Hl. assert (length (cookies i (take k (drop i names))) = O) as H0 by by rewrite Hl.
      rewrite length_cookies, length_take, length_drop in H0. lia. }
  cbn [snd] in Hc. subst c.
  eapply yields_try; [apply (IH (i + k)%nat v); [lia|lia|by right]|]. intros l ->.
  apply yields_ok. rewrite (decide_False (P := (i + k = O)%nat)) by lia. rewrite <-app_assoc. f_equal. cbn [app].
  rewrite <-drop_drop. apply take_drop.
Qed.
End client.

(** ** The loops *)

Definition ent (e : readDirEntity) : bytes * Z := (e_Name e, e_Cookie e).

Lemma ent_end_list l : ent <$> end_list l = ent <$> l.
Proof. induction l as [|e [|e' l] IH]; [done..|]. cbn [end_list fmap list_fmap] in *. by rewrite IH. Qed.

Lemma ent_end_plus l : ent ∘ pe_entity <$> end_plus l = ent ∘ pe_entity <$> l.
Proof. induction l as [|e [|e' l] IH]; [done..|]. cbn [end_plus fmap list_fmap] in *. by rewrite IH. Qed.

Section loops.
Context {U : Type} {Uh : NfsHandler U}.

(** Before the cookie is met, entries are skipped. *)
Lemma readdir_loop_skip ar mx p contents i m mb es :
  Z.of_nat (i + length contents) + 2 < 2 ^ 64 -> (m < length contents)%nat ->
  rd_Cookie ar = Z.of_nat (i + m) + 2 ->
  readdir_loop ar mx p contents (Z.of_nat i) false mb es =
  readdir_loop ar mx p (drop (S m) contents) (Z.of_nat (i + S m)) true mb es.
Proof.
  revert i m. induction contents as [|c contents IH]; intros i m Hb Hm Hc; cbn [length] in *; [lia|].
  cbn [readdir_loop]. rewrite u64_small by lia. rewrite Hc. destruct m as [|m].
  - rewrite Nat.add_0_r, Z.eqb_refl. cbn [drop]. do 2 f_equal. lia.
  - rewrite (proj2 (Z.eqb_neq _ _)) by lia. replace (Z.of_nat i + 1) with (Z.of_nat (S i)) by lia.
    rewrite (IH (S i) m) by lia. cbn [drop]. f_equal. lia.
Qed.

(** After it, a page is the entries up to the limits. *)
Lemma readdir_loop_started ar mx p contents i mb es :
  Z.of_nat (i + length contents) + 2 < 2 ^ 64 ->
  exists k es', readdir_loop ar mx p contents (Z.of_nat i) true mb es = (es ++ es', bool_decide (k = length contents))
    /\ ent <$> es' = cookies i (take k (fi_Name <$> contents)) /\ (k <= length contents)%nat
    /\ (u32 (mb + 512) <= rd_Count ar -> Z.of_nat (length es) <= mx -> (0 < length contents)%nat -> (0 < k)%nat).
Proof.
  revert i mb es. induction contents as [|c contents IH]; intros i mb es Hb; cbn [length] in *.
  { exists O, []. cbn [readdir_loop]. rewrite app_nil_r. split_and!; [done..|lia]. }
  cbn [readdir_loop]. case_match eqn:Hlim.
  { exists O, []. rewrite app_nil_r. split_and!; [done|done|lia|].
    apply orb_true_iff in Hlim as [?|?]; to_prop; lia. }
  replace (Z.of_nat i + 1) with (Z.of_nat (S i)) by lia.
  edestruct (IH (S i)) as (k & es' & -> & Hes & Hk & _); [lia|].
  rewrite <-app_assoc. eexists (S k), (_ :: es').
  split_and!; [|cbn [fmap list_fmap take cookies]; rewrite Hes|lia..].
  - cbn [app]. do 2 f_equal. apply bool_decide_ext. lia.
  - unfold ent at 1. cbn [e_Name e_Cookie]. by rewrite u64_small by lia.
Qed.

Definition sees (cs : list FileInfo) : bool := bool_decide (openSetName ∈ fi_Name <$> cs).

Lemma sees_cons c cs : sees (c :: cs) = bool_decide (fi_Name c = openSetName) || sees cs.
Proof.
  unfold sees. cbn [fmap list_fmap]. apply eq_true_iff_eq.
  rewrite orb_true_iff, !bool_decide_eq_true, elem_of_cons. naive_solver.
Qed.

Lemma readdirplus_loop_skip ar mx p contents i m db mb saw es u :
  Z.of_nat (i + length contents) + 2 < 2 ^ 64 -> (m < length contents)%nat ->
  rdp_Cookie ar = Z.of_nat (i + m) + 2 ->
  readdirplus_loop ar mx p contents (Z.of_nat i) false db mb saw es u =
  readdirplus_loop ar mx p (drop (S m) contents) (Z.of_nat (i + S m)) true db mb (saw || sees (take (S m) contents)) es u.
Proof.
  revert i m saw. induction contents as [|c contents IH]; intros i m saw Hb Hm Hc; cbn [length] in *; [lia|].
  cbn [readdirplus_loop]. rewrite u64_small by lia. rewrite Hc. cbn [take drop]. rewrite sees_cons, orb_assoc.
  destruct m as [|m].
  - rewrite Nat.add_0_r, Z.eqb_refl. cbn [take drop]. change (sees []) with false. rewrite orb_false_r.
    do 2 f_equal; lia.
  - rewrite (proj2 (Z.eqb_neq _ _)) by lia. replace (Z.of_nat i + 1) with (Z.of_nat (S i)) by lia.
    rewrite (IH (S i) m) by lia. cbn [drop]. do 2 f_equal; lia.
Qed.

Lemma readdirplus_loop_started (Inv : U -> Prop) ar mx p contents i db mb saw es :
  (forall name, yields Inv (nh_ToHandle (p ++ [name])) (fun _ => True)) ->
  Z.of_nat (i + length contents) + 2 < 2 ^ 64 ->
  yields Inv (readdirplus_loop ar mx p contents (Z.of_nat i) true db mb saw es) (fun r =>
    exists k es', r.1 = (es ++ es', bool_decide (k = length contents))
    /\ ent ∘ pe_entity <$> es' = cookies i (take k (fi_Name <$> contents)) /\ (k <= length contents)%nat
    /\ (forall c cs, contents = c :: cs -> u32 (db + Z.of_nat (length (fi_Name c)) + 20) <= rdp_DirCount ar ->
        u32 (mb + 512) <= rdp_MaxCount ar -> Z.of_nat (length es) <= mx -> (0 < k)%nat)
    /\ (r.2 -> saw || sees contents)).
Proof.
  intros HH. revert i db mb saw es. induction contents as [|c contents IH]; intros i db mb saw es Hb; cbn [length] in *.
  { cbn [readdirplus_loop]. apply yields_ret. exists O, []. rewrite app_nil_r. split_and!; [done|done|lia|done|].
    cbn [snd]. intros ?. by rewrite orb_true_intro by by left; apply Is_true_true. }
  cbn [readdirplus_loop]. case_match eqn:Hlim.
  { apply yields_ret. exists O, []. rewrite app_nil_r. split_and!; [done|done|lia| |].
    - intros ? ? [= <- <-] ???. rewrite !orb_true_iff in Hlim. destruct Hlim as [[?|?]|?]; to_prop; lia.
    - cbn [snd]. rewrite sees_cons, orb_assoc. intros ->%Is_true_true. done. }
  eapply yields_bind; [apply HH|]. intros hd _.
  replace (Z.of_nat i + 1) with (Z.of_nat (S i)) by lia.
  eapply yields_mono; [apply (IH (S i)); lia|]. intros [[es2 eof] saw2] (k & es' & Hr & Hes & Hk & _ & Hs).
  cbn [fst snd] in *. assert (es2 = _) as -> by exact (f_equal fst Hr). assert (eof = _) as -> by exact (f_equal snd Hr).
  rewrite <-app_assoc. eexists (S k), (_ :: es').
  split_and!; [|cbn [fmap list_fmap take cookies]; rewrite Hes|lia..|].
  - cbn [app]. f_equal. apply bool_decide_ext. lia.
  - unfold compose at 1, ent at 1. cbn [pe_entity e_Name e_Cookie]. by rewrite u64_small by lia.
  - by rewrite sees_cons, orb_assoc.
Qed.
End loops.

(** ** Directories *)

Lemma sort_names l names :
  fi_Name <$> l ≡ₚ names -> fi_Name <$> sort_by_name l = merge_sort bytes_le names.
Proof.
  intros Hl. apply (StronglySorted_unique bytes_le).
  - assert (StronglySorted name_le (sort_by_name l)) as Hs.
    { apply StronglySorted_merge_sort.
      - intros x y z. unfold name_le. apply bytes_le_trans.
      - intros x y. apply bytes_le_total. }
    induction Hs as [|x l' _ IH Hx]; cbn; constructor; [done|].
    apply Forall_fmap. exact Hx.
  - apply StronglySorted_merge_sort; apply _.
  - unfold sort_by_name. by rewrite !merge_sort_Permutation.
Qed.

(** The handle [h] of the directory with path [p] and the names [names], in
    any order, in states that a reading client can meet. *)
Record stable_dir {U} {Uh : NfsHandler U} (Inv : U -> Prop) (h : bytes) (p : list bytes) (names : list bytes) : Prop := {
  sd_from : yields Inv (nh_FromHandle h) (fun r => r = Ok p);
  sd_stat q : q = p \/ q = take (pred (length p)) p -> yields Inv (nh_Lstat (nh_Join q)) (fun _ => True);
  sd_read : yields Inv (nh_ReadDir (nh_Join p)) (is_ok (fun l => fi_Name <$> l ≡ₚ names));
  sd_handle name : yields Inv (nh_ToHandle (p ++ [name])) (fun _ => True);
  sd_verifier : nh_VerifierFor = None;
  sd_bound : Z.of_nat (length names) + 2 < 2 ^ 64;
  sd_limit : 4 <= nh_HandleLimit }.

Section dir.
Context {U : Type} {Uh : NfsHandler U} (Inv : U -> Prop) (h : bytes) (p names : list bytes).
Context (Hd : stable_dir Inv h p names).

(** The listing that the pages are of, and its verifier. *)
Definition listing : list bytes := merge_sort bytes_le names.
Definition verifier_of : Z := be_val (take 8 (sha256 (nh_Join p ++ mjoin listing))).

Lemma length_listing : length listing = length names.
Proof. unfold listing. by rewrite merge_sort_Permutation. Qed.

Lemma yields_args {A} (a : A) : yields Inv (args (Ok a)) (is_ok (fun x => x = a)).
Proof. by apply yields_ok. Qed.

Lemma yields_from : yields Inv (from_handle h) (is_ok (fun q => q = p)).
Proof.
  eapply yields_try; [apply yields_attempt, (sd_from _ _ _ _ Hd)|]. intros r ->. by apply yields_ok.
Qed.

Lemma yields_tryStat q : q = p \/ q = take (pred (length p)) p -> yields Inv (tryStat q) (is_ok (fun _ => True)).
Proof.
  intros Hq. eapply yields_try; [by apply yields_attempt, (sd_stat _ _ _ _ Hd)|].
  intros [] _; by apply yields_ok.
Qed.

Lemma yields_dot_ids : yields Inv (dot_ids p) (is_ok (fun _ => True)).
Proof.
  eapply yields_try with (P := fun _ => True).
  - case_decide; [by apply yields_ok|]. apply yields_tryStat. by right.
  - intros ? _. eapply yields_try; [apply yields_tryStat; by left|]. intros ? _. by apply yields_ok.
Qed.

Lemma yields_listing verif :
  yields Inv (getDirListingWithVerifier h verif) (is_ok (fun lv => fi_Name <$> lv.1 = listing /\ lv.2 = verifier_of)).
Proof.
  unfold getDirListingWithVerifier. eapply yields_try; [apply yields_from|]. intros ? ->.
  rewrite (sd_verifier _ _ _ _ Hd). rewrite bool_decide_eq_false_2, andb_false_r by (by intros []).
  eapply yields_try; [apply yields_attempt, (sd_read _ _ _ _ Hd)|]. intros ? (l & -> & Hl).
  apply yields_ok. cbn [fst snd]. pose proof (sort_names _ _ Hl) as Hn. split; [done|].
  unfold hashPathAndContents. by rewrite Hn.
Qed.

Lemma bad_cookie_same c v v' : c = 0 \/ v' = v -> bad_cookie c v' v = false.
Proof.
  unfold bad_cookie, cookieVerifierEqual. intros [->| ->]; [done|]. rewrite Z.eqb_refl. cbn. by rewrite andb_false_r.
Qed.

Lemma cookie_at_range i : (i <= length names)%nat -> 0 <= cookie_at i < 2 ^ 64.
Proof. pose proof (sd_bound _ _ _ _ Hd). unfold cookie_at. case_decide; lia. Qed.

Lemma cookie_at_zero i : (cookie_at i =? 0) = bool_decide (i = O).
Proof. unfold cookie_at. case_decide as Hi; case_bool_decide; (done || (apply Z.eqb_neq; lia)). Qed.

Lemma readdir_loop_resume ar mx contents i mb es :
  Z.of_nat (length contents) + 2 < 2 ^ 64 -> (i <= length contents)%nat -> rd_Cookie ar = cookie_at i ->
  readdir_loop ar mx p contents 0 (rd_Cookie ar =? 0) mb es =
  readdir_loop ar mx p (drop i contents) (Z.of_nat i) true mb es.
Proof.
  intros Hb Hi Hc. rewrite Hc, cookie_at_zero. case_bool_decide as H0; [by subst|].
  destruct i as [|i]; [done|]. apply (readdir_loop_skip ar mx p contents 0 i); [lia|lia|].
  rewrite Hc. unfold cookie_at. rewrite decide_False by done. lia.
Qed.

Lemma readdirplus_loop_resume ar mx contents i db mb es u :
  Z.of_nat (length contents) + 2 < 2 ^ 64 -> (i <= length contents)%nat -> rdp_Cookie ar = cookie_at i ->
  readdirplus_loop ar mx p contents 0 (rdp_Cookie ar =? 0) db mb false es u =
  readdirplus_loop ar mx p (drop i contents) (Z.of_nat i) true db mb (sees (take i contents)) es u.
Proof.
  intros Hb Hi Hc. rewrite Hc, cookie_at_zero. case_bool_decide as H0; [by subst|].
  destruct i as [|i]; [done|]. apply (readdirplus_loop_skip ar mx p contents 0 i); [lia|lia|].
  rewrite Hc. unfold cookie_at. rewrite decide_False by done. lia.
Qed.

(** The result of a loop from index [i], as a page. *)
Lemma loop_page contents i k (es' : list (bytes * Z)) (ds : list (bytes * Z)) eof :
  fi_Name <$> contents = listing -> (i <= length contents)%nat ->
  ds = (if decide (i = O) then zip dots [0; 1] else []) ->
  es' = cookies i (take k (fi_Name <$> drop i contents)) ->
  eof = bool_decide (k = length (drop i contents)) -> (k <= length (drop i contents))%nat ->
  ((0 < length (drop i contents))%nat -> (0 < k)%nat) ->
  page_ok listing verifier_of i (ds ++ es', verifier_of, eof).
Proof.
  intros Hc Hi -> -> -> Hk Hp. rewrite <-Hc. rewrite length_drop in *. exists k. rewrite length_fmap, <-fmap_drop.
  split_and!; [|lia|intros; apply Hp; lia]. f_equal. apply bool_decide_ext. lia.
Qed.

Definition readdir_page (count cookie verif : Z) : pst U (res page_result) :=
  rp <-? onReadDir (Ok (MkReadDirArgs h cookie verif count)) ;;
  pst_ok (ent <$> rp_entities rp, rp_verifier rp, rp_eof rp).

Lemma readdir_page_ok count i verif :
  1024 <= count -> (i <= length listing)%nat -> i = O \/ verif = verifier_of ->
  yields Inv (readdir_page count (cookie_at i) verif) (is_ok (page_ok listing verifier_of i)).
Proof.
  intros Hcount Hi Hv. pose proof (sd_bound _ _ _ _ Hd) as Hb. pose proof (sd_limit _ _ _ _ Hd) as Hlim.
  eapply yields_try with (P := fun rp => page_ok listing verifier_of i (ent <$> rp_entities rp, rp_verifier rp, rp_eof rp));
    [|intros; by apply yields_ok].
  unfold onReadDir. eapply yields_try; [apply yields_args|]. intros ? ->. cbn [rd_Count rd_Handle rd_CookieVerif rd_Cookie].
  rewrite (proj2 (Z.ltb_ge _ _) Hcount).
  eapply yields_try; [apply yields_from|]. intros ? ->.
  eapply yields_try; [apply yields_listing|]. intros [contents v] [Hc Hv']. cbn [fst snd] in Hc, Hv'. subst v.
  assert (length contents = length names) as Hlen by (by rewrite <-(length_fmap fi_Name), Hc, length_listing).
  rewrite bad_cookie_same by (destruct Hv as [->|]; [by left|by right]).
  eapply yields_try with (P := fun ds => ent <$> ds = (if decide (i = O) then zip dots [0; 1] else [])).
  { rewrite cookie_at_zero. case_decide as H0.
    - rewrite bool_decide_eq_true_2 by done. eapply yields_try; [apply yields_dot_ids|]. intros ids _. by apply yields_ok.
    - rewrite bool_decide_eq_false_2 by done. by apply yields_ok. }
  intros ds Hds. rewrite length_listing in Hi.
  pose proof (readdir_loop_resume (MkReadDirArgs h (cookie_at i) verif count) (Z.quot nh_HandleLimit 2) contents i 100 ds) as Hr.
  cbn [rd_Cookie] in Hr. rewrite Hr by (lia || done). clear Hr.
  destruct (readdir_loop_started (MkReadDirArgs h (cookie_at i) verif count) (Z.quot nh_HandleLimit 2) p (drop i contents) i 100 ds)
    as (k & es' & -> & Hes & Hk & Hp); [rewrite length_drop; lia|].
  cbn beta iota. eapply yields_try; [apply yields_tryStat; by left|]. intros attr _. apply yields_ok.
  cbn [rp_entities rp_verifier rp_eof]. rewrite ent_end_list, fmap_app.
  apply (loop_page contents i k); [done|lia|done|done|done|done|]. intros Hpos. apply Hp; [|..|done].
  - cbn [rd_Count]. rewrite u32_small; lia.
  - assert (length ds <= 2)%nat by (rewrite <-(length_fmap ent), Hds; case_decide; cbn; lia).
    assert (2 <= Z.quot nh_HandleLimit 2) by (rewrite Z.quot_div_nonneg by lia; apply Z.div_le_lower_bound; lia). lia.
Qed.

Definition readdirplus_page (W : bool) (dirCount maxCount cookie verif : Z) : pst U (res page_result) :=
  rp <-? onReadDirPlus W (Ok (MkReadDirPlusArgs h cookie verif dirCount maxCount)) ;;
  pst_ok (ent ∘ pe_entity <$> rpp_entities rp, rpp_verifier rp, rpp_eof rp).

Lemma sees_listing contents l :
  fi_Name <$> contents = listing -> openSetName ∉ names -> l ⊆ contents -> sees l = false.
Proof.
  intros Hc Ho Hl. apply bool_decide_eq_false_2. intros (c & He & Hin)%list_elem_of_fmap. apply Ho.
  assert (openSetName ∈ listing) as Hi by (rewrite <-Hc, He; apply list_elem_of_fmap_2, Hl, Hin).
  unfold listing in Hi. by rewrite merge_sort_Permutation in Hi.
Qed.

Lemma readdirplus_page_ok W dirCount maxCount i verif :
  512 <= dirCount -> 4096 <= maxCount -> Forall (fun n => Z.of_nat (length n) + 20 <= dirCount) names ->
  W = false \/ openSetName ∉ names ->
  (i <= length listing)%nat -> i = O \/ verif = verifier_of ->
  yields Inv (readdirplus_page W dirCount maxCount (cookie_at i) verif) (is_ok (page_ok listing verifier_of i)).
Proof.
  intros Hdc Hmc Hnames Hw Hi Hv. pose proof (sd_bound _ _ _ _ Hd) as Hb. pose proof (sd_limit _ _ _ _ Hd) as Hlim.
  eapply yields_try with (P := fun rp => page_ok listing verifier_of i (ent ∘ pe_entity <$> rpp_entities rp, rpp_verifier rp, rpp_eof rp));
    [|intros; by apply yields_ok].
  unfold onReadDirPlus. eapply yields_try; [apply yields_args|]. intros ? ->.
  cbn [rdp_DirCount rdp_MaxCount rdp_Handle rdp_CookieVerif rdp_Cookie].
  rewrite (proj2 (Z.ltb_ge _ _) Hdc), (proj2 (Z.ltb_ge _ _) Hmc). cbn [orb].
  eapply yields_try; [apply yields_from|]. intros ? ->.
  eapply yields_try; [apply yields_listing|]. intros [contents v] [Hc Hv']. cbn [fst snd] in Hc, Hv'. subst v.
  assert (length contents = length names) as Hlen by (by rewrite <-(length_fmap fi_Name), Hc, length_listing).
  rewrite bad_cookie_same by (destruct Hv as [->|]; [by left|by right]).
  eapply yields_try with (P := fun ds => ent ∘ pe_entity <$> ds = (if decide (i = O) then zip dots [0; 1] else [])).
  { rewrite cookie_at_zero. case_decide as H0.
    - rewrite bool_decide_eq_true_2 by done. eapply yields_try; [apply yields_dot_ids|]. intros ids _. by apply yields_ok.
    - rewrite bool_decide_eq_false_2 by done. by apply yields_ok. }
  intros ds Hds. rewrite length_listing in Hi. set (ar := MkReadDirPlusArgs h (cookie_at i) verif dirCount maxCount).
  pose proof (readdirplus_loop_started Inv ar (Z.quot nh_HandleLimit 2) p (drop i contents) i 0 100 (sees (take i contents)) ds
    (sd_handle _ _ _ _ Hd) ltac:(rewrite length_drop; lia)) as Hr.
  eapply yields_bind.
  { intros u Hu. pose proof (readdirplus_loop_resume ar (Z.quot nh_HandleLimit 2) contents i 0 100 ds u) as Hres.
    change (rdp_Cookie ar) with (cookie_at i) in Hres. rewrite Hres; [exact (Hr u Hu)|lia|lia|done]. }
  intros [[es eof] saw] (k & es' & He & Hes & Hk & Hp & Hs). cbn [fst snd] in He, Hs.
  assert (es = _) as -> by exact (f_equal fst He). assert (eof = _) as -> by exact (f_equal snd He).
  cbn beta iota. eapply yields_try; [apply yields_tryStat; by left|]. intros attr _. apply yields_ok.
  cbn [rpp_entities rpp_verifier rpp_eof].
  assert (saw && W = false) as ->.
  { destruct Hw as [->|Ho]; [apply andb_false_r|]. destruct saw; [|done]. exfalso. specialize (Hs I).
    rewrite (sees_listing contents (take i contents)), (sees_listing contents (drop i contents)) in Hs; try done.
    - intros x. apply subseteq_drop.
    - intros x. apply subseteq_take. }
  rewrite ent_end_plus. cbn [fst snd]. rewrite fmap_app.
  apply (loop_page contents i k); [done|lia|done|done|done|done|]. intros Hpos.
  destruct (drop i contents) as [|c cs] eqn:Hcs; [cbn in Hpos; lia|]. apply (Hp c cs); [done|..].
  - cbn [rdp_DirCount ar]. assert (c ∈ contents) as Hin by (apply (subseteq_drop i); rewrite Hcs; left).
    apply (list_elem_of_fmap_2 fi_Name) in Hin. rewrite Hc in Hin. unfold listing in Hin.
    rewrite merge_sort_Permutation in Hin. rewrite Forall_forall in Hnames. specialize (Hnames _ Hin).
    etrans; [|exact Hnames]. unfold u32, uwrap. rewrite Z.add_0_l. apply Z.mod_le; lia.
  - cbn [rdp_MaxCount ar]. rewrite u32_small; lia.
  - assert (length ds <= 2)%nat by (rewrite <-(length_fmap (ent ∘ pe_entity)), Hds; case_decide; cbn; lia).
    assert (2 <= Z.quot nh_HandleLimit 2) by (rewrite Z.quot_div_nonneg by lia; apply Z.div_le_lower_bound; lia). lia.
Qed.
End dir.
