(* ===== verification/NfsWrite.v ===== *)
(** * go-nfs: the procedures that write

    SETATTR, WRITE, CREATE, MKDIR, SYMLINK, MKNOD, REMOVE, RMDIR, RENAME,
    LINK and COMMIT, and [SetFileAttributes] (file.go), over the methods of
    the file system that change it ([NfsWriter]).  Arguments and results
    are as in [NfsProc]; an argument that the code decodes on its own is an
    argument here.  There is one file system, so that the two of RENAME are
    equal. *)

From S2P Require Import Prelude GoStrings Store NfsAttr NfsProc.

Local Open Scope gomodfs_scope.
Local Open Scope Z_scope.

(** [billy.Change], with the methods of [UnixChange] if it has them. *)
Record UnixChange (U : Type) := MkUnixChange {
  Mknod : bytes -> Z -> Z -> Z -> pst U (res unit);
  Mkfifo : bytes -> Z -> pst U (res unit);
  Socket : bytes -> pst U (res unit);
  Link : bytes -> bytes -> pst U (res unit) }.
Record Change (U : Type) := MkChange {
  Chmod : bytes -> Z -> pst U (res unit);
  Lchown : bytes -> Z -> Z -> pst U (res unit);
  Chtimes : bytes -> Z -> Z -> pst U (res unit);
  Unix : option (UnixChange U) }.
Arguments Mknod {U}. Arguments Mkfifo {U}. Arguments Socket {U}. Arguments Link {U}.
Arguments Chmod {U}. Arguments Lchown {U}. Arguments Chtimes {U}. Arguments Unix {U}.

(** What changes the file system, the open files that do, and the server's
    identity. *)
Class NfsWriter (U : Type) {Uh : NfsHandler U} := {
  nw_OpenFile : bytes -> Z -> Z -> pst U (res nh_File);
  nw_Create : bytes -> pst U (res nh_File);
  nw_Seek : nh_File -> Z -> pst U (res unit);
  nw_Write : nh_File -> bytes -> pst U (res Z);
  nw_Truncate : nh_File -> Z -> pst U (res unit);
  nw_Close : nh_File -> pst U (res unit);
  nw_Name : nh_File -> bytes;
  nw_MkdirAll : bytes -> Z -> pst U (res unit);
  nw_Remove : bytes -> pst U (res unit);
  nw_Rename : bytes -> bytes -> pst U (res unit);
  nw_Symlink : bytes -> bytes -> pst U (res unit);
  nw_Change : option (Change U);
  nw_InvalidateHandle : bytes -> pst U (res unit);
  nw_ID : bytes }.

Definition NFSStatusExist : Z := 17.
Definition NFSStatusFBig : Z := 27.
Definition NFSStatusROFS : Z := 30.
Definition NFSStatusNameTooLong : Z := 63.
Definition NFSStatusNotSync : Z := 10002.
Definition NFSStatusNotSupp : Z := 10004.
Definition NFSStatusBadType : Z := 10007.

(** [os.ErrExist], which only these procedures use. *)
Definition ErrExist : error := errText "file already exists".

(** The flags of [os.OpenFile], as Linux has them. *)
Definition O_WRONLY : Z := 1.
Definition O_RDWR : Z := 2.
Definition O_EXCL : Z := 128.
Definition MaxInt32 : Z := 2 ^ 31 - 1.
Definition MaxInt64 : Z := 2 ^ 63 - 1.
Definition ModeIrregular : Z := 2 ^ 19.
Definition ModeType : Z :=
  Z.lor ModeDir (Z.lor ModeSymlink (Z.lor ModeNamedPipe (Z.lor ModeSocket (Z.lor ModeDevice (Z.lor ModeCharDevice ModeIrregular))))).
Definition mode_IsRegular (m : Z) : bool := Z.land m ModeType =? 0.

(** ** SetFileAttributes (file.go) *)

Record SetFileAttributes := MkSetAttrs {
  SetMode : option Z; SetUID : option Z; SetGID : option Z; SetSize : option Z;
  SetAtime : option Z; SetMtime : option Z }.

(** Reading from a request: package xdr of go-nfs-client. *)
Class Xdr := {
  xdr_ReadUint32 : st bytes (res Z);
  xdr_ReadUint64 : st bytes (res Z);
  xdr_ReadFileTime : st bytes (res FileTime) }.

(** An optional value follows a number that is not 0. *)
Definition read_optional {A} `{X : Xdr} (read : st bytes (res A)) : st bytes (res (option A)) :=
  has <?~ xdr_ReadUint32 ;;
  if negb (has =? 0) then v <?~ read ;; st_ret (Ok (Some v)) else st_ret (Ok None).

(** 1 is the server's time, 2 the client's. *)
Definition read_time `{X : Xdr} (now : Z) : st bytes (res (option Z)) :=
  how <?~ xdr_ReadUint32 ;;
  if how =? 1 then st_ret (Ok (Some now))
  else if how =? 2 then t <?~ xdr_ReadFileTime ;; st_ret (Ok (Some (Native t)))
  else st_ret (Ok None).

(** The two times are read from the clock one after the other. *)
Definition ReadSetFileAttributes `{X : Xdr} (now1 now2 : Z) : st bytes (res SetFileAttributes) :=
  mode <?~ read_optional xdr_ReadUint32 ;;
  uid <?~ read_optional xdr_ReadUint32 ;;
  gid <?~ read_optional xdr_ReadUint32 ;;
  size <?~ read_optional xdr_ReadUint64 ;;
  atime <?~ read_time now1 ;;
  mtime <?~ read_time now2 ;;
  st_ret (Ok (MkSetAttrs mode uid gid size atime mtime)).

Definition attrs_Mode (s : SetFileAttributes) (def : Z) : Z :=
  match SetMode s with Some m => mode_Perm m | None => def end.

Section proc.
Context {U : Type} {Uh : NfsHandler U} {Uw : NfsWriter U}.
Abbreviation M A := (pst U (res A)).

(** [if err := m; err != nil] with the error replaced. *)
Definition with_err {A} (f : error -> error) (m : M A) : M A :=
  r <-! m ;; pst_ret (map_err f r).
Definition with_status {A} (status : Z) (m : M A) : M A := with_err (fun e => NFSStatusError status (Some e)) m.

Definition chmod_err (e : error) : error :=
  if errors_Is e os_IsPermission then NFSStatusError NFSStatusAccess (Some ErrPermission) else e.

Definition apply_mode (s : SetFileAttributes) (changer : option (Change U)) (file : bytes) (curr : FileAttribute) : M unit :=
  match SetMode s with
  | None => pst_ok tt
  | Some m =>
      let mode := mode_Perm m in
      if mode =? mode_Perm (a_FileMode curr) then pst_ok tt else
      match changer with
      | None => pst_ret (status_err NFSStatusNotSupp (Some ErrPermission))
      | Some c => with_err chmod_err (Chmod c file mode)
      end
  end.

Definition apply_owner (s : SetFileAttributes) (changer : option (Change U)) (file : bytes) (curr : FileAttribute) : M unit :=
  match SetUID s, SetGID s with
  | None, None => pst_ok tt
  | _, _ =>
      let euid := default (a_UID curr) (SetUID s) in
      let egid := default (a_GID curr) (SetGID s) in
      if (euid =? a_UID curr) && (egid =? a_GID curr) then pst_ok tt else
      match changer with
      | None => pst_ret (status_err NFSStatusNotSupp (Some ErrPermission))
      | Some c => with_err chmod_err (Lchown c file euid egid)
      end
  end.

(** The mode of [curr] has only permission bits, so the test for a link
    never holds. *)
Definition apply_size (s : SetFileAttributes) (file : bytes) (curr : FileAttribute) : M unit :=
  match SetSize s with
  | None => pst_ok tt
  | Some size =>
      if has_bit (a_FileMode curr) ModeSymlink then pst_ret (status_err NFSStatusNotSupp (Some ErrInvalid)) else
      fp <-? with_err (fun e => if errors_Is e os_IsPermission then NFSStatusError NFSStatusAccess (Some e) else e)
               (nw_OpenFile file (Z.lor O_WRONLY O_EXCL) 0) ;;
      if MaxInt64 <? size then pst_ret (status_err NFSStatusInval (Some ErrInvalid)) else
      _ <-? nw_Truncate fp (i64 size) ;;
      nw_Close fp
  end.

(** The times are compared as pointers to new values, which are never
    equal. *)
Definition apply_times (s : SetFileAttributes) (changer : option (Change U)) (file : bytes) (curr : FileAttribute) : M unit :=
  match SetAtime s, SetMtime s with
  | None, None => pst_ok tt
  | _, _ =>
      let atime := default (Native (a_Atime curr)) (SetAtime s) in
      let mtime := default (Native (a_Mtime curr)) (SetMtime s) in
      match changer with
      | None => pst_ret (status_err NFSStatusNotSupp (Some ErrPermission))
      | Some c => with_err (fun e => if errors_Is e os_IsPermission then NFSStatusError NFSStatusAccess (Some e) else e)
                    (Chtimes c file atime mtime)
      end
  end.

Definition Apply (s : SetFileAttributes) (changer : option (Change U)) (file : bytes) : M unit :=
  r <-? attempt (nh_Lstat file) ;;
  match r with
  | Err e =>
      if errors_Is e os_IsNotExist then pst_ret (status_err NFSStatusNoEnt (Some ErrNotExist))
      else if errors_Is e os_IsPermission then pst_ret (status_err NFSStatusAccess (Some ErrPermission))
      else pst_ok tt
  | Ok curOS =>
      let curr := ToFileAttribute curOS file in
      _ <-? apply_mode s changer file curr ;;
      _ <-? apply_owner s changer file curr ;;
      _ <-? apply_size s file curr ;;
      apply_times s changer file curr
  end.

(** ** The common checks *)

Definition check_write (status : Z) : M unit :=
  if negb nh_CanWrite then pst_ret (status_err status (Some ErrPermission)) else pst_ok tt.
Definition check_name (name : bytes) (e : option error) : M unit :=
  if PathNameMax <? Z.of_nat (length name) then pst_ret (status_err NFSStatusNameTooLong e) else pst_ok tt.

(** The parent must be a directory. *)
Definition check_parent (path : list bytes) : M FileInfo :=
  s <-? with_status NFSStatusAccess (nh_Stat (nh_Join path)) ;;
  if negb (fi_IsDir s) then pst_ret (status_err NFSStatusNotDir None) else pst_ok s.
(** ... and the new file must not exist. *)
Definition check_absent (newFilePath : bytes) : M unit :=
  r <-? attempt (nh_Stat newFilePath) ;;
  match r with Ok _ => pst_ret (status_err NFSStatusExist (Some ErrExist)) | Err _ => pst_ok tt end.

(** [Stat] with the errors of REMOVE, and of RENAME without permission. *)
Definition io_status (perm : bool) (e : error) : error :=
  NFSStatusError (if os_IsNotExist e then NFSStatusNoEnt
                  else if perm && os_IsPermission e then NFSStatusAccess else NFSStatusIO) (Some e).
Definition stat_dir (perm : bool) (fullPath : bytes) : M FileInfo :=
  info <-? with_err (io_status perm) (nh_Stat fullPath) ;;
  if negb (fi_IsDir info) then pst_ret (status_err NFSStatusNotDir None) else pst_ok info.

(** A new file's handle and attributes, and its directory's. *)
Record newFileReply := MkNewFile { nf_handle : bytes; nf_attr : option FileAttribute; nf_dirAttr : option FileAttribute }.
(** [wcc_data]. *)
Definition wcc : Type := option FileCacheAttribute * option FileAttribute.

(** ** WRITE and COMMIT *)

Definition unstable : Z := 0.
Definition dataSync : Z := 1.
Definition fileSync : Z := 2.

Record writeArgs := MkWriteArgs { wa_Handle : bytes; wa_Offset : Z; wa_Count : Z; wa_How : Z; wa_Data : bytes }.
Record writeReply := MkWriteReply { wr_wcc : wcc; wr_count : Z; wr_committed : Z; wr_verf : bytes }.

Definition onWrite (a : res writeArgs) : M writeReply :=
  req <-? args a ;;
  path <-? from_handle (wa_Handle req) ;;
  _ <-? check_write NFSStatusROFS ;;
  if (MaxInt32 <? Z.of_nat (length (wa_Data req))) || (MaxInt32 <? wa_Count req)
  then pst_ret (status_err NFSStatusFBig (Some ErrInvalid)) else
  if negb ((wa_How req =? unstable) || (wa_How req =? dataSync) || (wa_How req =? fileSync))
  then pst_ret (status_err NFSStatusInval (Some ErrInvalid)) else
  let fullPath := nh_Join path in
  info <-? with_err (fun e => NFSStatusError (if os_IsNotExist e then NFSStatusNoEnt else NFSStatusAccess) (Some e)) (nh_Stat fullPath) ;;
  if negb (mode_IsRegular (fi_Mode info)) then pst_ret (status_err NFSStatusInval (Some ErrInvalid)) else
  let preOpCache := AsCache (ToFileAttribute info fullPath) in
  file <-? with_status NFSStatusAccess (nw_OpenFile (nh_Join path) O_RDWR (mode_Perm (fi_Mode info))) ;;
  _ <-? (if 0 <? wa_Offset req then with_status NFSStatusIO (nw_Seek file (i64 (wa_Offset req))) else pst_ok tt) ;;
  let end_ := if Z.of_nat (length (wa_Data req)) <? wa_Count req then u32 (Z.of_nat (length (wa_Data req))) else wa_Count req in
  writtenCount <-? with_status NFSStatusIO (nw_Write file (take (Z.to_nat end_) (wa_Data req))) ;;
  _ <-? with_status NFSStatusIO (nw_Close file) ;;
  post <-? tryStat path ;;
  pst_ok (MkWriteReply (Some preOpCache, post) (u32 writtenCount) fileSync nw_ID).

Definition onCommit (a : res bytes) : M (option FileAttribute * bytes) :=
  handle <-? args a ;;
  path <-? from_handle handle ;;
  _ <-? check_write NFSStatusServerFault ;;
  post <-? tryStat path ;;
  pst_ok (post, nw_ID).

(** ** CREATE and MKDIR *)

Definition createModeUnchecked : Z := 0.
Definition createModeGuarded : Z := 1.
Definition createModeExclusive : Z := 2.

Definition onCreate (a : res DirOpArg) (how : res Z) (sattr : res SetFileAttributes) (verf : res bytes) : M newFileReply :=
  obj <-? args a ;;
  how <-? args how ;;
  attrs <-? (if (how =? createModeUnchecked) || (how =? createModeGuarded) then args sattr
             else if how =? createModeExclusive then
               _ <-? args verf ;; pst_ret (status_err NFSStatusNotSupp (Some ErrPermission))
             else pst_ret (status_err NFSStatusNotSupp (Some ErrInvalid))) ;;
  path <-? from_handle (do_Handle obj) ;;
  _ <-? check_write NFSStatusROFS ;;
  _ <-? check_name (do_Filename obj) None ;;
  let newFile := path ++ [do_Filename obj] in
  let newFilePath := nh_Join newFile in
  r <-? attempt (nh_Stat newFilePath) ;;
  _ <-? (match r with
         | Ok s =>
             if fi_IsDir s then pst_ret (status_err NFSStatusExist None)
             else if how =? createModeGuarded then pst_ret (status_err NFSStatusExist (Some ErrPermission))
             else pst_ok tt
         | Err _ => _ <-? check_parent path ;; pst_ok tt
         end) ;;
  file <-? with_status NFSStatusAccess (nw_Create newFilePath) ;;
  _ <-? with_status NFSStatusAccess (nw_Close file) ;;
  fp <-! nh_ToHandle newFile ;;
  _ <-? with_status NFSStatusIO (Apply attrs nw_Change newFilePath) ;;
  attr <-? tryStat [nw_Name file] ;;
  dirAttr <-? tryStat path ;;
  pst_ok (MkNewFile fp attr dirAttr).

(** Decimal in the source. *)
Definition mkdirDefaultMode : Z := 755.

(** [Apply], where there is something to apply it with. *)
Definition apply_changes (status : Z) (attrs : SetFileAttributes) (file : bytes) : M unit :=
  match nw_Change with
  | Some c => with_status status (Apply attrs (Some c) file)
  | None => pst_ok tt
  end.

Definition new_file_reply (fp : bytes) (newFile path : list bytes) : M newFileReply :=
  attr <-? tryStat newFile ;; dirAttr <-? tryStat path ;; pst_ok (MkNewFile fp attr dirAttr).

Definition onMkdir (a : res DirOpArg) (sattr : res SetFileAttributes) : M newFileReply :=
  obj <-? args a ;;
  attrs <-? args sattr ;;
  path <-? from_handle (do_Handle obj) ;;
  _ <-? check_write NFSStatusROFS ;;
  _ <-? check_name (do_Filename obj) (Some ErrInvalid) ;;
  if decide (do_Filename obj = str "." \/ do_Filename obj = str "..")
  then pst_ret (status_err NFSStatusExist (Some ErrExist)) else
  let newFolder := path ++ [do_Filename obj] in
  let newFolderPath := nh_Join newFolder in
  r <-? attempt (nh_Stat newFolderPath) ;;
  _ <-? (match r with
         | Ok s => if fi_IsDir s then pst_ret (status_err NFSStatusExist None) else pst_ok tt
         | Err _ => _ <-? check_parent path ;; pst_ok tt
         end) ;;
  _ <-? with_status NFSStatusAccess (nw_MkdirAll newFolderPath (attrs_Mode attrs mkdirDefaultMode)) ;;
  fp <-! nh_ToHandle newFolder ;;
  _ <-? apply_changes NFSStatusIO attrs newFolderPath ;;
  new_file_reply fp newFolder path.

(** ** SYMLINK, LINK and MKNOD *)

Definition onSymlink (a : res DirOpArg) (sattr : res SetFileAttributes) (target : res bytes) : M newFileReply :=
  obj <-? args a ;;
  attrs <-? args sattr ;;
  target <-? args target ;;
  path <-? from_handle (do_Handle obj) ;;
  _ <-? check_write NFSStatusROFS ;;
  _ <-? check_name (do_Filename obj) (Some ErrInvalid) ;;
  let newFile := path ++ [do_Filename obj] in
  let newFilePath := nh_Join newFile in
  _ <-? check_absent newFilePath ;;
  _ <-? check_parent path ;;
  _ <-? with_status NFSStatusAccess (nw_Symlink target newFilePath) ;;
  fp <-! nh_ToHandle newFile ;;
  _ <-? apply_changes NFSStatusIO attrs newFilePath ;;
  new_file_reply fp newFile path.

(** Without a [UnixChange] the error wraps [err], which is nil there. *)
Definition onLink (a : res DirOpArg) (sattr : res SetFileAttributes) (target : res bytes) : M newFileReply :=
  obj <-? args a ;;
  attrs <-? args sattr ;;
  target <-? args target ;;
  path <-? from_handle (do_Handle obj) ;;
  _ <-? check_write NFSStatusROFS ;;
  _ <-? check_name (do_Filename obj) (Some ErrInvalid) ;;
  let newFile := path ++ [do_Filename obj] in
  let newFilePath := nh_Join newFile in
  _ <-? check_absent newFilePath ;;
  _ <-? check_parent path ;;
  fp <-! nh_ToHandle newFile ;;
  match c ← nw_Change; Unix c with
  | None => pst_ret (status_err NFSStatusAccess None)
  | Some cos =>
      _ <-? with_status NFSStatusAccess (Link cos target newFilePath) ;;
      _ <-? with_status NFSStatusIO (Apply attrs nw_Change newFilePath) ;;
      new_file_reply fp newFile path
  end.

Definition FTYPE_NF3BLK : Z := 3.
Definition FTYPE_NF3CHR : Z := 4.
Definition FTYPE_NF3SOCK : Z := 6.
Definition FTYPE_NF3FIFO : Z := 7.

(** The switch on the type; the case of a character device is empty. *)
Definition mknod_type (cu : UnixChange U) (ftype : Z) (sattr : res SetFileAttributes) (specData1 specData2 : res Z)
    (parent : FileInfo) (newFilePath : bytes) : M unit :=
  if ftype =? FTYPE_NF3CHR then pst_ok tt
  else if ftype =? FTYPE_NF3BLK then
    attrs <-? args sattr ;;
    specData1 <-? args specData1 ;;
    specData2 <-? args specData2 ;;
    _ <-? with_status NFSStatusAccess (Mknod cu newFilePath (u32 (attrs_Mode attrs (fi_Mode parent))) specData1 specData2) ;;
    with_status NFSStatusServerFault (Apply attrs nw_Change newFilePath)
  else if ftype =? FTYPE_NF3SOCK then
    attrs <-? args sattr ;;
    _ <-? with_status NFSStatusAccess (Socket cu newFilePath) ;;
    with_status NFSStatusServerFault (Apply attrs nw_Change newFilePath)
  else if ftype =? FTYPE_NF3FIFO then
    attrs <-? args sattr ;;
    _ <-? with_status NFSStatusAccess (Mkfifo cu newFilePath (u32 (attrs_Mode attrs (fi_Mode parent)))) ;;
    with_status NFSStatusServerFault (Apply attrs nw_Change newFilePath)
  else pst_ret (status_err NFSStatusBadType (Some ErrInvalid)).

Definition onMknod (a : res DirOpArg) (ftype : res Z) (sattr : res SetFileAttributes) (specData1 specData2 : res Z) : M newFileReply :=
  obj <-? args a ;;
  ftype <-? args ftype ;;
  path <-? from_handle (do_Handle obj) ;;
  _ <-? check_write NFSStatusROFS ;;
  match c ← nw_Change; Unix c with
  | None => pst_ret (status_err NFSStatusAccess (Some ErrPermission))
  | Some cu =>
      _ <-? check_name (do_Filename obj) (Some ErrInvalid) ;;
      let newFile := path ++ [do_Filename obj] in
      let newFilePath := nh_Join newFile in
      _ <-? check_absent newFilePath ;;
      parent <-? check_parent path ;;
      fp <-! nh_ToHandle newFile ;;
      _ <-? mknod_type cu ftype sattr specData1 specData2 parent newFilePath ;;
      new_file_reply fp newFile path
  end.

(** ** REMOVE, RMDIR and RENAME *)

Definition onRemove (a : res DirOpArg) : M wcc :=
  obj <-? args a ;;
  path <-? from_handle (do_Handle obj) ;;
  _ <-? check_write NFSStatusROFS ;;
  _ <-? check_name (do_Filename obj) None ;;
  let fullPath := nh_Join path in
  dirInfo <-? stat_dir true fullPath ;;
  let preCacheData := AsCache (ToFileAttribute dirInfo fullPath) in
  let toDelete := nh_Join (path ++ [do_Filename obj]) in
  toDeleteHandle <-! nh_ToHandle (path ++ [do_Filename obj]) ;;
  _ <-? with_err (io_status true) (nw_Remove toDelete) ;;
  _ <-? with_status NFSStatusServerFault (nw_InvalidateHandle toDeleteHandle) ;;
  post <-? tryStat path ;;
  pst_ok (Some preCacheData, post).

Definition onRmDir (a : res DirOpArg) : M wcc := onRemove a.

Definition onRename (from to : res DirOpArg) : M (wcc * wcc) :=
  from <-? args from ;;
  fromPath <-? from_handle (do_Handle from) ;;
  to <-? args to ;;
  toPath <-? from_handle (do_Handle to) ;;
  _ <-? check_write NFSStatusROFS ;;
  _ <-? check_name (do_Filename from) (Some ErrInvalid) ;;
  _ <-? check_name (do_Filename to) (Some ErrInvalid) ;;
  let fromDirPath := nh_Join fromPath in
  fromDirInfo <-? stat_dir false fromDirPath ;;
  let preCacheData := AsCache (ToFileAttribute fromDirInfo fromDirPath) in
  let toDirPath := nh_Join toPath in
  toDirInfo <-? stat_dir false toDirPath ;;
  let preDestData := AsCache (ToFileAttribute toDirInfo toDirPath) in
  oldHandle <-! nh_ToHandle (fromPath ++ [do_Filename from]) ;;
  _ <-? with_err (io_status true)
          (nw_Rename (nh_Join (fromPath ++ [do_Filename from])) (nh_Join (toPath ++ [do_Filename to]))) ;;
  _ <-? with_status NFSStatusServerFault (nw_InvalidateHandle oldHandle) ;;
  post <-? tryStat fromPath ;;
  postDest <-? tryStat toPath ;;
  pst_ok ((Some preCacheData, post), (Some preDestData, postDest)).

(** ** SETATTR *)

Definition onSetAttr (a : res bytes) (sattr : res SetFileAttributes) (guard : res Z) (ctime : res FileTime) : M wcc :=
  handle <-? args a ;;
  path <-? from_handle handle ;;
  attrs <-? args sattr ;;
  let fullPath := nh_Join path in
  info <-? with_err (fun e => NFSStatusError (if os_IsNotExist e then NFSStatusNoEnt else NFSStatusAccess) (Some e)) (nh_Lstat fullPath) ;;
  guard <-? args guard ;;
  _ <-? (if guard =? 0 then pst_ok tt else
         t <-? args ctime ;;
         if decide (t = a_Ctime (ToFileAttribute info fullPath)) then pst_ok tt
         else pst_ret (status_err NFSStatusNotSync None)) ;;
  _ <-? check_write NFSStatusROFS ;;
  _ <-? Apply attrs nw_Change (nh_Join path) ;;
  let preAttr := AsCache (ToFileAttribute info fullPath) in
  post <-? tryStat path ;;
  pst_ok (Some preAttr, post).
End proc.
