(* ===== verification/NfsWriteProps.v ===== *)
(** * go-nfs: the procedures that write, on a read-only file system

    A call of one of them is refused before anything that changes the file
    system is called.  And the attributes to set are those that the client
    encoded. *)

From S2P Require Import Prelude GoStrings Sha Store StoreTree NfsAttr NfsProc NfsProcProps NfsWrite.

Local Open Scope gomodfs_scope.
Local Open Scope Z_scope.

(** The calls, with the arguments as they decode. *)
Inductive write_call :=
  | SETATTR (a : res bytes) (sattr : res SetFileAttributes) (guard : res Z) (ctime : res FileTime)
  | WRITE (a : res writeArgs)
  | CREATE (a : res DirOpArg) (how : res Z) (sattr : res SetFileAttributes) (verf : res bytes)
  | MKDIR (a : res DirOpArg) (sattr : res SetFileAttributes)
  | SYMLINK (a : res DirOpArg) (sattr : res SetFileAttributes) (target : res bytes)
  | MKNOD (a : res DirOpArg) (ftype : res Z) (sattr : res SetFileAttributes) (specData1 specData2 : res Z)
  | REMOVE (a : res DirOpArg)
  | RMDIR (a : res DirOpArg)
  | RENAME (from to : res DirOpArg)
  | LINK (a : res DirOpArg) (sattr : res SetFileAttributes) (target : res bytes)
  | COMMIT (a : res bytes).

(** What a call does, without the values of its reply. *)
Definition run_call {U} {Uh : NfsHandler U} (Uw : NfsWriter U) (c : write_call) : pst U (res unit) :=
  match c with
  | SETATTR a s g t => _ <-? onSetAttr a s g t ;; pst_ok tt
  | WRITE a => _ <-? onWrite a ;; pst_ok tt
  | CREATE a how s v => _ <-? onCreate a how s v ;; pst_ok tt
  | MKDIR a s => _ <-? onMkdir a s ;; pst_ok tt
  | SYMLINK a s t => _ <-? onSymlink a s t ;; pst_ok tt
  | MKNOD a ty s d1 d2 => _ <-? onMknod a ty s d1 d2 ;; pst_ok tt
  | REMOVE a => _ <-? onRemove a ;; pst_ok tt
  | RMDIR a => _ <-? onRmDir a ;; pst_ok tt
  | RENAME a b => _ <-? onRename a b ;; pst_ok tt
  | LINK a s t => _ <-? onLink a s t ;; pst_ok tt
  | COMMIT a => _ <-? onCommit a ;; pst_ok tt
  end.

(** The statuses of a refusal. *)
Definition refusals : list Z :=
  [NFSStatusInval; NFSStatusStale; NFSStatusROFS; NFSStatusNotSupp; NFSStatusServerFault;
   NFSStatusNoEnt; NFSStatusAccess; NFSStatusNotSync].
Definition refusal (e : error) : Prop := match e with NFSStatusError s _ => s ∈ refusals | _ => False end.

Section read_only.
Context {U : Type} {Uh : NfsHandler U} (Hro : nh_CanWrite = false).

(** An error of [m] is a refusal. *)
Definition safe {A} (m : pst U (res A)) : Prop :=
  forall u, match m u with Some (Err e, _) => refusal e | _ => True end.

(** [m1] and [m2] do the same, and end in a refusal or a panic. *)
Definition refuse {A B} (m1 : pst U (res A)) (m2 : pst U (res B)) : Prop :=
  forall u, match m1 u, m2 u with
            | Some (Err e1, u1), Some (Err e2, u2) => e1 = e2 /\ u1 = u2 /\ refusal e1
            | None, None => True
            | _, _ => False
            end.

Lemma safe_ret {A} (r : res A) : (forall e, r = Err e -> refusal e) -> safe (pst_ret r).
Proof. intros Hr u. cbn. destruct r; [done|]. by apply Hr. Qed.

Lemma safe_args {A} (a : res A) : safe (args a).
Proof. apply safe_ret. destruct a; [done|]. intros ? [= <-]. by_decide. Qed.

Lemma safe_try {A B} (m : pst U (res A)) (k : A -> pst U (res B)) :
  safe m -> (forall a, safe (k a)) -> safe (pst_try m k).
Proof.
  intros Hm Hk u. unfold pst_try, pst_bind. specialize (Hm u). destruct (m u) as [[[a|e] u']|]; [apply Hk|done..].
Qed.

Lemma safe_attempt {A} (m : pst U (res A)) : safe (attempt m).
Proof. intros u. unfold attempt, pst_bind, pst_ok, pst_ret. by destruct (m u) as [[]|]. Qed.

Lemma safe_from_handle h : safe (from_handle h).
Proof.
  apply safe_try; [apply safe_attempt|]. intros r. apply safe_ret. destruct r; [done|]. intros ? [= <-]. by_decide.
Qed.

Lemma safe_with_err {A} f (m : pst U (res A)) : (forall e, refusal (f e)) -> safe (with_err f m).
Proof.
  intros Hf u. unfold with_err, pst_bind, pst_ret. destruct (m u) as [[[a|e] u']|]; [done|apply Hf|done].
Qed.

Lemma refuse_try {A B1 B2} (m : pst U (res A)) (k1 : A -> pst U (res B1)) (k2 : A -> pst U (res B2)) :
  safe m -> (forall a, refuse (k1 a) (k2 a)) -> refuse (pst_try m k1) (pst_try m k2).
Proof.
  intros Hm Hk u. unfold pst_try, pst_bind. specialize (Hm u).
  destruct (m u) as [[[a|e] u']|]; [apply Hk|done..].
Qed.

Lemma refuse_check {B1 B2} s (k1 : unit -> pst U (res B1)) (k2 : unit -> pst U (res B2)) :
  s ∈ refusals -> refuse (pst_try (check_write s) k1) (pst_try (check_write s) k2).
Proof. intros Hs u. unfold check_write, pst_try, pst_bind. rewrite Hro. done. Qed.

Lemma refuse_then {A B} (m1 m2 : pst U (res A)) (k1 k2 : A -> pst U (res B)) :
  refuse m1 m2 -> refuse (pst_try m1 k1) (pst_try m2 k2).
Proof.
  intros Hm u. unfold pst_try, pst_bind. specialize (Hm u).
  by destruct (m1 u) as [[[]]|], (m2 u) as [[[]]|].
Qed.
End read_only.

Create HintDb refuse.
#[export] Hint Resolve safe_args safe_from_handle safe_attempt : refuse.

(** Walks to the check of the capability. *)
Ltac refuse_tac :=
  repeat first
    [ apply refuse_check; [done|by_decide]
    | apply refuse_try; [solve [auto with refuse]|intros ?] ].

Section refused.
Context {U : Type} {Uh : NfsHandler U} (Hro : nh_CanWrite = false).

Lemma safe_status {A} s e : s ∈ refusals -> safe (U := U) (pst_ret (status_err (A := A) s e)).
Proof. intros Hs. apply safe_ret. by intros ? [= <-]. Qed.

Lemma safe_lstat_error (m : pst U (res FileInfo)) :
  safe (with_err (fun e => NFSStatusError (if os_IsNotExist e then NFSStatusNoEnt else NFSStatusAccess) (Some e)) m).
Proof. apply safe_with_err. intros e. cbn. case_match; by_decide. Qed.

Lemma safe_mode how (sattr : res SetFileAttributes) (verf : res bytes) :
  safe (U := U) (if (how =? createModeUnchecked) || (how =? createModeGuarded) then args sattr
        else if how =? createModeExclusive then
          _ <-? args verf ;; pst_ret (status_err NFSStatusNotSupp (Some ErrPermission))
        else pst_ret (status_err NFSStatusNotSupp (Some ErrInvalid))).
Proof.
  case_match; [apply safe_args|]. case_match; [|apply safe_status; by_decide].
  apply safe_try; [apply safe_args|]. intros _. apply safe_status. by_decide.
Qed.

Lemma safe_guard guard (ctime : res FileTime) t :
  safe (U := U) (if guard =? 0 then pst_ok tt else
        x <-? args ctime ;; if decide (x = t) then pst_ok tt else pst_ret (status_err NFSStatusNotSync None)).
Proof.
  case_match; [by apply safe_ret|]. apply safe_try; [apply safe_args|]. intros x.
  case_decide; [by apply safe_ret|apply safe_status; by_decide].
Qed.
#[local] Hint Resolve safe_lstat_error safe_mode safe_guard : refuse.

(** Every call is refused, whatever the methods that write would do. *)
Lemma write_refused (W1 W2 : NfsWriter U) c : refuse (run_call W1 c) (run_call W2 c).
Proof.
  destruct c; cbn [run_call]; apply refuse_then; unfold onRmDir, onSetAttr, onWrite, onCreate, onMkdir, onSymlink,
    onMknod, onRemove, onRename, onLink, onCommit; cbv zeta; refuse_tac.
Qed.
End refused.

(** For a call whose arguments decode, other than SETATTR: the handles it
    looks up, and its refusal.  CREATE that is exclusive, or of a mode that
    there is not, is refused before its handle is looked up. *)
Definition no_write (status : Z) : error := NFSStatusError status (Some ErrPermission).
Definition asks (c : write_call) : option (list bytes * error) :=
  match c with
  | WRITE (Ok a) => Some ([wa_Handle a], no_write NFSStatusROFS)
  | CREATE (Ok a) (Ok how) sattr verf =>
      if (how =? createModeUnchecked) || (how =? createModeGuarded) then
        match sattr with Ok _ => Some ([do_Handle a], no_write NFSStatusROFS) | Err _ => None end
      else if how =? createModeExclusive then
        match verf with Ok _ => Some ([], no_write NFSStatusNotSupp) | Err _ => None end
      else Some ([], NFSStatusError NFSStatusNotSupp (Some ErrInvalid))
  | MKDIR (Ok a) (Ok _) | MKNOD (Ok a) (Ok _) _ _ _ | REMOVE (Ok a) | RMDIR (Ok a) =>
      Some ([do_Handle a], no_write NFSStatusROFS)
  | SYMLINK (Ok a) (Ok _) (Ok _) | LINK (Ok a) (Ok _) (Ok _) => Some ([do_Handle a], no_write NFSStatusROFS)
  | RENAME (Ok a) (Ok b) => Some ([do_Handle a; do_Handle b], no_write NFSStatusROFS)
  | COMMIT (Ok h) => Some ([h], no_write NFSStatusServerFault)
  | _ => None
  end.

(** SETATTR looks at the file first, and compares the time of its last
    change with the guard's, if there is one. *)
Definition setattr_refusal {U} {Uh : NfsHandler U} (guard : Z) (ctime : FileTime) (path : bytes) (r : res FileInfo) : error :=
  match r with
  | Err e => NFSStatusError (if os_IsNotExist e then NFSStatusNoEnt else NFSStatusAccess) (Some e)
  | Ok info =>
      if decide (guard = 0 \/ ctime = a_Ctime (ToFileAttribute info path)) then no_write NFSStatusROFS
      else NFSStatusError NFSStatusNotSync None
  end.

Section answered.
Context {U : Type} {Uh : NfsHandler U} (Hro : nh_CanWrite = false) (Inv : U -> Prop).

Definition refused_with {A} (e : error) (r : res A) : Prop := r = Err e.

Lemma yields_args_ok {A B} (a : A) (k : A -> pst U (res B)) Q :
  yields Inv (k a) Q -> yields Inv (pst_try (args (Ok a)) k) Q.
Proof. intros Hk. eapply yields_try with (P := fun x => x = a); [by apply yields_ok|]. by intros ? ->. Qed.

Lemma yields_handle {B} h (k : list bytes -> pst U (res B)) Q :
  yields Inv (nh_FromHandle h) (is_ok (fun _ => True)) -> (forall p, yields Inv (k p) Q) ->
  yields Inv (pst_try (from_handle h) k) Q.
Proof.
  intros Hh Hk. eapply yields_try with (P := fun _ => True); [|intros p _; apply Hk].
  eapply yields_try; [by apply yields_attempt|]. intros ? (p & -> & _). by apply yields_ok.
Qed.

Lemma yields_check {B} s (k : unit -> pst U (res B)) : yields Inv (pst_try (check_write s) k) (refused_with (no_write s)).
Proof.
  intros u Hu. unfold check_write, pst_try, pst_bind. rewrite Hro. by eexists _, u.
Qed.

Lemma yields_refused {A B} e (m : pst U (res A)) (k : A -> pst U (res B)) :
  yields Inv m (refused_with e) -> yields Inv (pst_try m k) (refused_with e).
Proof. intros Hm. eapply yields_bind; [exact Hm|]. intros r ->. by apply yields_ret. Qed.

Ltac answered_tac :=
  repeat first [apply yields_check | apply yields_handle; [done|intros ?] | apply yields_args_ok].

Lemma create_answered (W : NfsWriter U) a how sattr verf hs e :
  asks (CREATE a how sattr verf) = Some (hs, e) ->
  Forall (fun h => yields Inv (nh_FromHandle h) (is_ok (fun _ => True))) hs ->
  yields Inv (onCreate a how sattr verf) (refused_with e).
Proof.
  intros Hc Hh. destruct a as [a|], how as [how|]; [|done..]. cbn [asks] in Hc. unfold onCreate.
  answered_tac. destruct (_ || _).
  - destruct sattr; [|done]. injection Hc as <- <-. apply Forall_cons in Hh as [? _]. answered_tac.
  - apply yields_refused. destruct (how =? createModeExclusive).
    + destruct verf; [|done]. injection Hc as <- <-. answered_tac. by apply yields_ret.
    + injection Hc as <- <-. by apply yields_ret.
Qed.

Lemma write_answered (W : NfsWriter U) c hs e :
  asks c = Some (hs, e) -> Forall (fun h => yields Inv (nh_FromHandle h) (is_ok (fun _ => True))) hs ->
  yields Inv (run_call W c) (refused_with e).
Proof.
  intros Hc Hh. destruct c; cbn [run_call]; apply yields_refused; [| |by eapply create_answered|..];
    cbn [asks] in Hc; repeat (case_hyp Hc; try done);
    unfold onRmDir, onWrite, onMkdir, onSymlink, onMknod, onRemove, onRename, onLink, onCommit; cbv zeta;
    rewrite ?Forall_cons in Hh; destruct_and?; answered_tac; try done.
Qed.

Lemma setattr_answered (W : NfsWriter U) h s g ct ctime u path u1 :
  g = 0 \/ ct = Ok ctime -> nh_FromHandle h u = Some (Ok path, u1) ->
  run_call W (SETATTR (Ok h) (Ok s) (Ok g) ct) u =
  '(r, u2) ← nh_Lstat (nh_Join path) u1; Some (Err (setattr_refusal g ctime (nh_Join path) r), u2).
Proof using Hro.
  intros Hct Hh. cbn [run_call]. unfold onSetAttr, args, from_handle, attempt, with_err, check_write. rewrite Hro.
  unfold pst_try, pst_bind, pst_ret, pst_ok, pst_ret. cbn [map_err]. rewrite Hh. cbn [map_err].
  destruct (nh_Lstat _ u1) as [[[info|e] u2]|]; [|done..]. cbn [map_err mbind option_bind setattr_refusal].
  destruct (Z.eqb_spec g 0) as [->|Hg]; [by rewrite decide_True by (by left)|].
  destruct Hct as [Hct| ->]; [done|]. cbn [map_err].
  destruct (decide (ctime = _)) as [->|Ht]; [by rewrite decide_True by (by right)|].
  by rewrite decide_False by (by intros [?|?]).
Qed.
End answered.

(** ** Decoding the attributes to set *)

(** XDR (RFC 4506): numbers are big-endian. *)
Class XdrLaws (X : Xdr) : Prop := {
  xdr_uint32 z s : 0 <= z < 2 ^ 32 -> xdr_ReadUint32 (be_bytes 4 z ++ s) = (Ok z, s);
  xdr_uint64 z s : 0 <= z < 2 ^ 64 -> xdr_ReadUint64 (be_bytes 8 z ++ s) = (Ok z, s);
  xdr_time t s : 0 <= Seconds t < 2 ^ 32 -> 0 <= Nseconds t < 2 ^ 32 ->
    xdr_ReadFileTime (be_bytes 4 (Seconds t) ++ be_bytes 4 (Nseconds t) ++ s) = (Ok t, s) }.

(** [sattr3] of RFC 1813. *)
Inductive set_time := DONT_CHANGE | SET_TO_SERVER_TIME | SET_TO_CLIENT_TIME (t : FileTime).
Record sattr3 := MkSattr3 {
  s_mode : option Z; s_uid : option Z; s_gid : option Z; s_size : option Z; s_atime : set_time; s_mtime : set_time }.

Definition enc_optional (n : nat) (o : option Z) : bytes :=
  match o with Some v => be_bytes 4 1 ++ be_bytes n v | None => be_bytes 4 0 end.
Definition enc_time (t : set_time) : bytes :=
  match t with
  | DONT_CHANGE => be_bytes 4 0
  | SET_TO_SERVER_TIME => be_bytes 4 1
  | SET_TO_CLIENT_TIME t => be_bytes 4 2 ++ be_bytes 4 (Seconds t) ++ be_bytes 4 (Nseconds t)
  end.
Definition enc_sattr3 (a : sattr3) : bytes :=
  enc_optional 4 (s_mode a) ++ enc_optional 4 (s_uid a) ++ enc_optional 4 (s_gid a) ++ enc_optional 8 (s_size a) ++
  enc_time (s_atime a) ++ enc_time (s_mtime a).

Definition fits (w : Z) (o : option Z) : Prop := match o with Some v => 0 <= v < 2 ^ w | None => True end.
Definition time_fits (t : set_time) : Prop :=
  match t with SET_TO_CLIENT_TIME t => 0 <= Seconds t < 2 ^ 32 /\ 0 <= Nseconds t < 2 ^ 32 | _ => True end.
Definition sattr3_fits (a : sattr3) : Prop :=
  fits 32 (s_mode a) /\ fits 32 (s_uid a) /\ fits 32 (s_gid a) /\ fits 64 (s_size a) /\
  time_fits (s_atime a) /\ time_fits (s_mtime a).

Definition time_value (now : Z) (t : set_time) : option Z :=
  match t with DONT_CHANGE => None | SET_TO_SERVER_TIME => Some now | SET_TO_CLIENT_TIME t => Some (Native t) end.

Section decode.
Context `{XL : XdrLaws}.

Lemma read_optional_enc n (read : st bytes (res Z)) w o s :
  (forall z s, 0 <= z < 2 ^ w -> read (be_bytes n z ++ s) = (Ok z, s)) -> fits w o ->
  read_optional read (enc_optional n o ++ s) = (Ok o, s).
Proof.
  intros Hread Ho. unfold read_optional, st_try, st_bind. destruct o as [v|]; cbn [enc_optional].
  - rewrite <-app_assoc, xdr_uint32 by done. cbn [negb Z.eqb]. by rewrite Hread.
  - by rewrite xdr_uint32.
Qed.

Lemma read_time_enc now t s : time_fits t -> read_time now (enc_time t ++ s) = (Ok (time_value now t), s).
Proof.
  intros Ht. unfold read_time, st_try, st_bind. destruct t as [| |t]; cbn [enc_time].
  - by rewrite xdr_uint32.
  - by rewrite xdr_uint32.
  - destruct Ht. rewrite <- !app_assoc, xdr_uint32 by done. cbn [Z.eqb Pos.eqb]. by rewrite xdr_time.
Qed.

Lemma try_read {A B} (m : st bytes (res A)) (k : A -> st bytes (res B)) s a s' :
  m s = (Ok a, s') -> st_try m k s = k a s'.
Proof. intros Hm. unfold st_try, st_bind. by rewrite Hm. Qed.

Lemma ReadSetFileAttributes_enc now1 now2 a rest :
  sattr3_fits a ->
  ReadSetFileAttributes now1 now2 (enc_sattr3 a ++ rest) =
  (Ok (MkSetAttrs (s_mode a) (s_uid a) (s_gid a) (s_size a) (time_value now1 (s_atime a)) (time_value now2 (s_mtime a))), rest).
Proof.
  intros (H1 & H2 & H3 & H4 & H5 & H6). unfold ReadSetFileAttributes, enc_sattr3. rewrite <- !app_assoc.
  do 3 (erewrite try_read; [|by apply (read_optional_enc 4 _ 32); [apply xdr_uint32|]]).
  erewrite try_read; [|by apply (read_optional_enc 8 _ 64); [apply xdr_uint64|]].
  do 2 (erewrite try_read; [|by apply read_time_enc]). done.
Qed.
End decode.
