(* ===== verification/MemStore.v ===== *)
(** * An in-memory store

    The [Store] interface over finite maps, as its comments describe it:
    the reference instance on which the file system's theorems are
    evaluated, with the laws a store promises its client ([StoreLaws]). *)

From S2P Require Import Prelude GoStrings Store NfsAttr.

Local Open Scope gomodfs_scope.

(** ** What the file system relies on *)

(** Files that were put are found again, and reading keeps them. *)
Class StoreLaws (S H : Type) `{!Store S H} : Prop := {
  Put_Get_ModFile mv d s s' :
    PutModFile mv d s = (Ok tt, s') -> exists s'', GetModFile mv s' = (Ok d, s'');
  Put_Get_InfoFile mv d s s' :
    PutInfoFile mv d s = (Ok tt, s') -> exists s'', GetInfoFile mv s' = (Ok d, s'');
  Get_Get_ModFile mv d s s' :
    GetModFile mv s = (Ok d, s') -> exists s'', GetModFile mv s' = (Ok d, s'');
  Get_Get_InfoFile mv d s s' :
    GetInfoFile mv s = (Ok d, s') -> exists s'', GetInfoFile mv s' = (Ok d, s'') }.

(** ** The instance *)

Record mem := MkMem {
  m_info : gmap ModuleVersion bytes;
  m_mod : gmap ModuleVersion bytes;
  m_zip : gmap ModuleVersion PutModuleData }.

Definition empty_mem : mem := MkMem ∅ ∅ ∅.

Definition get_or_miss {A} (o : option A) : res A :=
  match o with Some a => Ok a | None => Err ErrCacheMiss end.

Definition mem_files (s : mem) (mv : ModuleVersion) : list PutFile :=
  match m_zip s !! mv with Some d => Files d | None => [] end.

Definition find_file (path : bytes) (files : list PutFile) : option PutFile :=
  snd <$> list_find (fun f => pf_Path f = path) files.

(** What follows ["path/"] in each file's name: the names below a directory. *)
Definition below_dir (path : bytes) (f : PutFile) : option bytes :=
  if decide (path = []) then Some (pf_Path f) else CutPrefix (pf_Path f) (path ++ str "/").

Definition mem_dirent (path : bytes) (f : PutFile) : option Dirent :=
  rest ← below_dir path f;
  match Cut rest (str "/") with
  | Some (d, _) => Some (MkDirent d ModeDir 0)
  | None => Some (MkDirent rest (pf_Mode f) (pf_Size f))
  end.

Definition mem_entries (path : bytes) (files : list PutFile) : list Dirent :=
  remove_dups (omap (mem_dirent path) files).

#[export] Instance mem_store : Store mem ModuleVersion := {
  CachedModules := fun s =>
    (Ok (elements (dom (m_info s) ∪ dom (m_mod s) ∪ dom (m_zip s))), s);
  GetZipRoot := fun mv s => (match m_zip s !! mv with Some _ => Ok mv | None => Err ErrCacheMiss end, s);
  GetInfoFile := fun mv s => (get_or_miss (m_info s !! mv), s);
  GetModFile := fun mv s => (get_or_miss (m_mod s !! mv), s);
  PutModFile := fun mv d s => (Ok tt, MkMem (m_info s) (<[mv := d]> (m_mod s)) (m_zip s));
  PutInfoFile := fun mv d s => (Ok tt, MkMem (<[mv := d]> (m_info s)) (m_mod s) (m_zip s));
  GetZipHash := fun mv s => ((fun d => default [] (ZipHash d)) <$> get_or_miss (m_zip s !! mv), s);
  GetFile := fun mv path s =>
    (match find_file path (mem_files s mv) with
     | Some f => pf_Open f
     | None => match mem_entries path (mem_files s mv) with
               | [] => Err ErrNotExist
               | _ => Err ErrIsDir
               end
     end, s);
  Stat := fun mv path s =>
    (match find_file path (mem_files s mv) with
     | Some f => Ok (MkFileInfo (path_Base path) (pf_Size f) (pf_Mode f) FakeStaticFileTime false)
     | None => match mem_entries path (mem_files s mv) with
               | [] => Err ErrNotExist
               | _ => Ok (dir_info (path_Base path))
               end
     end, s);
  Readdir := fun mv path s =>
    (match mem_entries path (mem_files s mv) with [] => Err ErrNotExist | l => Ok l end, s);
  PutModule := fun mv d s =>
    (Ok mv, MkMem (<[mv := default [] (InfoFile d)]> (m_info s)) (<[mv := default [] (ModFile d)]> (m_mod s))
              (<[mv := d]> (m_zip s))) }.

#[export] Instance mem_laws : StoreLaws mem ModuleVersion.
Proof.
  split; intros mv d s s'; cbn.
  - intros [= <-]. eexists. cbn. by rewrite lookup_insert_eq.
  - intros [= <-]. eexists. cbn. by rewrite lookup_insert_eq.
  - intros [= ? <-]. eexists. by f_equal.
  - intros [= ? <-]. eexists. by f_equal.
Qed.
