(* ===== verification/FS.v ===== *)
(** * gomodfs.go: the file system's core

    How the file system finds module data: in its store, or downloaded from
    the module proxies and put in the store; the caches it keeps in memory;
    and the tables that map NFS handles back to paths.

    The methods run in the monad [M], a state [FS] with errors as values and
    panics as [None].  Requests are sequential: a singleflight call runs its
    function, and a locked section is a step.  Statistics spans and logging
    are left out.  [fetched] records the URLs
    that were requested, so that theorems can speak of network use. *)

From S2P Require Import Prelude GoStrings Sha Lru Store StoreTree Paths NfsAttr NfsCache.

Local Open Scope gomodfs_scope.

(** ** What the program takes from elsewhere

    The HTTP client, archive/zip, compress/gzip with archive/tar, and
    golang.org/x/mod/sumdb/dirhash. *)

(** A file of a zip archive, and an entry of a tar archive. *)
Record zipFile := MkZipFile { zf_Name : bytes; zf_Mode : Z; zf_Size : Z; zf_Open : res bytes }.
Record tarHeader := MkTar { th_Name : bytes; th_Mode : Z; th_IsDir : bool; th_content : res bytes }.

Class World (W : Type) := {
  (** [client.Do] of a GET request: the status code and the body. *)
  client_Do : bytes -> st W (res (Z * res bytes));
  (** The files of a zip archive. *)
  zip_NewReader : bytes -> res (list zipFile);
  (** [gzip.NewReader], and what [Next] then returns until [io.EOF]. *)
  gzip_NewReader : bytes -> res bytes;
  tar_entries : bytes -> list (res tarHeader);
  (** [dirhash.Hash1]. *)
  dirhash_Hash1 : list bytes -> (bytes -> res bytes) -> res bytes }.

(** ** State *)

(** The exported configuration fields. *)
Record config := MkConfig {
  ModuleProxyURL : bytes;
  ModuleProxyURLs : list bytes;
  ReadOnly : bool;
  FileCacheSize : Z }.

Record handleTarget := MkTarget { path : bytes; segs : list bytes }.

(** [modVerHash] and [pathHashTarget], which are made together. *)
Record maps := MkMaps {
  modVerHash : gmap bytes ModuleVersion;
  pathHashTarget : gmap bytes handleTarget }.

(** [statusMeta]: when it was generated, and the JSON; its file info is
    that of [statusFile] with this time and size. *)
Record statusMeta := MkStatus { sm_modTime : Z; sm_json : bytes }.

Definition GetFileCacheSize (cfg : config) : Z :=
  if (FileCacheSize cfg =? 0)%Z then (2 * 2 ^ 30)%Z else FileCacheSize cfg.

Definition moduleProxyURLs (cfg : config) : list bytes :=
  if decide (ModuleProxyURLs cfg <> []) then
    (fun u => TrimSuffix u (str "/")) <$> ModuleProxyURLs cfg
  else if decide (ModuleProxyURL cfg <> []) then [TrimSuffix (ModuleProxyURL cfg) (str "/")]
  else [str "https://proxy.golang.org"].

Definition toolchainModule : bytes := str "golang.org/toolchain".

Definition hashModVersion (mv : ModuleVersion) : bytes :=
  sha256 (Module mv ++ [nul] ++ Version mv).
Definition mkPathHash (path : bytes) : bytes := sha256 path.

(** [copy(h[:], s)] into a zero array of 32 bytes. *)
Definition mkWellKnownPathHash (s : bytes) : bytes :=
  take 32 s ++ replicate (32 - length s) nul.

Definition cdFileInfo : bytes := mkWellKnownPathHash (str "info").
Definition cdFileMod : bytes := mkWellKnownPathHash (str "mod").
Definition cdFileZiphash : bytes := mkWellKnownPathHash (str "ziphash").
Definition pathHashTSGo : bytes := mkWellKnownPathHash wkTSGoExtracted.

(** [modVerHash.IsZero]. *)
Definition IsZero (h : bytes) : bool := bool_decide (h = replicate 32 nul).

Definition staleErr (e : error) : error := NFSStatusError 70 (Some e).

Definition mkTargetFromPath (path : bytes) : handleTarget := MkTarget path (splitSegs path).

(** [addToolchainGoMods]: the loop ranges over the files as they were, and
    appends. *)
Definition addToolchainGoMods (files : list PutFile) : list PutFile :=
  let have := pf_Path <$> files in
  files ++ (f ← files;
    match CutSuffix (pf_Path f) (str "_go.mod") with
    | Some dir =>
        if negb (bool_decide (dir = [])) && negb (HasSuffix dir (str "/")) then []
        else if decide (dir ++ str "go.mod" ∈ have) then []
        else [MkPutFile (dir ++ str "go.mod") (pf_Mode f) (pf_Size f) (pf_Open f)]
    | None => []
    end).

(** ** Maps from handles to paths *)

Definition addPathHashTargetLocked (path : bytes) (m : maps) : maps :=
  MkMaps (modVerHash m) (<[mkPathHash path := mkTargetFromPath path]> (pathHashTarget m)).

(** The loop of [addParentPathsLocked]; [None] when the fuel runs out. *)
Fixpoint addParentPaths_loop (fuel : nat) (s : bytes) (m : maps) : option maps :=
  match fuel with
  | O => None
  | S fuel' =>
      let s := path_Dir s in
      if decide (s = str "." \/ s = str "cache" \/ s = str "cache/download") then Some m
      else addParentPaths_loop fuel' s (addPathHashTargetLocked s m)
  end.

Definition addParentPathsLocked (s : bytes) (m : maps) : option maps :=
  addParentPaths_loop (S (length s)) s m.

Definition addModuleVersionPathsLocked `{E : ModEscape} (mv : ModuleVersion) (m : maps) : option maps :=
  m ← addParentPathsLocked (cdPath mv (str "foo")) m;
  match modVerZipPrefix mv with
  | Ok path => addParentPathsLocked path m
  | Err _ => Some m
  end.

(** One module version of [initHandleMapsLocked]'s loop, which
    [setZipRootCache] repeats. *)
Definition addModule `{E : ModEscape} (mv : ModuleVersion) (m : maps) : option maps :=
  addModuleVersionPathsLocked mv
    (MkMaps (<[hashModVersion mv := mv]> (modVerHash m)) (pathHashTarget m)).

Fixpoint addModules `{E : ModEscape} (mvs : list ModuleVersion) (m : maps) : option maps :=
  match mvs with
  | [] => Some m
  | mv :: mvs' => m ← addModule mv m; addModules mvs' m
  end.

Definition wellKnownPaths : list bytes :=
  [str "cache"; str "cache/download"; statusFile] ++
  (goos ← tsGoGeese; goarch ← tsGoGoarches; [str "tsgo-" ++ goos ++ str "-" ++ goarch]).

Section fs.
Context `{E : ModEscape} {S H W : Type} `{St : !Store S H} `{Wd : !World W} (cfg : config).

(** The fields of [FS] that change; [seenPairs] is transparent
    ([Paths.memo_transparent]) and paths are parsed with [parsed]. *)
Record FS := MkFS {
  fs_store : S;
  fs_world : W;
  zipRootCache : gmap ModuleVersion H;
  handleMaps : option maps;
  handles : gmap bytes handleTarget;
  readCaches : readCache (Attr := FileAttribute);
  pathContents : list ((ModuleVersion * bytes) * bytes);
  statusCache : option statusMeta;
  cacheHit : Z;
  cacheMiss : Z;
  cacheFill : Z;
  fetched : list bytes }.

Definition upd_fs_store (v : S) (f : FS) : FS :=
  MkFS v (fs_world f) (zipRootCache f) (handleMaps f) (handles f) (readCaches f) (pathContents f) (statusCache f) (cacheHit f) (cacheMiss f) (cacheFill f) (fetched f).
Definition upd_fs_world (v : W) (f : FS) : FS :=
  MkFS (fs_store f) v (zipRootCache f) (handleMaps f) (handles f) (readCaches f) (pathContents f) (statusCache f) (cacheHit f) (cacheMiss f) (cacheFill f) (fetched f).
Definition upd_zipRootCache (v : gmap ModuleVersion H) (f : FS) : FS :=
  MkFS (fs_store f) (fs_world f) v (handleMaps f) (handles f) (readCaches f) (pathContents f) (statusCache f) (cacheHit f) (cacheMiss f) (cacheFill f) (fetched f).
Definition upd_handleMaps (v : option maps) (f : FS) : FS :=
  MkFS (fs_store f) (fs_world f) (zipRootCache f) v (handles f) (readCaches f) (pathContents f) (statusCache f) (cacheHit f) (cacheMiss f) (cacheFill f) (fetched f).
Definition upd_handles (v : gmap bytes handleTarget) (f : FS) : FS :=
  MkFS (fs_store f) (fs_world f) (zipRootCache f) (handleMaps f) v (readCaches f) (pathContents f) (statusCache f) (cacheHit f) (cacheMiss f) (cacheFill f) (fetched f).
Definition upd_readCaches (v : readCache (Attr := FileAttribute)) (f : FS) : FS :=
  MkFS (fs_store f) (fs_world f) (zipRootCache f) (handleMaps f) (handles f) v (pathContents f) (statusCache f) (cacheHit f) (cacheMiss f) (cacheFill f) (fetched f).
Definition upd_pathContents (v : list ((ModuleVersion * bytes) * bytes)) (f : FS) : FS :=
  MkFS (fs_store f) (fs_world f) (zipRootCache f) (handleMaps f) (handles f) (readCaches f) v (statusCache f) (cacheHit f) (cacheMiss f) (cacheFill f) (fetched f).
Definition upd_statusCache (v : option statusMeta) (f : FS) : FS :=
  MkFS (fs_store f) (fs_world f) (zipRootCache f) (handleMaps f) (handles f) (readCaches f) (pathContents f) v (cacheHit f) (cacheMiss f) (cacheFill f) (fetched f).
Definition upd_cacheHit (v : Z) (f : FS) : FS :=
  MkFS (fs_store f) (fs_world f) (zipRootCache f) (handleMaps f) (handles f) (readCaches f) (pathContents f) (statusCache f) v (cacheMiss f) (cacheFill f) (fetched f).
Definition upd_cacheMiss (v : Z) (f : FS) : FS :=
  MkFS (fs_store f) (fs_world f) (zipRootCache f) (handleMaps f) (handles f) (readCaches f) (pathContents f) (statusCache f) (cacheHit f) v (cacheFill f) (fetched f).
Definition upd_cacheFill (v : Z) (f : FS) : FS :=
  MkFS (fs_store f) (fs_world f) (zipRootCache f) (handleMaps f) (handles f) (readCaches f) (pathContents f) (statusCache f) (cacheHit f) (cacheMiss f) v (fetched f).
Definition upd_fetched (v : list bytes) (f : FS) : FS :=
  MkFS (fs_store f) (fs_world f) (zipRootCache f) (handleMaps f) (handles f) (readCaches f) (pathContents f) (statusCache f) (cacheHit f) (cacheMiss f) (cacheFill f) v.

Abbreviation M A := (pst FS (res A)).

(** A call of the store, and of the network. *)
Definition call_store {A} (m : st S (res A)) : M A := fun f =>
  let '(r, s) := m (fs_store f) in Some (r, upd_fs_store s f).
Definition call_world {A} (m : st W (res A)) : M A := fun f =>
  let '(r, w) := m (fs_world f) in Some (r, upd_fs_world w f).
Definition modify (g : FS -> FS) : M unit := fun f => Some (Ok tt, g f).
Definition gets {A} (g : FS -> A) : M A := fun f => Some (Ok (g f), f).
(** The result of a call, as a value. *)
Definition catch {A} (m : M A) : pst FS (res (res A)) := fun f =>
  match m f with Some (r, f') => Some (Ok r, f') | None => None end.

(** *** File contents by path *)

Definition path_size (_ : ModuleVersion * bytes) (v : bytes) : Z := Z.of_nat (length v).

(** [fs.getFileContents]: the [MaxSize] of [pathContents] is set before its
    first [Set]. *)
Definition getFileContents (mv : ModuleVersion) (mh : H) (path : bytes) : M bytes :=
  f <-? gets id ;;
  let '(o, l) := Spec.get_ok (mv, path) (pathContents f) in
  modify (upd_pathContents l) ;;!
  match o with
  | Some v => modify (fun f => upd_cacheHit (cacheHit f + 1)%Z f) ;;! pst_ok v
  | None =>
      modify (fun f => upd_cacheMiss (cacheMiss f + 1)%Z f) ;;!
      v <-? call_store (GetFile mh path) ;;
      modify (fun f => upd_cacheFill (cacheFill f + 1)%Z f) ;;!
      (fun f => match Spec.set (GetFileCacheSize cfg) path_size (mv, path) v (pathContents f) with
                | Some l => Some (Ok tt, upd_pathContents l f)
                | None => None
                end) ;;!
      pst_ok v
  end.

(** *** Downloads *)

Definition modURLBases (mv : ModuleVersion) : res (list bytes) :=
  escMod ← map_err (errWrap "failed to escape module name") (EscapePath (Module mv));
  escVer ← map_err (errWrap "failed to escape version") (EscapeVersion (Version mv));
  Ok ((fun p => p ++ str "/" ++ escMod ++ str "/@v/" ++ escVer) <$> moduleProxyURLs cfg).

Definition netSlurp (urlStr : bytes) : M bytes :=
  modify (fun f => upd_fetched (fetched f ++ [urlStr]) f) ;;!
  r <-! call_world (client_Do urlStr) ;;
  match r with
  | Err e => pst_err (errWrap "failed to download" e)
  | Ok (status, body) =>
      if (status =? 200)%Z then pst_ret body else pst_err (errText "failed to download")
  end.

(** [errors.Join]: the error of several, or nil for none (here a panic: the
    callers go on to use the absent result). *)
Definition join_errors {A} (errs : list error) : M A :=
  match errs with [] => pst_panic | _ => pst_err (errJoin errs) end.

Fixpoint downloadMeta_loop (ext : bytes) (put : bytes -> M unit) (bases : list bytes)
    (errs : list error) : M bytes :=
  match bases with
  | [] => join_errors errs
  | urlBase :: bases' =>
      r <-? catch (netSlurp (urlBase ++ str "." ++ ext)) ;;
      match r with
      | Err e => downloadMeta_loop ext put bases' (errs ++ [errWrap "failed to download" e])
      | Ok data =>
          r <-? catch (put data) ;;
          match r with
          | Err e => pst_err (errWrap "failed to store file" e)
          | Ok _ => pst_ok data
          end
      end
  end.

Definition downloadMetaFile (mv : ModuleVersion) (ext : bytes) (put : bytes -> M unit) : M bytes :=
  match modURLBases mv with
  | Err e => pst_err e
  | Ok urlBases => downloadMeta_loop ext put urlBases []
  end.

Definition downloadModFile (mv : ModuleVersion) : M bytes :=
  downloadMetaFile mv (str "mod") (fun d => call_store (PutModFile mv d)).
Definition downloadInfoFile (mv : ModuleVersion) : M bytes :=
  downloadMetaFile mv (str "info") (fun d => call_store (PutInfoFile mv d)).

(** The three downloads of a module version: zip, info and mod. *)
Record zipSet := MkZipSet { dl_zip : bytes; dl_info : bytes; dl_mod : bytes }.

Definition slurp_ext (baseURL ext : bytes) : M bytes :=
  r <-? catch (netSlurp (baseURL ++ str "." ++ ext)) ;;
  pst_ret (map_err (errWrap "failed to download") r).

Definition downloadZipSet (baseURL : bytes) : M zipSet :=
  z <-? slurp_ext baseURL (str "zip") ;;
  i <-? slurp_ext baseURL (str "info") ;;
  m <-? slurp_ext baseURL (str "mod") ;;
  pst_ok (MkZipSet z i m).

Fixpoint downloadZip_loop (bases : list bytes) (errs : list error) : M zipSet :=
  match bases with
  | [] => join_errors errs
  | baseURL :: bases' =>
      r <-? catch (downloadZipSet baseURL) ;;
      match r with
      | Err e => downloadZip_loop bases' (errs ++ [e])
      | Ok download => pst_ok download
      end
  end.

(** [zipOfFile[name]]: the last file of that name. *)
Definition zipOfFile (files : list zipFile) (name : bytes) : res bytes :=
  match list_find (fun f => zf_Name f = name) (reverse files) with
  | Some (_, f) => zf_Open f
  | None => Err (errText "file not found in zip")
  end.

(** [f.Name[n:]], which panics when the name is shorter. *)
Definition put_file (n : nat) (f : zipFile) : option PutFile :=
  if decide (n <= length (zf_Name f))%nat
  then Some (MkPutFile (drop n (zf_Name f)) (zf_Mode f) (zf_Size f) (zf_Open f)) else None.

Definition downloadZip (mv : ModuleVersion) : M H :=
  match modURLBases mv with
  | Err e => pst_err e
  | Ok baseURLs =>
      download <-? downloadZip_loop baseURLs [] ;;
      match zip_NewReader (dl_zip download) with
      | Err e => pst_err (errWrap "failed to unzip module data" e)
      | Ok files =>
          match dirhash_Hash1 (zf_Name <$> files) (zipOfFile files) with
          | Err e => pst_err (errWrap "failed to hash zip contents" e)
          | Ok zipHash =>
              let n := length (Module mv) + 1 + length (Version mv) + 1 in
              match mapM (put_file n) files with
              | None => pst_panic
              | Some puts =>
                  let puts := if decide (Module mv = toolchainModule)
                              then addToolchainGoMods puts else puts in
                  call_store (PutModule mv
                    (MkPutModuleData (Some (dl_info download)) (Some (dl_mod download)) (Some zipHash) puts))
              end
          end
      end
  end.

(** *** Tailscale Go toolchains (tsgo.go) *)

Fixpoint tar_files (l : list (res tarHeader)) : res (list PutFile) :=
  match l with
  | [] => Ok []
  | Err e :: _ => Err (errWrap "failed to read tar header" e)
  | Ok h :: l' =>
      if th_IsDir h then tar_files l' else
      match th_content h with
      | Err e => Err (errWrap "failed to read tar file" e)
      | Ok all =>
          r ← tar_files l';
          Ok (MkPutFile (TrimPrefix (th_Name h) (str "go/")) (th_Mode h)
                (Z.of_nat (length all)) (Ok all) :: r)
      end
  end.

Definition getTailscaleGoRoot (goos goarch commitHash : bytes) : M H :=
  let mv := MkMV tsGoModule (str "tsgo-" ++ goos ++ str "-" ++ goarch ++ str "-" ++ commitHash) in
  r <-? catch (call_store (GetZipRoot mv)) ;;
  match r with
  | Ok h => pst_ok h
  | Err e =>
      if negb (errors_Is e is_ErrCacheMiss) then pst_err e else
      let urlStr := str "https://github.com/tailscale/go/releases/download/build-" ++ commitHash ++
                    str "/" ++ goos ++ str "-" ++ goarch ++ str ".tar.gz" in
      r <-? catch (netSlurp urlStr) ;;
      match r with
      | Err e => pst_err (errWrap "failed to download" e)
      | Ok tgz =>
          match gzip_NewReader tgz with
          | Err e => pst_err (errWrap "failed to gunzip tarball" e)
          | Ok zr =>
              match tar_files (tar_entries zr) with
              | Err e => pst_err e
              | Ok files => call_store (PutModule mv (MkPutModuleData None None None files))
              end
          end
      end
  end.

(** *** Zip roots *)

(** The time of the last use, which nothing reads, is left out. *)
Definition getZipRootCached (mv : ModuleVersion) : pst FS (option H) := fun f =>
  Some (zipRootCache f !! mv, f).

Definition setZipRootCache (mv : ModuleVersion) (h : H) : M unit := fun f =>
  match (match handleMaps f with
         | Some m => m ← addModule mv m; Some (Some m)
         | None => Some None
         end) with
  | None => None
  | Some m => Some (Ok tt, upd_zipRootCache (<[mv := h]> (zipRootCache f)) (upd_handleMaps m f))
  end.

Definition getZipRoot (mv : ModuleVersion) : M H :=
  o <-! getZipRootCached mv ;;
  match o with
  | Some mh => pst_ok mh
  | None =>
      if bool_decide (Module mv = tsGoModule) && HasPrefix (Version mv) (str "tsgo-") then
        match SplitN (Version mv) "-"%char 4 with
        | [_; goos; goarch; commitHash] =>
            r <-? catch (getTailscaleGoRoot goos goarch commitHash) ;;
            match r with
            | Err e => pst_err (errWrap "failed to get Tailscale Go root" e)
            | Ok root => setZipRootCache mv root ;;! pst_ok root
            end
        | _ => pst_err (errText "invalid tsgo version")
        end
      else
        r <-? catch (call_store (GetZipRoot mv)) ;;
        r <-? (match r with
               | Ok root =>
                   if bool_decide (Module mv = toolchainModule) && negb (ReadOnly cfg) then
                     s <-? catch (call_store (Stat root (str "src/go.mod"))) ;;
                     match s with
                     | Err serr => if errors_Is serr is_ErrNotExist then pst_ok (Err ErrCacheMiss) else pst_ok r
                     | Ok _ => pst_ok r
                     end
                   else pst_ok r
               | Err _ => pst_ok r
               end) ;;
        match r with
        | Ok root => setZipRootCache mv root ;;! pst_ok root
        | Err e =>
            if negb (errors_Is e is_ErrCacheMiss) then pst_err (errWrap "failed to get zip root" e)
            else if ReadOnly cfg then pst_err ErrCacheMiss
            else root <-? downloadZip mv ;; setZipRootCache mv root ;;! pst_ok root
        end
  end.

(** *** Meta files *)

Definition getMetaFile (getFromStore downloadAndFill : M bytes) : M bytes :=
  r <-? catch getFromStore ;;
  match r with
  | Ok v => pst_ok v
  | Err e =>
      if negb (errors_Is e is_ErrCacheMiss) then pst_err (errWrap "failed to get file" e)
      else if ReadOnly cfg then pst_err ErrCacheMiss
      else
        r <-? catch downloadAndFill ;;
        match r with
        | Ok v => pst_ok v
        | Err _ => pst_err EIO
        end
  end.

Definition getModFile (mv : ModuleVersion) : M bytes :=
  getMetaFile (call_store (GetModFile mv)) (downloadModFile mv).
Definition getInfoFile (mv : ModuleVersion) : M bytes :=
  getMetaFile (call_store (GetInfoFile mv)) (downloadInfoFile mv).
Definition getZiphash (mv : ModuleVersion) : M bytes :=
  zr <-? getZipRoot mv ;; call_store (GetZipHash zr).

Definition getMetaFileByExt (mv : ModuleVersion) (ext : bytes) : M bytes :=
  if decide (ext = str "mod") then getModFile mv
  else if decide (ext = str "ziphash") then getZiphash mv
  else if decide (ext = str "info") then getInfoFile mv
  else pst_err (errText "unknown meta file extension").

(** The exported wrappers. *)
Definition GetZipRootOrDownload (mv : ModuleVersion) : M H := getZipRoot mv.
Definition GetMetaFileByExt (mv : ModuleVersion) (ext : bytes) : M bytes := getMetaFileByExt mv ext.

(** *** Walking a module's files *)

(** [walkStoreModulePaths] with its consumer [yield], which says whether to
    go on; the accumulator [a] is what the consumer keeps.  The fuel bounds
    the depth of the directories. *)
Fixpoint doDir {A} (fuel : nat) (yield : res bytes -> A -> A * bool) (mh : H) (path : bytes) (a : A)
    : M (A * bool) :=
  match fuel with
  | O => pst_panic
  | Datatypes.S fuel' =>
      let '(a, more) := yield (Ok path) a in
      if negb more then pst_ok (a, false) else
      r <-? catch (call_store (Readdir mh path)) ;;
      match r with
      | Err e => pst_ok ((yield (Err e) a).1, false)
      | Ok ents =>
          (fix entries (ents : list Dirent) (a : A) : M (A * bool) :=
             match ents with
             | [] => pst_ok (a, true)
             | ent :: ents' =>
                 let sub := join_path path (d_Name ent) in
                 r <-? (if mode_IsDir (d_Mode ent) then doDir fuel' yield mh sub a
                        else pst_ok (yield (Ok sub) a)) ;;
                 if r.2 : bool then entries ents' r.1 else pst_ok (r.1, false)
             end) ents a
      end
  end.

Definition walkStoreModulePaths {A} (fuel : nat) (yield : res bytes -> A -> A * bool) (mh : H) (a : A) : M A :=
  r <-? doDir fuel yield mh [] a ;; pst_ok r.1.

(** *** The handle maps *)

Definition initHandleMapsLocked : M unit := fun f =>
  match handleMaps f with
  | Some _ => Some (Ok tt, f)
  | None =>
      let '(r, s) := CachedModules (fs_store f) in
      let f := upd_fs_store s f in
      match r with
      | Err e => Some (Err (errWrap "CachedModules" e), f)
      | Ok mvs =>
          m ← addModules mvs (MkMaps ∅ ∅);
          Some (Ok tt, upd_handleMaps (Some (foldl (fun m p => addPathHashTargetLocked p m) m wellKnownPaths)) f)
      end
  end.

(** A miss is an invalid (empty) module version. *)
Definition moduleVersionWithHash (mvh : bytes) : M ModuleVersion :=
  _ <-? initHandleMapsLocked ;;
  o <-? gets handleMaps ;;
  pst_ok (default noMV (m ← o; modVerHash m !! mvh)).

Definition handleTargetWithPathHash (ph : bytes) : M handleTarget :=
  _ <-? initHandleMapsLocked ;;
  o <-? gets handleMaps ;;
  match m ← o; pathHashTarget m !! ph with
  | Some ht => pst_ok ht
  | None => pst_err (staleErr (errText "unknown path hash"))
  end.
End fs.

#[global] Arguments FS S H W : clear implicits.
