(* ===== verification/FSFacts.v ===== *)
(** * Properties of the file system's core (gomodfs.go) *)

From S2P Require Import Prelude GoStrings Sha Lru Store StoreTree Paths PathDir NfsAttr NfsCache MemStore FS.

Local Open Scope gomodfs_scope.

(** ** The handle maps *)

(** [addParentPathsLocked] stops at these directories. *)
Definition stops (s : bytes) : Prop := s = str "." \/ s = str "cache" \/ s = str "cache/download".

(** [p] is a directory above [s] that the loop adds. *)
Inductive climbs : bytes -> bytes -> Prop :=
  | climbs_here s : ~ stops (path_Dir s) -> climbs s (path_Dir s)
  | climbs_up s p : ~ stops (path_Dir s) -> climbs (path_Dir s) p -> climbs s p.

Definition has_path (m : maps) (p : bytes) : Prop := is_Some (pathHashTarget m !! mkPathHash p).

(** Every entry is filed under its own hash. *)
Record maps_ok (m : maps) : Prop := {
  ok_path h t : pathHashTarget m !! h = Some t -> t = mkTargetFromPath (path t) /\ mkPathHash (path t) = h;
  ok_mv h mv : modVerHash m !! h = Some mv -> hashModVersion mv = h }.

Lemma add_path_ok p m : maps_ok m -> maps_ok (addPathHashTargetLocked p m).
Proof.
  intros [H1 H2]. split; [|done]. intros h t. cbn. rewrite lookup_insert_Some.
  intros [[<- <-]|[_ ?]]; [done|by apply H1].
Qed.

Lemma add_path_has p m q : q = p \/ has_path m q -> has_path (addPathHashTargetLocked p m) q.
Proof.
  unfold has_path. cbn. rewrite lookup_insert_is_Some'. intros [->|?]; [by left|by right].
Qed.

Lemma addParentPaths_loop_total fuel s m :
  relative s -> length s < fuel -> maps_ok m ->
  exists m', addParentPaths_loop fuel s m = Some m' /\ maps_ok m' /\ modVerHash m' = modVerHash m /\
    forall p, has_path m p \/ climbs s p -> has_path m' p.
Proof.
  revert s m. induction fuel as [|fuel IH]; intros s m Hrel Hf Hm; [lia|]. cbn [addParentPaths_loop].
  destruct (decide _) as [Hd|Hd].
  - exists m. split_and!; [done..|]. intros p [?|Hc]; [done|]. by destruct Hc.
  - destruct (path_Dir_shorter s Hrel) as [Heq|[Hlen Hrel']]; [destruct Hd; by left|].
    destruct (IH (path_Dir s) (addPathHashTargetLocked (path_Dir s) m) Hrel' ltac:(lia))
      as (m' & -> & Hok & Hv & Hp); [by apply add_path_ok|].
    exists m'. split_and!; [done..|]. intros p Hpc. apply Hp.
    destruct Hpc as [?|Hc]; [left; apply add_path_has; by right|].
    inversion Hc; subst; [left; apply add_path_has; by left|by right].
Qed.

Section maps.
Context `{L : ModEscapeLaws}.

Lemma cdPath_relative mv ext : relative (cdPath mv ext).
Proof. done. Qed.

Lemma zip_prefix_relative mv p : modVerZipPrefix mv = Ok p -> relative p.
Proof.
  unfold modVerZipPrefix. destruct (isTSGoModule mv); [by intros [= <-]|].
  destruct (EscapePath (Module mv)) as [em|] eqn:Hm; [|done].
  destruct (EscapeVersion (Version mv)) as [ev|] eqn:Hv; [|done]. intros [= <-].
  apply EscapePath_dot in Hm as (a & b & -> & Ha). destruct a as [|c a]; [done|].
  intros [= ->]. apply Ha. by left.
Qed.

(** The directories above the files of [mv]: in the download cache and above
    its zip root. *)
Definition above_module (mv : ModuleVersion) (p : bytes) : Prop :=
  climbs (cdPath mv (str "foo")) p \/ exists root, modVerZipPrefix mv = Ok root /\ climbs root p.

Lemma addModule_total mv m :
  maps_ok m ->
  exists m', addModule mv m = Some m' /\ maps_ok m' /\
    modVerHash m' = <[hashModVersion mv := mv]> (modVerHash m) /\
    forall p, has_path m p \/ above_module mv p -> has_path m' p.
Proof.
  intros Hm. unfold addModule, addModuleVersionPathsLocked, addParentPathsLocked.
  set (m0 := MkMaps (<[hashModVersion mv := mv]> (modVerHash m)) (pathHashTarget m)).
  assert (maps_ok m0) as Hm0.
  { destruct Hm as [H1 H2]. split; [done|]. intros h v. cbn. rewrite lookup_insert_Some.
    intros [[<- <-]|[_ ?]]; [done|by apply H2]. }
  destruct (addParentPaths_loop_total (S (length (cdPath mv (str "foo")))) _ m0
    (cdPath_relative mv (str "foo")) ltac:(lia) Hm0) as (m1 & -> & Hm1 & Hv1 & Hp1).
  cbn [mbind option_bind]. destruct (modVerZipPrefix mv) as [root|] eqn:Hroot.
  - destruct (addParentPaths_loop_total (S (length root)) root m1
      (zip_prefix_relative _ _ Hroot) ltac:(lia) Hm1) as (m2 & -> & Hm2 & Hv2 & Hp2).
    exists m2. split_and!; [done|done|by rewrite Hv2, Hv1|].
    intros p [Hp|[Hc|(r & Hr & Hc)]]; apply Hp2; [left; apply Hp1; by left|left; apply Hp1; by right|].
    right. congruence.
  - exists m1. split_and!; [done|done|by rewrite Hv1|].
    intros p [Hp|[Hc|(r & Hr & Hc)]]; [apply Hp1; by left|apply Hp1; by right|congruence].
Qed.

Lemma addModules_total mvs m :
  maps_ok m ->
  exists m', addModules mvs m = Some m' /\ maps_ok m' /\
    (forall h, is_Some (modVerHash m !! h) -> is_Some (modVerHash m' !! h)) /\
    (forall mv, mv ∈ mvs -> is_Some (modVerHash m' !! hashModVersion mv)) /\
    (forall h mv, modVerHash m' !! h = Some mv -> modVerHash m !! h = Some mv \/ mv ∈ mvs) /\
    (forall p, has_path m p -> has_path m' p) /\
    (forall p mv, mv ∈ mvs -> above_module mv p -> has_path m' p).
Proof.
  revert m. induction mvs as [|mv mvs IH]; intros m Hm; cbn [addModules].
  - exists m. split_and!; try done; intros *; rewrite ?elem_of_nil; auto; done.
  - destruct (addModule_total mv m Hm) as (m1 & -> & Hm1 & Hv1 & Hp1). cbn [mbind option_bind].
    destruct (IH m1 Hm1) as (m2 & -> & Hm2 & H1 & H2 & H5 & H3 & H4).
    exists m2. split_and!; try done.
    + intros h Hh. apply H1. rewrite Hv1. apply lookup_insert_is_Some'. by right.
    + intros mv' [->|Hin]%elem_of_cons; [|by apply H2]. apply H1. rewrite Hv1, lookup_insert_eq. eauto.
    + intros h v Hh. apply H5 in Hh as [Hh|Hh]; [|right; by right].
      rewrite Hv1 in Hh. apply lookup_insert_Some in Hh as [[_ <-]|[_ Hh]]; [right; by left|by left].
    + intros p Hp. apply H3, Hp1. by left.
    + intros p mv' [->|Hin]%elem_of_cons Ha; [apply H3, Hp1; by right|by eapply H4].
Qed.

Lemma fold_paths_ok l m :
  maps_ok m ->
  let m' := foldl (fun m p => addPathHashTargetLocked p m) m l in
  maps_ok m' /\ modVerHash m' = modVerHash m /\ forall p, p ∈ l \/ has_path m p -> has_path m' p.
Proof.
  revert m. induction l as [|x l IH]; intros m Hm; cbn [foldl].
  - split_and!; try done. intros p [?%elem_of_nil|?]; done.
  - destruct (IH (addPathHashTargetLocked x m) (add_path_ok x m Hm)) as (H1 & H2 & H3).
    split_and!; [done|by rewrite H2|]. intros p Hp. apply H3.
    destruct Hp as [[->|?]%elem_of_cons|?]; [right; apply add_path_has; by left|by left|
      right; apply add_path_has; by right].
Qed.

(** What the handle maps hold, for the modules [mvs]. *)
Record maps_hold (mvs : list ModuleVersion) (m : maps) : Prop := {
  hold_ok : maps_ok m;
  hold_mv mv : mv ∈ mvs -> is_Some (modVerHash m !! hashModVersion mv);
  hold_from h mv : modVerHash m !! h = Some mv -> mv ∈ mvs;
  hold_above mv p : mv ∈ mvs -> above_module mv p -> has_path m p;
  hold_known p : p ∈ wellKnownPaths -> has_path m p }.

Lemma init_maps_hold mvs :
  exists m, (m ← addModules mvs (MkMaps ∅ ∅);
             Some (foldl (fun m p => addPathHashTargetLocked p m) m wellKnownPaths)) = Some m /\
    maps_hold mvs m.
Proof.
  destruct (addModules_total mvs (MkMaps ∅ ∅)) as (m & -> & Hm & _ & Hv & Hf & _ & Ha).
  { split; intros *; cbn; by rewrite lookup_empty. }
  cbn [mbind option_bind]. destruct (fold_paths_ok wellKnownPaths m Hm) as (H1 & H2 & H3).
  eexists. split; [done|]. split; [done|by intros; rewrite H2; auto| | |by auto].
  { intros h mv. rewrite H2. intros [Hn|?]%Hf; [|done]. cbn in Hn. by rewrite lookup_empty in Hn. }
  intros mv p Hmv Hp. apply H3. right. by eapply Ha.
Qed.
End maps.

(** ** Running the monad *)

Section monad.
Context {S : Type}.

(** A relation between the states before and after that every step keeps. *)
Definition keeps (R : S -> S -> Prop) {A} (m : pst S A) : Prop :=
  forall f a f', m f = Some (a, f') -> R f f'.

Context (R : S -> S -> Prop) `{!PreOrder R}.

Lemma keeps_bind {A B} (m : pst S A) (k : A -> pst S B) :
  keeps R m -> (forall a, keeps R (k a)) -> keeps R (pst_bind m k).
Proof.
  intros Hm Hk f b f' Hr. unfold pst_bind in Hr. destruct (m f) as [[a f1]|] eqn:Hmf; [|done].
  transitivity f1; [by eapply Hm|by eapply Hk].
Qed.

Lemma keeps_ret {A} (a : A) : keeps R (pst_ret a).
Proof. intros f b f' [= _ <-]. done. Qed.

Lemma keeps_try {A B} (m : pst S (res A)) (k : A -> pst S (res B)) :
  keeps R m -> (forall a, keeps R (k a)) -> keeps R (pst_try m k).
Proof. intros Hm Hk. apply keeps_bind; [done|]. intros [a|e]; [apply Hk|apply keeps_ret]. Qed.

Lemma keeps_panic {A} : keeps R (pst_panic (A := A)).
Proof. by intros ???. Qed.
End monad.

Lemma keeps_catch {S H W A} (R : FS S H W -> FS S H W -> Prop) (m : pst (FS S H W) (res A)) :
  keeps R m -> keeps R (catch m).
Proof.
  intros Hm f a f'. unfold catch. destruct (m f) as [[r f1]|] eqn:Hr; [|done].
  intros [= _ <-]. by eapply Hm.
Qed.

Create HintDb keeps.

(** Steps through a computation, deciding [keeps] goals by its structure. *)
Ltac keeps_tac :=
  repeat match goal with
  | |- keeps _ (pst_bind _ _) => apply keeps_bind; [try apply _| |intros ?]
  | |- keeps _ (pst_try _ _) => apply keeps_try; [try apply _| |intros ?]
  | |- keeps _ (pst_ret _) => apply keeps_ret; apply _
  | |- keeps _ (pst_ok _) => apply keeps_ret; apply _
  | |- keeps _ (pst_err _) => apply keeps_ret; apply _
  | |- keeps _ pst_panic => apply keeps_panic
  | |- keeps _ (catch _) => apply keeps_catch
  | |- keeps _ (match ?x with _ => _ end) => destruct x eqn:?
  | |- keeps _ _ => solve [eauto with keeps]
  end.

Section fs.
Context `{E : ModEscape} {S H W : Type} `{St : !Store S H} `{Wd : !World W} (cfg : config).
Local Abbreviation FS := (FS S H W).
Implicit Types f : FS.

(** *** No network *)

(** Nothing was requested from the network. *)
Definition quiet f f' : Prop := fs_world f' = fs_world f /\ fetched f' = fetched f.

#[local] Instance quiet_preorder : PreOrder quiet.
Proof.
  split; [done|]. intros f1 f2 f3 [H1 H2] [H3 H4]. split; congruence.
Qed.

Lemma quiet_store {A} (m : st S (res A)) : keeps quiet (call_store (H := H) (W := W) m).
Proof. intros f a f'. unfold call_store. destruct (m (fs_store f)). by intros [= _ <-]. Qed.

Lemma quiet_cached mv : keeps quiet (getZipRootCached (S := S) (W := W) (H := H) mv).
Proof. by intros f a f' [= _ <-]. Qed.

Lemma quiet_setZipRoot mv h : keeps quiet (setZipRootCache (S := S) (W := W) mv h).
Proof. intros f a f'. unfold setZipRootCache. case_match; [|done]. by intros [= _ <-]. Qed.

#[local] Hint Resolve quiet_store quiet_cached quiet_setZipRoot : keeps.

(** The module versions that [getZipRoot] sends to [getTailscaleGoRoot]. *)
Definition is_tsgo (mv : ModuleVersion) : bool :=
  bool_decide (Module mv = tsGoModule) && HasPrefix (Version mv) (str "tsgo-").

Lemma getZipRoot_quiet mv :
  ReadOnly cfg = true -> is_tsgo mv = false -> keeps quiet (getZipRoot cfg mv).
Proof.
  intros Hro Hts. unfold getZipRoot, is_tsgo in *. rewrite Hro, Hts. keeps_tac.
Qed.

#[local] Hint Resolve getZipRoot_quiet : keeps.

Lemma getMetaFileByExt_quiet mv ext :
  ReadOnly cfg = true -> is_tsgo mv = false -> keeps quiet (getMetaFileByExt cfg mv ext).
Proof.
  intros Hro Hts. unfold getMetaFileByExt, getModFile, getInfoFile, getZiphash, getMetaFile.
  rewrite Hro. keeps_tac.
Qed.

(** *** Downloads try the proxies in order *)

Section downloads.
(** What each URL answers, whatever the state of the world. *)
Context (answer : bytes -> res (Z * res bytes)).
Context (client_answer : forall u w, client_Do u w = (answer u, w)).

Definition slurped (u : bytes) : res bytes :=
  match answer u with
  | Ok (200%Z, body) => body
  | Ok (_, _) => Err (errText "failed to download")
  | Err e => Err (errWrap "failed to download" e)
  end.

Definition after_fetch (us : list bytes) f : FS := upd_fetched (fetched f ++ us) f.

Lemma upd_world_id f : upd_fs_world (fs_world f) f = f.
Proof. by destruct f. Qed.

Lemma netSlurp_spec u f : netSlurp u f = Some (slurped u, after_fetch [u] f).
Proof.
  unfold netSlurp, modify, call_world, pst_bind, slurped. rewrite client_answer.
  cbn [fs_world upd_fetched]. change (fs_world f) with (fs_world (after_fetch [u] f)).
  change (upd_fetched (fetched f ++ [u]) f) with (after_fetch [u] f). rewrite upd_world_id.
  destruct (answer u) as [[status body]|e]; [|done].
  destruct (Z.eqb_spec status 200) as [->|Hne]; [done|].
  by destruct status as [|p|]; [|repeat (destruct p as [p|p|]; try done)|].
Qed.

(** The proxies' URLs of a module version's file. *)
Definition urls (ext : bytes) (bases : list bytes) : list bytes :=
  (fun b => b ++ str "." ++ ext) <$> bases.

Definition fails (u : bytes) : Prop := is_ok (slurped u) = false.

Lemma after_fetch_nil f : after_fetch [] f = f.
Proof. unfold after_fetch. rewrite app_nil_r. by destruct f. Qed.

Lemma after_fetch_app us vs f : after_fetch vs (after_fetch us f) = after_fetch (us ++ vs) f.
Proof. unfold after_fetch. cbn. by rewrite app_assoc. Qed.

(** The result of a download: what [put] makes of the first file served. *)
Definition stored (r : option (res unit * FS)) (d : bytes) : option (res bytes * FS) :=
  match r with
  | Some (Ok _, f) => Some (Ok d, f)
  | Some (Err e, f) => Some (Err (errWrap "failed to store file" e), f)
  | None => None
  end.

Lemma downloadMeta_loop_spec ext put bases errs f :
  (exists pre u post d, urls ext bases = pre ++ u :: post /\ Forall fails pre /\ slurped u = Ok d /\
     downloadMeta_loop ext put bases errs f = stored (put d (after_fetch (pre ++ [u]) f)) d) \/
  (Forall fails (urls ext bases) /\
     (errs = [] /\ bases = [] \/
      exists e, downloadMeta_loop ext put bases errs f = Some (Err e, after_fetch (urls ext bases) f))).
Proof.
  revert errs f. induction bases as [|b bases IH]; intros errs f; cbn [downloadMeta_loop].
  - right. split; [constructor|]. destruct errs; [by left|right]. eexists.
    by rewrite after_fetch_nil.
  - erewrite try_ok by (unfold catch; by rewrite netSlurp_spec).
    set (u := b ++ str "." ++ ext). destruct (slurped u) as [d|e] eqn:Hu.
    + left. exists [], u, (urls ext bases), d. split_and!; [done|constructor|done|].
      unfold pst_try, catch, pst_bind, stored, pst_err, pst_ok, pst_ret. cbn [app].
      by destruct (put d (after_fetch [u] f)) as [[[[]|] ?]|].
    + assert (fails u) as Hfu by (unfold fails; by rewrite Hu).
      destruct (IH (errs ++ [errWrap "failed to download" e]) (after_fetch [u] f))
        as [(pre & v & post & d & Hsp & Hpre & Hv & ->)|[Hall [[Hn _]|[e' ->]]]].
      * left. exists (u :: pre), v, post, d. split_and!; [cbn; by rewrite <-Hsp|by constructor|done|].
        by rewrite after_fetch_app.
      * by destruct errs.
      * right. split; [by constructor|]. right. eexists. by rewrite after_fetch_app.
Qed.

Lemma moduleProxyURLs_nonempty : moduleProxyURLs cfg <> [].
Proof.
  unfold moduleProxyURLs. case_decide as Hd; [by destruct (ModuleProxyURLs cfg)|]. by case_decide.
Qed.

Lemma modURLBases_nonempty mv bases : modURLBases cfg mv = Ok bases -> bases <> [].
Proof.
  unfold modURLBases. destruct (EscapePath (Module mv)); [|done].
  destruct (EscapeVersion (Version mv)); [|done]. intros [= <-].
  by intros Hn%fmap_nil_inv%moduleProxyURLs_nonempty.
Qed.

(** The zip, info and mod files that a proxy serves under [b]. *)
Definition serves (b : bytes) (d : zipSet) : Prop :=
  slurped (b ++ str ".zip") = Ok (dl_zip d) /\ slurped (b ++ str ".info") = Ok (dl_info d) /\
  slurped (b ++ str ".mod") = Ok (dl_mod d).

Lemma slurp_ext_spec b ext f :
  slurp_ext b ext f =
    Some (map_err (errWrap "failed to download") (slurped (b ++ str "." ++ ext)),
          after_fetch [b ++ str "." ++ ext] f).
Proof. unfold slurp_ext, pst_try, catch, pst_bind. by rewrite netSlurp_spec. Qed.

Lemma downloadZipSet_spec b f :
  exists r f', downloadZipSet b f = Some (r, f') /\
    match r with
    | Ok d => serves b d
    | Err _ => forall d, ~ serves b d
    end.
Proof.
  unfold downloadZipSet, serves, pst_ok, pst_ret.
  change (str ".zip") with (str "." ++ str "zip"). change (str ".info") with (str "." ++ str "info").
  change (str ".mod") with (str "." ++ str "mod").
  destruct (slurped (b ++ str "." ++ str "zip")) as [z|] eqn:Hz.
  2:{ eexists _, _. split; [eapply try_err; rewrite slurp_ext_spec, Hz; done|]. by intros d [? _]. }
  rewrite (try_ok _ _ _ z (after_fetch [b ++ str "." ++ str "zip"] f)) by (by rewrite slurp_ext_spec, Hz).
  destruct (slurped (b ++ str "." ++ str "info")) as [i|] eqn:Hi.
  2:{ eexists _, _. split; [eapply try_err; rewrite slurp_ext_spec, Hi; done|]. by intros d (_ & ? & _). }
  erewrite try_ok by (rewrite slurp_ext_spec, Hi; done).
  destruct (slurped (b ++ str "." ++ str "mod")) as [m|] eqn:Hm.
  2:{ eexists _, _. split; [eapply try_err; rewrite slurp_ext_spec, Hm; done|]. by intros d (_ & _ & ?). }
  erewrite try_ok by (rewrite slurp_ext_spec, Hm; done).
  eexists _, _. split; [done|]. done.
Qed.

Lemma downloadZip_loop_spec bases errs f :
  bases <> [] \/ errs <> [] ->
  exists r f', downloadZip_loop bases errs f = Some (r, f') /\
    match r with
    | Ok d => exists pre b post, bases = pre ++ b :: post /\ serves b d /\
                Forall (fun b' => forall d', ~ serves b' d') pre
    | Err _ => Forall (fun b' => forall d', ~ serves b' d') bases
    end.
Proof.
  revert errs f. induction bases as [|b bases IH]; intros errs f Hne; cbn [downloadZip_loop].
  - destruct errs; [by destruct Hne|]. eexists _, _. split; [done|constructor].
  - destruct (downloadZipSet_spec b f) as (r & f1 & Hr & Hs).
    erewrite try_ok by (unfold catch; by rewrite Hr). destruct r as [d|e].
    + eexists _, _. split; [done|]. exists [], b, bases. split_and!; [done|done|constructor].
    + destruct (IH (errs ++ [e]) f1) as (r & f2 & -> & Hr2); [right; by destruct errs|].
      eexists _, _. split; [done|]. destruct r as [d|].
      * destruct Hr2 as (pre & b' & post & -> & ? & ?). exists (b :: pre), b', post.
        split_and!; [done|done|by constructor].
      * by constructor.
Qed.
End downloads.

(** *** Zip roots are found once *)

Lemma setZipRoot_cached mv h f f' :
  setZipRootCache mv h f = Some (Ok tt, f') -> zipRootCache f' !! mv = Some h.
Proof.
  unfold setZipRootCache. case_match; [|done]. intros [= <-]. cbn. by rewrite lookup_insert_eq.
Qed.

Lemma set_then_ok mv root f r f' :
  (setZipRootCache mv root ;;! pst_ok root) f = Some (r, f') -> r = Ok root /\ zipRootCache f' !! mv = Some root.
Proof.
  unfold pst_bind. destruct (setZipRootCache mv root f) as [[r1 f1]|] eqn:Hs; [|done].
  assert (r1 = Ok tt) as -> by (unfold setZipRootCache in Hs; case_match; by simplify_eq).
  intros [= <- <-]. split; [done|]. by eapply setZipRoot_cached.
Qed.

Lemma getZipRoot_hit mv h f : zipRootCache f !! mv = Some h -> getZipRoot cfg mv f = Some (Ok h, f).
Proof.
  intros Hc. unfold getZipRoot. unfold pst_bind at 1, getZipRootCached. by rewrite Hc.
Qed.

Lemma getZipRoot_caches mv f h f' :
  getZipRoot cfg mv f = Some (Ok h, f') -> zipRootCache f' !! mv = Some h.
Proof.
  unfold getZipRoot. unfold pst_bind at 1, getZipRootCached.
  destruct (zipRootCache f !! mv) as [h0|] eqn:Hc; [by intros [= <- <-]|].
  case_match.
  - repeat (case_match; try done). unfold pst_try. unfold pst_bind at 1.
    intros Hr. repeat case_match; simplify_eq/=.
    apply set_then_ok in Hr as [[= ->] ?]. done.
  - unfold pst_try. intros Hr. unfold pst_bind in Hr at 1.
    destruct (catch (call_store (GetZipRoot mv)) f) as [[r1 f1]|]; [|done].
    destruct r1 as [r1|]; [|done]. unfold pst_bind in Hr at 1.
    match type of Hr with
    | match ?m f1 with _ => _ end = _ => destruct (m f1) as [[r2 f2]|]; [|done]
    end.
    destruct r2 as [[root|e]|]; [|repeat (case_match; try done)|done].
    + apply set_then_ok in Hr as [[= ->] ?]. done.
    + unfold pst_bind in Hr at 1. destruct (downloadZip cfg mv f2) as [[[root|] f3]|]; try done.
      apply set_then_ok in Hr as [[= ->] ?]. done.
Qed.

End fs.
