(* ===== verification/FSProps.v ===== *)
(** * Theorems about the file system's core (gomodfs.go)

    Network use, the order of downloads, what is remembered, and the handle
    maps, each with a run of the model on the in-memory store. *)

From S2P Require Import Prelude GoStrings Sha Lru Store StoreTree Paths PathDir NfsAttr NfsCache MemStore FS FSFacts.

Local Open Scope gomodfs_scope.

(** ** A world for evaluation *)

(** A world without state: the answer of each URL, and one zip archive. *)
Definition world_of (answer : bytes -> res (Z * res bytes)) (files : list zipFile) : World unit := {|
  client_Do := fun u w => (answer u, w);
  zip_NewReader := fun b => if decide (b = str "zip") then Ok files else Err (errText "not a zip");
  gzip_NewReader := fun b => Ok b;
  tar_entries := fun b => [Ok (MkTar (str "go/VERSION") 420 false (Ok b))];
  dirhash_Hash1 := fun names open => Ok (str "h1:" ++ join_byte nl names) |}.

Definition test_cfg : config := MkConfig [] [str "https://a"; str "https://b/"] false 0.
Definition readonly_cfg : config := MkConfig [] [] true 0.

Definition mem_fs : FS mem ModuleVersion unit :=
  MkFS empty_mem tt ∅ None ∅ empty_cache [] None 0 0 0 [].

Definition test_mv : ModuleVersion := MkMV (str "a.b/M") (str "v1.0.0").

(** The first proxy answers 404, the second serves the module. *)
Definition second_only (u : bytes) : res (Z * res bytes) :=
  if decide (u = str "https://b/a.b/!m/@v/v1.0.0.mod") then Ok (200%Z, Ok (str "module a.b/M"))
  else if decide (u = str "https://b/a.b/!m/@v/v1.0.0.info") then Ok (200%Z, Ok (str "{}"))
  else if decide (u = str "https://b/a.b/!m/@v/v1.0.0.zip") then Ok (200%Z, Ok (str "zip"))
  else Ok (404%Z, Ok []).

#[export] Instance test_world : World unit :=
  world_of second_only [MkZipFile (str "a.b/M@v1.0.0/x/y.go") 420 3 (Ok (str "yyy"))].

Import BangEscape.

(** The result of a run, without its final state. *)
Lemma run_result {A B} (x : option (A * B)) r : fst <$> x = Some r -> exists f, x = Some (r, f).
Proof. destruct x as [[a f]|]; [|done]. intros [= ->]. by exists f. Qed.

(** ** Network use *)

Section readonly.
Context `{E : ModEscape} {S H W : Type} `{St : !Store S H} `{Wd : !World W}.

(** C15: with [ReadOnly] set, getting a zip root or a meta file never uses the
    network, for every module version but the Tailscale Go toolchains. *)
Theorem readonly_no_network cfg mv :
  ReadOnly cfg = true -> is_tsgo mv = false ->
  keeps quiet (getZipRoot (S := S) (H := H) (W := W) cfg mv) /\
  forall ext, keeps quiet (getMetaFileByExt (S := S) (H := H) (W := W) cfg mv ext).
Proof. intros Hro Hts. split; [by apply getZipRoot_quiet|]. intros. by apply getMetaFileByExt_quiet. Qed.

Lemma isTSGo_SplitN mv t :
  isTSGoModule mv = Some t ->
  is_tsgo mv = true /\ SplitN (Version mv) "-"%char 4 = [str "tsgo"; t_OS t; t_Arch t; t_Hash t].
Proof.
  unfold isTSGoModule, is_tsgo, HasPrefix. case_decide as Hm; [done|].
  rewrite bool_decide_eq_true_2 by (by destruct (decide (Module mv = tsGoModule))).
  destruct (CutPrefix (Version mv) (str "tsgo-")) as [rest|] eqn:Hp; [|done]. cbn [mbind option_bind].
  destruct (Cut rest (str "-")) as [[goos rest']|] eqn:H1; [|done]. cbn [mbind option_bind].
  destruct (Cut rest' (str "-")) as [[goarch hash]|] eqn:H2; [|done]. cbn [mbind option_bind].
  intros [= <-]. split; [done|]. apply CutPrefix_Some in Hp as ->. cbn [t_OS t_Arch t_Hash].
  change (SplitN (str "tsgo-" ++ rest) "-"%char 4) with (str "tsgo" :: SplitN rest "-"%char 3).
  change (str "-") with ["-"%char] in *. cbn [SplitN]. by rewrite H1, H2.
Qed.

(** Requests are never forgotten. *)
Definition grows (f f' : FS S H W) : Prop := forall u, u ∈ fetched f -> u ∈ fetched f'.

#[local] Instance grows_preorder : PreOrder grows.
Proof. split; [by intros ??|]. intros f1 f2 f3 H1 H2 u Hu. auto. Qed.

Lemma grows_store {A} (m : st S (res A)) : keeps grows (call_store (H := H) (W := W) m).
Proof. intros f a f'. unfold call_store. destruct (m (fs_store f)). by intros [= _ <-] ?. Qed.

Lemma grows_setZipRoot mv h : keeps grows (setZipRootCache (S := S) (W := W) mv h).
Proof. intros f a f'. unfold setZipRootCache. case_match; [|done]. by intros [= _ <-] ?. Qed.

#[local] Hint Resolve grows_store grows_setZipRoot : keeps.

Lemma netSlurp_fetched u (f : FS S H W) r f' : netSlurp u f = Some (r, f') -> u ∈ fetched f'.
Proof.
  unfold netSlurp, modify, call_world, pst_err, pst_ret. unfold pst_bind at 1 2. cbn.
  destruct (client_Do u (fs_world f)) as [r1 w]. cbn.
  intros Hr. repeat case_match; simplify_eq/=; apply elem_of_app; right; by left.
Qed.

Lemma getTailscaleGoRoot_fetches goos goarch hash (f : FS S H W) e s r f' :
  GetZipRoot (MkMV tsGoModule (str "tsgo-" ++ goos ++ str "-" ++ goarch ++ str "-" ++ hash)) (fs_store f) = (Err e, s) ->
  errors_Is e is_ErrCacheMiss = true ->
  getTailscaleGoRoot goos goarch hash f = Some (r, f') ->
  str "https://github.com/tailscale/go/releases/download/build-" ++ hash ++
    str "/" ++ goos ++ str "-" ++ goarch ++ str ".tar.gz" ∈ fetched f'.
Proof.
  intros Hg He Hr. unfold getTailscaleGoRoot in Hr.
  erewrite try_ok in Hr by (unfold catch, call_store; by rewrite Hg).
  cbv beta iota in Hr. rewrite He in Hr. cbn [negb] in Hr.
  match type of Hr with pst_try (catch (netSlurp ?u)) ?k ?f1 = _ => set (url := u) in *; set (kk := k) in *;
    set (f0 := f1) in * end.
  destruct (netSlurp url f0) as [[r1 f1]|] eqn:Hn.
  - erewrite try_ok in Hr by (unfold catch; by rewrite Hn).
    assert (keeps grows (kk r1)) as Hk by (unfold kk; keeps_tac).
    eapply Hk; [exact Hr|]. by eapply netSlurp_fetched.
  - unfold pst_try, pst_bind, catch in Hr. by rewrite Hn in Hr.
Qed.

(** The exception is real.  A Tailscale Go toolchain that the store
    does not have is downloaded from GitHub whether or not [ReadOnly] is set. *)
Theorem tsgo_downloads_even_readonly cfg mv t (f : FS S H W) e s r f' :
  isTSGoModule mv = Some t -> zipRootCache f !! mv = None ->
  GetZipRoot (MkMV tsGoModule (tsGoVersion t)) (fs_store f) = (Err e, s) ->
  errors_Is e is_ErrCacheMiss = true ->
  getZipRoot cfg mv f = Some (r, f') ->
  str "https://github.com/tailscale/go/releases/download/build-" ++ t_Hash t ++
    str "/" ++ t_OS t ++ str "-" ++ t_Arch t ++ str ".tar.gz" ∈ fetched f'.
Proof.
  intros Ht Hc Hg He Hr. destruct (isTSGo_SplitN _ _ Ht) as [Hts Hs]. unfold is_tsgo in Hts.
  unfold getZipRoot in Hr. unfold pst_bind at 1, getZipRootCached in Hr. rewrite Hc, Hts, Hs in Hr.
  match type of Hr with pst_try _ ?k _ = _ => set (kk := k) in * end.
  destruct (getTailscaleGoRoot (t_OS t) (t_Arch t) (t_Hash t) f) as [[r1 f1]|] eqn:Hn.
  - erewrite try_ok in Hr by (unfold catch; by rewrite Hn).
    assert (keeps grows (kk r1)) as Hk by (unfold kk; keeps_tac).
    eapply Hk; [exact Hr|]. by eapply getTailscaleGoRoot_fetches.
  - unfold pst_try, pst_bind, catch in Hr. by rewrite Hn in Hr.
Qed.
End readonly.

Lemma readonly_no_network_witness :
  keeps quiet (getZipRoot (S := mem) (H := ModuleVersion) (W := unit) readonly_cfg test_mv) /\
  forall ext, keeps quiet (getMetaFileByExt (S := mem) (H := ModuleVersion) (W := unit) readonly_cfg test_mv ext).
Proof. apply readonly_no_network; reflexivity. Defined.

Lemma tsgo_downloads_even_readonly_witness :
  let t := MkTriple (str "linux") (str "amd64") (str "abc") in
  exists r f', getZipRoot readonly_cfg (MkMV tsGoModule (tsGoVersion t)) mem_fs = Some (r, f') /\
    str "https://github.com/tailscale/go/releases/download/build-abc/linux-amd64.tar.gz" ∈ fetched f'.
Proof.
  intros t.
  destruct (run_result (getZipRoot readonly_cfg (MkMV tsGoModule (tsGoVersion t)) mem_fs)
    (Err (errWrap "failed to get Tailscale Go root" (errWrap "failed to download" (errText "failed to download")))))
    as [f' Hr]; [vm_compute; reflexivity|].
  eexists _, f'. split; [exact Hr|].
  eapply (tsgo_downloads_even_readonly readonly_cfg (MkMV tsGoModule (tsGoVersion t)) t mem_fs
           ErrCacheMiss empty_mem _ f'); [reflexivity..|exact Hr].
Defined.

(** ** Downloads *)

Section downloads.
Context `{E : ModEscape} {S H W : Type} `{St : !Store S H} `{Wd : !World W}.

(** C16: a mod or info file is downloaded from the first proxy, in the
    configured order, that serves it: the proxies before it were each asked
    once and failed, those after it are not asked, and what it served is
    stored and returned.  When all fail, all were asked, in order, and the
    result is an error (never a missing one). *)
Theorem downloadMetaFile_order cfg answer mv ext put bases (f : FS S H W) :
  (forall u w, client_Do u w = (answer u, w)) -> modURLBases cfg mv = Ok bases ->
  (exists pre u post d, urls ext bases = pre ++ u :: post /\ Forall (fails answer) pre /\
     slurped answer u = Ok d /\
     downloadMetaFile cfg mv ext put f = stored (put d (after_fetch (pre ++ [u]) f)) d) \/
  (Forall (fails answer) (urls ext bases) /\
     exists e, downloadMetaFile cfg mv ext put f = Some (Err e, after_fetch (urls ext bases) f)).
Proof.
  intros Hans Hb. unfold downloadMetaFile. rewrite Hb.
  destruct (downloadMeta_loop_spec answer Hans ext put bases [] f) as [?|[Hall [[_ Hn]|?]]]; [by left| |by right].
  by apply modURLBases_nonempty in Hb.
Qed.

(** A module version's zip, info and mod files come from one proxy: the
    first of the configured ones that serves all three. *)
Theorem downloadZip_one_proxy cfg answer mv bases (f : FS S H W) :
  (forall u w, client_Do u w = (answer u, w)) -> modURLBases cfg mv = Ok bases ->
  exists r f', downloadZip_loop bases [] f = Some (r, f') /\
    match r with
    | Ok d => exists pre b post, bases = pre ++ b :: post /\ serves answer b d /\
                Forall (fun b' => forall d', ~ serves answer b' d') pre
    | Err _ => Forall (fun b' => forall d', ~ serves answer b' d') bases
    end.
Proof.
  intros Hans Hb. apply downloadZip_loop_spec; [done|]. left. by eapply modURLBases_nonempty.
Qed.

(** Once a zip root is found, it is remembered: asking again returns the
    same handle at once, without the store or the network. *)
Theorem getZipRoot_idempotent cfg mv (f : FS S H W) h f' :
  getZipRoot cfg mv f = Some (Ok h, f') -> getZipRoot cfg mv f' = Some (Ok h, f').
Proof. intros Hr. by apply getZipRoot_hit, (getZipRoot_caches cfg mv f). Qed.
End downloads.

Definition test_bases : list bytes := [str "https://a/a.b/!m/@v/v1.0.0"; str "https://b/a.b/!m/@v/v1.0.0"].

Lemma downloadMetaFile_order_witness :
  let put := fun d => call_store (PutModFile test_mv d) in
  exists pre u post d, urls (str "mod") test_bases = pre ++ u :: post /\
    Forall (fails second_only) pre /\ slurped second_only u = Ok d /\
    downloadMetaFile test_cfg test_mv (str "mod") put mem_fs =
      stored (put d (after_fetch (pre ++ [u]) mem_fs)) d.
Proof.
  intros put.
  destruct (downloadMetaFile_order test_cfg second_only test_mv (str "mod") put test_bases mem_fs)
    as [Hok|[Hall _]]; [done|reflexivity|exact Hok|].
  exfalso. apply Forall_cons in Hall as [_ Hall]. apply Forall_cons in Hall as [Hf _].
  revert Hf. unfold fails. vm_compute. discriminate.
Defined.

(** Both proxies were asked, in order, and the file was stored. *)
Example second_proxy :
  match downloadModFile test_cfg test_mv mem_fs with
  | Some (r, f) => r = Ok (str "module a.b/M") /\ fetched f = urls (str "mod") test_bases /\
                   m_mod (fs_store f) !! test_mv = Some (str "module a.b/M")
  | None => False
  end.
Proof. vm_compute. split_and!; reflexivity. Qed.

Lemma downloadZip_one_proxy_witness :
  exists r f', downloadZip_loop test_bases [] mem_fs = Some (r, f') /\
    r = Ok (MkZipSet (str "zip") (str "{}") (str "module a.b/M")) /\ length (fetched f') = 4.
Proof.
  destruct (downloadZip_one_proxy test_cfg second_only test_mv test_bases mem_fs) as (r & f' & Hr & _);
    [done|reflexivity|].
  exists r, f'. split; [exact Hr|].
  assert ((fun x => (x.1, length (fetched x.2))) <$> downloadZip_loop test_bases [] mem_fs =
    Some (Ok (MkZipSet (str "zip") (str "{}") (str "module a.b/M")), 4)) as E by (vm_compute; reflexivity).
  rewrite Hr in E. injection E as -> ->. done.
Defined.

Lemma getZipRoot_idempotent_witness :
  exists f', getZipRoot test_cfg test_mv mem_fs = Some (Ok test_mv, f') /\
    getZipRoot test_cfg test_mv f' = Some (Ok test_mv, f').
Proof.
  destruct (run_result (getZipRoot test_cfg test_mv mem_fs) (Ok test_mv)) as [f' Hr];
    [vm_compute; reflexivity|].
  exists f'. split; [exact Hr|]. exact (getZipRoot_idempotent test_cfg test_mv mem_fs _ _ Hr).
Defined.

(** ** Meta files *)

Section meta.
Context `{E : ModEscape} {S H W : Type} `{St : !Store S H} `{SL : !StoreLaws S H} `{Wd : !World W}.

Lemma getMetaFile_hit cfg (get : st S (res bytes)) put (f : FS S H W) d s :
  get (fs_store f) = (Ok d, s) ->
  getMetaFile cfg (call_store get) put f = Some (Ok d, upd_fs_store s f).
Proof. intros Hg. unfold getMetaFile. by erewrite try_ok by (unfold catch, call_store; by rewrite Hg). Qed.

(** A stored meta file is the one that is returned, with its store. *)
Lemma getMetaFile_stored cfg mv ext (get : st S (res bytes)) (put : bytes -> st S (res unit)) (f : FS S H W) d f' :
  (forall d s s', put d s = (Ok tt, s') -> exists s'', get s' = (Ok d, s'')) ->
  (forall d s s', get s = (Ok d, s') -> exists s'', get s' = (Ok d, s'')) ->
  getMetaFile cfg (call_store get) (downloadMetaFile cfg mv ext (fun d => call_store (put d))) f
    = Some (Ok d, f') ->
  exists s, get (fs_store f') = (Ok d, s).
Proof.
  intros Hput Hget Hr. unfold getMetaFile in Hr. destruct (get (fs_store f)) as [r1 s1] eqn:Hg.
  erewrite try_ok in Hr by (unfold catch, call_store; by rewrite Hg). destruct r1 as [d1|e].
  { injection Hr as <- <-. cbn. by apply Hget in Hg. }
  do 2 (case_match; [done|]). set (f1 := upd_fs_store s1 f) in *.
  destruct (downloadMetaFile cfg mv ext (fun d => call_store (put d)) f1) as [[r2 f2]|] eqn:Hd.
  2:{ unfold pst_try, pst_bind, catch in Hr. by rewrite Hd in Hr. }
  erewrite try_ok in Hr by (unfold catch; by rewrite Hd). destruct r2 as [d2|]; [|done].
  injection Hr as <- <-. revert Hd. unfold downloadMetaFile.
  destruct (modURLBases cfg mv) as [bases|]; [|done]. clearbody f1. clear -Hput.
  generalize (@nil error). revert f1.
  induction bases as [|b bases IH]; intros f1 errs Hd; cbn [downloadMeta_loop] in Hd.
  { by destruct errs. }
  destruct (netSlurp (b ++ str "." ++ ext) f1) as [[rn fn]|] eqn:Hn.
  2:{ unfold pst_try, pst_bind, catch in Hd. by rewrite Hn in Hd. }
  erewrite try_ok in Hd by (unfold catch; by rewrite Hn). destruct rn as [dn|]; [|eapply IH; exact Hd].
  destruct (put dn (fs_store fn)) as [rp sp] eqn:Hp.
  erewrite try_ok in Hd by (unfold catch, call_store; by rewrite Hp). destruct rp as [[]|]; [|done].
  injection Hd as <- <-. cbn. by eapply Hput.
Qed.

(** A mod or info file that was returned once, from the store or from a
    proxy, is returned again with the same contents and without the network,
    by a store that keeps what is put in it. *)
Theorem meta_file_downloaded_once cfg mv (f : FS S H W) d f' :
  (getModFile cfg mv f = Some (Ok d, f') ->
     exists f'', getModFile cfg mv f' = Some (Ok d, f'') /\ quiet f' f'') /\
  (getInfoFile cfg mv f = Some (Ok d, f') ->
     exists f'', getInfoFile cfg mv f' = Some (Ok d, f'') /\ quiet f' f'').
Proof.
  split; intros Hr.
  - destruct (getMetaFile_stored cfg mv (str "mod") (GetModFile mv) (PutModFile mv) f d f')
      as [s Hs]; [apply Put_Get_ModFile|apply Get_Get_ModFile|exact Hr|].
    unfold getModFile. erewrite getMetaFile_hit by done. by eexists.
  - destruct (getMetaFile_stored cfg mv (str "info") (GetInfoFile mv) (PutInfoFile mv) f d f')
      as [s Hs]; [apply Put_Get_InfoFile|apply Get_Get_InfoFile|exact Hr|].
    unfold getInfoFile. erewrite getMetaFile_hit by done. by eexists.
Qed.
End meta.

Lemma meta_file_downloaded_once_witness :
  exists f' f'', getModFile test_cfg test_mv mem_fs = Some (Ok (str "module a.b/M"), f') /\
    getModFile test_cfg test_mv f' = Some (Ok (str "module a.b/M"), f'') /\ quiet f' f''.
Proof.
  destruct (run_result (getModFile test_cfg test_mv mem_fs) (Ok (str "module a.b/M"))) as [f' Hr];
    [vm_compute; reflexivity|].
  destruct (proj1 (meta_file_downloaded_once test_cfg test_mv mem_fs _ f') Hr) as (f'' & H1 & H2).
  exists f', f''. by split_and!.
Defined.

(** ** Toolchain zips *)

(** The directory whose go.mod a file stands for. *)
Definition renamed_dir (p : bytes) : option bytes :=
  dir ← CutSuffix p (str "_go.mod");
  if negb (bool_decide (dir = [])) && negb (HasSuffix dir (str "/")) then None else Some dir.

Lemma addToolchain_elem files x :
  x ∈ addToolchainGoMods files <->
  x ∈ files \/ exists f dir, f ∈ files /\ renamed_dir (pf_Path f) = Some dir /\
    dir ++ str "go.mod" ∉ pf_Path <$> files /\
    x = MkPutFile (dir ++ str "go.mod") (pf_Mode f) (pf_Size f) (pf_Open f).
Proof.
  unfold addToolchainGoMods, renamed_dir. cbv zeta. rewrite elem_of_app, list_elem_of_bind.
  apply or_iff_compat_l. split.
  - intros (f & Hx & Hf). destruct (CutSuffix (pf_Path f) (str "_go.mod")) as [dir|] eqn:Hc; [|set_solver].
    case_match eqn:Hd; [set_solver|]. case_decide as Hin; [set_solver|].
    apply list_elem_of_singleton in Hx as ->. exists f, dir. split_and!; [done| |done|done].
    rewrite Hc. cbn [mbind option_bind]. by rewrite Hd.
  - intros (f & dir & Hf & Hr & Hn & ->). exists f. split; [|done].
    destruct (CutSuffix (pf_Path f) (str "_go.mod")) as [d|]; [|done]. cbn [mbind option_bind] in Hr.
    case_match; [done|]. injection Hr as ->. rewrite decide_False by done. by left.
Qed.

Lemma no_rename_of_go_mod dir : renamed_dir (dir ++ str "go.mod") = None \/
  exists d, dir = d ++ str "_".
Proof.
  unfold renamed_dir. destruct (CutSuffix (dir ++ str "go.mod") (str "_go.mod")) as [d|] eqn:Hc; [right|by left].
  apply CutSuffix_Some in Hc. exists d.
  change (str "_go.mod") with (str "_" ++ str "go.mod") in Hc. rewrite app_assoc in Hc.
  by apply app_inv_tail in Hc.
Qed.

Lemma renamed_dir_no_underscore p d : renamed_dir p = Some (d ++ str "_") -> False.
Proof.
  unfold renamed_dir. destruct (CutSuffix p (str "_go.mod")) as [dir|]; [|done]. cbn [mbind option_bind].
  case_match eqn:Hb; [done|]. intros [= ->]. apply andb_false_iff in Hb as [Hb|Hb];
    apply negb_false_iff in Hb; [apply bool_decide_eq_true in Hb; by destruct d|].
  unfold HasSuffix in Hb. destruct (CutSuffix _ (str "/")) as [r|] eqn:Hc; [|done].
  apply CutSuffix_Some in Hc. by apply app_inj_tail in Hc as [_ [=]].
Qed.

Lemma addToolchain_none files :
  (forall f dir, f ∈ files -> renamed_dir (pf_Path f) = Some dir -> dir ++ str "go.mod" ∈ pf_Path <$> files) ->
  addToolchainGoMods files = files.
Proof.
  intros Hall. unfold addToolchainGoMods. cbv zeta. transitivity (files ++ []); [f_equal|apply app_nil_r].
  assert (forall l, (forall f, f ∈ l -> f ∈ files) -> (f ← l;
    match CutSuffix (pf_Path f) (str "_go.mod") with
    | Some dir =>
        if negb (bool_decide (dir = [])) && negb (HasSuffix dir (str "/")) then []
        else if decide (dir ++ str "go.mod" ∈ pf_Path <$> files) then []
        else [MkPutFile (dir ++ str "go.mod") (pf_Mode f) (pf_Size f) (pf_Open f)]
    | None => []
    end) = []) as Hl; [|by apply Hl].
  induction l as [|f l IH]; intros Hsub; [done|]. cbn [mbind list_bind]. rewrite IH by set_solver.
  rewrite app_nil_r. specialize (Hall f). unfold renamed_dir in Hall.
  destruct (CutSuffix (pf_Path f) (str "_go.mod")) as [dir|]; [|done].
  cbn [mbind option_bind] in Hall. case_match; [done|]. rewrite decide_True; [done|].
  apply Hall; [|done]. apply Hsub. by left.
Qed.

(** A toolchain's files are all stored as they are, followed by a copy
    named go.mod of each _go.mod whose directory has no go.mod; afterwards
    every directory with a _go.mod has a go.mod, and doing it again adds
    nothing. *)
Theorem addToolchainGoMods_ok files :
  let files' := addToolchainGoMods files in
  files `prefix_of` files' /\
  (forall f dir, f ∈ files -> renamed_dir (pf_Path f) = Some dir -> dir ++ str "go.mod" ∈ pf_Path <$> files') /\
  (forall x, x ∈ files' -> x ∈ files \/
     exists f dir, f ∈ files /\ renamed_dir (pf_Path f) = Some dir /\
       dir ++ str "go.mod" ∉ pf_Path <$> files /\
       x = MkPutFile (dir ++ str "go.mod") (pf_Mode f) (pf_Size f) (pf_Open f)) /\
  addToolchainGoMods files' = files'.
Proof.
  intros files'.
  assert (forall f dir, f ∈ files -> renamed_dir (pf_Path f) = Some dir ->
    dir ++ str "go.mod" ∈ pf_Path <$> files') as Hhas.
  { intros f dir Hf Hr. destruct (decide (dir ++ str "go.mod" ∈ pf_Path <$> files)) as [Hin|Hn].
    - apply list_elem_of_fmap in Hin as (y & -> & Hy). apply list_elem_of_fmap_2.
      apply addToolchain_elem. by left.
    - apply list_elem_of_fmap. eexists. split; [|apply addToolchain_elem; right; by exists f, dir]. done. }
  split_and!; [by eexists|done|by intros x ?%addToolchain_elem|].
  apply addToolchain_none. intros f dir [Hf|(g & d & Hg & Hr & _ & ->)]%addToolchain_elem Hd; [by eapply Hhas|].
  cbn [pf_Path] in Hd. destruct (no_rename_of_go_mod d) as [Hn|[d' ->]]; [congruence|].
  by apply renamed_dir_no_underscore in Hr.
Qed.

(** ** The handle maps *)

(** C17: building the handle maps from the store's list of modules always
    ends (the walk up the directories of every module's paths terminates),
    and the maps then find every cached module version by its hash, and
    every directory above a module's files and every well-known directory
    by the hash of its path; what they find has that hash. *)
Theorem initHandleMaps_complete `{L : ModEscapeLaws} {S H W} `{St : !Store S H} (f : FS S H W) mvs s :
  handleMaps f = None -> CachedModules (fs_store f) = (Ok mvs, s) ->
  exists m, initHandleMapsLocked f = Some (Ok tt, upd_handleMaps (Some m) (upd_fs_store s f)) /\
    maps_hold mvs m.
Proof.
  intros Hn Hc. destruct (init_maps_hold mvs) as (m & Hm & Hh). exists m. split; [|done].
  unfold initHandleMapsLocked. rewrite Hn, Hc.
  destruct (addModules mvs (MkMaps ∅ ∅)) as [m0|]; [|done]. cbn [mbind option_bind] in *.
  apply (inj Some) in Hm. by rewrite Hm.
Qed.

(** ** Walking a module's files *)

Section walk.
Context {S H W : Type} `{St : !Store S H}.

Context {A : Type} (yield : res bytes -> A -> A * bool).

(** The consumer run over a list of paths, until it stops. *)
Fixpoint visit (l : list bytes) (a : A) : A * bool :=
  match l with
  | [] => (a, true)
  | p :: l' => let '(a', more) := yield (Ok p) a in if more then visit l' a' else (a', false)
  end.

Lemma visit_app l1 l2 a :
  visit (l1 ++ l2) a = let '(a', more) := visit l1 a in if more then visit l2 a' else (a', false).
Proof.
  revert a. induction l1 as [|p l1 IH]; intros a; [done|]. cbn [app visit].
  destruct (yield (Ok p) a) as [a' []]; [apply IH|done].
Qed.

Lemma visit_one p a : visit [p] a = yield (Ok p) a.
Proof. cbn. by destruct (yield (Ok p) a) as [a' []]. Qed.

Lemma call_store_same {B} (m : st S (res B)) (f : FS S H W) r :
  m (fs_store f) = (r, fs_store f) -> call_store m f = Some (r, f).
Proof. intros Hm. unfold call_store. rewrite Hm. by destruct f. Qed.

Lemma doDir_visits fuel mh path t a (f : FS S H W) :
  holds_tree (fs_store f) mh path t -> is_Dir t = true -> depth t <= fuel ->
  doDir fuel yield mh path a f = Some (Ok (visit (paths path t) a), f).
Proof.
  revert path t a. induction fuel as [|fuel IH]; intros path t a Ht Hdir Hd;
    (destruct t as [|kids]; [done|]); [cbn in Hd; lia|].
  cbn [doDir paths visit]. destruct (yield (Ok path) a) as [a1 []]; [cbn [negb]|done].
  destruct Ht as [Hr Hk]. erewrite try_ok.
  2:{ unfold catch. by rewrite (call_store_same _ f _ Hr). }
  cbv beta iota. cbn [depth] in Hd. clear Hr Hdir. revert a1 Hk Hd.
  induction kids as [|[e k] kids IHk]; intros a1 Hk Hd; [done|].
  destruct Hk as (He & Htk & Hk). cbn [fmap list_fmap fst]. rewrite visit_app, He.
  assert ((if is_Dir k then doDir fuel yield mh (join_path path (d_Name e)) a1
           else pst_ok (yield (Ok (join_path path (d_Name e))) a1)) f =
          Some (Ok (visit (paths (join_path path (d_Name e)) k) a1), f)) as Hone.
  { destruct (is_Dir k) eqn:Hdk.
    - apply IH; [done|done|lia].
    - destruct k; [|done]. cbn [paths is_Dir]. by rewrite visit_one. }
  rewrite (try_ok _ _ _ _ _ Hone).
  destruct (visit (paths (join_path path (d_Name e)) k) a1) as [a2 []]; cbn [fst snd]; [|done].
  apply IHk; [done|lia].
Qed.

Lemma walk_visits fuel mh t a (f : FS S H W) :
  holds_tree (fs_store f) mh [] t -> is_Dir t = true -> depth t <= fuel ->
  walkStoreModulePaths fuel yield mh a f = Some (Ok (visit (paths [] t) a).1, f).
Proof.
  intros Ht Hd Hf. unfold walkStoreModulePaths. by rewrite (try_ok _ _ _ _ _ (doDir_visits _ _ _ _ _ _ Ht Hd Hf)).
Qed.
End walk.

(** C18: walking the files of a module whose directories form a finite tree
    ends, given fuel for its depth, and calls the consumer on every path of
    the tree, each directory before its contents and in the order the store
    lists them, until the consumer stops. *)
Theorem walk_preorder {S H W A} `{St : !Store S H} (yield : res bytes -> A -> A * bool) fuel mh t a (f : FS S H W) :
  holds_tree (fs_store f) mh [] t -> is_Dir t = true -> depth t <= fuel ->
  walkStoreModulePaths fuel yield mh a f = Some (Ok (visit yield (paths [] t) a).1, f).
Proof. apply walk_visits. Qed.

Definition test_files : list PutFile :=
  [MkPutFile (str "go.mod") 420 1 (Ok (str "m")); MkPutFile (str "x/y.go") 420 1 (Ok (str "y"))].
Definition test_mem : mem := MkMem ∅ ∅ {[test_mv := MkPutModuleData None None None test_files]}.
Definition test_tree : tree :=
  Dir [(MkDirent (str "go.mod") 420 1, Leaf);
       (MkDirent (str "x") ModeDir 0, Dir [(MkDirent (str "y.go") 420 1, Leaf)])].
Definition test_fs : FS mem ModuleVersion unit := upd_fs_store test_mem mem_fs.

(** A store with one module. *)
Lemma initHandleMaps_complete_witness :
  exists m, initHandleMapsLocked (H := ModuleVersion) (W := unit) test_fs =
      Some (Ok tt, upd_handleMaps (Some m) test_fs) /\ maps_hold [test_mv] m.
Proof.
  destruct (initHandleMaps_complete (H := ModuleVersion) test_fs [test_mv] test_mem) as (m & Hm & Hh);
    [reflexivity|vm_compute; reflexivity|].
  exists m. split; [|exact Hh]. change test_fs with (upd_fs_store test_mem test_fs) at 2. exact Hm.
Defined.

Lemma test_holds_tree : holds_tree test_mem test_mv [] test_tree.
Proof. vm_compute. by split_and!. Qed.

Definition collect (r : res bytes) (l : list bytes) : list bytes * bool :=
  match r with Ok p => (l ++ [p], true) | Err _ => (l, false) end.

Lemma walk_preorder_witness :
  walkStoreModulePaths 2 collect test_mv [] test_fs =
  Some (Ok [[]; str "go.mod"; str "x"; str "x/y.go"], test_fs).
Proof. apply (walk_preorder collect 2 test_mv test_tree [] test_fs test_holds_tree); [done|cbn; lia]. Defined.
