(* ===== verification/Nfs.v ===== *)
(** * nfs.go: the NFS server's view of the file system

    Directory listings, attributes, the handles that clients keep, and
    reads.  A method runs in the monad of [FS]. *)

From S2P Require Import Prelude GoStrings Sha Lru Store StoreTree Paths NfsAttr NfsCache FS.

Local Open Scope gomodfs_scope.

Definition zeros (n : nat) : bytes := replicate n nul.

Definition zeroHandle : bytes := zeros 64.
Definition statusHandle : bytes := str "STATUS" ++ zeros 58.
(** ["\x00\xFF\x00Nope"]. *)
Definition notExistHandle : bytes := [byte_of 0; byte_of 255; byte_of 0] ++ str "Nope".
Definition notExistSeg : list bytes := [str ".not-exist-path"].

Definition emptyPathJoin (a b : bytes) : bytes :=
  if decide (b = []) then a else if decide (a = []) then b else a ++ str "/" ++ b.

Definition setNFSTime (attr : FileAttribute) (t : Z) : FileAttribute :=
  let time := ToNFSTime t in
  MkAttr (a_Type attr) (a_FileMode attr) (a_Nlink attr) (a_UID attr) (a_GID attr) (a_Filesize attr)
    (a_Used attr) (a_SpecData attr) (a_FSID attr) (a_Fileid attr) time time time.
Definition set_size (attr : FileAttribute) (n : Z) : FileAttribute :=
  MkAttr (a_Type attr) (a_FileMode attr) (a_Nlink attr) (a_UID attr) (a_GID attr) n
    n (a_SpecData attr) (a_FSID attr) (a_Fileid attr) (a_Atime attr) (a_Mtime attr) (a_Ctime attr).
Definition set_mode (attr : FileAttribute) (m : Z) : FileAttribute :=
  MkAttr (a_Type attr) m (a_Nlink attr) (a_UID attr) (a_GID attr) (a_Filesize attr)
    (a_Used attr) (a_SpecData attr) (a_FSID attr) (a_Fileid attr) (a_Atime attr) (a_Mtime attr) (a_Ctime attr).

(** What [ToHandle] makes of a parsed path; [pathStr] is its text. *)
Definition handle_of (pathStr : bytes) (pp : gmPath) : bytes :=
  let first := if decide (Module (ModVersion pp) = []) then zeros 32 else hashModVersion (ModVersion pp) in
  let second :=
    if decide (WellKnown pp = wkTSGoExtracted) then mkWellKnownPathHash (WellKnown pp)
    else if decide (CacheDownloadFileExt pp <> []) then mkWellKnownPathHash (CacheDownloadFileExt pp)
    else if InZip pp then sha256 (Path pp) else sha256 pathStr in
  first ++ second.

(** The part of [OnNFSRead] after the contents are found. *)
Definition read_slice (contents : bytes) (attr : FileAttribute) (offset count : Z) : NFSReadResult :=
  let n := Z.of_nat (length contents) in
  let data := drop (Z.to_nat (Z.min n offset)) contents in
  let count := Z.min count (Z.shiftl 16 20) in
  let data := if (count <? Z.of_nat (length data))%Z then take (Z.to_nat count) data else data in
  MkReadResult attr (i64 (i64 offset + Z.of_nat (length data)) =? n)%Z data.

Section nfs.
Context `{E : ModEscape} {S H W : Type} `{St : !Store S H} `{Wd : !World W} (cfg : config).

Abbreviation M A := (pst (FS S H W) (res A)).

(** The time of the request, the JSON that a status request would render
    from the statistics, and the fuel of the walks over directories. *)
Context (now : Z) (json : bytes) (depth : nat).

(** [h.statusFile()]: regenerated after two seconds. *)
Definition statusFile_ : M statusMeta :=
  c <-? gets statusCache ;;
  match c with
  | Some m =>
      if (now - sm_modTime m <? 2 * second)%Z then pst_ok m
      else modify (upd_statusCache (Some (MkStatus now json))) ;;! pst_ok (MkStatus now json)
  | None => modify (upd_statusCache (Some (MkStatus now json))) ;;! pst_ok (MkStatus now json)
  end.

Definition status_info (m : statusMeta) : FileInfo :=
  reg_info now (MkReg statusFile (Z.of_nat (length (sm_json m))) 292 (Some (sm_modTime m)) false).

(** *** billyFS *)

Definition billy_Join (elem : list bytes) : bytes := path_Join elem.

(** [Create], [Rename], [Remove], [TempFile], [MkdirAll] and [Symlink]. *)
Definition billy_write {A} : res A := Err errReadonly.

Definition dirent_info (ent : Dirent) : FileInfo :=
  if mode_IsDir (d_Mode ent) then dir_info (d_Name ent)
  else reg_info now (MkReg (d_Name ent) (d_Size ent) (mode_Perm (d_Mode ent)) None false).

Definition ReadDir (path : bytes) : M (list FileInfo) :=
  if decide (path = []) then
    m <-? statusFile_ ;; pst_ok [status_info m; dir_info (str "cache"); reg_info now openSetFile]
  else if decide (path = str "cache") then
    pst_ok [dir_info (str "download"); reg_info now openSetFile]
  else
  let mp := parsed path in
  if NotExist mp then pst_err ErrNotExist
  else if negb (InZip mp) then pst_ok [reg_info now openSetFile]
  else
  mh <-? getZipRoot cfg (ModVersion mp) ;;
  r <-? catch (call_store (Readdir mh (Path mp))) ;;
  (** The error is recorded in the statistics and not looked at again. *)
  let ents := match r with Ok ents => ents | Err _ => [] end in
  pst_ok (dirent_info <$> ents).

Definition Lstat (filename : bytes) : M FileInfo :=
  let mp := parsed filename in
  if NotExist mp then pst_err ErrNotExist
  else if decide (WellKnown mp = statusFile) then m <-? statusFile_ ;; pst_ok (status_info m)
  else if decide (WellKnown mp = wkTSGoExtracted) then
    let trip := default (MkTriple [] [] []) (isTSGoModule (ModVersion mp)) in
    pst_ok (reg_info now (MkReg (path_Base filename)
      (Z.of_nat (length (tsgoExtractedFileContents (t_Hash trip)))) 292 None true))
  else if decide (WellKnown mp <> []) then pst_err ErrNotExist
  else if decide (CacheDownloadFileExt mp <> []) then
    r <-? catch (getMetaFileByExt cfg (ModVersion mp) (CacheDownloadFileExt mp)) ;;
    match r with
    | Err _ => pst_err EIO
    | Ok v => pst_ok (reg_info now (MkReg (path_Base filename) (Z.of_nat (length v)) 0 None false))
    end
  else if negb (InZip mp) then pst_ok (dir_info [])
  else
  mh <-? getZipRoot cfg (ModVersion mp) ;;
  r <-? catch (call_store (Stat mh (Path mp))) ;;
  match r with
  | Err e => if errors_Is e is_ErrNotExist then pst_err ErrNotExist else pst_err e
  | Ok fi => pst_ok fi
  end.

(** *** Handles *)

Definition ToHandle (path : list bytes) : M bytes :=
  if decide (path = []) then pst_ok zeroHandle
  else if decide (path = [statusFile]) then pst_ok statusHandle
  else
  let pathStr := join_byte slash path in
  let pp := parsed pathStr in
  if NotExist pp then pst_ok notExistHandle else
  let ret := handle_of pathStr pp in
  modify (fun f =>
    match handles f !! ret with
    | Some _ => f
    | None => upd_handles (<[ret := MkTarget pathStr path]> (handles f)) f
    end) ;;!
  pst_ok ret.

(** The consumer of the walk in [fromHandle]: the target of the first path
    with the hash; an error ends the walk. *)
Definition find_path (mv : ModuleVersion) (wantFileHash : bytes) (r : res bytes)
    (found : option handleTarget) : option handleTarget * bool :=
  match r with
  | Err _ => (found, false)
  | Ok path =>
      if decide (mkPathHash path = wantFileHash) then
        match modVerZipPrefix mv with
        | Err _ => (found, false)
        | Ok prefix => (Some (mkTargetFromPath (emptyPathJoin prefix path)), false)
        end
      else (found, true)
  end.

(** [fromHandle] on a miss of the handle cache. *)
Definition fromHandle_miss (handle : bytes) : M handleTarget :=
  let mvHash := take 32 handle in
  let wantFileHash := drop 32 handle in
  if IsZero mvHash then handleTargetWithPathHash wantFileHash else
  mv <-? moduleVersionWithHash mvHash ;;
  if negb (IsValid mv) then pst_err (staleErr (errText "unknown module version from NFS handle"))
  else if decide (wantFileHash = cdFileInfo) then pst_ok (mkTargetFromPath (cdPath mv (str "info")))
  else if decide (wantFileHash = cdFileMod) then pst_ok (mkTargetFromPath (cdPath mv (str "mod")))
  else if decide (wantFileHash = cdFileZiphash) then pst_ok (mkTargetFromPath (cdPath mv (str "ziphash")))
  else
  match (if decide (wantFileHash = pathHashTSGo) then isTSGoModule mv else None) with
  | Some trip => pst_ok (mkTargetFromPath (tsGoZipRoot trip ++ str ".extracted"))
  | None =>
      r <-? catch (call_store (GetZipRoot mv)) ;;
      match r with
      | Err _ => pst_err (errText "unknown module version in handle")
      | Ok mh =>
          found <-? walkStoreModulePaths depth (find_path mv wantFileHash) mh None ;;
          match found with
          | Some t => pst_ok t
          | None => pst_err (staleErr (errText "didn't find matching file for NFS handle"))
          end
      end
  end.

Definition fromHandle (handle : bytes) : M handleTarget :=
  if decide (handle = zeroHandle) then pst_ok (MkTarget [] [])
  else if decide (handle = statusHandle) then pst_ok (mkTargetFromPath statusFile)
  else
  hs <-? gets handles ;;
  match hs !! handle with
  | Some targ => pst_ok targ
  | None =>
      ret <-? fromHandle_miss handle ;;
      if decide (path ret = [] \/ segs ret = []) then pst_panic else
      modify (fun f => upd_handles (<[handle := ret]> (handles f)) f) ;;!
      pst_ok ret
  end.

Definition FromHandle (handleb : bytes) : M (list bytes) :=
  if decide (handleb = notExistHandle) then pst_ok notExistSeg
  else if decide (length handleb <> 64%nat) then pst_err (errText "invalid handle")
  else ht <-? fromHandle handleb ;; pst_ok (segs ht).

(** *** Reads *)

Definition getFileContentsUncached (filename : bytes) : M (bytes * FileAttribute) :=
  let attr := setNFSTime (MkAttr FileTypeRegular 292 1 0 0 0 0 (0, 0)%Z 0 (fnv64 filename)
                (MkTime 0 0) (MkTime 0 0) (MkTime 0 0)) FakeStaticFileTime in
  let done_ (data : bytes) (attr : FileAttribute) : M (bytes * FileAttribute) :=
    pst_ok (data, set_size attr (u64 (Z.of_nat (length data)))) in
  let mp := parsed filename in
  if NotExist mp then pst_err ErrNotExist
  else if decide (WellKnown mp = wkTSGoExtracted) then
    let trip := default (MkTriple [] [] []) (isTSGoModule (ModVersion mp)) in
    done_ (tsgoExtractedFileContents (t_Hash trip)) attr
  else if decide (WellKnown mp = statusFile) then
    m <-? statusFile_ ;; done_ (sm_json m) (setNFSTime attr (sm_modTime m))
  else if decide (WellKnown mp <> []) then pst_err ErrNotExist
  else if decide (CacheDownloadFileExt mp <> []) then
    v <-? getMetaFileByExt cfg (ModVersion mp) (CacheDownloadFileExt mp) ;; done_ v attr
  else if negb (InZip mp) then pst_err (errText "open of non-file")
  else
  mh <-? getZipRoot cfg (ModVersion mp) ;;
  fi <-? call_store (Stat mh (Path mp)) ;;
  if fi_IsDir fi then pst_err (errText "is a directory, not a file") else
  contents <-? call_store (GetFile mh (Path mp)) ;;
  done_ contents (set_mode attr (mode_Perm (fi_Mode fi))).

(** A call on the read caches, whose state is part of [FS]. *)
Definition on_caches {A} (m : pst (readCache (Attr := FileAttribute)) A) : pst (FS S H W) A := fun f =>
  match m (readCaches f) with Some (a, c) => Some (a, upd_readCaches c f) | None => None end.

Definition nfs_getFileContents (h : bytes) : M (bytes * FileAttribute) :=
  o <-! on_caches (cached h) ;;
  match o with
  | Some (blob, attr) => modify (fun f => upd_cacheHit (cacheHit f + 1)%Z f) ;;! pst_ok (blob, attr)
  | None =>
      modify (fun f => upd_cacheMiss (cacheMiss f + 1)%Z f) ;;!
      r <-? catch (fromHandle h) ;;
      match r with
      | Err _ => pst_err (NFSStatusError NFSStatusStale (Some (errText "unknown handle")))
      | Ok ht =>
          r <-? getFileContentsUncached (path ht) ;;
          modify (fun f => upd_cacheFill (cacheFill f + 1)%Z f) ;;!
          on_caches (setReadCache (GetFileCacheSize cfg) h r.2 r.1) ;;!
          pst_ok r
      end
  end.

Definition OnNFSRead (handleb : bytes) (offset count : Z) : M NFSReadResult :=
  if decide (length handleb <> 64%nat) then
    pst_err (NFSStatusError NFSStatusStale (Some (errText "wrong length handle")))
  else
  r <-? catch (nfs_getFileContents handleb) ;;
  match r with
  | Err e => if is_ErrNotExist e then pst_err (NFSStatusError NFSStatusNoEnt (Some e)) else pst_err e
  | Ok (contents, attr) => pst_ok (read_slice contents attr offset count)
  end.
End nfs.
