(* ===== verification/NfsProps.v ===== *)
(** * Theorems about the NFS handler (nfs.go)

    Reads return slices of a file's contents, a client that reads on until
    the end gets the file, and the handles that a server gave out are
    understood by a server that starts later with empty tables. *)

From S2P Require Import Prelude GoStrings Sha Lru Store StoreTree Paths PathDir NfsAttr NfsCache MemStore FS FSFacts FSProps Nfs.

Local Open Scope gomodfs_scope.

(** ** Reads *)

Section reads.
Context `{E : ModEscape} {S H W : Type} `{St : !Store S H} `{Wd : !World W} (cfg : config).
Context (now : Z) (json : bytes) (fuel : nat).
Implicit Types f : FS S H W.

(** The largest count that one read returns, 16 MiB. *)
Definition max_read : Z := 2 ^ 24.

Lemma read_slice_spec contents attr offset count :
  (0 <= offset < 2 ^ 64)%Z -> (0 <= count < 2 ^ 32)%Z -> (Z.of_nat (length contents) < 2 ^ 63)%Z ->
  let r := read_slice contents attr offset count in
  rr_Data r = take (Z.to_nat (Z.min count max_read)) (drop (Z.to_nat offset) contents) /\
  rr_Attr r = attr /\
  (rr_EOF r = true <-> (offset + Z.of_nat (length (rr_Data r)) = Z.of_nat (length contents))%Z).
Proof.
  intros Ho Hc Hl. cbv zeta. unfold read_slice, max_read.
  change (Z.shiftl 16 20) with (2 ^ 24)%Z. cbn [rr_Data rr_Attr rr_EOF].
  set (n := Z.of_nat (length contents)) in *. set (c := Z.min count (2 ^ 24)).
  assert (drop (Z.to_nat (Z.min n offset)) contents = drop (Z.to_nat offset) contents) as ->.
  { destruct (Z.le_gt_cases offset n); [by rewrite Z.min_r by lia|].
    rewrite Z.min_l, !drop_ge by lia. done. }
  set (data := drop (Z.to_nat offset) contents).
  assert ((if (c <? Z.of_nat (length data))%Z then take (Z.to_nat c) data else data)
          = take (Z.to_nat c) data) as ->.
  { destruct (Z.ltb_spec c (Z.of_nat (length data))); [done|]. rewrite take_ge by lia. done. }
  split_and!; [done|done|].
  assert (length (take (Z.to_nat c) data) <= length contents) as Hle.
  { rewrite length_take. unfold data. rewrite length_drop. lia. }
  rewrite Z.eqb_eq. set (d := Z.of_nat (length (take (Z.to_nat c) data))).
  assert (offset <= n -> offset + d <= n)%Z as Hin.
  { intros. unfold d. rewrite length_take. unfold data. rewrite length_drop. lia. }
  assert (n < offset -> d = 0)%Z as Hout.
  { intros. unfold d. rewrite length_take. unfold data. rewrite length_drop. lia. }
  rewrite i64_add_l. destruct (Z.le_gt_cases offset n) as [Hon|Hon].
  - specialize (Hin Hon). by rewrite i64_small by lia.
  - rewrite Hout by lia. rewrite Z.add_0_r. split; [|lia]. intros Hi.
    destruct (Z.lt_ge_cases offset (2 ^ 63)).
    + rewrite i64_small in Hi by lia. lia.
    + assert (i64 offset = offset - 2 ^ 64)%Z as Hw; [|lia].
      rewrite (i64_eq offset (offset - 2 ^ 64)); [apply i64_small; lia|].
      rewrite <-(Z_mod_plus_full (offset - 2 ^ 64) 1 (2 ^ 64)). f_equal. lia.
Qed.

Lemma OnNFSRead_contents h offset count f contents attr f' :
  length h = 64%nat ->
  nfs_getFileContents cfg now json fuel h f = Some (Ok (contents, attr), f') ->
  OnNFSRead cfg now json fuel h offset count f = Some (Ok (read_slice contents attr offset count), f').
Proof.
  intros Hh Hg. unfold OnNFSRead. rewrite decide_False by (intros Hn; exact (Hn Hh)).
  by erewrite try_ok by (unfold catch; by rewrite Hg).
Qed.

(** C19: a read of a file returns the [count] bytes at [offset] (at most
    16 MiB, and fewer at the end of the file), the file's attributes, and
    EOF exactly when the bytes returned end the file; for every 64-bit
    offset and 32-bit count.  So a read that starts past the end of the file
    returns no data and does not set EOF. *)
Theorem OnNFSRead_slice h offset count f contents attr f' :
  length h = 64%nat -> (0 <= offset < 2 ^ 64)%Z -> (0 <= count < 2 ^ 32)%Z ->
  (Z.of_nat (length contents) < 2 ^ 63)%Z ->
  nfs_getFileContents cfg now json fuel h f = Some (Ok (contents, attr), f') ->
  exists r, OnNFSRead cfg now json fuel h offset count f = Some (Ok r, f') /\
    rr_Data r = take (Z.to_nat (Z.min count max_read)) (drop (Z.to_nat offset) contents) /\
    rr_Attr r = attr /\
    (rr_EOF r = true <-> (offset + Z.of_nat (length (rr_Data r)) = Z.of_nat (length contents))%Z).
Proof.
  intros Hh Ho Hc Hl Hg. eexists. split; [by apply OnNFSRead_contents|]. by apply read_slice_spec.
Qed.

(** A client that reads [count] bytes at a time until EOF. *)
Fixpoint read_all (n : nat) (contents : bytes) (attr : FileAttribute) (offset count : Z) : option bytes :=
  match n with
  | O => None
  | Datatypes.S n' =>
      let r := read_slice contents attr offset count in
      if rr_EOF r then Some (rr_Data r)
      else rest ← read_all n' contents attr (offset + Z.of_nat (length (rr_Data r)))%Z count;
           Some (rr_Data r ++ rest)
  end.

Lemma read_all_from n contents attr offset count :
  (1 <= count < 2 ^ 32)%Z -> (Z.of_nat (length contents) < 2 ^ 63)%Z ->
  (0 <= offset <= Z.of_nat (length contents))%Z ->
  length contents - Z.to_nat offset < n ->
  read_all n contents attr offset count = Some (drop (Z.to_nat offset) contents).
Proof.
  intros Hc Hl. revert offset. induction n as [|n IH]; intros offset Ho Hn; [lia|]. cbn [read_all].
  destruct (read_slice_spec contents attr offset count) as (Hd & _ & He); [lia|lia|lia|].
  destruct (read_slice contents attr offset count) as [a e d]. cbn [rr_Data rr_EOF] in *.
  set (k := Z.to_nat (Z.min count max_read)) in *. assert (1 <= k) by (unfold k, max_read; lia).
  assert (length d = Nat.min k (length contents - Z.to_nat offset)) as Hdl
    by (rewrite Hd, length_take, length_drop; done).
  destruct e.
  - pose proof (proj1 He eq_refl). f_equal. rewrite Hd. apply take_ge. rewrite length_drop. lia.
  - assert (offset + Z.of_nat (length d) <> Z.of_nat (length contents))%Z as Hne
      by (intros Hx; by apply He in Hx).
    rewrite IH by lia. cbn [mbind option_bind]. f_equal.
    replace (Z.to_nat (offset + Z.of_nat (length d))) with (Z.to_nat offset + length d) by lia.
    rewrite <-drop_drop. rewrite <-(take_drop (length d) (drop (Z.to_nat offset) contents)) at 2.
    f_equal. rewrite Hd at 1. rewrite Hd, length_take, length_drop.
    destruct (Nat.min_spec k (length contents - Z.to_nat offset)) as [[? ->]|[? ->]]; [done|].
    rewrite !take_ge; [done|rewrite length_drop; lia..].
Qed.

(** A client that reads any number of bytes at a time, until EOF, gets
    the whole file, in at most one read more than it has bytes. *)
Theorem reads_reassemble contents attr count :
  (1 <= count < 2 ^ 32)%Z -> (Z.of_nat (length contents) < 2 ^ 63)%Z ->
  read_all (Datatypes.S (length contents)) contents attr 0 count = Some contents.
Proof. intros Hc Hl. rewrite read_all_from by lia. done. Qed.
End reads.

(** ** Handles across a restart *)

Section handles.
Context `{L : ModEscapeLaws} {S H W : Type} `{St : !Store S H} `{Wd : !World W}.
Context (now : Z) (json : bytes) (fuel : nat).
Implicit Types f : FS S H W.

(** A server that has just started on a store with the modules [mvs]: its
    tables are empty, and listing the modules does not change the store. *)
Definition fresh_server f (mvs : list ModuleVersion) : Prop :=
  handles f = ∅ /\ handleMaps f = None /\ CachedModules (fs_store f) = (Ok mvs, fs_store f).

(** [mv] is the only module version of the store with its hash, and the hash
    is not one of the two reserved values. *)
Definition hash_identifies (mvs : list ModuleVersion) (mv : ModuleVersion) : Prop :=
  mv ∈ mvs /\ (forall mv', mv' ∈ mvs -> hashModVersion mv' = hashModVersion mv -> mv' = mv) /\
  hashModVersion mv <> zeros 32 /\ hashModVersion mv <> take 32 statusHandle.

Lemma upd_store_id f : upd_fs_store (fs_store f) f = f.
Proof. by destruct f. Qed.

Lemma take_handle (a b : bytes) : length a = 32%nat -> take 32 (a ++ b) = a.
Proof. intros Ha. rewrite <-Ha at 1. apply take_app_length. Qed.
Lemma drop_handle (a b : bytes) : length a = 32%nat -> drop 32 (a ++ b) = b.
Proof. intros Ha. rewrite <-Ha at 1. apply drop_app_length. Qed.

Lemma hashModVersion_length mv : length (hashModVersion mv) = 32%nat.
Proof. apply sha256_length. Qed.

(** What a fresh server finds for a module version's hash. *)
Lemma fresh_moduleVersion f mvs mv :
  fresh_server f mvs -> hash_identifies mvs mv ->
  exists m, moduleVersionWithHash (hashModVersion mv) f = Some (Ok mv, upd_handleMaps (Some m) f).
Proof.
  intros (_ & Hn & Hc) (Hin & Huniq & _).
  destruct (init_maps_hold mvs) as (m & Hm & [Hok Hmv Hfrom _ _]). exists m.
  assert (initHandleMapsLocked f = Some (Ok tt, upd_handleMaps (Some m) f)) as Hinit.
  { unfold initHandleMapsLocked. rewrite Hn, Hc, upd_store_id.
    destruct (addModules mvs (MkMaps ∅ ∅)) as [m0|]; [|done]. cbn [mbind option_bind] in *.
    apply (inj Some) in Hm. by rewrite Hm. }
  unfold moduleVersionWithHash. rewrite (try_ok _ _ _ _ _ Hinit).
  destruct (Hmv mv Hin) as [mv' Hmv']. assert (mv' = mv) as ->.
  { apply Huniq; [by eapply Hfrom|]. by apply (ok_mv _ Hok) in Hmv'. }
  unfold pst_try, pst_bind, gets. cbn [handleMaps upd_handleMaps mbind option_bind default].
  by rewrite Hmv'.
Qed.

Lemma fromHandle_fresh f mvs h t f1 :
  fresh_server f mvs -> h <> zeroHandle -> h <> statusHandle ->
  fromHandle_miss fuel h f = Some (Ok t, f1) -> path t <> [] -> segs t <> [] ->
  exists f2, fromHandle fuel h f = Some (Ok t, f2).
Proof.
  intros (Hh & _) Hz Hs Hm Hp Hg. unfold fromHandle. rewrite !decide_False by done.
  unfold pst_try at 1, pst_bind at 1, gets. rewrite Hh, lookup_empty.
  rewrite (try_ok _ _ _ _ _ Hm). rewrite decide_False by tauto. by eexists.
Qed.

Lemma splitSegs_nonempty p : p <> [] -> splitSegs p <> [].
Proof. intros Hp. unfold splitSegs. rewrite decide_False by done. apply split_byte_nonempty. Qed.

Lemma join_splitSegs p : p <> [] -> join_byte slash (splitSegs p) = p.
Proof. intros Hp. unfold splitSegs. rewrite decide_False by done. apply join_split. Qed.

(** [ToHandle] of the text of a path. *)
Lemma ToHandle_path p f :
  p <> [] -> p <> statusFile -> NotExist (parsed p) = false ->
  exists f', ToHandle (splitSegs p) f = Some (Ok (handle_of p (parsed p)), f').
Proof.
  intros Hp Hst Hne. unfold ToHandle. rewrite decide_False by (by apply splitSegs_nonempty).
  rewrite decide_False.
  2:{ intros Heq. pose proof (join_splitSegs p Hp) as Hj. rewrite Heq in Hj. cbn in Hj. by symmetry in Hj. }
  rewrite join_splitSegs by done. rewrite Hne. by eexists.
Qed.

Lemma FromHandle_ok h t f f2 :
  length h = 64%nat -> fromHandle fuel h f = Some (Ok t, f2) ->
  FromHandle fuel h f = Some (Ok (segs t), f2).
Proof.
  intros Hh Hf. unfold FromHandle. rewrite decide_False by (by intros ->).
  rewrite decide_False by (intros Hn; exact (Hn Hh)). by rewrite (try_ok _ _ _ _ _ Hf).
Qed.

Lemma modVerZipPrefix_valid mv root : modVerZipPrefix mv = Ok root -> IsValid mv = true /\ root <> [].
Proof.
  unfold modVerZipPrefix, IsValid. destruct (isTSGoModule mv) as [t|] eqn:Ht.
  - intros [= <-]. split; [|done]. unfold isTSGoModule in Ht. case_decide as Hm; [done|].
    rewrite Hm. destruct (Version mv); done.
  - destruct (EscapePath (Module mv)) as [em|] eqn:Hm; [|done].
    destruct (EscapeVersion (Version mv)) as [ev|] eqn:Hv; [|done].
    cbn [mbind res_bind]. intros [= <-]. split; [|by destruct em].
    rewrite !bool_decide_eq_false_2; [done|by eapply EscapeVersion_nonempty|by eapply EscapePath_nonempty].
Qed.

(** The consumer of the walk stops at the first path with the hash. *)
Lemma visit_find mv root want l :
  modVerZipPrefix mv = Ok root -> (exists p, p ∈ l /\ mkPathHash p = want) ->
  exists p, p ∈ l /\ mkPathHash p = want /\
    (visit (find_path mv want) l None).1 = Some (mkTargetFromPath (emptyPathJoin root p)).
Proof.
  intros Hr. induction l as [|x l IH]; [by intros (p & ?%elem_of_nil & _)|].
  intros (p & Hp & Hh). cbn [visit find_path]. rewrite Hr. case_decide as Hx.
  - exists x. split_and!; [by left|done|done].
  - apply elem_of_cons in Hp as [->|Hp]; [done|].
    destruct IH as (p' & Hp' & ? & ?); [by exists p|]. exists p'. split_and!; [by right|done|done].
Qed.

Lemma IsZero_false h : h <> zeros 32 -> IsZero h = false.
Proof. intros Hh. by apply bool_decide_eq_false_2. Qed.

(** A handle made of a module version's hash and [second], on a fresh
    server. *)
Lemma handle_not_special mvs mv second :
  hash_identifies mvs mv ->
  hashModVersion mv ++ second <> zeroHandle /\ hashModVersion mv ++ second <> statusHandle /\
  IsZero (take 32 (hashModVersion mv ++ second)) = false.
Proof.
  intros (_ & _ & Hz & Hs). pose proof (take_handle _ second (hashModVersion_length mv)) as Ht.
  split_and!.
  - intros Heq. apply Hz. by rewrite <-Ht, Heq.
  - intros Heq. apply Hs. by rewrite <-Ht, Heq.
  - rewrite Ht. by apply IsZero_false.
Qed.

(** C20: the handle of a file or directory in a module survives a restart.
    A server that starts with empty tables, on a store that lists the
    module, finds the path again by walking the module's tree: the segments
    it returns are those of a path of the tree with the same SHA-256 as the
    original (the original path itself, unless SHA-256 collides inside the
    module). *)
Theorem zip_handle_survives_restart (fA f : FS S H W) mvs mv root p t mh :
  modVerZipPrefix mv = Ok root -> parsed (emptyPathJoin root p) = MkPath [] false [] true p mv ->
  fresh_server f mvs -> hash_identifies mvs mv ->
  mkPathHash p ∉ [cdFileInfo; cdFileMod; cdFileZiphash; pathHashTSGo] ->
  GetZipRoot mv (fs_store f) = (Ok mh, fs_store f) ->
  holds_tree (fs_store f) mh [] t -> is_Dir t = true -> depth t <= fuel -> p ∈ paths [] t ->
  exists h fA', ToHandle (splitSegs (emptyPathJoin root p)) fA = Some (Ok h, fA') /\
    exists p' f', p' ∈ paths [] t /\ sha256 p' = sha256 p /\
      FromHandle fuel h f = Some (Ok (splitSegs (emptyPathJoin root p')), f').
Proof.
  intros Hroot Hparse Hfresh Hid Hwk Hgz Htree Hdir Hd Hp.
  destruct (modVerZipPrefix_valid _ _ Hroot) as [Hvalid Hrne].
  assert (forall q, emptyPathJoin root q <> []) as Hne.
  { intros q. unfold emptyPathJoin. case_decide; [done|]. rewrite decide_False by done. by destruct root. }
  destruct (ToHandle_path (emptyPathJoin root p) fA) as [fA' HA].
  { done. } { intros Heq. by rewrite Heq in Hparse. } { by rewrite Hparse. }
  rewrite Hparse in HA. set (h := handle_of _ _) in HA.
  assert (h = hashModVersion mv ++ mkPathHash p) as Hh.
  { unfold h, handle_of. cbn. rewrite decide_False; [done|].
    unfold IsValid in Hvalid. by to_prop. }
  exists h, fA'. split; [done|].
  destruct (handle_not_special mvs mv (mkPathHash p) Hid) as (Hz & Hs & Hnz).
  destruct (fresh_moduleVersion f mvs mv Hfresh Hid) as [m Hmv]. set (f1 := upd_handleMaps (Some m) f) in *.
  destruct (visit_find mv root (mkPathHash p) (paths [] t) Hroot) as (p' & Hp' & Hhash & Hv); [by exists p|].
  rewrite !not_elem_of_cons in Hwk. destruct Hwk as (H1 & H2 & H3 & H4 & _).
  assert (fromHandle_miss fuel h f = Some (Ok (mkTargetFromPath (emptyPathJoin root p')), f1)) as Hmiss.
  { unfold fromHandle_miss. rewrite Hh, Hnz, take_handle, drop_handle by apply hashModVersion_length.
    rewrite (try_ok _ _ _ _ _ Hmv), Hvalid. cbn [negb]. rewrite !decide_False by done.
    erewrite try_ok by (unfold catch; by rewrite (call_store_same _ f1 (Ok mh) Hgz)). cbv beta iota.
    rewrite (try_ok _ _ _ _ _ (walk_visits _ _ _ _ _ f1 Htree Hdir Hd)). by rewrite Hv. }
  destruct (fromHandle_fresh f mvs h _ _ Hfresh ltac:(by rewrite Hh) ltac:(by rewrite Hh) Hmiss)
    as [f2 Hf2]; [apply Hne|by apply splitSegs_nonempty|].
  exists p', f2. split_and!; [done|done|]. apply (FromHandle_ok _ _ _ _) in Hf2; [done|].
  by rewrite Hh, length_app, hashModVersion_length, sha256_length.
Qed.

Lemma meta_handle_again (fA f : FS S H W) mvs mv ext :
  ext ∈ [str "info"; str "mod"; str "ziphash"] ->
  parsed (cdPath mv ext) = MkPath [] false ext false [] mv -> IsValid mv = true ->
  fresh_server f mvs -> hash_identifies mvs mv ->
  exists h fA', ToHandle (splitSegs (cdPath mv ext)) fA = Some (Ok h, fA') /\
    exists f', FromHandle fuel h f = Some (Ok (splitSegs (cdPath mv ext)), f').
Proof.
  intros Hext Hparse Hvalid Hfresh Hid.
  assert (forall e, cdPath mv e <> []) as Hne by done.
  destruct (ToHandle_path (cdPath mv ext) fA) as [fA' HA]; [done|done|by rewrite Hparse|].
  rewrite Hparse in HA. set (h := handle_of _ _) in HA.
  assert (h = hashModVersion mv ++ mkWellKnownPathHash ext) as Hh.
  { unfold h, handle_of. cbn [ModVersion WellKnown CacheDownloadFileExt].
    rewrite decide_False by (unfold IsValid in Hvalid; by to_prop). rewrite decide_False by done.
    rewrite decide_True; [done|]. intros ->. rewrite !elem_of_cons, elem_of_nil in Hext. by naive_solver. }
  exists h, fA'. split; [done|].
  destruct (handle_not_special mvs mv (mkWellKnownPathHash ext) Hid) as (Hz & Hs & Hnz).
  destruct (fresh_moduleVersion f mvs mv Hfresh Hid) as [m Hmv].
  assert (exists f1, fromHandle_miss fuel h f = Some (Ok (mkTargetFromPath (cdPath mv ext)), f1)) as [f1 Hmiss].
  { unfold fromHandle_miss. rewrite Hh, Hnz, take_handle, drop_handle by apply hashModVersion_length.
    rewrite (try_ok _ _ _ _ _ Hmv), Hvalid. cbn [negb].
    rewrite !elem_of_cons, elem_of_nil in Hext. destruct Hext as [->|[->|[->|[]]]]; by eexists. }
  destruct (fromHandle_fresh f mvs h _ _ Hfresh ltac:(by rewrite Hh) ltac:(by rewrite Hh) Hmiss)
    as [f2 Hf2]; [done|by apply splitSegs_nonempty|].
  exists f2. apply (FromHandle_ok _ _ _ _) in Hf2; [done|].
  rewrite Hh, length_app, hashModVersion_length.
  rewrite !elem_of_cons, elem_of_nil in Hext. by destruct Hext as [->|[->|[->|[]]]].
Qed.

Lemma dir_handle_again (fA f : FS S H W) mvs p :
  p <> [] -> parsed p = zeroPath -> sha256 p <> zeros 32 -> sha256 p <> sha256 [] ->
  fresh_server f mvs -> p ∈ wellKnownPaths \/ (exists mv, mv ∈ mvs /\ above_module mv p) ->
  exists h fA', ToHandle (splitSegs p) fA = Some (Ok h, fA') /\
    exists p' f', sha256 p' = sha256 p /\
      FromHandle fuel h f = Some (Ok (splitSegs p'), f').
Proof.
  intros Hne Hparse Hnz Hnil Hfresh Hknown.
  assert (p <> statusFile) as Hst by (by intros ->).
  destruct (ToHandle_path p fA) as [fA' HA]; [done|done|by rewrite Hparse|].
  rewrite Hparse in HA. set (h := handle_of _ _) in HA.
  assert (h = zeros 32 ++ mkPathHash p) as Hh by done.
  exists h, fA'. split; [done|].
  destruct (init_maps_hold mvs) as (m & Hm & [Hok _ _ Habove Hwk]).
  assert (has_path m p) as [t Ht].
  { destruct Hknown as [?|(mv & Hmv & Ha)]; [by apply Hwk|by eapply Habove]. }
  destruct (ok_path _ Hok _ _ Ht) as [Htt Hhash].
  assert (handleTargetWithPathHash (mkPathHash p) f = Some (Ok t, upd_handleMaps (Some m) f)) as Hfind.
  { destruct Hfresh as (_ & Hn & Hc). unfold handleTargetWithPathHash.
    erewrite try_ok; [|unfold initHandleMapsLocked; rewrite Hn, Hc, upd_store_id;
      destruct (addModules mvs (MkMaps ∅ ∅)) as [m0|]; [|done]; cbn [mbind option_bind] in *;
      apply (inj Some) in Hm; by rewrite Hm].
    unfold pst_try, pst_bind, gets. cbn [handleMaps upd_handleMaps mbind option_bind]. by rewrite Ht. }
  exists (path t).
  assert (path t <> []) as Hp.
  { intros Hp. rewrite Hp in Hhash. symmetry in Hhash. exact (Hnil Hhash). }
  destruct (fromHandle_fresh f mvs h t (upd_handleMaps (Some m) f) Hfresh) as [f2 Hf2].
  - rewrite Hh. intros Heq. apply Hnz. change zeroHandle with (zeros 32 ++ zeros 32) in Heq.
    by apply app_inv_head in Heq.
  - by rewrite Hh.
  - unfold fromHandle_miss. rewrite Hh. rewrite take_handle, drop_handle by done. exact Hfind.
  - done.
  - rewrite Htt. by apply splitSegs_nonempty.
  - exists f2. split; [done|]. apply (FromHandle_ok _ _ _ _) in Hf2; [by rewrite Htt in Hf2|].
    by rewrite Hh, length_app, sha256_length.
Qed.

(** So do the handles of the paths outside the modules' trees, which are
    found again without walking any tree: of a module's info, mod or ziphash
    file, and of a directory on the way to a module's files or a well-known
    one. *)
Theorem meta_and_dir_handles_survive_restart (fA f : FS S H W) mvs :
  fresh_server f mvs ->
  (forall mv ext, ext ∈ [str "info"; str "mod"; str "ziphash"] ->
    parsed (cdPath mv ext) = MkPath [] false ext false [] mv -> IsValid mv = true -> hash_identifies mvs mv ->
    exists h fA', ToHandle (splitSegs (cdPath mv ext)) fA = Some (Ok h, fA') /\
      exists f', FromHandle fuel h f = Some (Ok (splitSegs (cdPath mv ext)), f')) /\
  (forall p, p <> [] -> parsed p = zeroPath -> sha256 p <> zeros 32 -> sha256 p <> sha256 [] ->
    p ∈ wellKnownPaths \/ (exists mv, mv ∈ mvs /\ above_module mv p) ->
    exists h fA', ToHandle (splitSegs p) fA = Some (Ok h, fA') /\
      exists p' f', sha256 p' = sha256 p /\ FromHandle fuel h f = Some (Ok (splitSegs p'), f')).
Proof.
  intros Hf. split; [intros; by eapply meta_handle_again|intros; by eapply dir_handle_again].
Qed.
End handles.

(** ** Reads after the first are served from memory *)

Section cache.
Context `{E : ModEscape} {S H W : Type} `{St : !Store S H} `{Wd : !World W} (cfg : config).
Context (now : Z) (json : bytes) (fuel : nat).
Local Abbreviation FS := (FS S H W).
Implicit Types f : FS.

(** Neither the NFS read caches nor [pathContents] changed. *)
Definition same_caches f f' : Prop := readCaches f' = readCaches f /\ pathContents f' = pathContents f.

#[local] Instance same_caches_preorder : PreOrder same_caches.
Proof. split; [done|]. intros f1 f2 f3 [H1 H2] [H3 H4]. split; congruence. Qed.

Lemma caches_store {A} (m : st S (res A)) : keeps same_caches (call_store (H := H) (W := W) m).
Proof. intros f a f'. unfold call_store. destruct (m (fs_store f)). by intros [= _ <-]. Qed.
Lemma caches_world {A} (m : st W (res A)) : keeps same_caches (call_world (S := S) (H := H) m).
Proof. intros f a f'. unfold call_world. destruct (m (fs_world f)). by intros [= _ <-]. Qed.
Lemma caches_gets {A} (g : FS -> A) : keeps same_caches (gets g).
Proof. by intros f a f' [= _ <-]. Qed.
Lemma caches_modify (g : FS -> FS) : (forall f, same_caches f (g f)) -> keeps same_caches (modify g).
Proof. intros Hg f a f' [= _ <-]. apply Hg. Qed.
Lemma caches_cached mv : keeps same_caches (getZipRootCached (S := S) (H := H) (W := W) mv).
Proof. by intros f a f' [= _ <-]. Qed.
Lemma caches_setZipRoot mv h : keeps same_caches (setZipRootCache (S := S) (W := W) mv h).
Proof. intros f a f'. unfold setZipRootCache. case_match; [|done]. by intros [= _ <-]. Qed.
Lemma caches_init : keeps same_caches (initHandleMapsLocked (S := S) (H := H) (W := W)).
Proof.
  intros f a f'. unfold initHandleMapsLocked. destruct (handleMaps f); [by intros [= _ <-]|].
  destruct (CachedModules (fs_store f)) as [[mvs|e] s]; [|by intros [= _ <-]].
  destruct (addModules mvs _); [|done]. by intros [= _ <-].
Qed.

#[local] Hint Resolve caches_store caches_world caches_gets caches_cached
  caches_setZipRoot caches_init : keeps.
#[local] Hint Extern 1 (keeps same_caches (modify _)) => (apply caches_modify; intros ?; try case_match; done) : keeps.

Lemma caches_netSlurp u : keeps same_caches (netSlurp (S := S) (H := H) (W := W) u).
Proof. unfold netSlurp. keeps_tac. Qed.
#[local] Hint Resolve caches_netSlurp : keeps.

Lemma caches_join {A} errs : keeps same_caches (join_errors (S := S) (H := H) (W := W) (A := A) errs).
Proof. unfold join_errors. keeps_tac. Qed.
#[local] Hint Resolve caches_join : keeps.

Lemma caches_downloadMeta mv ext put :
  (forall d, keeps same_caches (put d)) -> keeps same_caches (downloadMetaFile (S := S) (H := H) (W := W) cfg mv ext put).
Proof.
  intros Hput. unfold downloadMetaFile. destruct (modURLBases cfg mv) as [bases|]; [|keeps_tac].
  generalize (@nil error). induction bases as [|b bases IH]; intros errs; cbn [downloadMeta_loop]; keeps_tac.
Qed.

Lemma caches_downloadZipSet b : keeps same_caches (downloadZipSet (S := S) (H := H) (W := W) b).
Proof. unfold downloadZipSet, slurp_ext. keeps_tac. Qed.
#[local] Hint Resolve caches_downloadZipSet : keeps.

Lemma caches_downloadZip mv : keeps same_caches (downloadZip (W := W) (St := St) cfg mv).
Proof.
  unfold downloadZip. destruct (modURLBases cfg mv) as [bases|]; [|keeps_tac].
  apply keeps_try; [apply _| |intros ?; keeps_tac].
  generalize (@nil error). induction bases as [|b bases IH]; intros errs; cbn [downloadZip_loop]; keeps_tac.
Qed.
#[local] Hint Resolve caches_downloadZip : keeps.

Lemma caches_getZipRoot mv : keeps same_caches (getZipRoot (W := W) (St := St) cfg mv).
Proof. unfold getZipRoot, getTailscaleGoRoot. keeps_tac. Qed.
#[local] Hint Resolve caches_getZipRoot : keeps.

Lemma caches_getMeta mv ext : keeps same_caches (getMetaFileByExt (W := W) (St := St) cfg mv ext).
Proof.
  unfold getMetaFileByExt, getModFile, getInfoFile, getZiphash, getMetaFile, downloadModFile, downloadInfoFile.
  keeps_tac; apply caches_downloadMeta; intros; keeps_tac.
Qed.
#[local] Hint Resolve caches_getMeta : keeps.

Lemma caches_statusFile : keeps same_caches (statusFile_ (S := S) (H := H) (W := W) now json).
Proof. unfold statusFile_. keeps_tac. Qed.
#[local] Hint Resolve caches_statusFile : keeps.

Lemma caches_uncached name : keeps same_caches (getFileContentsUncached (W := W) (St := St) cfg now json name).
Proof. unfold getFileContentsUncached. keeps_tac. Qed.

Lemma caches_doDir {A} (yield : res bytes -> A -> A * bool) n mh path a :
  keeps same_caches (doDir (W := W) n yield mh path a).
Proof.
  revert path a. induction n as [|n IH]; intros path a; cbn [doDir]; [apply keeps_panic|].
  destruct (yield (Ok path) a) as [a1 more]. destruct (negb more); [keeps_tac|].
  apply keeps_try; [apply _|keeps_tac|]. intros [ents|e]; [|keeps_tac].
  revert a1. induction ents as [|e ents IHl]; intros a1; [keeps_tac|]. cbn beta iota. keeps_tac.
Qed.

Lemma caches_fromHandle h : keeps same_caches (fromHandle (W := W) (St := St) fuel h).
Proof.
  unfold fromHandle, fromHandle_miss, handleTargetWithPathHash, moduleVersionWithHash, walkStoreModulePaths.
  keeps_tac. all: apply caches_doDir.
Qed.

Lemma get_ok_again {V} k (l : list (bytes * V)) v l' :
  Spec.get_ok k l = (Some v, l') -> exists l'', Spec.get_ok k l' = (Some v, l'').
Proof.
  unfold Spec.get_ok at 1. destruct (Spec.find k l) as [w|]; [|done]. intros [= -> <-].
  unfold Spec.get_ok. cbn [Spec.find fst snd]. rewrite decide_True by done. by eexists.
Qed.

(** A hit is a hit again. *)
Lemma cached_again h (c : readCache (Attr := FileAttribute)) x c1 :
  cached h c = Some (Some x, c1) -> exists c2, cached h c1 = Some (Some x, c2).
Proof.
  unfold cached. destruct (Spec.get_ok h (entCache c)) as [[ent|] l1] eqn:H1; [|done].
  cbn [upd_ent blobCache]. destruct (Spec.get_ok (blobHash ent) (blobCache c)) as [[blob|] l2] eqn:H2; [|done].
  intros [= <- <-]. cbn [entCache upd_blob upd_ent].
  destruct (get_ok_again _ _ _ _ H1) as [l3 ->]. cbn [upd_ent blobCache upd_blob].
  destruct (get_ok_again _ _ _ _ H2) as [l4 ->]. by eexists.
Qed.

Lemma getFileContents_hit h f x c :
  cached h (readCaches f) = Some (Some x, c) ->
  exists f', nfs_getFileContents cfg now json fuel h f = Some (Ok x, f') /\
    readCaches f' = c /\ fs_store f' = fs_store f /\ quiet f f'.
Proof.
  intros Hc. unfold nfs_getFileContents. unfold pst_bind at 1, on_caches. rewrite Hc.
  destruct x as [blob attr]. by eexists.
Qed.

(** After contents were found, they are cached if they fit. *)
Lemma getFileContents_caches h f contents attr f1 :
  inv (readCaches f) -> (Z.of_nat (length (entCache (readCaches f))) < 2 ^ 61)%Z ->
  (0 <= GetFileCacheSize cfg < 2 ^ 63)%Z ->
  (Z.of_nat (length contents) <= GetFileCacheSize cfg)%Z ->
  nfs_getFileContents cfg now json fuel h f = Some (Ok (contents, attr), f1) ->
  exists c, cached h (readCaches f1) = Some (Some (contents, attr), c).
Proof.
  intros Hinv Hlen Hmax Hfit Hr.
  destruct (cached_ok (readCaches f) h Hinv) as (o & c1 & Hc & Hinv1 & Hp & _).
  destruct o as [x|].
  { destruct (getFileContents_hit h f x c1 Hc) as (f' & Hx & Hc1 & _). rewrite Hx in Hr.
    injection Hr as -> <-. rewrite Hc1. by eapply cached_again. }
  unfold nfs_getFileContents in Hr. unfold pst_bind at 1, on_caches in Hr. rewrite Hc in Hr.
  unfold pst_bind at 1, modify in Hr. set (f2 := upd_cacheMiss _ _) in Hr.
  destruct (fromHandle fuel h f2) as [[r3 f3]|] eqn:Hfh.
  2:{ unfold pst_try, pst_bind, catch in Hr. by rewrite Hfh in Hr. }
  erewrite try_ok in Hr by (unfold catch; by rewrite Hfh). destruct r3 as [ht|]; [|done].
  destruct (getFileContentsUncached cfg now json (path ht) f3) as [[[[d a]|e] f4]|] eqn:Hu.
  2:{ by rewrite (try_err _ _ _ _ _ Hu) in Hr. }
  2:{ unfold pst_try, pst_bind in Hr. by rewrite Hu in Hr. }
  rewrite (try_ok _ _ _ _ _ Hu) in Hr. unfold pst_bind at 1, modify in Hr. set (f5 := upd_cacheFill _ _) in Hr.
  assert (readCaches f5 = c1) as Hc5.
  { change (readCaches f5) with (readCaches f4).
    rewrite (proj1 (caches_uncached _ _ _ _ Hu)), (proj1 (caches_fromHandle _ _ _ _ Hfh)). done. }
  unfold pst_bind, on_caches in Hr. rewrite Hc5 in Hr. cbn [fst snd] in Hr.
  destruct (setReadCache_spec (GetFileCacheSize cfg) c1 h a d Hinv1) as (c' & Hs & _ & _ & _ & Hhit);
    [by rewrite Hp|done|].
  rewrite Hs in Hr. injection Hr as -> -> <-. by apply Hhit.
Qed.

(** Once a file was read through a handle, reading it again (at any
    offset) is answered from memory: with the same contents and attributes,
    no call of the store and no use of the network, provided the file fits
    in the cache on its own. *)
Theorem second_read_from_memory h f contents attr f1 offset count :
  length h = 64%nat -> inv (readCaches f) ->
  (Z.of_nat (length (entCache (readCaches f))) < 2 ^ 61)%Z ->
  (0 <= GetFileCacheSize cfg < 2 ^ 63)%Z ->
  (Z.of_nat (length contents) <= GetFileCacheSize cfg)%Z ->
  nfs_getFileContents cfg now json fuel h f = Some (Ok (contents, attr), f1) ->
  exists f2, OnNFSRead cfg now json fuel h offset count f1 = Some (Ok (read_slice contents attr offset count), f2) /\
    fs_store f2 = fs_store f1 /\ quiet f1 f2.
Proof.
  intros Hh Hinv Hlen Hmax Hfit Hr.
  destruct (getFileContents_caches h f contents attr f1 Hinv Hlen Hmax Hfit Hr) as [c Hc].
  destruct (getFileContents_hit h f1 _ c Hc) as (f2 & Hg & _ & Hst & Hq).
  exists f2. split; [by apply OnNFSRead_contents|done].
Qed.
End cache.

(** ** Witnesses: reads of the status file and handles of a small module *)

Import BangEscape.

Definition test_json : bytes := str "{ok}".

Lemma status_contents :
  exists attr f', nfs_getFileContents test_cfg 5 test_json 0 statusHandle mem_fs =
    Some (Ok (test_json, attr), f').
Proof.
  assert (match nfs_getFileContents test_cfg 5 test_json 0 statusHandle mem_fs with
          | Some (Ok (c, _), _) => c = test_json | _ => False end) as Hc by (vm_compute; reflexivity).
  destruct (nfs_getFileContents _ _ _ _ _ _) as [[[[c a]|] f']|]; [|done..]. subst. by exists a, f'.
Defined.

Lemma OnNFSRead_slice_witness :
  exists r f', OnNFSRead test_cfg 5 test_json 0 statusHandle 1 2 mem_fs = Some (Ok r, f') /\
    rr_Data r = str "ok" /\ rr_EOF r = false.
Proof.
  destruct status_contents as (attr & f' & Hg).
  destruct (OnNFSRead_slice test_cfg 5 test_json 0 statusHandle 1 2 mem_fs test_json attr f')
    as (r & Hr & Hd & _ & He); [done|lia|lia|done|exact Hg|].
  exists r, f'. split; [exact Hr|]. split; [exact Hd|].
  destruct (rr_EOF r); [|done]. pose proof (proj1 He eq_refl) as Hx. rewrite Hd in Hx. discriminate Hx.
Defined.

Definition test_attr : FileAttribute := ToFileAttribute (dir_info (str "x")) (str "x").

Lemma reads_reassemble_witness : read_all 6 (str "hello") test_attr 0 2 = Some (str "hello").
Proof. apply (reads_reassemble (str "hello") test_attr 2); [lia|done]. Defined.

Lemma second_read_from_memory_witness :
  exists attr f1 f2,
    OnNFSRead test_cfg 5 test_json 0 statusHandle 1 2 f1 =
      Some (Ok (read_slice test_json attr 1 2), f2) /\ fs_store f2 = fs_store f1.
Proof.
  destruct status_contents as (attr & f1 & Hg). exists attr, f1.
  destruct (second_read_from_memory test_cfg 5 test_json 0 statusHandle mem_fs test_json attr f1 1 2)
    as (f2 & H1 & H2 & _); [done|apply inv_empty|done|done|done|exact Hg|].
  exists f2. by split.
Defined.

Lemma test_fresh : fresh_server test_fs [test_mv].
Proof. by vm_compute. Qed.

Lemma test_identifies : hash_identifies [test_mv] test_mv.
Proof.
  split; [by left|]. split; [by intros mv' ->%list_elem_of_singleton|].
  split; by_decide.
Qed.

Lemma zip_handle_survives_restart_witness :
  exists h f1, ToHandle (splitSegs (str "a.b/!m@v1.0.0/x/y.go")) mem_fs = Some (Ok h, f1) /\
    exists p' f', p' ∈ paths [] test_tree /\ sha256 p' = sha256 (str "x/y.go") /\
      FromHandle 2 h test_fs = Some (Ok (splitSegs (emptyPathJoin (str "a.b/!m@v1.0.0") p')), f').
Proof.
  apply (zip_handle_survives_restart 2 mem_fs test_fs [test_mv] test_mv (str "a.b/!m@v1.0.0")
    (str "x/y.go") test_tree test_mv); [reflexivity|reflexivity|apply test_fresh|apply test_identifies|
    by_decide|reflexivity|apply test_holds_tree|reflexivity|cbn; lia|by_decide].
Defined.

Lemma meta_and_dir_handles_survive_restart_witness :
  (exists h f1, ToHandle (splitSegs (cdPath test_mv (str "mod"))) mem_fs = Some (Ok h, f1) /\
    exists f', FromHandle 0 h test_fs = Some (Ok (splitSegs (cdPath test_mv (str "mod"))), f')) /\
  (exists h f1, ToHandle (splitSegs (str "cache/download")) mem_fs = Some (Ok h, f1) /\
    exists p' f', sha256 p' = sha256 (str "cache/download") /\
      FromHandle 0 h test_fs = Some (Ok (splitSegs p'), f')).
Proof.
  destruct (meta_and_dir_handles_survive_restart 0 mem_fs test_fs [test_mv] test_fresh) as [Hmeta Hdir]. split.
  - apply Hmeta; [by_decide|reflexivity|reflexivity|apply test_identifies].
  - apply Hdir; [done|reflexivity|by_decide|by_decide|left; by_decide].
Defined.
