(* ===== verification/NfsServer.v ===== *)
(** * nfs.go behind go-nfs: the NFS server of the program

    [NFSHandler] and [billyFS] as the handler that the procedures of
    [NfsProc] call, and what a client of the whole server sees. *)

From stdpp Require Import sorting.
From S2P Require Import Prelude GoStrings Sha Store StoreTree Paths PathDir NfsCache NfsAttr MemStore FS FSFacts FSProps.
From S2P Require Import NfsProc NfsProcProps NfsWrite NfsWriteProps Nfs NfsProps.

Local Open Scope gomodfs_scope.

Definition HandleLimit : Z := 2 ^ 63 - 1.

(** [FSStat] sets the number of files. *)
Definition FSStat_ (s : FSStat) : FSStat :=
  MkFSStat (TotalSize s) (FreeSize s) (AvailableSize s) 123 (FreeFiles s) (AvailableFiles s) (CacheHint s).

Section server.
Context `{E : ModEscape} {S H W : Type} `{St : !Store S H} `{Wd : !World W} (cfg : config).
Context (now : Z) (json : bytes) (depth : nat).
Local Abbreviation FS := (FS S H W).

(** [Stat], [Readlink] and [Open] panic, and so no file is ever open.
    [ToHandle] has no error. *)
#[local] Instance nfs_handler : NfsHandler FS := {
  nh_File := Empty_set;
  nh_ToHandle := fun path => r <-! ToHandle path ;; match r with Ok h => pst_ret h | Err _ => pst_panic end;
  nh_FromHandle := FromHandle depth;
  nh_HandleLimit := HandleLimit;
  nh_Join := billy_Join;
  nh_ReadDir := ReadDir cfg now json;
  nh_Lstat := Lstat cfg now json;
  nh_Stat := fun _ => pst_panic;
  nh_Readlink := fun _ => pst_panic;
  nh_Open := fun _ => pst_panic;
  nh_Close := fun _ => pst_panic;
  nh_ReadAt := fun _ _ _ => pst_panic;
  nh_FSStat := fun s => pst_ok (FSStat_ s);
  nh_CanWrite := false;
  nh_IsSymlink := true;
  nh_OnNFSRead := Some (OnNFSRead cfg now json depth);
  nh_VerifierFor := None;
  nh_DataForVerifier := fun _ _ => None }.

(** ** What the server grants *)

(** The bits of ACCESS: read, lookup, modify, extend, delete, execute. *)
Lemma access_bits mask n :
  Z.testbit (Z.lor (Z.lor (Z.land mask (Z.lor 1 (Z.lor 2 32))) 1) 2) n = true <->
  (n = 0 \/ n = 1 \/ n = 5 /\ Z.testbit mask 5 = true)%Z.
Proof.
  change (Z.lor 1 (Z.lor 2 32)) with 35%Z. rewrite !Z.lor_spec, Z.land_spec.
  destruct (Z.lt_ge_cases n 6) as [Hn|Hn].
  2:{ assert (forall a, (0 <= a < 64)%Z -> Z.testbit a n = false) as Hhigh.
      { intros a Ha. destruct (decide (a = 0%Z)) as [->|]; [apply Z.testbit_0_l|].
        apply Z.bits_above_log2; [lia|]. assert (Z.log2 a < 6)%Z by (apply Z.log2_lt_pow2; lia). lia. }
      rewrite (Hhigh 35%Z), (Hhigh 1%Z), (Hhigh 2%Z), andb_false_r by lia. split; [done|lia]. }
  destruct (Z.lt_ge_cases n 0) as [H0|H0]; [rewrite !Z.testbit_neg_r by done; split; [done|lia]|].
  assert (n = 0 \/ n = 1 \/ n = 2 \/ n = 3 \/ n = 4 \/ n = 5)%Z as Hcase by lia.
  destruct Hcase as [->|[->|[->|[->|[->| ->]]]]]; cbn [Z.testbit Z.odd Z.pos_sub Pos.testbit];
    rewrite ?andb_true_r, ?andb_false_r; cbn; rewrite ?orb_true_r, ?orb_false_r; naive_solver lia.
Qed.

(** The server grants no writing.  Whatever a client asks for, ACCESS
    grants read and lookup, grants execute if the client asks for it or the
    file is a directory, and never grants modify, extend or delete. *)
Theorem access_read_only root mask f attr m f' :
  onAccess (Ok root) (Ok mask) f = Some (Ok (attr, m), f') ->
  forall n, Z.testbit m n = true <->
    (n = 0 \/ n = 1 \/
     n = 5 /\ (Z.testbit mask 5 = true \/ exists a, attr = Some a /\ a_Type a = FileTypeDirectory))%Z.
Proof.
  unfold onAccess, args, pst_try at 1, pst_bind, pst_ret. cbn [map_err].
  destruct (from_handle root f) as [[[path|] f1]|] eqn:Hh; unfold pst_try, pst_bind; rewrite ?Hh; [|done|done].
  cbn [map_err]. unfold pst_ret. destruct (tryStat path f1) as [[[a|] f2]|]; [|done|done].
  unfold pst_ok, pst_ret. cbn [nh_CanWrite nfs_handler negb]. intros [= -> Hm _] n. subst m.
  pose proof (access_bits mask n) as Hb. destruct attr as [at_|]; [|rewrite Hb; naive_solver].
  case_decide as Hdir; [|rewrite Hb; naive_solver].
  rewrite Z.lor_spec, orb_true_iff, Hb. change 32%Z with (2 ^ 5)%Z. rewrite Z.pow2_bits_eqb, Z.eqb_eq by lia.
  naive_solver.
Qed.

(** [OpenFile] panics, the other methods that write are errors, and
    [Change] is nil; the identity of the server is random. *)
#[local] Instance nfs_writer (ID : bytes) : NfsWriter FS := {
  nw_OpenFile := fun _ _ _ => pst_panic;
  nw_Create := fun _ => pst_ret billy_write;
  nw_Seek := fun (fp : Empty_set) _ => match fp with end;
  nw_Write := fun (fp : Empty_set) _ => match fp with end;
  nw_Truncate := fun (fp : Empty_set) _ => match fp with end;
  nw_Close := fun (fp : Empty_set) => match fp with end;
  nw_Name := fun (fp : Empty_set) => match fp with end;
  nw_MkdirAll := fun _ _ => pst_ret billy_write;
  nw_Remove := fun _ => pst_ret billy_write;
  nw_Rename := fun _ _ => pst_ret billy_write;
  nw_Symlink := fun _ _ => pst_ret billy_write;
  nw_Change := None;
  nw_InvalidateHandle := fun _ => pst_ok tt;
  nw_ID := ID }.

(** C22: no NFS call changes anything.  Each call of a procedure that writes
    ends in a refusal without calling a method that writes: its outcome is
    the same whatever those methods do.  The refusal of a call whose
    arguments decode is exact.  But for SETATTR, if the handles it looks up
    are known, it does not panic and is answered with ROFS; COMMIT with a
    server fault; CREATE that is exclusive, or of a mode that there is not,
    with NOTSUPP, whatever the handle.  SETATTR of a known handle looks at
    the file first: it is answered with the error of that (NOENT or ACCES),
    with NOT_SYNC if its guard is not the time of the file's last change,
    and with ROFS otherwise. *)
Theorem writes_refused (W1 W2 : NfsWriter FS) c :
  (forall f, match run_call W1 c f, run_call W2 c f with
             | Some (Err e1, f1), Some (Err e2, f2) => e1 = e2 /\ f1 = f2 /\ refusal e1
             | None, None => True
             | _, _ => False
             end) /\
  (forall Inv hs e, asks c = Some (hs, e) ->
    Forall (fun h => yields Inv (FromHandle depth h) (is_ok (fun _ => True))) hs ->
    yields Inv (run_call W1 c) (refused_with e)) /\
  (forall h s guard ct ctime f path f1, c = SETATTR (Ok h) (Ok s) (Ok guard) ct ->
    guard = 0%Z \/ ct = Ok ctime -> FromHandle depth h f = Some (Ok path, f1) ->
    run_call W1 c f =
    '(r, f2) ← Lstat cfg now json (billy_Join path) f1;
    Some (Err (setattr_refusal guard ctime (billy_Join path) r), f2)).
Proof.
  split; [by apply write_refused|]. split.
  - intros Inv hs e Hc Hh. by eapply write_answered.
  - intros h s guard ct ctime f path f1 -> Hct Hh.
    exact (setattr_answered (Uh := nfs_handler) eq_refl W1 h s guard ct ctime f path f1 Hct Hh).
Qed.

(** READLINK of any file that there is stops the server: [billyFS] has no
    [Readlink], and nothing recovers. *)
Lemma onReadLink_panics h path f f1 :
  FromHandle depth h f = Some (Ok path, f1) -> onReadLink (Ok h) f = None.
Proof.
  intros Hh. assert (from_handle h f = Some (Ok path, f1)) as Hfrom.
  { unfold from_handle, attempt, pst_try, pst_bind. cbn [nh_FromHandle nfs_handler]. by rewrite Hh. }
  unfold onReadLink, args, pst_try at 1, pst_bind, pst_ret. cbn [map_err]. by rewrite (try_ok _ _ _ _ _ Hfrom).
Qed.

(** ** Directories of a module *)

Section module_dir.
Lemma yields_catch (Inv : FS -> Prop) {A} (m : pst FS (res A)) P : yields Inv m P -> yields Inv (catch m) (is_ok P).
Proof.
  intros Hm f Hf. destruct (Hm f Hf) as (r & f' & Hr & ? & ?). exists (Ok r), f'. unfold catch. rewrite Hr.
  split_and!; [done|done|by exists r].
Qed.

Context (I : S -> Prop) (mv : ModuleVersion) (mh : H) (h : bytes) (t : handleTarget) (pth : bytes) (ents : list Dirent).

(** The module is open, and the client holds the handle [h]. *)
Definition module_state (f : FS) : Prop :=
  I (fs_store f) /\ zipRootCache f !! mv = Some mh /\ handles f !! h = Some t.

(** The paths that [Lstat] answers from the module, or without a store. *)
Definition in_module_or_above (q : list bytes) : Prop :=
  let mp := parsed (path_Join q) in
  NotExist mp = false /\ WellKnown mp = [] /\ CacheDownloadFileExt mp = [] /\ (InZip mp = true -> ModVersion mp = mv).

Context (Hreaddir : forall s, I s -> exists s', Readdir mh pth s = (Ok ents, s') /\ I s').
Context (Hstat : forall q s, I s -> I (Stat mh q s).2).

Lemma module_state_store {A} (m : st S (res A)) (P : res A -> Prop) :
  (forall s, I s -> I (m s).2 /\ P (m s).1) -> yields module_state (call_store m) P.
Proof.
  intros Hm f (Hs & Hz & Hh). specialize (Hm _ Hs). revert Hm. unfold call_store.
  destruct (m (fs_store f)) as [r s']. intros [? ?]. eexists _, _. split; [done|]. by split_and!.
Qed.

Lemma module_state_root : yields module_state (getZipRoot cfg mv) (is_ok (fun r => r = mh)).
Proof.
  intros f Hf. exists (Ok mh), f. split_and!; [|done|by eexists].
  apply getZipRoot_hit, Hf.
Qed.

Lemma module_Lstat q : in_module_or_above q -> yields module_state (Lstat cfg now json (path_Join q)) (fun _ => True).
Proof.
  intros (Hne & Hwk & Hext & Hmv). unfold Lstat. rewrite Hne, Hwk, Hext. cbn [negb].
  rewrite !decide_False by (done || (intros Hx; by apply Hx)). destruct (InZip _); cbn [negb]; [|by apply yields_ret].
  rewrite Hmv by done. eapply yields_try; [apply module_state_root|]. intros ? ->.
  eapply yields_try with (P := fun _ => True); [|intros [fi|e] _; [by apply yields_ret|case_match; by apply yields_ret]].
  apply yields_catch, module_state_store. intros s Hs. split; [by apply Hstat|done].
Qed.

Lemma module_ReadDir p :
  parsed (path_Join p) = MkPath [] false [] true pth mv ->
  yields module_state (ReadDir cfg now json (path_Join p)) (is_ok (fun l => fi_Name <$> l = d_Name <$> ents)).
Proof.
  intros Hp. unfold ReadDir. rewrite !decide_False by (intros Hj; by rewrite Hj in Hp).
  rewrite Hp. cbn [NotExist InZip ModVersion Path negb]. eapply yields_try; [apply module_state_root|]. intros ? ->.
  eapply yields_try with (P := fun r => r = Ok ents).
  - apply yields_catch, module_state_store. intros s Hs. destruct (Hreaddir s Hs) as (s' & -> & ?). done.
  - intros ? ->. apply yields_ok. rewrite <-list_fmap_compose. apply list_fmap_ext. intros _ e _.
    unfold compose, dirent_info. by case_match.
Qed.

Lemma module_ToHandle path : yields module_state (nh_ToHandle path) (fun _ => True).
Proof.
  intros f (Hs & Hz & Hh). cbn [nh_ToHandle nfs_handler]. unfold ToHandle.
  do 2 (case_decide; [by eexists _, f|]). case_match; [by eexists _, f|].
  unfold pst_bind, modify, pst_ok, pst_ret. eexists _, _. split; [done|].
  split; [|done]. set (k := handle_of _ _). destruct (handles f !! k) as [t'|] eqn:Hk; [done|].
  split_and!; [done|done|]. cbn [handles upd_handles]. rewrite lookup_insert_ne; [done|]. congruence.
Qed.

Lemma module_FromHandle :
  length h = 64%nat -> h <> zeroHandle -> h <> statusHandle ->
  yields module_state (FromHandle depth h) (fun r => r = Ok (segs t)).
Proof.
  intros Hl Hz Hst f Hf. exists (Ok (segs t)), f. split_and!; [|done|done].
  apply FromHandle_ok; [done|]. unfold fromHandle. rewrite !decide_False by done.
  unfold pst_try, pst_bind, gets. destruct Hf as (_ & _ & ->). done.
Qed.

Lemma module_stable_dir :
  length h = 64%nat -> h <> zeroHandle -> h <> statusHandle ->
  parsed (path_Join (segs t)) = MkPath [] false [] true pth mv ->
  in_module_or_above (take (pred (length (segs t))) (segs t)) ->
  (Z.of_nat (length ents) + 2 < 2 ^ 64)%Z ->
  stable_dir module_state h (segs t) (d_Name <$> ents).
Proof.
  intros Hl Hz Hst Hp Hpar Hb. constructor; cbn [nh_FromHandle nh_Join nh_Lstat nh_ReadDir nh_VerifierFor nh_HandleLimit nfs_handler].
  - by apply module_FromHandle.
  - intros q [->| ->]; apply module_Lstat; [|done]. unfold in_module_or_above. by rewrite Hp.
  - eapply yields_mono; [by apply module_ReadDir|]. intros r (l & -> & Hn). exists l. by rewrite Hn.
  - intros name. apply module_ToHandle.
  - done.
  - by rewrite length_fmap.
  - done.
Qed.
End module_dir.
End server.

(** C21: an NFS client reads a whole directory.  It starts at cookie 0 and
    resumes after the last entry of each page until the server says that it
    is the last: it gets [.], [..] and then every name of the directory
    exactly once, sorted, in at most one request more than there are names,
    whatever size it asks for that the server accepts; and no request fails
    or panics.  With READDIRPLUS each name and 20 bytes must fit in
    [DirCount], and for Windows clients the directory must hold no open-set
    marker.  For any file system whose directory keeps its names meanwhile. *)
Theorem reading_a_directory {U} {Uh : NfsHandler U} (Inv : U -> Prop) h p names :
  stable_dir Inv h p names ->
  exists l, l ≡ₚ names /\ StronglySorted bytes_le l /\
    (forall count, (1024 <= count)%Z ->
      yields Inv (read_dir_all (readdir_page h count) (Datatypes.S (length names)) 0 0) (is_ok (fun r => r = dots ++ l))) /\
    (forall windows dirCount maxCount, (512 <= dirCount)%Z -> (4096 <= maxCount)%Z ->
      Forall (fun n => Z.of_nat (length n) + 20 <= dirCount)%Z names ->
      windows = false \/ openSetName ∉ names ->
      yields Inv (read_dir_all (readdirplus_page h windows dirCount maxCount) (Datatypes.S (length names)) 0 0)
        (is_ok (fun r => r = dots ++ l))).
Proof.
  intros Hd. exists (listing names). split_and!.
  - apply merge_sort_Permutation.
  - apply StronglySorted_merge_sort; apply _.
  - intros count Hc. rewrite <-(length_listing names). apply (read_dir_from Inv _ _ (verifier_of p names) ltac:(
      intros; by eapply readdir_page_ok) _ O 0%Z); [lia|lia|by left].
  - intros. rewrite <-(length_listing names). apply (read_dir_from Inv _ _ (verifier_of p names) ltac:(
      intros; by eapply readdirplus_page_ok) _ O 0%Z); [lia|lia|by left].
Qed.

(** ** Witnesses: the directory of a small module *)

Import BangEscape.

#[local] Instance test_handler : NfsHandler (FS mem ModuleVersion unit) := nfs_handler test_cfg 5 [] 0.

Definition test_target : handleTarget := mkTargetFromPath (str "a.b/!m@v1.0.0").
Definition test_handle : bytes := handle_of (path test_target) (parsed (path test_target)).
Definition test_ents : list Dirent := [MkDirent (str "go.mod") 420 1; MkDirent (str "x") ModeDir 0].

(** A server with the module open, to a client that looked its directory up. *)
Definition test_open : FS mem ModuleVersion unit :=
  upd_zipRootCache {[test_mv := test_mv]} (upd_handles {[test_handle := test_target]} test_fs).

Lemma test_handle_length : length test_handle = 64%nat.
Proof. by vm_compute. Qed.

Lemma test_stable : stable_dir (module_state (eq test_mem) test_mv test_mv test_handle test_target)
  test_handle (segs test_target) (d_Name <$> test_ents).
Proof.
  apply module_stable_dir with (pth := []).
  - intros s <-. exists test_mem. split; [by vm_compute|done].
  - by intros q s <-.
  - apply test_handle_length.
  - by_decide.
  - by_decide.
  - by vm_compute.
  - by vm_compute.
  - done.
Qed.

Lemma reading_a_directory_witness :
  exists f', read_dir_all (readdir_page test_handle 1024) 3 0 0 test_open =
    Some (Ok [str "."; str ".."; str "go.mod"; str "x"], f').
Proof.
  destruct (reading_a_directory _ _ _ _ test_stable) as (l & Hl & Hs & Hread & _).
  assert (l = [str "go.mod"; str "x"]) as ->.
  { apply (StronglySorted_unique bytes_le); [done| |done]. repeat constructor. }
  destruct (Hread 1024%Z ltac:(lia) test_open) as (r & f' & Hr & _ & (x & -> & ->)).
  - split_and!; [done|apply lookup_singleton_eq|apply lookup_singleton_eq].
  - by exists f'.
Defined.

Lemma access_read_only_witness :
  exists attr m f', onAccess (Ok zeroHandle) (Ok 63%Z) test_open = Some (Ok (attr, m), f') /\ Z.testbit m 2 = false.
Proof.
  assert (match onAccess (Ok zeroHandle) (Ok 63%Z) test_open with Some (Ok _, _) => true | _ => false end) as Hrun
    by by vm_compute.
  destruct (onAccess (Ok zeroHandle) (Ok 63%Z) test_open) as [[[[attr m]|] f']|] eqn:Hr; [|done..].
  exists attr, m, f'. split; [done|]. apply not_true_iff_false.
  rewrite (access_read_only test_cfg 5 [] 0 zeroHandle 63 test_open attr m f' Hr). lia.
Defined.

Lemma writes_refused_witness :
  exists f', run_call (nfs_writer test_cfg 5 [] 0 []) (REMOVE (Ok (MkDirOp test_handle (str "go.mod")))) test_open =
    Some (Err (NFSStatusError NFSStatusROFS (Some ErrPermission)), f').
Proof.
  destruct (writes_refused test_cfg 5 [] 0 (nfs_writer test_cfg 5 [] 0 []) (nfs_writer test_cfg 5 [] 0 [])
    (REMOVE (Ok (MkDirOp test_handle (str "go.mod"))))) as (_ & H & _).
  destruct (H (module_state (eq test_mem) test_mv test_mv test_handle test_target) [test_handle] (no_write NFSStatusROFS) eq_refl
    ltac:(constructor; [|constructor]; eapply yields_mono; [apply (sd_from _ _ _ _ test_stable)|intros ? ->; by eexists])
    test_open) as (r & f' & Hr & _ & ->).
  - split_and!; [done|apply lookup_singleton_eq|apply lookup_singleton_eq].
  - by exists f'.
Defined.
