(* ===== verification/GitTree.v ===== *)
(** * store/gitstore/gitstore.go: building git trees

    The builder that turns the files of a module into git blobs and trees,
    which are named by the SHA-1 of their contents.  [git_read] is the
    specification: how git finds a file below a tree. *)

From S2P Require Import Prelude GoStrings Sha.
From stdpp Require Import sorting.

Local Open Scope gomodfs_scope.

(** [fileInfo] and [object]; hashes are 20 bytes. *)
Record gitFile := MkGitFile { gf_contents : bytes; gf_mode : Z; gf_gitHash : bytes }.
Record object := MkObject { o_typ : bytes; o_content : bytes; o_hash : bytes }.

Record treeBuilder := MkTB {
  tb_f : gmap bytes gitFile;
  hashSet : gmap bytes object;
  hashes : list bytes }.

Definition newTreeBuilder : treeBuilder := MkTB ∅ ∅ [].

Definition mkObjRef (typ contents : bytes) : bytes :=
  sha1 (typ ++ str " " ++ Itoa (Z.of_nat (length contents)) ++ nul :: contents).

Definition addHash (hash objType contents : bytes) : pst treeBuilder unit := fun tb =>
  match hashSet tb !! hash with
  | Some _ => Some (tt, tb)
  | None =>
      if decide (hash = replicate 20 nul) then None
      else Some (tt, MkTB (tb_f tb) (<[hash := MkObject objType contents hash]> (hashSet tb))
                       (hashes tb ++ [hash]))
  end.

(** [open] is what opening and reading the file gives. *)
Definition addFile (name : bytes) (open : res bytes) (mode : Z) : pst treeBuilder (res unit) :=
  match open with
  | Err e => pst_err (errWrap "failed to read file in zip" e)
  | Ok all =>
      let blobRef := mkObjRef (str "blob") all in
      let fi := MkGitFile all mode blobRef in
      pst_modify (fun tb => MkTB (<[name := fi]> (tb_f tb)) (hashSet tb) (hashes tb)) ;;!
      addHash blobRef (str "blob") all ;;!
      pst_ok tt
  end.

Definition execBits : Z := 73.

Record dirEnt := MkDirEnt { base : bytes; sortKey : bytes; isDir : bool; fi : gitFile }.

Definition key_le (a b : dirEnt) : Prop := bytes_le (sortKey a) (sortKey b).
#[export] Instance key_le_dec a b : Decision (key_le a b).
Proof. unfold key_le. apply _. Defined.

(** The entry that the file [suf], below a directory, makes there. *)
Definition newEnt (suf : bytes) (f : gitFile) : dirEnt :=
  match Cut suf [slash] with
  | Some (b, _) => MkDirEnt b (b ++ [slash]) true f
  | None => MkDirEnt suf suf false f
  end.

(** The loop of [dirEnts] over the files; it panics when a name is both a
    file and a directory. *)
Fixpoint dirEnts_loop (prefix : bytes) (files : list (bytes * gitFile)) (names : gmap bytes dirEnt)
    : option (gmap bytes dirEnt) :=
  match files with
  | [] => Some names
  | (filename, f) :: files' =>
      match CutPrefix filename prefix with
      | None => dirEnts_loop prefix files' names
      | Some suf =>
          let new := newEnt suf f in
          match names !! base new with
          | Some was =>
              if (isDir was || isDir new) && negb (eqb (isDir was) (isDir new)) then None
              else dirEnts_loop prefix files' names
          | None => dirEnts_loop prefix files' (<[base new := new]> names)
          end
      end
  end.

Section builder.
Context {R : GoRange}.

Definition dirEnts (prefix : bytes) (f : gmap bytes gitFile) : option (list dirEnt) :=
  names ← dirEnts_loop prefix (go_range prefix f) ∅;
  Some (merge_sort key_le (go_range prefix names).*2).

(** [strings.ContainsAny(s, "\x00/")]. *)
Definition bad_base (s : bytes) : bool := bool_decide (nul ∈ s \/ slash ∈ s).

Definition tree_mode (e : dirEnt) : bytes :=
  if isDir e then str "40000"
  else if (Z.land (gf_mode (fi e)) execBits =? 0)%Z then str "100644" else str "100755".

(** One entry of a tree object. *)
Definition tree_entry (e : dirEnt) (hash : bytes) : bytes :=
  tree_mode e ++ str " " ++ base e ++ nul :: hash.

(** The loop of [buildTree]; [sub] builds the tree of a directory. *)
Fixpoint buildTree_loop (sub : bytes -> pst treeBuilder (res bytes)) (dir : bytes)
    (ents : list dirEnt) (buf : bytes) : pst treeBuilder (res bytes) :=
  match ents with
  | [] =>
      let treeRef := mkObjRef (str "tree") buf in
      addHash treeRef (str "tree") buf ;;! pst_ok treeRef
  | ent :: ents' =>
      if bad_base (base ent) then pst_err (errText "invalid file name in tree")
      else
      entHash <-? (if isDir ent then
                     r <-! sub (dir ++ base ent ++ [slash]) ;;
                     pst_ret (map_err (errWrap "failed to build sub-tree") r)
                   else pst_ok (gf_gitHash (fi ent))) ;;
      buildTree_loop sub dir ents' (buf ++ tree_entry ent entHash)
  end.

(** [dir] is empty or ends in a slash.  The fuel bounds the depth, and
    running out of it would be a panic ([buildTree_reads_back] shows that
    it does not with more fuel than the longest name has bytes). *)
Fixpoint buildTree (fuel : nat) (dir : bytes) : pst treeBuilder (res bytes) :=
  match fuel with
  | O => pst_panic
  | S fuel' =>
      tb <-! pst_get ;;
      match dirEnts dir (tb_f tb) with
      | None => pst_panic
      | Some ents => buildTree_loop (buildTree fuel') dir ents []
      end
  end.
End builder.

(** ** How git reads trees *)

(** The entries of a tree object: mode, name and hash. *)
Fixpoint parse_tree (fuel : nat) (s : bytes) : option (list (bytes * bytes * bytes)) :=
  match fuel, s with
  | _, [] => Some []
  | O, _ => None
  | S fuel', _ =>
      '(mode, rest) ← Cut s (str " ");
      '(name, rest) ← Cut rest [nul];
      if decide (length rest < 20)%nat then None else
      l ← parse_tree fuel' (drop 20 rest);
      Some ((mode, name, take 20 rest) :: l)
  end.

(** The mode and contents of the file at a path below the tree [h]. *)
Fixpoint git_read (m : gmap bytes object) (h : bytes) (segs : list bytes) : option (bytes * bytes) :=
  match segs with
  | [] => None
  | s :: segs' =>
      o ← m !! h;
      if decide (o_typ o <> str "tree") then None else
      l ← parse_tree (length (o_content o)) (o_content o);
      '(_, (mode, _, h')) ← list_find (fun e => e.1.2 = s) l;
      if decide (mode = str "40000") then git_read m h' segs'
      else if decide (segs' = []) then
        o' ← m !! h';
        if decide (o_typ o' = str "blob") then Some (mode, o_content o') else None
      else None
  end.

(** ** The entries of a directory *)

Lemma newEnt_spec suf f :
  slash ∉ base (newEnt suf f) /\ fi (newEnt suf f) = f /\
  sortKey (newEnt suf f) = base (newEnt suf f) ++ (if isDir (newEnt suf f) then [slash] else []) /\
  if isDir (newEnt suf f) then exists rest, suf = base (newEnt suf f) ++ slash :: rest
  else suf = base (newEnt suf f).
Proof.
  unfold newEnt. destruct (Cut suf [slash]) as [[b rest]|] eqn:Hc; cbn.
  - apply Cut_byte_Some in Hc as [-> Hb]. split_and!; eauto.
  - split; [by apply Cut_None_notin|]. by rewrite app_nil_r.
Qed.

(** Two files agree on whether the name they share there is a directory. *)
Definition compatible (prefix : bytes) (l : list (bytes * gitFile)) : Prop :=
  forall s1 f1 s2 f2, (prefix ++ s1, f1) ∈ l -> (prefix ++ s2, f2) ∈ l ->
    base (newEnt s1 f1) = base (newEnt s2 f2) -> isDir (newEnt s1 f1) = isDir (newEnt s2 f2).

Definition names_from (prefix : bytes) (l : list (bytes * gitFile)) (names : gmap bytes dirEnt) : Prop :=
  forall b e, names !! b = Some e -> exists suf f, (prefix ++ suf, f) ∈ l /\ e = newEnt suf f /\ b = base e.

Definition covers (prefix : bytes) (l : list (bytes * gitFile)) (names : gmap bytes dirEnt) : Prop :=
  forall suf f, (prefix ++ suf, f) ∈ l ->
    exists e, names !! base (newEnt suf f) = Some e /\ isDir e = isDir (newEnt suf f).

Lemma dirEnts_loop_sound prefix L l names names' :
  l ⊆ L -> names_from prefix L names -> dirEnts_loop prefix l names = Some names' ->
  names ⊆ names' /\ names_from prefix L names' /\ covers prefix l names'.
Proof.
  revert names. induction l as [|[n f] l IH]; intros names HL Hn Hl; cbn in Hl.
  { simplify_eq. split; [done|]. split; [done|]. by intros ? ? ?%elem_of_nil. }
  apply list_subseteq_cons_iff in HL as [Hin HL].
  destruct (CutPrefix n prefix) as [suf|] eqn:Hc.
  2:{ destruct (IH _ HL Hn Hl) as (? & ? & Hcov). split; [done|]. split; [done|].
      intros s f' [[= <- <-]|]%elem_of_cons; [|eauto].
      by rewrite CutPrefix_app in Hc. }
  apply CutPrefix_Some in Hc as ->.
  destruct (names !! base (newEnt suf f)) as [was|] eqn:Hw.
  - case_match eqn:Hconf; [done|]. destruct (IH _ HL Hn Hl) as (Hsub & ? & Hcov).
    split; [done|]. split; [done|].
    intros s f' [[=]|]%elem_of_cons; [|eauto]. simplify_list_eq.
    exists was. split; [by eapply lookup_weaken|].
    by destruct (isDir was), (isDir (newEnt suf f)).
  - assert (names_from prefix L (<[base (newEnt suf f) := newEnt suf f]> names)) as Hn'.
    { intros b e [[<- <-]|[]]%lookup_insert_Some; [by exists suf, f|eauto]. }
    destruct (IH _ HL Hn' Hl) as (Hsub & ? & Hcov). split; [|split; [done|]].
    + etrans; [by apply insert_subseteq|done].
    + intros s f' [[=]|]%elem_of_cons; [|eauto]. simplify_list_eq.
      exists (newEnt suf f). split; [|done]. eapply lookup_weaken; [|done]. by rewrite lookup_insert_eq.
Qed.

Lemma dirEnts_loop_total prefix L l names :
  compatible prefix L -> l ⊆ L -> names_from prefix L names ->
  exists names', dirEnts_loop prefix l names = Some names'.
Proof.
  intros HC. revert names. induction l as [|[n f] l IH]; intros names HL Hn; cbn; [eauto|].
  apply list_subseteq_cons_iff in HL as [Hin HL].
  destruct (CutPrefix n prefix) as [suf|] eqn:Hc; [|eauto].
  apply CutPrefix_Some in Hc as ->.
  destruct (names !! base (newEnt suf f)) as [was|] eqn:Hw.
  - destruct (Hn _ _ Hw) as (s' & f' & Hs' & -> & Hb).
    rewrite (HC _ _ _ _ Hin Hs' Hb). rewrite eqb_reflx, andb_false_r. eauto.
  - apply IH; [done|]. intros b e [[<- <-]|[]]%lookup_insert_Some; [by exists suf, f|eauto].
Qed.

(** The entries below [dir]: sorted in git's order, without duplicates,
    each made by a file, and one for every file. *)
Record ents_ok (dir : bytes) (f : gmap bytes gitFile) (ents : list dirEnt) : Prop := {
  ents_sorted : StronglySorted key_le ents;
  ents_nodup : NoDup (base <$> ents);
  ents_sound : forall e, e ∈ ents -> exists suf x, f !! (dir ++ suf) = Some x /\ e = newEnt suf x;
  ents_complete : forall suf x, f !! (dir ++ suf) = Some x ->
    exists e, e ∈ ents /\ base e = base (newEnt suf x) /\ isDir e = isDir (newEnt suf x) }.

Lemma names_elements (names : gmap bytes dirEnt) l :
  (forall b e, names !! b = Some e -> b = base e) -> l ≡ₚ (map_to_list names).*2 ->
  NoDup (base <$> l) /\ (forall e, e ∈ l <-> names !! base e = Some e).
Proof.
  intros Hb Hl. split.
  - rewrite Hl. assert (base <$> (map_to_list names).*2 = (map_to_list names).*1) as ->.
    { rewrite <- list_fmap_compose. apply list_fmap_ext. intros i [b e] Hi%list_elem_of_lookup_2.
      apply elem_of_map_to_list in Hi. cbn. by rewrite (Hb _ _ Hi). }
    apply NoDup_fst_map_to_list.
  - intros e. rewrite Hl, list_elem_of_fmap. split.
    + intros ([b e'] & -> & Hin%elem_of_map_to_list). cbn. by rewrite <- (Hb _ _ Hin).
    + intros He. exists (base e, e). split; [done|]. by apply elem_of_map_to_list.
Qed.

#[export] Instance key_le_total : Total key_le.
Proof. intros a b. apply bytes_le_total. Qed.
#[export] Instance key_le_trans : Transitive key_le.
Proof. intros a b c. unfold key_le. apply bytes_le_trans. Qed.

Section order.
Context {R : GoRange} {RL : GoRangeLaws R}.

Lemma elem_of_range {A} (c : bytes) (m : gmap bytes A) (k : bytes) (x : A) : (k, x) ∈ go_range c m <-> m !! k = Some x.
Proof. rewrite (go_range_perm c m). apply elem_of_map_to_list. Qed.

Lemma dirEnts_Some dir f ents :
  dirEnts dir f = Some ents -> ents_ok dir f ents /\ compatible dir (map_to_list f).
Proof.
  unfold dirEnts. intros H. destruct (dirEnts_loop _ _ _) as [names|] eqn:Hl; [|done].
  apply (inj Some) in H as <-.
  destruct (dirEnts_loop_sound dir (go_range dir f) (go_range dir f) ∅ names) as (_ & Hn & Hc);
    [done|intros ? ?; by rewrite lookup_empty|done|].
  destruct (names_elements names (merge_sort key_le (go_range dir names).*2)) as [Hnd Hin].
  { intros b e He. by destruct (Hn _ _ He) as (? & ? & ? & ? & ->). }
  { by rewrite merge_sort_Permutation, go_range_perm. }
  assert (forall suf x, f !! (dir ++ suf) = Some x -> exists e,
    names !! base (newEnt suf x) = Some e /\ base e = base (newEnt suf x) /\
    isDir e = isDir (newEnt suf x)) as Hcov.
  { intros suf x Hx. rewrite <- (elem_of_range dir) in Hx. destruct (Hc _ _ Hx) as (e & He & Hd).
    exists e. split_and!; [done| |done]. by destruct (Hn _ _ He) as (? & ? & ? & ? & ->). }
  split.
  - split.
    + apply StronglySorted_merge_sort; apply _.
    + done.
    + intros e He. apply Hin in He. destruct (Hn _ _ He) as (suf & x & Hx & -> & _).
      apply elem_of_range in Hx. eauto.
    + intros suf x Hx. destruct (Hcov _ _ Hx) as (e & He & Hb & Hd). exists e. split_and!; [|done..].
      apply Hin. by rewrite Hb.
  - intros s1 f1 s2 f2 H1%elem_of_map_to_list H2%elem_of_map_to_list Hb.
    destruct (Hcov _ _ H1) as (e1 & He1 & _ & <-), (Hcov _ _ H2) as (e2 & He2 & _ & <-).
    rewrite Hb in He1. congruence.
Qed.

Lemma dirEnts_total dir f :
  compatible dir (map_to_list f) -> exists ents, dirEnts dir f = Some ents.
Proof.
  intros Hc. unfold dirEnts.
  destruct (dirEnts_loop_total dir (go_range dir f) (go_range dir f) ∅) as [names ->];
    [|done|intros ? ?; by rewrite lookup_empty|cbn; eauto].
  intros s1 f1 s2 f2 H1%elem_of_range H2%elem_of_range. apply Hc; by apply elem_of_map_to_list.
Qed.
End order.

(** Two entries that make the same line of a tree. *)
Definition ent_eq (a b : dirEnt) : Prop :=
  base a = base b /\ isDir a = isDir b /\ (isDir a = false -> fi a = fi b).

Lemma sortKey_inj s1 f1 s2 f2 :
  let a := newEnt s1 f1 in let b := newEnt s2 f2 in
  sortKey a = sortKey b -> base a = base b /\ isDir a = isDir b.
Proof.
  intros a b Hk. pose proof (newEnt_spec s1 f1) as (Ha & _ & Ka & _).
  pose proof (newEnt_spec s2 f2) as (Hb & _ & Kb & _). fold a in Ha, Ka. fold b in Hb, Kb.
  rewrite Ka, Kb in Hk. destruct (isDir a), (isDir b); simplify_list_eq; try done.
  - rewrite <- Hk in Hb. set_solver.
  - rewrite Hk in Ha. set_solver.
Qed.

Lemma key_sorted ents : StronglySorted key_le ents -> StronglySorted bytes_le (sortKey <$> ents).
Proof.
  induction 1 as [|e ents H IH Hall]; [constructor|]. cbn. constructor; [done|].
  apply Forall_fmap. apply Hall.
Qed.

Lemma ents_ok_unique dir f e1 e2 :
  ents_ok dir f e1 -> ents_ok dir f e2 -> Forall2 ent_eq e1 e2.
Proof.
  intros H1 H2.
  assert (forall l l', ents_ok dir f l -> ents_ok dir f l' ->
    NoDup (sortKey <$> l) /\ sortKey <$> l ⊆ sortKey <$> l') as Hhalf.
  { intros l l' Hl Hl'. split.
    - apply NoDup_fmap_2_strong; [|by eapply NoDup_fmap_1, ents_nodup].
      intros x y Hx Hy Hk.
      destruct (ents_sound _ _ _ Hl x Hx) as (? & ? & ? & ->), (ents_sound _ _ _ Hl y Hy) as (? & ? & ? & ->).
      apply sortKey_inj in Hk as [Hb _].
      pose proof (ents_nodup _ _ _ Hl) as Hnd. 
      apply list_elem_of_lookup in Hx as [i Hi]. apply list_elem_of_lookup in Hy as [j Hj].
      assert (i = j) as ->; [|congruence].
      eapply (NoDup_lookup _ _ _ _ Hnd); rewrite list_lookup_fmap; [by rewrite Hi|by rewrite Hj; cbn; rewrite Hb].
    - intros k (e & -> & He)%list_elem_of_fmap.
      destruct (ents_sound _ _ _ Hl e He) as (suf & x & Hx & ->).
      destruct (ents_complete _ _ _ Hl' _ _ Hx) as (e' & He' & Hb & Hd).
      apply list_elem_of_fmap. exists e'. split; [|done].
      destruct (ents_sound _ _ _ Hl' e' He') as (suf' & x' & Hx' & ->).
      pose proof (newEnt_spec suf x) as (_ & _ & -> & _). pose proof (newEnt_spec suf' x') as (_ & _ & -> & _).
      by rewrite Hb, Hd. }
  destruct (Hhalf e1 e2 H1 H2) as [Hn1 Hs1], (Hhalf e2 e1 H2 H1) as [Hn2 Hs2].
  assert (sortKey <$> e1 = sortKey <$> e2) as Hk.
  { apply (StronglySorted_unique bytes_le); [apply key_sorted, H1|apply key_sorted, H2|].
    apply NoDup_Permutation; [done..|]. intros k. split; [apply Hs1|apply Hs2]. }
  apply Forall2_same_length_lookup_2.
  { by rewrite <- (length_fmap sortKey), Hk, length_fmap. }
  intros i a b Ha Hb.
  assert (sortKey a = sortKey b) as Hab.
  { assert ((sortKey <$> e1) !! i = (sortKey <$> e2) !! i) as E by (by rewrite Hk).
    rewrite !list_lookup_fmap, Ha, Hb in E. by apply (inj Some) in E. }
  apply list_elem_of_lookup_2 in Ha, Hb.
  destruct (ents_sound _ _ _ H1 a Ha) as (s1 & x1 & Hx1 & ->), (ents_sound _ _ _ H2 b Hb) as (s2 & x2 & Hx2 & ->).
  destruct (sortKey_inj _ _ _ _ Hab) as [Hb1 Hd1]. split_and!; [done..|].
  pose proof (newEnt_spec s1 x1) as (_ & -> & _ & Hf1). pose proof (newEnt_spec s2 x2) as (_ & -> & _ & Hf2).
  intros Hd. rewrite <- Hd1 in Hf2. rewrite Hd in Hf1, Hf2. congruence.
Qed.

(** ** What buildTree computes

    The content of each directory's tree object as a function of the files
    alone, with the tree objects to store, those below a directory first. *)
Section spec.
Context {R : GoRange}.

Fixpoint tree_of (fuel : nat) (f : gmap bytes gitFile) (dir : bytes) : option (bytes * list (bytes * bytes)) :=
  match fuel with
  | O => None
  | S fuel' =>
      ents ← dirEnts dir f;
      parts ← mapM (fun e =>
        if isDir e then
          '(c, objs) ← tree_of fuel' f (dir ++ base e ++ [slash]);
          Some (tree_entry e (mkObjRef (str "tree") c), objs)
        else Some (tree_entry e (gf_gitHash (fi e)), [])) ents;
      let c := mjoin parts.*1 in
      Some (c, mjoin parts.*2 ++ [(str "tree", c)])
  end.

(** Storing objects. *)
Definition add_object (tb : treeBuilder) (o : bytes * bytes) : treeBuilder :=
  let h := mkObjRef o.1 o.2 in
  match hashSet tb !! h with
  | Some _ => tb
  | None => MkTB (tb_f tb) (<[h := MkObject o.1 o.2 h]> (hashSet tb)) (hashes tb ++ [h])
  end.
Definition add_objects : list (bytes * bytes) -> treeBuilder -> treeBuilder :=
  fun objs tb => fold_left add_object objs tb.

Definition nonzero (o : bytes * bytes) : Prop := mkObjRef o.1 o.2 <> replicate 20 nul.

Lemma addHash_add o tb :
  nonzero o -> addHash (mkObjRef o.1 o.2) o.1 o.2 tb = Some (tt, add_object tb o).
Proof.
  intros Hz. unfold addHash, add_object. destruct (hashSet tb !! _); [done|]. by rewrite decide_False.
Qed.

Lemma add_object_f tb o : tb_f (add_object tb o) = tb_f tb.
Proof. unfold add_object. by case_match. Qed.
Lemma add_objects_f objs tb : tb_f (add_objects objs tb) = tb_f tb.
Proof.
  unfold add_objects. revert tb. induction objs as [|o objs IH]; intros tb; [done|].
  cbn. by rewrite IH, add_object_f.
Qed.

Lemma add_objects_app a b tb : add_objects (a ++ b) tb = add_objects b (add_objects a tb).
Proof. unfold add_objects. by rewrite fold_left_app. Qed.

Definition clean_names (f : gmap bytes gitFile) : Prop := forall n, is_Some (f !! n) -> nul ∉ n.

Lemma good_base dir f ents e :
  ents_ok dir f ents -> clean_names f -> e ∈ ents -> bad_base (base e) = false /\ nul ∉ base e.
Proof.
  intros Hok Hc He. destruct (ents_sound _ _ _ Hok e He) as (suf & x & Hx & ->).
  pose proof (newEnt_spec suf x) as (Hs & _ & _ & Hsuf).
  assert (nul ∉ base (newEnt suf x)) as Hn.
  { intros Hn. apply (Hc (dir ++ suf)); [by eexists|]. apply elem_of_app. right.
    destruct (isDir (newEnt suf x)); [destruct Hsuf as [? ->]|rewrite Hsuf]; set_solver. }
  split; [|done]. apply bool_decide_eq_false. by intros [].
Qed.

Lemma buildTree_refines {RL : GoRangeLaws R} fuel dir tb c objs :
  clean_names (tb_f tb) -> tree_of fuel (tb_f tb) dir = Some (c, objs) -> Forall nonzero objs ->
  buildTree fuel dir tb = Some (Ok (mkObjRef (str "tree") c), add_objects objs tb).
Proof.
  revert dir tb c objs. induction fuel as [|fuel IH]; intros dir tb c objs Hclean Hs Hnz; [done|].
  cbn [tree_of] in Hs. cbn [buildTree]. unfold pst_bind at 1, pst_get.
  destruct (dirEnts dir (tb_f tb)) as [ents|] eqn:He; [|done].
  apply dirEnts_Some in He as [Hok _]. cbn [mbind option_bind] in Hs.
  destruct (mapM _ ents) as [parts|] eqn:Hp; [|done]. cbn [mbind option_bind] in Hs. cbv zeta in Hs.
  apply (inj Some), pair_equal_spec in Hs as [<- <-].
  assert (forall e, e ∈ ents -> bad_base (base e) = false) as Hgood by (intros; by eapply good_base).
  clear Hok. apply mapM_Some in Hp. apply Forall_app in Hnz as [Hnz [Hz _]%Forall_cons_1].
  assert (forall buf t, tb_f t = tb_f tb ->
    buildTree_loop (buildTree fuel) dir ents buf t =
    addHash (mkObjRef (str "tree") (buf ++ mjoin parts.*1)) (str "tree") (buf ++ mjoin parts.*1)
      (add_objects (mjoin parts.*2) t) ≫= fun r => Some (Ok (mkObjRef (str "tree") (buf ++ mjoin parts.*1)), r.2)) as Hloop.
  { clear Hz. induction Hp as [|e p ents parts Hep Hp IHl]; intros buf t Ht.
    - cbn [buildTree_loop]. change (mjoin (@nil (bytes * list (bytes * bytes))).*1) with (@nil ascii). rewrite app_nil_r.
      unfold pst_bind. cbn. destruct (addHash _ _ _ t) as [[[] ?]|]; done.
    - cbn [buildTree_loop]. rewrite Hgood by (by left). cbn [fmap list_fmap] in Hnz |- *.
      change (mjoin ([p.2] ++ parts.*2)) with (p.2 ++ mjoin parts.*2) in Hnz.
      change (mjoin (p.1 :: parts.*1)) with (p.1 ++ mjoin parts.*1).
      change (mjoin (p.2 :: parts.*2)) with (p.2 ++ mjoin parts.*2).
      apply Forall_app in Hnz as [Hnz1 Hnz2]. rewrite add_objects_app, (app_assoc buf p.1).
      assert (exists h, p.1 = tree_entry e h /\
        (if isDir e then r <-! buildTree fuel (dir ++ base e ++ [slash]) ;;
           pst_ret (map_err (errWrap "failed to build sub-tree") r)
         else pst_ok (gf_gitHash (fi e))) t = Some (Ok h, add_objects p.2 t)) as (h & Hh & Hsub).
      { destruct (isDir e).
        - destruct (tree_of fuel (tb_f tb) _) as [[c' objs']|] eqn:Hc'; [|done].
          apply (inj Some) in Hep as <-. eexists. split; [done|]. unfold pst_bind.
          rewrite (IH _ t c' objs'); [done|by rewrite Ht|by rewrite Ht|done].
        - apply (inj Some) in Hep as <-. by eexists. }
      rewrite (try_ok _ _ _ _ _ Hsub), IHl; [by rewrite Hh|done|by intros; apply Hgood; right|by rewrite add_objects_f, Ht]. }
  rewrite Hloop by done. pose proof (addHash_add (str "tree", mjoin parts.*1)) as Hadd.
  cbn [fst snd app] in Hadd |- *. rewrite Hadd by done. by rewrite add_objects_app.
Qed.
End spec.

(** ** The order of map iteration does not matter *)

Definition keeps_f {A} (m : pst treeBuilder A) : Prop :=
  forall tb a tb', m tb = Some (a, tb') -> tb_f tb' = tb_f tb.

Lemma addHash_keeps h t c : keeps_f (addHash h t c).
Proof. intros tb a tb' H. unfold addHash in H. by case_all H. Qed.

Lemma buildTree_loop_keeps sub dir ents buf :
  (forall d, keeps_f (sub d)) -> keeps_f (buildTree_loop sub dir ents buf).
Proof.
  intros Hsub. revert buf. induction ents as [|e ents IH]; intros buf tb a tb' H; cbn [buildTree_loop] in H.
  - unfold pst_bind in H. destruct (addHash _ _ _ tb) as [[[] t]|] eqn:Ha; [|done].
    apply addHash_keeps in Ha. unfold pst_ok, pst_ret in H. congruence.
  - case_match; [unfold pst_err, pst_ret in H; congruence|].
    unfold pst_try at 1, pst_bind at 1 in H. case_match eqn:Hs; [|done]. destruct p as [r t].
    assert (tb_f t = tb_f tb) as Ht.
    { destruct (isDir e).
      - unfold pst_bind in Hs. destruct (sub _ tb) as [[r' t']|] eqn:Hr; [|done].
        apply Hsub in Hr. unfold pst_ret in Hs. congruence.
      - unfold pst_ok, pst_ret in Hs. congruence. }
    destruct r as [h|]; [|unfold pst_ret in H; congruence].
    apply IH in H. congruence.
Qed.

Lemma buildTree_keeps {R : GoRange} fuel dir : keeps_f (buildTree fuel dir).
Proof.
  revert dir. induction fuel as [|fuel IH]; intros dir tb a tb' H; [done|].
  cbn [buildTree] in H. unfold pst_bind, pst_get in H.
  destruct (dirEnts dir (tb_f tb)); [|done]. by eapply buildTree_loop_keeps in H.
Qed.

Lemma buildTree_loop_ext sub1 sub2 dir f ents1 ents2 buf tb :
  (forall d t, tb_f t = f -> sub1 d t = sub2 d t) -> (forall d, keeps_f (sub2 d)) ->
  Forall2 ent_eq ents1 ents2 -> tb_f tb = f ->
  buildTree_loop sub1 dir ents1 buf tb = buildTree_loop sub2 dir ents2 buf tb.
Proof.
  intros Hsub Hk Hents. revert buf tb.
  induction Hents as [|e1 e2 ents1 ents2 (Hb & Hd & Hf) Hents IH]; intros buf tb Ht; [done|].
  cbn [buildTree_loop]. rewrite Hb. destruct (bad_base (base e2)); [done|].
  unfold pst_try, pst_bind, tree_entry, tree_mode. rewrite Hb, <- Hd.
  destruct (isDir e1).
  - rewrite Hsub by done. destruct (sub2 _ tb) as [[[h|] t]|] eqn:Hs; [|done..].
    cbn. apply IH. apply Hk in Hs. congruence.
  - rewrite Hf by done. cbn. by apply IH.
Qed.

Lemma dirEnts_order (R1 R2 : GoRange) dir f :
  GoRangeLaws R1 -> GoRangeLaws R2 ->
  option_Forall2 (Forall2 ent_eq) (dirEnts (R := R1) dir f) (dirEnts (R := R2) dir f).
Proof.
  intros L1 L2. destruct (dirEnts (R := R1) dir f) as [e1|] eqn:H1.
  - apply dirEnts_Some in H1 as [H1 Hc]. destruct (dirEnts_total (R := R2) dir f Hc) as [e2 H2].
    rewrite H2. apply dirEnts_Some in H2 as [H2 _]. constructor. by eapply ents_ok_unique.
  - destruct (dirEnts (R := R2) dir f) as [e2|] eqn:H2; [|constructor].
    apply dirEnts_Some in H2 as [_ Hc]. destruct (dirEnts_total (R := R1) dir f Hc). congruence.
Qed.

(** C25: the git tree does not depend on the order in which Go ranges over
    its maps: however both orders are chosen, [buildTree] returns the same
    hash or error, stores the same objects in the same order, or panics. *)
Theorem buildTree_deterministic (R1 R2 : GoRange) fuel dir tb :
  GoRangeLaws R1 -> GoRangeLaws R2 ->
  buildTree (R := R1) fuel dir tb = buildTree (R := R2) fuel dir tb.
Proof.
  intros L1 L2. revert dir tb. induction fuel as [|fuel IH]; intros dir tb; [done|].
  cbn [buildTree]. unfold pst_bind, pst_get.
  destruct (dirEnts_order R1 R2 dir (tb_f tb) L1 L2) as [e1 e2 He|]; [|done].
  eapply buildTree_loop_ext; [by intros; apply IH| |done|done]. intros d. apply buildTree_keeps.
Qed.

(** ** Reading back what was built *)

(** No file name is a directory of another. *)
Definition no_conflict (f : gmap bytes gitFile) : Prop :=
  forall n1 n2, is_Some (f !! n1) -> is_Some (f !! n2) -> ~ (n1 ++ [slash]) `prefix_of` n2.

Lemma no_conflict_compatible f dir : no_conflict f -> compatible dir (map_to_list f).
Proof.
  intros Hnc s1 f1 s2 f2 H1%elem_of_map_to_list H2%elem_of_map_to_list Hb.
  pose proof (newEnt_spec s1 f1) as (_ & _ & _ & E1). pose proof (newEnt_spec s2 f2) as (_ & _ & _ & E2).
  destruct (isDir (newEnt s1 f1)), (isDir (newEnt s2 f2)); try done; exfalso.
  - destruct E1 as [rest E1]. apply (Hnc (dir ++ s2) (dir ++ s1)); [by eexists..|].
    exists rest. rewrite E1, Hb, <- E2. by simplify_list_eq.
  - destruct E2 as [rest E2]. apply (Hnc (dir ++ s1) (dir ++ s2)); [by eexists..|].
    exists rest. rewrite E2, <- Hb, <- E1. by simplify_list_eq.
Qed.

Lemma parse_tree_entries (l : list (dirEnt * bytes)) fuel :
  length l <= fuel -> Forall (fun p => nul ∉ base p.1 /\ length p.2 = 20) l ->
  parse_tree fuel (mjoin ((fun p => tree_entry p.1 p.2) <$> l)) =
  Some ((fun p => (tree_mode p.1, base p.1, p.2)) <$> l).
Proof.
  revert fuel. induction l as [|[e h] l IH]; intros fuel Hf Hl; [by destruct fuel|].
  destruct fuel as [|fuel]; cbn in Hf; [lia|]. apply Forall_cons in Hl as [[Hb Hh] Hl].
  cbn [fst snd] in Hb, Hh.
  change (mjoin ((fun p => tree_entry p.1 p.2) <$> (e, h) :: l))
    with (tree_entry e h ++ mjoin ((fun p => tree_entry p.1 p.2) <$> l)).
  set (rest := mjoin _). unfold tree_entry. rewrite <- !app_assoc, <- app_comm_cons.
  change (str " ") with [" "%char]. cbn [app].
  assert (" "%char ∉ tree_mode e) as Hsp.
  { unfold tree_mode. destruct (isDir e); [|destruct (Z.land _ _ =? 0)%Z]; by_decide. }
  assert (tree_mode e ++ " "%char :: base e ++ nul :: h ++ rest <> []) as Hne by (by destruct (tree_mode e)).
  cbn [parse_tree]. destruct (tree_mode e ++ _) eqn:Hs; [done|]. rewrite <- Hs.
  change (str " ") with [" "%char]. rewrite Cut_byte by done. cbn [mbind option_bind].
  rewrite Cut_byte by done. cbn [mbind option_bind].
  rewrite decide_False by (rewrite length_app; lia).
  rewrite <- Hh, drop_app_length, take_app_length. subst rest. rewrite IH; [done|lia|done].
Qed.

(** The mode git records for a file. *)
Definition file_mode (x : gitFile) : bytes :=
  if (Z.land (gf_mode x) execBits =? 0)%Z then str "100644" else str "100755".

Section read.
Context {R : GoRange} {RL : GoRangeLaws R}.
Context (f : gmap bytes gitFile) (Hclean : clean_names f) (Hnc : no_conflict f).

Lemma mkObjRef_length t c : length (mkObjRef t c) = 20.
Proof. apply sha1_length. Qed.

(** The lines of a tree object, with the tree that each directory has. *)
Lemma tree_of_lines fuel dir c objs :
  (forall n x, f !! n = Some x -> length (gf_gitHash x) = 20) ->
  tree_of fuel f dir = Some (c, objs) ->
  exists ents hs, ents_ok dir f ents /\ length hs = length ents /\ (str "tree", c) ∈ objs /\
    parse_tree (length c) c = Some (zip_with (fun e h => (tree_mode e, base e, h)) ents hs) /\
    (forall i e h, ents !! i = Some e -> hs !! i = Some h ->
      if isDir e then exists fuel' c' objs', tree_of fuel' f (dir ++ base e ++ [slash]) = Some (c', objs') /\
        h = mkObjRef (str "tree") c' /\ objs' ⊆ objs
      else h = gf_gitHash (fi e)).
Proof.
  intros Hlen H. destruct fuel as [|fuel]; [done|]. cbn [tree_of] in H.
  destruct (dirEnts dir f) as [ents|] eqn:He; [|done].
  apply dirEnts_Some in He as [Hok _]. cbn [mbind option_bind] in H.
  destruct (mapM _ ents) as [parts|] eqn:Hp; [|done]. cbn [mbind option_bind] in H. cbv zeta in H.
  apply (inj Some), pair_equal_spec in H as [<- <-]. apply mapM_Some in Hp.
  assert (exists hs, length hs = length ents /\ parts.*1 = zip_with tree_entry ents hs /\
    (forall i e h, ents !! i = Some e -> hs !! i = Some h ->
      if isDir e then exists c' objs', tree_of fuel f (dir ++ base e ++ [slash]) = Some (c', objs') /\
        h = mkObjRef (str "tree") c' /\ objs' ⊆ mjoin parts.*2
      else h = gf_gitHash (fi e))) as (hs & Hl & Hparts & Hhs).
  { clear Hok. induction Hp as [|e p ents parts Hep Hp IH]; [by exists []|].
    destruct IH as (hs & Hl & Hparts & Hhs).
    destruct (isDir e) eqn:Hd.
    - destruct (tree_of fuel f _) as [[c' objs']|] eqn:Hc'; [|done]. apply (inj Some) in Hep as <-.
      exists (mkObjRef (str "tree") c' :: hs). split; [cbn; lia|]. split; [cbn; by rewrite <- Hparts|].
      intros [|i] e' h' He' Hh'; cbn in He', Hh'; simplify_eq.
      + rewrite Hd. exists c', objs'. split_and!; [done..|]. apply list_subseteq_app_l. done.
      + specialize (Hhs _ _ _ He' Hh'). destruct (isDir e'); [|done].
        destruct Hhs as (c2 & o2 & ? & ? & ?). exists c2, o2. split_and!; [done..|]. by apply list_subseteq_app_r.
    - apply (inj Some) in Hep as <-. exists (gf_gitHash (fi e) :: hs).
      split; [cbn; lia|]. split; [cbn; by rewrite <- Hparts|].
      intros [|i] e' h' He' Hh'; cbn in He', Hh'; simplify_eq; [by rewrite Hd|].
      by apply (Hhs i). }
  exists ents, hs. split_and!; [done..|set_solver| |].
  - rewrite Hparts. 
    replace (zip_with tree_entry ents hs) with ((fun p => tree_entry p.1 p.2) <$> zip ents hs)
      by (rewrite (zip_with_zip tree_entry); by apply list_fmap_ext; intros ? []).
    replace (zip_with _ ents hs) with ((fun p => (tree_mode p.1, base p.1, p.2)) <$> zip ents hs)
      by (rewrite (zip_with_zip (fun e h => (tree_mode e, base e, h))); by apply list_fmap_ext; intros ? []).
    apply parse_tree_entries.
    + generalize (zip ents hs). intros l. induction l as [|[e h] l IHl]; [done|].
      change (mjoin _) with (tree_entry e h ++ mjoin ((fun p => tree_entry p.1 p.2) <$> l)).
      rewrite length_app. cbn [length]. assert (1 <= length (tree_entry e h)); [|lia].
      unfold tree_entry. rewrite !length_app. cbn. lia.
    + apply Forall_lookup. intros i [e h] Hi. apply lookup_zip_with_Some in Hi as (e' & h' & [= <- <-] & Hei & Hhi).
      cbn. pose proof (list_elem_of_lookup_2 _ _ _ Hei) as Hin.
      split; [by eapply good_base|]. specialize (Hhs _ _ _ Hei Hhi). destruct (isDir e) eqn:Hd.
      * destruct Hhs as (? & ? & _ & -> & _). apply mkObjRef_length.
      * rewrite Hhs. destruct (ents_sound _ _ _ Hok _ Hin) as (s & x & Hx & ->).
        pose proof (newEnt_spec s x) as (_ & -> & _). by eapply Hlen.
  - intros i e h Hei Hhi. specialize (Hhs _ _ _ Hei Hhi). destruct (isDir e); [|done].
    destruct Hhs as (c' & o' & ? & ? & ?). exists fuel, c', o'. split_and!; [done..|set_solver].
Qed.

Context (m : gmap bytes object).
Definition stored (o : bytes * bytes) : Prop :=
  m !! mkObjRef o.1 o.2 = Some (MkObject o.1 o.2 (mkObjRef o.1 o.2)).

Lemma tree_mode_dir e : tree_mode e = str "40000" <-> isDir e = true.
Proof. unfold tree_mode. destruct (isDir e); [done|]. by destruct (Z.land _ _ =? 0)%Z. Qed.

Lemma tree_mode_file e : isDir e = false -> tree_mode e = file_mode (fi e).
Proof. unfold tree_mode, file_mode. by intros ->. Qed.

Lemma newEnt_join s segs x :
  slash ∉ s -> base (newEnt (join_byte slash (s :: segs)) x) = s /\
  isDir (newEnt (join_byte slash (s :: segs)) x) = negb (bool_decide (segs = [])).
Proof.
  intros Hs. unfold newEnt. destruct segs as [|s' segs]; cbn [join_byte].
  - by rewrite Cut_byte_None.
  - by rewrite Cut_byte.
Qed.

Lemma git_read_tree fuel dir c objs segs :
  (forall n x, f !! n = Some x ->
    gf_gitHash x = mkObjRef (str "blob") (gf_contents x) /\ stored (str "blob", gf_contents x)) ->
  Forall stored objs -> tree_of fuel f dir = Some (c, objs) ->
  segs <> [] -> Forall (fun s => slash ∉ s) segs ->
  git_read m (mkObjRef (str "tree") c) segs =
  (fun x => (file_mode x, gf_contents x)) <$> f !! (dir ++ join_byte slash segs).
Proof.
  intros Hblobs Hst Ht Hne Hsegs. revert fuel dir c objs Hst Ht Hne.
  induction Hsegs as [|s segs Hs Hsegs IH]; intros fuel dir c objs Hst Ht Hne; [done|clear Hne].
  destruct (tree_of_lines fuel dir c objs) as (ents & hs & Hok & Hl & Hin & Hparse & Hhs); [|done|].
  { intros n x Hx. destruct (Hblobs _ _ Hx) as [-> _]. apply mkObjRef_length. }
  cbn [git_read]. rewrite Forall_forall in Hst. pose proof (Hst _ Hin) as Htree. unfold stored in Htree.
  cbn [fst snd] in Htree. rewrite Htree. cbn [mbind option_bind o_typ o_content].
  rewrite decide_False by (intros H; by apply H). rewrite Hparse. cbn [mbind option_bind].
  destruct (list_find _ _) as [[i [[mode b] h]]|] eqn:Hfind; cbn [mbind option_bind].
  - apply list_find_Some in Hfind as (Hi & Hb & _). cbn in Hb. subst b.
    apply lookup_zip_with_Some in Hi as (e & h' & [[-> Hb]%pair_equal_spec ->]%pair_equal_spec & Hei & Hhi).
    specialize (Hhs _ _ _ Hei Hhi). pose proof (list_elem_of_lookup_2 _ _ _ Hei) as He.
    destruct (ents_sound _ _ _ Hok _ He) as (suf & x & Hx & ->). subst s.
    pose proof (newEnt_spec suf x) as (_ & Hfi & _ & Hsuf).
    pose proof (tree_mode_dir (newEnt suf x)) as Hmode.
    destruct (isDir (newEnt suf x)) eqn:Hd.
    + rewrite decide_True by (by apply Hmode). destruct Hsuf as [rest Hsuf].
      destruct Hhs as (fuel' & c' & objs' & Hsub & -> & Hobjs). destruct segs as [|s' segs].
      * cbn [git_read join_byte]. destruct (f !! (dir ++ base (newEnt suf x))) as [y|] eqn:Hy; [|done].
        exfalso. eapply (Hnc _ (dir ++ suf)); [by eexists|by eexists|].
        exists rest. rewrite <- !app_assoc. cbn [app]. by f_equal.
      * rewrite (IH fuel' (dir ++ base (newEnt suf x) ++ [slash]) c' objs'); [|by apply Forall_forall; intros; apply Hst, Hobjs|done|done].
        cbn [join_byte]. by rewrite <- !app_assoc.
    + rewrite decide_False by (by rewrite Hmode). rewrite Hfi in Hhs. rewrite Hsuf in Hx.
      destruct segs as [|s' segs]; [rewrite decide_True by done|rewrite decide_False by done].
      * destruct (Hblobs _ _ Hx) as [Hh Hblob]. unfold stored in Hblob. cbn [fst snd] in Hblob.
        rewrite Hhs, Hh, Hblob. cbn [mbind option_bind o_typ o_content].
        rewrite decide_True by done. cbn [join_byte]. rewrite Hx. cbn.
        rewrite tree_mode_file by done. by rewrite Hfi.
      * cbn [join_byte]. destruct (f !! (dir ++ _ ++ _)) as [y|] eqn:Hy; [|done].
        exfalso. eapply Hnc; [exists x; exact Hx|exists y; exact Hy|].
        exists (join_byte slash (s' :: segs)). by rewrite <- !app_assoc.
  - destruct (f !! _) as [x|] eqn:Hx; [|done]. exfalso.
    destruct (ents_complete _ _ _ Hok _ _ Hx) as (e & He & Hb & _).
    rewrite (proj1 (newEnt_join _ _ _ Hs)) in Hb.
    apply list_elem_of_lookup in He as [i Hi].
    destruct (lookup_lt_is_Some_2 hs i) as [h Hh]; [rewrite Hl; by eapply lookup_lt_Some|].
    apply list_find_None in Hfind. rewrite Forall_lookup in Hfind.
    eapply (Hfind i (tree_mode e, base e, h)); [|exact Hb]. rewrite lookup_zip_with, Hi, Hh. done.
Qed.

Lemma tree_of_total fuel dir :
  0 < fuel -> (forall n, is_Some (f !! n) -> dir `prefix_of` n -> length n < length dir + fuel) ->
  exists r, tree_of fuel f dir = Some r.
Proof.
  revert dir. induction fuel as [|fuel IH]; intros dir Hf Hlen; [lia|]. cbn [tree_of].
  destruct (dirEnts_total dir f) as [ents He]; [by apply no_conflict_compatible|].
  rewrite He. cbn [mbind option_bind]. apply dirEnts_Some in He as [Hok _].
  assert (is_Some (mapM (fun e => if isDir e then
      '(c, objs) ← tree_of fuel f (dir ++ base e ++ [slash]);
      Some (tree_entry e (mkObjRef (str "tree") c), objs)
    else Some (tree_entry e (gf_gitHash (fi e)), [])) ents)) as [parts Hp].
  { apply mapM_is_Some_2, Forall_forall. intros e He. unfold compose. cbv beta. destruct (isDir e) eqn:Hd; [|by eexists].
    destruct (ents_sound _ _ _ Hok _ He) as (suf & x & Hx & ->).
    pose proof (newEnt_spec suf x) as (_ & _ & _ & Hsuf). rewrite Hd in Hsuf. destruct Hsuf as [rest Hsuf].
    pose proof (Hlen (dir ++ suf) ltac:(by eexists) ltac:(by eexists)) as Hl.
    rewrite Hsuf in Hl. rewrite !length_app in Hl. cbn in Hl.
    destruct (IH (dir ++ base (newEnt suf x) ++ [slash])) as [[c objs] ->]; [lia| |by eexists].
    intros n Hn Hpre. specialize (Hlen n Hn). rewrite !length_app. cbn.
    assert (dir `prefix_of` n) as Hd' by (by eapply prefix_app_l). specialize (Hlen Hd'). lia. }
  rewrite Hp. by eexists.
Qed.
End read.

(** ** Adding files, building the tree, and reading it *)

(** A sequence of [addFile] calls, until one fails. *)
Fixpoint addFiles (l : list (bytes * res bytes * Z)) : pst treeBuilder (res unit) :=
  match l with
  | [] => pst_ok tt
  | (name, open, mode) :: l' => u <-? addFile name open mode ;; addFiles l'
  end.

Definition opened (l : list (bytes * bytes * Z)) : list (bytes * res bytes * Z) :=
  (fun '(n, c, mode) => (n, Ok c, mode)) <$> l.

(** The files by name: the last one added with each name. *)
Definition git_file (c : bytes) (mode : Z) : gitFile := MkGitFile c mode (mkObjRef (str "blob") c).
Definition git_files (l : list (bytes * bytes * Z)) : gmap bytes gitFile :=
  fold_left (fun m '(n, c, mode) => <[n := git_file c mode]> m) l ∅.

(** The objects that a run stores: the files' blobs and the trees. *)
Definition all_objects {R : GoRange} (fuel : nat) (l : list (bytes * bytes * Z)) : list (bytes * bytes) :=
  ((fun '(_, c, _) => (str "blob", c)) <$> l) ++ default [] (snd <$> tree_of fuel (git_files l) []).

(** SHA-1 neither collides on these objects nor maps one to 20 zeros. *)
Definition sha1_ok (X : list (bytes * bytes)) : Prop :=
  Forall nonzero X /\
  Forall (fun a => Forall (fun b => mkObjRef a.1 a.2 = mkObjRef b.1 b.2 -> a = b) X) X.

#[export] Instance sha1_ok_dec X : Decision (sha1_ok X).
Proof. unfold sha1_ok, nonzero. apply _. Defined.

(** The objects of the builder are among [X]. *)
Definition within (X : list (bytes * bytes)) (tb : treeBuilder) : Prop :=
  forall h o, hashSet tb !! h = Some o -> exists p, p ∈ X /\ h = mkObjRef p.1 p.2 /\ o = MkObject p.1 p.2 h.

(** [hashes] lists the keys of [hashSet], each once. *)
Definition indexed (tb : treeBuilder) : Prop :=
  NoDup (hashes tb) /\ forall h, h ∈ hashes tb <-> is_Some (hashSet tb !! h).

Lemma add_object_indexed tb p : indexed tb -> indexed (add_object tb p).
Proof.
  intros [Hnd Hi]. unfold add_object. destruct (hashSet tb !! _) eqn:Ho; [done|]. split; cbn [hashes hashSet].
  - apply NoDup_app. split_and!; [done| |apply NoDup_singleton].
    intros h Hh ->%list_elem_of_singleton. apply Hi in Hh as [? ?]. congruence.
  - intros h. rewrite elem_of_app, list_elem_of_singleton, (Hi h), lookup_insert_is_Some.
    destruct (decide (mkObjRef p.1 p.2 = h)); naive_solver.
Qed.

Lemma add_objects_indexed objs tb : indexed tb -> indexed (add_objects objs tb).
Proof.
  revert tb. induction objs as [|p objs IH]; intros tb Hi; [done|]. by apply IH, add_object_indexed.
Qed.

Lemma add_object_within X tb p :
  sha1_ok X -> p ∈ X -> within X tb ->
  within X (add_object tb p) /\ hashSet tb ⊆ hashSet (add_object tb p) /\
  stored (hashSet (add_object tb p)) p.
Proof.
  intros [_ Hinj] Hp Hw. unfold add_object, stored.
  destruct (hashSet tb !! mkObjRef p.1 p.2) as [o|] eqn:Ho.
  - split_and!; [done..|]. rewrite Ho. destruct (Hw _ _ Ho) as (q & Hq & Hh & ->).
    rewrite Forall_forall in Hinj. specialize (Hinj _ Hp). rewrite Forall_forall in Hinj.
    by rewrite (Hinj _ Hq Hh).
  - cbn [hashSet]. split_and!.
    + intros h o H. cbn [hashSet] in H. apply lookup_insert_Some in H as [[<- <-]|[_ H]]; [by exists p|by apply Hw].
    + by apply insert_subseteq.
    + by rewrite lookup_insert_eq.
Qed.

Lemma stored_weaken m m' o : m ⊆ m' -> stored m o -> stored m' o.
Proof. intros Hm Ho. by eapply lookup_weaken. Qed.

Lemma add_objects_within X objs tb :
  sha1_ok X -> objs ⊆ X -> within X tb ->
  hashSet tb ⊆ hashSet (add_objects objs tb) /\ Forall (stored (hashSet (add_objects objs tb))) objs /\
  within X (add_objects objs tb).
Proof.
  intros HX. revert tb. induction objs as [|p objs IH]; intros tb Hsub Hw; [done|].
  apply list_subseteq_cons_iff in Hsub as [Hp Hsub].
  destruct (add_object_within X tb p HX Hp Hw) as (Hw' & Hle & Hst).
  destruct (IH _ Hsub Hw') as (Hle' & Hst' & Hw2). split; [by etrans|]. split; [|done].
  constructor; [|done]. by eapply stored_weaken.
Qed.

Lemma addFiles_spec X l tb :
  sha1_ok X -> ((fun '(_, c, _) => (str "blob", c)) <$> l) ⊆ X -> within X tb -> indexed tb ->
  (forall n x, tb_f tb !! n = Some x -> gf_gitHash x = mkObjRef (str "blob") (gf_contents x) /\
     stored (hashSet tb) (str "blob", gf_contents x)) ->
  exists tb', addFiles (opened l) tb = Some (Ok tt, tb') /\ within X tb' /\ indexed tb' /\
    tb_f tb' = fold_left (fun m '(n, c, mode) => <[n := git_file c mode]> m) l (tb_f tb) /\
    (forall n x, tb_f tb' !! n = Some x -> gf_gitHash x = mkObjRef (str "blob") (gf_contents x) /\
       stored (hashSet tb') (str "blob", gf_contents x)).
Proof.
  intros HX. revert tb. induction l as [|[[n c] mode] l IH]; intros tb Hsub Hw Hi Hb; [by exists tb|].
  apply list_subseteq_cons_iff in Hsub as [Hp Hsub].
  set (tb1 := MkTB (<[n := git_file c mode]> (tb_f tb)) (hashSet tb) (hashes tb)).
  destruct (add_object_within X tb1 _ HX Hp) as (Hw' & Hle & Hst); [done|].
  destruct (IH (add_object tb1 (str "blob", c)) Hsub Hw') as (tb' & Hrun & Hrest).
  { by apply add_object_indexed. }
  { rewrite add_object_f. intros n' x Hx. cbn [tb1 tb_f] in Hx.
    apply lookup_insert_Some in Hx as [[<- <-]|[_ Hx]]; [done|]. destruct (Hb _ _ Hx) as [? ?]. split; [done|]. by eapply stored_weaken. }
  rewrite add_object_f in Hrest. exists tb'. split; [|done].
  change (opened ((n, c, mode) :: l)) with ((n, Ok c, mode) :: opened l). cbn [addFiles].
  erewrite try_ok; [exact Hrun|]. unfold addFile. cbv zeta. unfold pst_bind at 1, pst_modify.
  change (MkTB _ _ _) with tb1. unfold pst_bind. pose proof (addHash_add (str "blob", c) tb1) as Ha.
  cbn [fst snd] in Ha. rewrite Ha; [done|]. destruct HX as [HX _]. rewrite Forall_forall in HX. by apply HX.
Qed.

Lemma tree_of_types {R : GoRange} fuel f dir c objs :
  tree_of fuel f dir = Some (c, objs) -> Forall (fun o => o.1 = str "tree") objs.
Proof.
  revert dir c objs. induction fuel as [|fuel IH]; intros dir c objs H; [done|]. cbn [tree_of] in H.
  destruct (dirEnts dir f) as [ents|]; [|done]. cbn [mbind option_bind] in H.
  destruct (mapM _ ents) as [parts|] eqn:Hp; [|done]. cbn [mbind option_bind] in H. cbv zeta in H.
  apply (inj Some), pair_equal_spec in H as [_ <-]. apply Forall_app. split; [|by repeat constructor].
  apply mapM_Some in Hp. induction Hp as [|e p ents parts Hep _ IHp]; [constructor|].
  change (mjoin (p :: parts).*2) with (p.2 ++ mjoin parts.*2). apply Forall_app. split; [|done].
  destruct (isDir e).
  - destruct (tree_of fuel f _) as [[c' objs']|] eqn:Ht; [|done]. apply (inj Some) in Hep as <-. by eapply IH.
  - apply (inj Some) in Hep as <-. constructor.
Qed.

Lemma all_objects_types {R : GoRange} fuel l :
  Forall (fun o => o.1 = str "blob" \/ o.1 = str "tree") (all_objects fuel l).
Proof.
  unfold all_objects. apply Forall_app. split.
  - apply Forall_fmap, Forall_forall. intros [[n c] mode] _. by left.
  - destruct (tree_of fuel (git_files l) []) as [[c objs]|] eqn:Ht; [|constructor].
    eapply Forall_impl; [by eapply tree_of_types|]. by right.
Qed.

(** What the run leaves in the builder: all objects, under their hashes. *)
Lemma build_run {R : GoRange} {RL : GoRangeLaws R} fuel (l : list (bytes * bytes * Z)) :
  clean_names (git_files l) -> no_conflict (git_files l) ->
  0 < fuel -> (forall n, is_Some (git_files l !! n) -> length n < fuel) ->
  sha1_ok (all_objects fuel l) ->
  exists tb c objs tb', addFiles (opened l) newTreeBuilder = Some (Ok tt, tb) /\ tb_f tb = git_files l /\
    buildTree fuel [] tb = Some (Ok (mkObjRef (str "tree") c), tb') /\
    tree_of fuel (git_files l) [] = Some (c, objs) /\ objs ⊆ all_objects fuel l /\
    within (all_objects fuel l) tb' /\ indexed tb' /\ Forall (stored (hashSet tb')) objs /\
    forall n x, git_files l !! n = Some x ->
      gf_gitHash x = mkObjRef (str "blob") (gf_contents x) /\ stored (hashSet tb') (str "blob", gf_contents x).
Proof.
  intros Hclean Hnc Hf Hlen Hsha. unfold all_objects in *.
  destruct (tree_of_total (git_files l) Hnc fuel []) as [[c objs] Ht]; [done|by intros n Hn _; apply Hlen|].
  rewrite Ht in *.
  set (blobs := (fun '(_, c, _) => (str "blob", c)) <$> l) in *.
  change (default [] (snd <$> Some (c, objs))) with objs in *. set (X := blobs ++ objs) in *.
  destruct (addFiles_spec X l newTreeBuilder Hsha) as (tb & Hadd & Hw & Hi & Htf & Hb).
  { by apply list_subseteq_app_l. }
  { intros h o Ho. change (hashSet newTreeBuilder) with (∅ : gmap bytes object) in Ho. by rewrite lookup_empty in Ho. }
  { split; [constructor|]. intros h. change (hashSet newTreeBuilder) with (∅ : gmap bytes object).
    rewrite lookup_empty. split; [by intros ?%elem_of_nil|by intros [? ?]]. }
  { intros n x Hx. change (tb_f newTreeBuilder) with (∅ : gmap bytes gitFile) in Hx. by rewrite lookup_empty in Hx. }
  change (tb_f tb = git_files l) in Htf.
  destruct (add_objects_within X objs tb Hsha) as (Hle & Hst & Hw'); [by apply list_subseteq_app_r|done|].
  exists tb, c, objs, (add_objects objs tb). split_and!; try done.
  - apply buildTree_refines; rewrite ?Htf; [done..|].
    destruct Hsha as [Hnz _]. by apply Forall_app in Hnz as [_ ?].
  - by apply list_subseteq_app_r.
  - by apply add_objects_indexed.
  - intros n x Hx. rewrite <- Htf in Hx. destruct (Hb _ _ Hx) as [? ?]. split; [done|]. by eapply stored_weaken.
Qed.

(** C26: a git tree built from files gives the files back.  Adding files and
    building their tree succeeds; reading any path below the tree by git's
    rules then finds exactly the file last added with that name, with its
    contents and its executable bit, and no other path finds a file; given
    that names are free of NULs and no file is a directory of another, that
    SHA-1 does not collide on the objects stored, and more fuel than the
    longest name has bytes. *)
Theorem buildTree_reads_back {R : GoRange} {RL : GoRangeLaws R} fuel (l : list (bytes * bytes * Z)) :
  clean_names (git_files l) -> no_conflict (git_files l) ->
  0 < fuel -> (forall n, is_Some (git_files l !! n) -> length n < fuel) ->
  sha1_ok (all_objects fuel l) ->
  exists h tb', (addFiles (opened l) ;;! buildTree fuel []) newTreeBuilder = Some (Ok h, tb') /\
    forall segs, segs <> [] -> Forall (fun s => slash ∉ s) segs ->
      git_read (hashSet tb') h segs =
      (fun x => (file_mode x, gf_contents x)) <$> git_files l !! join_byte slash segs.
Proof.
  intros Hclean Hnc Hf Hlen Hsha.
  destruct (build_run fuel l) as (tb & c & objs & tb' & Hadd & _ & Hbuild & Ht & _ & _ & _ & Hst & Hb); [done..|].
  exists (mkObjRef (str "tree") c), tb'. split; [by rewrite (bind_some _ _ _ _ _ Hadd)|].
  intros segs Hne Hsegs. by apply (git_read_tree _ Hclean Hnc _ fuel [] _ objs).
Qed.

(** Two directories and an executable, as in a module. *)
Definition test_git_files : list (bytes * bytes * Z) :=
  [(str "mod", str "module m", 420%Z); (str "zip/a/x.go", str "package a", 420%Z);
   (str "zip/a.go", str "package m", 420%Z); (str "zip/run.sh", str "#!/bin/sh", 493%Z)].

Lemma git_names_decide (P : bytes -> Prop) l :
  Forall P (l.*1).*1 -> forall n, is_Some (git_files l !! n) -> P n.
Proof.
  unfold git_files. assert (forall n, is_Some ((∅ : gmap bytes gitFile) !! n) -> P n) as Hm.
  { intros n [x Hx]. by rewrite lookup_empty in Hx. }
  revert Hm. generalize (∅ : gmap bytes gitFile). intros m Hm HP. revert m Hm.
  induction l as [|[[n c] mode] l IH]; intros m Hm; [done|].
  cbn in HP. apply Forall_cons in HP as [Hn HP].
  cbn [fold_left]. apply IH; [done|]. intros n' [x [[<- _]|[_ Hx]]%lookup_insert_Some]; [done|]. eauto.
Qed.

Lemma buildTree_reads_back_witness :
  exists h tb', (addFiles (opened test_git_files) ;;! buildTree (R := some_range) 20 []) newTreeBuilder = Some (Ok h, tb') /\
    forall segs, segs <> [] -> Forall (fun s => slash ∉ s) segs ->
      git_read (hashSet tb') h segs =
      (fun x => (file_mode x, gf_contents x)) <$> git_files test_git_files !! join_byte slash segs.
Proof.
  apply (buildTree_reads_back (RL := some_range_laws)).
  - intros n. apply (git_names_decide (fun n => nul ∉ n)). by_decide.
  - intros n1 n2 H1 H2. 
    apply (git_names_decide (fun n1 => Forall (fun n2 => ~ (n1 ++ [slash]) `prefix_of` n2) (test_git_files.*1).*1)) in H1; [|by_decide].
    apply (git_names_decide (fun n2 => n2 ∈ (test_git_files.*1).*1)) in H2; [|by_decide].
    rewrite Forall_forall in H1. by apply H1.
  - lia.
  - apply (git_names_decide (fun n => length n < 20)). by_decide.
  - by_decide.
Defined.

Lemma buildTree_deterministic_witness :
  buildTree (R := some_range) 20 [] (MkTB (git_files test_git_files) ∅ []) =
  buildTree (R := other_range) 20 [] (MkTB (git_files test_git_files) ∅ []).
Proof. apply (buildTree_deterministic _ _ 20 [] _ some_range_laws other_range_laws). Defined.
