(* ===== verification/GitPack.v ===== *)
(** * store/gitstore/gitstore.go: pack files, and sending objects to git

    The writer of git's pack format, and [sendToGit], which asks git which
    of the builder's objects it lacks and sends it those in one pack.
    [read_pack] is the specification: the format as git documents it. *)

From S2P Require Import Prelude GoStrings Sha GitTree.

Local Open Scope gomodfs_scope.

(** ** What the program takes from elsewhere *)

(** compress/zlib: what a zlib writer, written to once and closed, writes. *)
Class Zlib := { zlib_compress : bytes -> bytes }.

(** Reading a zlib stream at the start of a byte string: a zlib stream
    delimits itself. *)
Class ZlibLaws (Z : Zlib) := {
  zlib_inflate : bytes -> option (bytes * bytes);
  zlib_inflate_compress : forall s rest, zlib_inflate (zlib_compress s ++ rest) = Some (s, rest) }.

(** The git commands, on the repository's state [G]: each gives what the
    command prints on its standard output, or an error when it fails. *)
Class Git (G : Type) := {
  (** [git cat-file --batch-check] and [git index-pack --stdin]. *)
  git_batch_check : bytes -> st G (res bytes);
  git_index_pack : bytes -> st G (res unit);
  (** [git update-ref <ref> <hash>], [git hash-object -w --stdin]. *)
  git_update_ref : bytes -> bytes -> st G (res unit);
  git_hash_object : bytes -> st G (res bytes);
  (** [git ls-tree -t -r --format=... <tree>], [git for-each-ref
      --format=... refs/gomod/]. *)
  git_ls_tree : bytes -> st G (res bytes);
  git_for_each_ref : st G (res bytes);
  (** What [git cat-file --batch] answers to a line of its input. *)
  git_cat_file : bytes -> st G bytes }.

(** ** The pack writer *)

Definition objTree : Z := 2.
Definition objBlob : Z := 3.

(** [buf] is what was written, [s1] what was hashed. *)
Record packWriter := MkPack { pw_s1 : bytes; pw_closed : bool; pw_buf : bytes }.

(** [packWriter.Write]; its result is whether it failed. *)
Definition pw_Write (p : bytes) (pw : packWriter) : packWriter * bool :=
  if pw_closed pw then (pw, false)
  else (MkPack (pw_s1 pw ++ p) (pw_closed pw) (pw_buf pw ++ p), true).

Definition newPackWriter (numObjs : nat) : packWriter :=
  (pw_Write (str "PACK" ++ be_bytes 4 2 ++ be_bytes 4 (u32 (Z.of_nat numObjs))) (MkPack [] false [])).1.

(** The loop over the remaining bits of an object's size; [fuel] bounds the
    number of bytes. *)
Fixpoint size_bytes (fuel : nat) (size : Z) : bytes :=
  match fuel with
  | O => []
  | S fuel' =>
      if (size =? 0)%Z then []
      else
        let b := Z.land size 127 in
        let size' := Z.shiftr size 7 in
        byte_of (if (size' =? 0)%Z then b else Z.lor b 128) :: size_bytes fuel' size'
  end.

(** The header of an object: its type and size. *)
Definition object_header (typ size : Z) : bytes :=
  let firstSizeBits := Z.land size 15 in
  let size' := Z.shiftr size 4 in
  let firstByte := Z.lor (Z.shiftl (Z.land typ 7) 4) firstSizeBits in
  byte_of (if (size' =? 0)%Z then firstByte else Z.lor firstByte 128) :: size_bytes 10 size'.

Section pack.
Context {Zl : Zlib}.

(** The zlib writer writes to [pw] in pieces, here in one; the result of
    writing the header is dropped. *)
Definition writePackObject (obj : object) : pst packWriter (res unit) := fun pw =>
  let run typ :=
    let pw := (pw_Write (object_header typ (Z.of_nat (length (o_content obj)))) pw).1 in
    let '(pw, ok) := pw_Write (zlib_compress (o_content obj)) pw in
    Some (if ok then Ok tt else Err (errText "failed to write pack object content"), pw) in
  if decide (o_typ obj = str "tree") then run objTree
  else if decide (o_typ obj = str "blob") then run objBlob
  else None.

(** [packWriter.Close]: it tests [s1], which is never nil. *)
Definition pw_Close (pw : packWriter) : packWriter :=
  MkPack (pw_s1 pw) true (pw_buf pw ++ sha1 (pw_s1 pw)).

(** ** Sending objects to git *)

Record sendToGitStats := MkStats { Trees : Z; TreeBytes : Z; Blobs : Z; BlobBytes : Z }.

Definition count_object (obj : object) (s : sendToGitStats) : sendToGitStats :=
  let n := Z.of_nat (length (o_content obj)) in
  if decide (o_typ obj = str "blob") then
    MkStats (Trees s) (TreeBytes s) (i64 (Blobs s + 1)) (i64 (BlobBytes s + n))
  else MkStats (i64 (Trees s + 1)) (i64 (TreeBytes s + n)) (Blobs s) (BlobBytes s).

(** [hex.Decode(ref[:], src)] into a zero [objRef]: a short source leaves
    zeros, and writing past the 20 bytes panics. *)
Definition hex_Decode20 (src : bytes) : option (res bytes) :=
  match hex_decode (take 40 src) with
  | None => Some (Err (errText "encoding/hex: invalid"))
  | Some b =>
      if decide (length src <= 40)%nat then Some (Ok (b ++ replicate (20 - length b) nul))
      else match hex_decode (take 2 (drop 40 src)) with
           | Some _ => None
           | None => Some (Err (errText "encoding/hex: invalid"))
           end
  end.

(** The lines that a bufio.Scanner finds: without their newline and one
    carriage return before it, an unterminated last line if not empty. *)
Definition trim_cr (s : bytes) : bytes := TrimSuffix s [byte_of 13].
Definition scan_lines (s : bytes) : list bytes :=
  let l := split_byte nl s in
  trim_cr <$> match last l with Some [] => take (length l - 1) l | _ => l end.

(** The hashes of the lines "<hash> missing".  A line of 64 KiB or more ends
    the scan with an error. *)
Fixpoint missing_refs (lines : list bytes) : option (res (list bytes)) :=
  match lines with
  | [] => Some (Ok [])
  | line :: lines' =>
      if decide (65536 <= Z.of_nat (length line))%Z then Some (Err (errText "token too long")) else
      match CutSuffix line (str " missing") with
      | None => missing_refs lines'
      | Some hash =>
          r ← hex_Decode20 hash;
          match r with
          | Err e => Some (Err (errWrap "error decoding hash" e))
          | Ok ref => l ← missing_refs lines'; Some (l' ← l; Ok (ref :: l'))
          end
      end
  end.

(** The loop over the missing objects. *)
Fixpoint write_missing (m : gmap bytes object) (missing : list bytes) (s : sendToGitStats)
    : pst packWriter (res sendToGitStats) :=
  match missing with
  | [] => pst_ok s
  | hash :: missing' =>
      match m !! hash with
      | None => pst_err (errText "missing hash not found in treeBuilder")
      | Some obj =>
          if decide (o_typ obj <> str "blob" /\ o_typ obj <> str "tree") then
            pst_err (errText "unknown object type")
          else
            u <-? writePackObject obj ;; write_missing m missing' (count_object obj s)
      end
  end.

Context {G : Type} {Gi : Git G}.

Definition sendToGit (tb : treeBuilder) : pst G (res sendToGitStats) := fun g =>
  let st := MkStats 0 0 0 0 in
  let '(r, g) := git_batch_check (mjoin ((fun h => hex_encode h ++ [nl]) <$> hashes tb)) g in
  match r with
  | Err e => Some (Err e, g)
  | Ok stdout =>
      r ← missing_refs (scan_lines stdout);
      match r with
      | Err e => Some (Err e, g)
      | Ok [] => Some (Ok st, g)
      | Ok missing =>
          '(r, pw) ← write_missing (hashSet tb) missing st (newPackWriter (length missing));
          match r with
          | Err e => Some (Err e, g)
          | Ok st =>
              let '(r, g) := git_index_pack (pw_buf (pw_Close pw)) g in
              Some (_ ← r; Ok st, g)
          end
      end
  end.
End pack.

(** ** The format, read *)

(** The rest of a size: seven bits a byte, the lowest first, while the top
    bit is set. *)
Fixpoint read_size (shift : Z) (acc : Z) (s : bytes) : option (Z * bytes) :=
  match s with
  | [] => None
  | c :: s' =>
      let v := byte_val c in
      let acc := (acc + Z.shiftl (v mod 128) shift)%Z in
      if (v <? 128)%Z then Some (acc, s') else read_size (shift + 7) acc s'
  end.

(** Type and size of an object. *)
Definition read_header (s : bytes) : option (Z * Z * bytes) :=
  match s with
  | [] => None
  | c :: s' =>
      let v := byte_val c in
      let typ := ((v / 16) mod 8)%Z in
      if (v <? 128)%Z then Some (typ, v mod 16, s')%Z
      else '(size, s'') ← read_size 4 (v mod 16)%Z s'; Some (typ, size, s'')
  end.

Section read_pack.
Context {Zl : Zlib} {ZL : ZlibLaws Zl}.

Fixpoint read_objects (n : nat) (s : bytes) : option (list (Z * bytes) * bytes) :=
  match n with
  | O => Some ([], s)
  | S n' =>
      '(typ, size, s) ← read_header s;
      '(content, s) ← zlib_inflate s;
      if decide (Z.of_nat (length content) <> size) then None else
      '(l, s) ← read_objects n' s;
      Some ((typ, content) :: l, s)
  end.

(** A pack: its magic, version and number of objects, the objects, and the
    SHA-1 of all of that; nothing after it. *)
Definition read_pack (s : bytes) : option (list (Z * bytes)) :=
  s' ← CutPrefix s (str "PACK" ++ be_bytes 4 2);
  '(l, rest) ← read_objects (Z.to_nat (be_val (take 4 s'))) (drop 4 s');
  if decide (rest = sha1 (take (length s - 20) s)) then Some l else None.
End read_pack.

(** ** Headers *)

Lemma lor_disjoint a b : Z.land a b = 0%Z -> Z.lor a b = (a + b)%Z.
Proof. intros H. by rewrite Z.add_nocarry_lxor, Z.lxor_lor. Qed.

Lemma lor_128 b : (0 <= b < 128)%Z -> Z.lor b 128 = (b + 128)%Z.
Proof.
  intros Hb. apply lor_disjoint. change 128%Z with (2 ^ 7)%Z.
  apply Z.bits_inj'. intros n Hn. rewrite Z.land_spec, Z.bits_0, Z.pow2_bits_eqb by lia.
  destruct (Z.eqb_spec 7 n) as [<-|]; [|apply andb_false_r].
  rewrite andb_true_r. destruct (decide (b = 0)%Z) as [->|]; [done|].
  apply Z.bits_above_log2; [lia|]. apply Z.log2_lt_pow2; lia.
Qed.

Lemma size_bytes_step n : (0 < n)%Z ->
  let b := (n mod 128)%Z in let n' := (n / 128)%Z in
  Z.land n 127 = b /\ Z.shiftr n 7 = n' /\ (0 <= n')%Z /\ (0 <= b < 128)%Z /\ (n = 128 * n' + b)%Z.
Proof.
  intros Hn b n'. split_and!.
  - change 127%Z with (Z.ones 7). by rewrite Z.land_ones.
  - by rewrite Z.shiftr_div_pow2.
  - apply Z.div_pos; lia.
  - apply Z.mod_pos_bound. lia.
  - apply Z.mod_pos_bound. lia.
  - apply Z.div_mod. lia.
Qed.

Lemma byte_continue b (last : bool) :
  (0 <= b < 128)%Z -> byte_val (byte_of (if last then b else Z.lor b 128)) = (if last then b else b + 128)%Z.
Proof. intros Hb. destruct last; [|rewrite lor_128 by done]; rewrite byte_val_of, Z.mod_small; lia. Qed.

Lemma read_size_bytes fuel n shift acc rest :
  (0 < n < 2 ^ (7 * Z.of_nat fuel))%Z -> (0 <= shift)%Z ->
  read_size shift acc (size_bytes fuel n ++ rest) = Some (acc + n * 2 ^ shift, rest)%Z.
Proof.
  revert n shift acc. induction fuel as [|fuel IH]; intros n shift acc Hn Hs; [cbn in Hn; lia|].
  cbn [size_bytes]. destruct (Z.eqb_spec n 0); [lia|].
  destruct (size_bytes_step n ltac:(lia)) as (-> & -> & Hn' & Hb & Hsplit).
  set (b := (n mod 128)%Z) in *. set (n' := (n / 128)%Z) in *.
  cbn [app read_size]. rewrite byte_continue by done.
  destruct (Z.eqb_spec n' 0) as [Hz|Hz].
  - rewrite (proj2 (Z.ltb_lt b 128)) by lia. rewrite Z.mod_small by lia. rewrite Z.shiftl_mul_pow2 by done.
    destruct fuel; cbn [size_bytes app]; rewrite ?(proj2 (Z.eqb_eq n' 0)) by done; do 2 f_equal; nia.
  - rewrite (proj2 (Z.ltb_ge (b + 128) 128)) by lia.
    replace ((b + 128) mod 128)%Z with b by (rewrite <- (Z.mod_small b 128) at 1 by lia;
      rewrite <- Zplus_mod_idemp_r; change (128 mod 128)%Z with 0%Z; by rewrite Z.add_0_r).
    rewrite IH; [|split; [lia|]|lia].
    + rewrite Z.shiftl_mul_pow2, Z.pow_add_r by lia. do 2 f_equal. rewrite Hsplit. ring.
    + apply Z.div_lt_upper_bound; [lia|]. replace (7 * Z.of_nat (S fuel))%Z with (7 + 7 * Z.of_nat fuel)%Z in Hn by lia.
      rewrite Z.pow_add_r in Hn by lia. lia.
Qed.

Lemma read_object_header typ size rest :
  (0 <= typ < 8)%Z -> (0 <= size < 2 ^ 63)%Z ->
  read_header (object_header typ size ++ rest) = Some (typ, size, rest).
Proof.
  intros Ht Hs. unfold object_header. cbv zeta.
  assert (Z.land typ 7 = typ) as ->.
  { change 7%Z with (Z.ones 3). rewrite Z.land_ones by lia. by apply Z.mod_small. }
  assert (Z.land size 15 = (size mod 16)%Z) as ->.
  { change 15%Z with (Z.ones 4). by rewrite Z.land_ones by lia. }
  rewrite Z.shiftr_div_pow2 by lia. change (2 ^ 4)%Z with 16%Z.
  pose proof (Z.mod_pos_bound size 16 ltac:(lia)) as Hb. pose proof (Z.div_mod size 16 ltac:(lia)) as Hsplit.
  set (b := (size mod 16)%Z) in *. set (n := (size / 16)%Z) in *.
  assert (0 <= n < 2 ^ 59)%Z as Hn by (split; [apply Z.div_pos; lia|apply Z.div_lt_upper_bound; lia]).
  assert (Z.lor (Z.shiftl typ 4) b = 16 * typ + b)%Z as ->.
  { rewrite lor_disjoint; [rewrite Z.shiftl_mul_pow2; lia|].
    apply Z.bits_inj'. intros i Hi. rewrite Z.land_spec, Z.bits_0.
    destruct (Z.ltb_spec i 4).
    - by rewrite Z.shiftl_spec_low by lia.
    - assert (Z.testbit b i = false) as ->; [|apply andb_false_r].
      destruct (decide (b = 0)%Z) as [->|]; [apply Z.bits_0|].
      apply Z.bits_above_log2; [lia|]. assert (Z.log2 b < 4)%Z; [|lia]. apply Z.log2_lt_pow2; lia. }
  cbn [app read_header]. rewrite byte_continue by lia.
  assert (forall k, (k = 0 \/ k = 128)%Z -> ((16 * typ + b + k) / 16 mod 8 = typ /\ (16 * typ + b + k) mod 16 = b)%Z) as Hk.
  { intros k Hk. assert ((16 * typ + b + k) = (typ + k / 16) * 16 + b)%Z as -> by (destruct Hk as [->| ->]; [change (0 / 16)%Z with 0%Z|change (128 / 16)%Z with 8%Z]; lia).
    rewrite Z.div_add_l, (Z.div_small b 16), Z.add_0_r by lia.
    split; [|by rewrite (Z.add_comm _ b), Z.mod_add, Z.mod_small by lia].
    destruct Hk as [->| ->]; [by rewrite Z.add_0_r, Z.mod_small by lia|].
    change (128 / 16)%Z with (1 * 8)%Z. rewrite Z.mod_add, Z.mod_small by lia. done. }
  destruct (Z.eqb_spec n 0) as [Hz|Hz].
  - destruct (Hk 0%Z ltac:(by left)) as [H1 H2]. rewrite Z.add_0_r in H1, H2.
    rewrite (proj2 (Z.ltb_lt _ 128)) by lia. rewrite H1, H2, Hz. cbn. do 3 f_equal. lia.
  - destruct (Hk 128%Z ltac:(by right)) as [H1 H2].
    rewrite (proj2 (Z.ltb_ge _ 128)) by lia. rewrite H1, H2.
    rewrite read_size_bytes by (cbn; lia). cbn [mbind option_bind]. do 3 f_equal. lia.
Qed.

(** ** What sendToGit sends *)

Section send.
Context {Zl : Zlib} {ZL : ZlibLaws Zl} {G : Type} {Gi : Git G}.

Definition type_no (o : object) : Z := if decide (o_typ o = str "tree") then objTree else objBlob.

(** An object that git can store. *)
Definition sendable (o : object) : Prop :=
  (o_typ o = str "blob" \/ o_typ o = str "tree") /\ (Z.of_nat (length (o_content o)) < 2 ^ 63)%Z.

#[export] Instance sendable_dec o : Decision (sendable o).
Proof. unfold sendable. apply _. Defined.

Definition packed (o : object) : bytes :=
  object_header (type_no o) (Z.of_nat (length (o_content o))) ++ zlib_compress (o_content o).

Lemma writePackObject_spec o buf :
  sendable o -> writePackObject o (MkPack buf false buf) =
    Some (Ok tt, MkPack (buf ++ packed o) false (buf ++ packed o)).
Proof.
  intros [Ho _]. unfold writePackObject, packed, type_no. rewrite app_assoc.
  destruct (decide (o_typ o = str "tree")) as [Ht|Ht]; [done|].
  destruct Ho as [Hb|]; [|done]. by rewrite decide_True.
Qed.

(** What the statistics of a pack are: its trees and blobs and the bytes
    of their contents, at the width of Go's integers. *)
Definition of_type (t : bytes) (objs : list object) : list object := filter (fun o => o_typ o = t) objs.
Definition content_bytes (objs : list object) : Z := Z.of_nat (length (mjoin (o_content <$> objs))).
Definition pack_stats (objs : list object) : sendToGitStats :=
  let trees := of_type (str "tree") objs in
  let blobs := of_type (str "blob") objs in
  MkStats (i64 (Z.of_nat (length trees))) (i64 (content_bytes trees))
    (i64 (Z.of_nat (length blobs))) (i64 (content_bytes blobs)).

Lemma content_bytes_snoc objs o :
  content_bytes (objs ++ [o]) = (content_bytes objs + Z.of_nat (length (o_content o)))%Z.
Proof.
  unfold content_bytes. rewrite fmap_app, join_app. cbn [fmap list_fmap].
  change (mjoin [o_content o]) with (o_content o ++ []). rewrite app_nil_r, length_app. lia.
Qed.

Lemma of_type_snoc t objs o :
  of_type t (objs ++ [o]) = of_type t objs ++ (if decide (o_typ o = t) then [o] else []).
Proof. unfold of_type. by rewrite filter_app. Qed.

Lemma count_object_snoc objs o : sendable o -> count_object o (pack_stats objs) = pack_stats (objs ++ [o]).
Proof.
  intros [Ho _]. unfold count_object, pack_stats. rewrite !of_type_snoc.
  cbn [Trees TreeBytes Blobs BlobBytes]. destruct Ho as [-> | ->].
  - rewrite !(decide_True (P := str "blob" = str "blob")), !(decide_False (P := str "blob" = str "tree")),
      app_nil_r, length_app, content_bytes_snoc, !i64_add_l by done.
    by rewrite Nat2Z.inj_add.
  - rewrite !(decide_False (P := str "tree" = str "blob")), !(decide_True (P := str "tree" = str "tree")),
      app_nil_r, length_app, content_bytes_snoc, !i64_add_l by done.
    by rewrite Nat2Z.inj_add.
Qed.

Lemma write_missing_spec m missing objs sent buf :
  Forall2 (fun h o => m !! h = Some o /\ sendable o) missing objs ->
  write_missing m missing (pack_stats sent) (MkPack buf false buf) =
    Some (Ok (pack_stats (sent ++ objs)),
          MkPack (buf ++ mjoin (packed <$> objs)) false (buf ++ mjoin (packed <$> objs))).
Proof.
  intros H. revert sent buf. induction H as [|h o missing objs [Hm Ho] H IH]; intros sent buf.
  { cbn [write_missing fmap list_fmap]. change (mjoin []) with (@nil ascii). by rewrite !app_nil_r. }
  cbn [write_missing]. rewrite Hm. rewrite decide_False by (destruct Ho as [[] _]; naive_solver).
  rewrite (try_ok _ _ _ _ _ (writePackObject_spec o buf Ho)).
  change (mjoin (packed <$> o :: objs)) with (packed o ++ mjoin (packed <$> objs)).
  rewrite app_assoc, count_object_snoc, IH by done. by rewrite <- app_assoc.
Qed.

Lemma read_objects_packed objs rest :
  Forall sendable objs ->
  read_objects (length objs) (mjoin (packed <$> objs) ++ rest) =
  Some ((fun o => (type_no o, o_content o)) <$> objs, rest).
Proof.
  induction 1 as [|o objs [_ Hlen] _ IH]; [done|].
  change (mjoin (packed <$> o :: objs)) with (packed o ++ mjoin (packed <$> objs)).
  unfold packed at 1. rewrite <- !app_assoc. cbn [length read_objects].
  rewrite read_object_header; [|unfold type_no, objTree, objBlob; case_decide; lia|lia].
  cbn [mbind option_bind]. rewrite zlib_inflate_compress. cbn [mbind option_bind].
  rewrite decide_False by (intros Hn; by apply Hn). by rewrite IH.
Qed.

(** A pack written for any objects reads back as these objects. *)
Lemma read_pack_written objs :
  Forall sendable objs -> (Z.of_nat (length objs) < 2 ^ 32)%Z ->
  let hdr := str "PACK" ++ be_bytes 4 2 ++ be_bytes 4 (u32 (Z.of_nat (length objs))) in
  let body := hdr ++ mjoin (packed <$> objs) in
  read_pack (pw_buf (pw_Close (MkPack body false body))) = Some ((fun o => (type_no o, o_content o)) <$> objs).
Proof.
  intros Hs Hn. rewrite u32_small by lia. intros hdr body. cbn [pw_Close pw_buf pw_s1]. unfold read_pack.
  assert (body ++ sha1 body = (str "PACK" ++ be_bytes 4 2) ++
    (be_bytes 4 (Z.of_nat (length objs)) ++ mjoin (packed <$> objs) ++ sha1 body)) as Hbody.
  { subst body hdr. by rewrite <- !app_assoc. }
  rewrite Hbody at 1. rewrite CutPrefix_app. cbn [mbind option_bind].
  rewrite (take_app_length' (be_bytes 4 _)), (drop_app_length' (be_bytes 4 _)) by (by rewrite be_bytes_length).
  rewrite be_val_u32 by lia. rewrite Nat2Z.id, read_objects_packed by done. cbn [mbind option_bind].
  rewrite decide_True; [done|]. f_equal. rewrite length_app, sha1_length.
  rewrite take_app_length'; [done|lia].
Qed.

(** What [git cat-file --batch-check] prints: for each line of its input, a
    line that says that the object is missing, or that describes it. *)
Definition batch_check_output (has : bytes -> option bytes) (hs : list bytes) : bytes :=
  mjoin ((fun h => hex_encode h ++ str " " ++ default (str "missing") (has h) ++ [nl]) <$> hs).

Definition good_desc (d : bytes) : Prop :=
  nl ∉ d /\ last d <> Some (byte_of 13) /\ ~ str " missing" `suffix_of` (str " " ++ d) /\ (Z.of_nat (length d) < 60000)%Z.

#[export] Instance good_desc_dec d : Decision (good_desc d).
Proof. unfold good_desc. apply _. Defined.

Lemma scan_lines_lines ls :
  Forall (fun l => nl ∉ l /\ last l <> Some (byte_of 13)) ls ->
  scan_lines (mjoin ((fun l => l ++ [nl]) <$> ls)) = ls.
Proof.
  intros Hls. unfold scan_lines. rewrite split_byte_lines by (by eapply Forall_impl; [exact Hls|intros ? []]).
  cbv zeta. rewrite last_snoc, length_app. cbn [length].
  replace (length ls + 1 - 1) with (length ls) by lia. rewrite take_app_length.
  induction Hls as [|l ls [_ Hl] _ IH]; [done|].
  rewrite fmap_cons, IH. f_equal.
  unfold trim_cr, TrimSuffix. destruct (CutSuffix l [byte_of 13]) as [r|] eqn:Hc; [|done].
  apply CutSuffix_Some in Hc. exfalso. apply Hl. by rewrite Hc, last_snoc.
Qed.

Lemma hex_Decode20_encode h : length h = 20 -> hex_Decode20 (hex_encode h) = Some (Ok h).
Proof.
  intros Hh. unfold hex_Decode20. pose proof (hex_encode_length h) as Hl. rewrite Hh in Hl.
  rewrite take_ge by lia. rewrite hex_decode_encode, decide_True by lia. rewrite Hh. cbn.
  by rewrite app_nil_r.
Qed.

Lemma hex_encode_digits h :
  Forall (fun c => 48 <= byte_val c <= 57 \/ 97 <= byte_val c <= 102)%Z (hex_encode h).
Proof.
  assert (forall d, (0 <= d < 16)%Z ->
    (48 <= byte_val (hex_digit d) <= 57 \/ 97 <= byte_val (hex_digit d) <= 102)%Z) as Hd.
  { intros d Hd. unfold hex_digit. destruct (Z.ltb_spec d 10); rewrite byte_val_of, Z.mod_small; lia. }
  induction h as [|c h IH]; [constructor|]. rewrite hex_encode_cons. pose proof (byte_val_range c).
  apply Forall_cons. split; [apply Hd|apply Forall_cons; split; [apply Hd|done]].
  - split; [apply Z.div_pos; lia|apply Z.div_lt_upper_bound; lia].
  - apply Z.mod_pos_bound. lia.
Qed.

Lemma hex_encode_chars h : Forall (fun c => (48 <= byte_val c)%Z) (hex_encode h).
Proof. eapply Forall_impl; [apply hex_encode_digits|]. cbv beta. lia. Qed.

Lemma missing_refs_output has hs :
  Forall (fun h => length h = 20) hs -> (forall h d, has h = Some d -> good_desc d) ->
  missing_refs (scan_lines (batch_check_output has hs)) = Some (Ok (filter (fun h => has h = None) hs)).
Proof.
  intros Hhs Hgood. unfold batch_check_output.
  set (line := fun h => hex_encode h ++ str " " ++ default (str "missing") (has h)).
  assert ((fun h => hex_encode h ++ str " " ++ default (str "missing") (has h) ++ [nl]) <$> hs =
    (fun l => l ++ [nl]) <$> (line <$> hs)) as ->.
  { rewrite <- list_fmap_compose. apply list_fmap_ext. intros i h _. unfold line, compose. by rewrite <- !app_assoc. }
  assert (forall h, let d := default (str "missing") (has h) in nl ∉ d /\ last d <> Some (byte_of 13) /\ (Z.of_nat (length d) < 60000)%Z) as Hd.
  { intros h. destruct (has h) as [d|] eqn:Hh; cbn; [|split_and!; by_decide].
    by destruct (Hgood _ _ Hh) as (? & ? & _ & ?). }
  rewrite scan_lines_lines.
  2:{ apply Forall_fmap, Forall_forall. intros h _. destruct (Hd h) as (Hn & Hl & _). unfold line. split.
      - rewrite !not_elem_of_app. split_and!; [|by_decide|done]. intros Hin.
        pose proof (hex_encode_chars h) as Hc. rewrite Forall_forall in Hc. specialize (Hc _ Hin). by vm_compute in Hc.
      - rewrite app_assoc, last_app. destruct (last _) eqn:Hlast; [congruence|].
        by rewrite last_app. }
  induction Hhs as [|h hs Hh _ IH]; [done|]. cbn [fmap list_fmap missing_refs].
  destruct (Hd h) as (_ & _ & Hlen).
  rewrite decide_False by (unfold line; rewrite !length_app, hex_encode_length; change (length (str " ")) with 1; lia).
  rewrite filter_cons. unfold line at 1. destruct (has h) as [d|] eqn:Hhas.
  - rewrite decide_False by done. cbn [default]. change (from_option id _ (Some d)) with d.
    destruct (CutSuffix _ (str " missing")) as [r|] eqn:Hc; [|exact IH].
    apply CutSuffix_Some in Hc. destruct (Hgood _ _ Hhas) as (_ & _ & Hns & _). exfalso. apply Hns.
    destruct (suffix_weak_total (str " missing") (str " " ++ d) (hex_encode h ++ str " " ++ d)) as [Hs|[k Hk]];
      [by exists r|by apply suffix_app_r|done|].
    destruct k as [|c k]; [by rewrite Hk|].
    change (str " missing") with (" "%char :: str "missing") in Hk. apply (f_equal tail) in Hk. cbn [tail app] in Hk.
    exfalso. assert (" "%char ∉ str "missing") as Hsp by by_decide. apply Hsp. rewrite Hk.
    apply elem_of_app. right. apply elem_of_app. left. by left.
  - rewrite decide_True by done. change (default (str "missing") None) with (str "missing").
    change (str " " ++ str "missing") with (str " missing"). rewrite CutSuffix_app.
    rewrite hex_Decode20_encode by done. cbn [mbind option_bind]. rewrite IH. done.
Qed.

(** The builder's hashes are those of objects it holds. *)
Definition sane (tb : treeBuilder) : Prop :=
  Forall (fun h => length h = 20 /\ exists o, hashSet tb !! h = Some o /\ sendable o) (hashes tb).

Definition batch_check_input (hs : list bytes) : bytes := mjoin ((fun h => hex_encode h ++ [nl]) <$> hs).

Lemma sendToGit_lemma tb (g g1 : G) has :
  sane tb -> (Z.of_nat (length (hashes tb)) < 2 ^ 32)%Z -> (forall h d, has h = Some d -> good_desc d) ->
  git_batch_check (batch_check_input (hashes tb)) g = (Ok (batch_check_output has (hashes tb)), g1) ->
  match filter (fun h => has h = None) (hashes tb) with
  | [] => sendToGit tb g = Some (Ok (MkStats 0 0 0 0), g1)
  | missing => exists pack objs,
      Forall2 (fun h o => hashSet tb !! h = Some o) missing objs /\
      read_pack pack = Some ((fun o => (type_no o, o_content o)) <$> objs) /\
      sendToGit tb g = let '(r, g2) := git_index_pack pack g1 in Some (_ ← r; Ok (pack_stats objs), g2)
  end.
Proof.
  intros Hsane Hlen Hgood Hcheck. unfold sendToGit. change (mjoin _) with (batch_check_input (hashes tb)).
  rewrite Hcheck. cbv beta iota zeta.
  rewrite missing_refs_output; [|by eapply Forall_impl; [exact Hsane|intros ? []]|done].
  cbn [mbind option_bind]. set (missing := filter _ _).
  assert (exists objs, Forall2 (fun h o => hashSet tb !! h = Some o /\ sendable o) missing objs) as [objs Hobjs].
  { subst missing. clear -Hsane. induction Hsane as [|h hs (_ & o & Ho & Hs) _ [objs IH]]; [by exists []|].
    rewrite filter_cons. destruct (decide _); [|eauto]. exists (o :: objs). by constructor. }
  assert (Z.of_nat (length missing) < 2 ^ 32)%Z as Hlm.
  { pose proof (length_filter (fun h => has h = None) (hashes tb)). fold missing in H. lia. }
  clearbody missing. destruct missing as [|h missing]; [done|].
  set (buf := str "PACK" ++ be_bytes 4 2 ++ be_bytes 4 (u32 (Z.of_nat (length (h :: missing))))).
  change (newPackWriter _) with (MkPack buf false buf).
  change (MkStats 0 0 0 0) with (pack_stats []). rewrite (write_missing_spec _ _ _ [] buf Hobjs).
  cbn [mbind option_bind app].
  eexists _, objs. split; [by eapply Forall2_impl; [exact Hobjs|intros ? ? []]|]. split; [|done].
  subst buf. rewrite (Forall2_length _ _ _ Hobjs) in Hlm |- *. apply read_pack_written; [|done].
  by eapply Forall2_Forall_r; [exact Hobjs|]; apply Forall_forall; intros ? _ ? [].
Qed.

(** C27: [sendToGit] sends git exactly the objects git lacks, in one pack
    that the documented pack format reads back as these objects' types and
    contents, in the order they were built (what a tree names before the
    tree), and sends nothing when git lacks none.  The statistics returned
    are the pack's: how many trees and blobs were sent, each once, and the
    bytes of their contents, at Go's 64 bits. *)
Theorem sendToGit_sends_missing tb (g g1 : G) has :
  sane tb -> (Z.of_nat (length (hashes tb)) < 2 ^ 32)%Z -> (forall h d, has h = Some d -> good_desc d) ->
  git_batch_check (batch_check_input (hashes tb)) g = (Ok (batch_check_output has (hashes tb)), g1) ->
  match filter (fun h => has h = None) (hashes tb) with
  | [] => sendToGit tb g = Some (Ok (MkStats 0 0 0 0), g1)
  | missing => exists pack objs,
      Forall2 (fun h o => hashSet tb !! h = Some o) missing objs /\
      read_pack pack = Some ((fun o => (type_no o, o_content o)) <$> objs) /\
      sendToGit tb g = let '(r, g2) := git_index_pack pack g1 in Some (_ ← r; Ok (pack_stats objs), g2)
  end.
Proof. apply sendToGit_lemma. Qed.
End send.

(** A compression that keeps the bytes, each after a 1, and ends in a 0. *)
Fixpoint mark (s : bytes) : bytes :=
  match s with [] => [byte_of 0] | c :: s' => byte_of 1 :: c :: mark s' end.
Fixpoint unmark (s : bytes) : option (bytes * bytes) :=
  match s with
  | [] => None
  | m :: s' =>
      if decide (m = byte_of 0) then Some ([], s')
      else match s' with c :: s'' => '(a, b) ← unmark s''; Some (c :: a, b) | [] => None end
  end.
#[export] Instance mark_zlib : Zlib := {| zlib_compress := mark |}.
#[export] Instance mark_zlib_laws : ZlibLaws mark_zlib.
Proof.
  refine {| zlib_inflate := unmark |}. intros s rest. induction s as [|c s IH]; [done|].
  cbn [zlib_compress mark_zlib mark app unmark] in *. rewrite decide_False by done. by rewrite IH.
Defined.

(** A repository that has one object, lacks all others, and keeps the packs
    it is sent. *)
Definition one_object (h : bytes) : bytes -> option bytes :=
  fun h' => if decide (h' = h) then Some (str "blob 12") else None.

Definition recording_git (has : bytes -> option bytes) : Git (list bytes) := {|
  git_batch_check := fun input packs =>
    (Ok (batch_check_output has (omap hex_decode (filter (fun l => l <> []) (split_byte nl input)))), packs);
  git_index_pack := fun pack packs => (Ok tt, packs ++ [pack]);
  git_update_ref := fun _ _ packs => (Ok tt, packs);
  git_hash_object := fun _ packs => (Ok [], packs);
  git_ls_tree := fun _ packs => (Ok [], packs);
  git_for_each_ref := fun packs => (Ok [], packs);
  git_cat_file := fun _ packs => ([], packs) |}.

Definition test_builder : treeBuilder :=
  match (addFiles (opened test_git_files) ;;! buildTree (R := some_range) 20 []) newTreeBuilder with
  | Some (_, tb) => tb
  | None => newTreeBuilder
  end.

Lemma sendToGit_sends_missing_witness :
  let has := one_object (mkObjRef (str "blob") (str "package m")) in
  exists h missing pack objs,
    filter (fun h => has h = None) (hashes test_builder) = h :: missing /\
    read_pack pack = Some ((fun o => (type_no o, o_content o)) <$> objs) /\
    sendToGit (Gi := recording_git has) test_builder [] = Some (Ok (pack_stats objs), [pack]) /\
    Trees (pack_stats objs) = 3%Z /\ Blobs (pack_stats objs) = 3%Z.
Proof.
  intros has. pose proof (sendToGit_sends_missing (Gi := recording_git has) test_builder [] [] has) as Hsend.
  assert (exists h missing, filter (fun h => has h = None) (hashes test_builder) = h :: missing) as (h & missing & Hf).
  { eexists _, _. vm_compute. reflexivity. }
  rewrite Hf in Hsend. destruct Hsend as (pack & objs & Hobjs & Hread & Hsend).
  - assert (forall l, forallb (fun h => bool_decide (length h = 20) &&
      match hashSet test_builder !! h with Some o => bool_decide (sendable o) | None => false end) l = true ->
      Forall (fun h => length h = 20 /\ exists o, hashSet test_builder !! h = Some o /\ sendable o) l) as Hall.
    { intros l. rewrite forallb_forall, Forall_forall. intros Hl x Hx%list_elem_of_In.
      specialize (Hl _ Hx). apply andb_prop in Hl as [H1 H2]. apply bool_decide_eq_true in H1.
      destruct (hashSet test_builder !! x) as [o|]; [|done]. apply bool_decide_eq_true in H2. eauto. }
    apply Hall. vm_compute. reflexivity.
  - vm_compute. reflexivity.
  - unfold has, one_object. intros h' d. case_decide; [|done]. intros [= <-]. by_decide.
  - vm_compute. reflexivity.
  - assert (objs = omap (fun h => hashSet test_builder !! h) (h :: missing)) as Hv.
    { clear -Hobjs. induction Hobjs as [|x o l l' Hx _ IH]; [done|]. cbn. by rewrite Hx, IH. }
    rewrite <- Hf in Hv. exists h, missing, pack, objs. split; [done|]. split; [done|].
    split; [by rewrite Hsend|]. rewrite Hv. split; vm_compute; reflexivity.
Defined.
