(* ===== verification/GitCat.v ===== *)
(** * store/gitstore/gitstore.go: reading objects through git cat-file

    The queue of requests that one [git cat-file --batch] helper process
    serves, as a state machine whose steps are the locked sections and the
    channel operations of the goroutines, and the reading of the helper's
    answers. *)

From S2P Require Import Prelude GoStrings GitTree GitPack.

Local Open Scope gomodfs_scope.

(** ** The answers of the helper *)

(** [strings.Fields], for ASCII white space. *)
Fixpoint Fields_loop (s cur : bytes) : list bytes :=
  match s with
  | [] => match cur with [] => [] | _ => [reverse cur] end
  | c :: s' =>
      if is_space c then
        match cur with [] => Fields_loop s' [] | _ => reverse cur :: Fields_loop s' [] end
      else Fields_loop s' (c :: cur)
  end.
Definition Fields (s : bytes) : list bytes := Fields_loop s [].

Definition maxObjSize : Z := 512 * 2 ^ 20.

(** What the batch makes of one answer: an object; [errMissing], after which
    it goes on; or an error, which also ends it. *)
Inductive outcome :=
  | Found (o : object)
  | Missing
  | Failed (e : error).

(** The part of [runCatFileBatch]'s loop that reads the answer, from the
    helper's output; a hash too long for its array panics. *)
Definition read_answer (out : bytes) : option (outcome * bytes) :=
  match Cut out [nl] with
  | None => Some (Failed (errWrap "error reading cat-file header line" EOF), [])
  | Some (line, out) =>
      match Fields line with
      | hash :: objType :: f =>
          if decide (objType = str "missing") then Some (Missing, out) else
          match f with
          | [sizeStr] =>
              match Atoi sizeStr with
              | None => Some (Failed (errText "error parsing size"), out)
              | Some size =>
                  if (size <? 0)%Z || (maxObjSize <? size)%Z then Some (Failed (errText "invalid size"), out)
                  else
                  let size := Z.to_nat size in
                  if decide (length out < size + 1)%nat then
                    Some (Failed (errWrap "error reading cat-file batch output" ErrUnexpectedEOF), [])
                  else if decide (out !! size <> Some nl) then
                    Some (Failed (errText "not terminated with newline"), drop (size + 1) out)
                  else
                  r ← hex_Decode20 hash;
                  match r with
                  | Err e => Some (Failed (errWrap "error decoding hash" e), drop (size + 1) out)
                  | Ok ref => Some (Found (MkObject objType (take size out) ref), drop (size + 1) out)
                  end
              end
          | _ => Some (Failed (errText "unexpected output format w/o 3 fields"), out)
          end
      | _ => Some (Failed (errText "unexpected output format"), out)
      end
  end.

(** [getObject] when the helper serves the request; [want] is absent for
    [anyType]. *)
Definition getObject {G} {Gi : Git G} (rev : bytes) (want : option bytes) : pst G (res object) := fun g =>
  let '(out, g) := git_cat_file (rev ++ [nl]) g in
  r ← read_answer out;
  match r.1 with
  | Failed e => Some (Err e, g)
  | Missing => Some (Err errMissing, g)
  | Found o =>
      match want with
      | Some t => if decide (o_typ o <> t) then Some (Err (errText "unexpected type"), g) else Some (Ok o, g)
      | None => Some (Ok o, g)
      end
  end.

(** How git prints an object, and that there is none. *)
Definition answer_found (hash typ content : bytes) : bytes :=
  hex_encode hash ++ str " " ++ typ ++ str " " ++ Itoa (Z.of_nat (length content)) ++ [nl] ++ content ++ [nl].
Definition answer_missing (rev : bytes) : bytes := rev ++ str " missing" ++ [nl].

Lemma Fields_loop_word w rest cur :
  Forall (fun c => is_space c = false) w -> Fields_loop (w ++ rest) cur = Fields_loop rest (reverse w ++ cur).
Proof.
  intros Hw. revert cur. induction Hw as [|c w Hc _ IH]; intros cur; [done|].
  cbn [app Fields_loop]. rewrite Hc, IH. by rewrite reverse_cons, <- app_assoc.
Qed.

Lemma Fields_word w rest :
  w <> [] -> Forall (fun c => is_space c = false) w -> Fields (w ++ " "%char :: rest) = w :: Fields rest.
Proof.
  intros Hne Hw. unfold Fields. rewrite Fields_loop_word, app_nil_r by done. cbn [Fields_loop].
  change (is_space " ") with true. cbv iota. destruct (reverse w) eqn:Hr.
  - by apply (f_equal reverse) in Hr; rewrite reverse_involutive in Hr.
  - by rewrite <- Hr, reverse_involutive.
Qed.

Lemma Fields_last w : w <> [] -> Forall (fun c => is_space c = false) w -> Fields w = [w].
Proof.
  intros Hne Hw. unfold Fields. rewrite <- (app_nil_r w) at 1. rewrite Fields_loop_word, app_nil_r by done.
  cbn [Fields_loop]. destruct (reverse w) eqn:Hr.
  - by apply (f_equal reverse) in Hr; rewrite reverse_involutive in Hr.
  - by rewrite <- Hr, reverse_involutive.
Qed.

Definition word (w : bytes) : Prop := w <> [] /\ Forall (fun c => is_space c = false) w.

Lemma word_notin w c : word w -> is_space c = true -> c ∉ w.
Proof. intros [_ Hw] Hc Hin. rewrite Forall_forall in Hw. rewrite (Hw _ Hin) in Hc. done. Qed.

Lemma word_hex h : h <> [] -> word (hex_encode h).
Proof.
  intros Hh. split.
  - destruct h; [done|]. by rewrite hex_encode_cons.
  - eapply Forall_impl; [apply hex_encode_chars|]. cbv beta. intros c Hc. unfold is_space. cbv zeta.
    rewrite (proj2 (Z.eqb_neq _ 32)), (proj2 (Z.leb_gt _ 13)) by lia. by rewrite andb_false_r.
Qed.

Lemma word_Itoa n : (0 <= n)%Z -> word (Itoa n).
Proof.
  intros Hn. split.
  - intros H. pose proof (parse_Itoa n Hn) as Hp. unfold Itoa in H.
    rewrite (proj2 (Z.ltb_ge n 0)) in H by lia. by apply itoa_loop_nonempty in H.
  - eapply Forall_impl; [by apply Itoa_digits|]. intros c Hc. unfold is_digit in Hc. unfold is_space.
    apply andb_prop_elim in Hc as [H1%Is_true_true_1 H2%Is_true_true_1]. to_prop.
    rewrite (proj2 (Z.eqb_neq _ 32)), (proj2 (Z.leb_gt _ 13)) by lia. by rewrite andb_false_r.
Qed.

(** An object that git prints is read back, whatever follows it. *)
Lemma read_answer_found hash typ content rest :
  length hash = 20 -> word typ -> typ <> str "missing" -> (Z.of_nat (length content) <= maxObjSize)%Z ->
  read_answer (answer_found hash typ content ++ rest) = Some (Found (MkObject typ content hash), rest).
Proof.
  intros Hh Ht Htm Hlen. unfold read_answer, answer_found.
  assert (word (hex_encode hash)) as Hw by (apply word_hex; by destruct hash).
  set (size := Itoa _). assert (word size) as Hs by (apply word_Itoa; lia).
  change (str " ") with [" "%char].
  replace ((hex_encode hash ++ [" "%char] ++ typ ++ [" "%char] ++ size ++ [nl] ++ content ++ [nl]) ++ rest)
    with ((hex_encode hash ++ [" "%char] ++ typ ++ [" "%char] ++ size) ++ nl :: (content ++ nl :: rest))
    by (rewrite <- !app_assoc; cbn [app]; rewrite <- ?app_assoc; done).
  rewrite Cut_byte.
  2:{ rewrite !not_elem_of_app. split_and!; try (by_decide); by apply word_notin. }
  cbn [app]. destruct Hw, Ht, Hs.
  rewrite Fields_word, Fields_word, Fields_last by done. rewrite decide_False by done.
  subst size. unfold Atoi. rewrite ParseInt_Itoa by (unfold maxObjSize in Hlen; lia).
  rewrite (proj2 (Z.ltb_ge _ 0)), (proj2 (Z.ltb_ge maxObjSize _)) by lia. cbn [orb].
  cbv zeta. rewrite Nat2Z.id. rewrite decide_False by (rewrite length_app; cbn; lia).
  rewrite list_lookup_middle by done. rewrite decide_False by (intros Hn; by apply Hn).
  rewrite hex_Decode20_encode by done. cbn [mbind option_bind].
  rewrite take_app_length. replace (length content + 1) with (length (content ++ [nl])) by (rewrite length_app; done).
  replace (content ++ nl :: rest) with ((content ++ [nl]) ++ rest) by (by rewrite <- app_assoc).
  by rewrite drop_app_length.
Qed.

Lemma read_answer_missing rev rest :
  word rev -> read_answer (answer_missing rev ++ rest) = Some (Missing, rest).
Proof.
  intros Hr. unfold read_answer, answer_missing.
  replace ((rev ++ str " missing" ++ [nl]) ++ rest) with ((rev ++ str " missing") ++ nl :: rest)
    by (rewrite <- !app_assoc; done).
  rewrite Cut_byte. 2:{ rewrite not_elem_of_app. split; [by apply word_notin|by_decide]. }
  change (str " missing") with (" "%char :: str "missing"). destruct Hr.
  rewrite Fields_word by done. rewrite Fields_last; [done|done|by_decide].
Qed.

(** A missing path with a space in it is not taken for missing: the answer
    has one word too many, and the batch ends with an error. *)
Example missing_with_space :
  read_answer (answer_missing (str "4b825dc:zip/a b")) = Some (Failed (errText "error parsing size"), []).
Proof. reflexivity. Qed.

(** ** The queue *)

Module Queue.

(** A request, and its response channel, which has room for one response
    and is known by the number [id]. *)
Record objRequest := MkReq { rev : bytes; stop : bool; id : nat }.

(** Where a [runCatFileBatch] goroutine is: starting the helper process,
    about to try to take a request, waiting for a wake-up, serving a
    request, or returning (after a stop request, whose channel it still has
    to send on). *)
Inductive batch :=
  | Starting
  | Trying
  | Waiting
  | Serving (r : objRequest)
  | Returning (stopped : option objRequest).

(** [pendReq], [catFileBatchRunning] and whether the [wake] channel holds a
    value; the goroutines; and what was sent on the response channels.
    [queued] and [taken] record the numbers of the requests that were put
    in the queue and taken out. *)
Record Storage := MkStorage {
  pendReq : list objRequest;
  catFileBatchRunning : bool;
  wake : bool;
  batches : list batch;
  responses : list (nat * res object);
  queued : list nat;
  taken : list nat }.

Definition init : Storage := MkStorage [] false false [] [] [] [].

(** The zero object, that a stop request's response holds. *)
Definition zero_object : object := MkObject [] [] (replicate 20 nul).

Definition set_batch (i : nat) (b : batch) (d : Storage) : Storage :=
  MkStorage (pendReq d) (catFileBatchRunning d) (wake d) (<[i := b]> (batches d)) (responses d) (queued d) (taken d).
Definition respond (r : objRequest) (x : res object) (d : Storage) : Storage :=
  MkStorage (pendReq d) (catFileBatchRunning d) (wake d) (batches d) (responses d ++ [(id r, x)]) (queued d) (taken d).

Definition startRequest (req : objRequest) (d : Storage) : Storage :=
  if stop req && negb (catFileBatchRunning d) then respond req (Ok zero_object) d
  else
    MkStorage (pendReq d ++ [req]) true true
      (if catFileBatchRunning d then batches d else batches d ++ [Starting])
      (responses d) (queued d ++ [id req]) (taken d).

(** For the goroutine [i], which ends with it; the one it may start is
    added last. *)
Definition noteCatFileBatchDone (i : nat) (d : Storage) : Storage :=
  let others := delete i (batches d) in
  match pendReq d with
  | [] => MkStorage [] (catFileBatchRunning d) true (others ++ [Starting]) (responses d) (queued d) (taken d)
  | _ => MkStorage (pendReq d) false (wake d) others (responses d) (queued d) (taken d)
  end.

Definition tryTakePendingRequest (d : Storage) : option objRequest * Storage :=
  match pendReq d with
  | req :: pend =>
      (Some req, MkStorage pend (catFileBatchRunning d) (wake d) (batches d) (responses d) (queued d) (taken d ++ [id req]))
  | [] => (None, d)
  end.

(** The steps.  [Start]: a caller's [startRequest], on a channel not used
    before.  The others are of the goroutine [i]: the helper process starts
    or fails to; it takes a request, or goes to wait; it is woken, or ten
    seconds pass; it answers what it serves, with an error that ends it or
    not; it sends on a stop request's channel; it returns. *)
Inductive label :=
  | Start (req : objRequest)
  | Started (i : nat) (ok : bool)
  | Take (i : nat)
  | Wake (i : nat)
  | Timeout (i : nat)
  | Answer (i : nat) (out : outcome)
  | Stopped (i : nat)
  | Return_ (i : nat).

Definition used (d : Storage) : list nat := queued d ++ (responses d).*1.

Definition exec (l : label) (d : Storage) : option Storage :=
  match l with
  | Start req => if decide (id req ∈ used d) then None else Some (startRequest req d)
  | Started i ok =>
      match batches d !! i with
      | Some Starting => Some (set_batch i (if ok then Trying else Returning None) d)
      | _ => None
      end
  | Take i =>
      match batches d !! i with
      | Some Trying =>
          let '(r, d) := tryTakePendingRequest d in
          Some (set_batch i (match r with
                             | None => Waiting
                             | Some req => if stop req then Returning (Some req) else Serving req
                             end) d)
      | _ => None
      end
  | Wake i =>
      match batches d !! i with
      | Some Waiting =>
          if wake d then
            Some (set_batch i Trying (MkStorage (pendReq d) (catFileBatchRunning d) false (batches d)
                                        (responses d) (queued d) (taken d)))
          else None
      | _ => None
      end
  | Timeout i =>
      match batches d !! i with
      | Some Waiting => Some (set_batch i (Returning None) d)
      | _ => None
      end
  | Answer i out =>
      match batches d !! i with
      | Some (Serving req) =>
          match out with
          | Found o => Some (set_batch i Trying (respond req (Ok o) d))
          | Missing => Some (set_batch i Trying (respond req (Err errMissing) d))
          | Failed e => Some (set_batch i (Returning None) (respond req (Err e) d))
          end
      | _ => None
      end
  | Stopped i =>
      match batches d !! i with
      | Some (Returning (Some req)) => Some (set_batch i (Returning None) (respond req (Ok zero_object) d))
      | _ => None
      end
  | Return_ i =>
      match batches d !! i with
      | Some (Returning None) => Some (noteCatFileBatchDone i d)
      | _ => None
      end
  end.

Fixpoint run (ls : list label) (d : Storage) : option Storage :=
  match ls with
  | [] => Some d
  | l :: ls' => d' ← exec l d; run ls' d'
  end.

Definition reachable (d : Storage) : Prop := exists ls, run ls init = Some d.

(** The request that a goroutine holds and has not answered. *)
Definition in_flight (b : batch) : list nat :=
  match b with
  | Serving r | Returning (Some r) => [id r]
  | _ => []
  end.

(** At most one goroutine, and one exactly when [catFileBatchRunning]. *)
Definition single (d : Storage) : Prop :=
  length (batches d) = if catFileBatchRunning d then 1 else 0.

Record inv (d : Storage) : Prop := {
  inv_single : single d;
  (** requests leave the queue in the order they entered it *)
  inv_fifo : taken d ++ (id <$> pendReq d) = queued d;
  (** what was taken was answered or is being served, and no channel was
      sent on twice *)
  inv_answered : forall n, n ∈ taken d -> n ∈ (responses d).*1 ++ mjoin (in_flight <$> batches d);
  inv_once : NoDup ((responses d).*1 ++ mjoin (in_flight <$> batches d) ++ (id <$> pendReq d));
  inv_known : forall n, n ∈ mjoin (in_flight <$> batches d) -> n ∈ taken d;
  (** no lost wake-up *)
  inv_wake : Waiting ∈ batches d -> pendReq d <> [] -> wake d = true }.

Definition flight (d : Storage) : list nat := mjoin (in_flight <$> batches d).

Lemma inv_init : inv init.
Proof. split; cbn; try done. constructor. Qed.

(** The state with one goroutine, or none. *)
Lemma single_cases d : single d ->
  (catFileBatchRunning d = false /\ batches d = []) \/
  (catFileBatchRunning d = true /\ exists b, batches d = [b]).
Proof.
  unfold single. destruct (catFileBatchRunning d), (batches d) as [|b [|]]; cbn; intros; try lia; eauto.
Qed.

Lemma startRequest_inv d req : inv d -> id req ∉ used d -> inv (startRequest req d).
Proof.
  intros [Hs Hfifo Ha Ho Hk Hw] Hf. destruct (single_cases d Hs) as [[Hr Hb]|[Hr [b Hb]]];
    destruct d as [p r w bs rs q t]; cbn in *; subst r bs q; unfold startRequest, used in *; cbn in *;
    rewrite ?not_elem_of_app in Hf; destruct Hf as [[Hft Hfp] Hfr].
  - destruct (stop req); split; cbn; rewrite ?fmap_app; cbn; try done.
    + set_solver.
    + rewrite <- app_assoc. cbn. rewrite <- Permutation_middle. constructor; [set_solver|done].
    + by rewrite app_assoc.
    + rewrite app_assoc, NoDup_app. split_and!; [done|set_solver|apply NoDup_singleton].
  - rewrite andb_false_r. rewrite ?app_nil_r in *. split; cbn; rewrite ?fmap_app, ?app_nil_r; cbn; try done.
    + by rewrite app_assoc.
    + rewrite !app_assoc. rewrite app_assoc in Ho. apply NoDup_app. split_and!; [done| |apply NoDup_singleton].
      intros x Hx ->%list_elem_of_singleton. specialize (Hk (id req)). set_solver.
Qed.

Lemma exec_inv d l d' : inv d -> exec l d = Some d' -> inv d'.
Proof.
  intros Hi He. destruct l as [req|i ok|i|i|i|i out|i|i].
  { cbn in He. case_decide; [done|]. injection He as <-. by apply startRequest_inv. }
  all: destruct Hi as [Hs Hfifo Ha Ho Hk Hw]; destruct (single_cases d Hs) as [[Hr Hb]|[Hr [b Hb]]];
    destruct d as [p r w bs rs q t]; cbn in *; subst r bs q; [by destruct i|];
    destruct i as [|i]; [|by destruct i]; cbn in He.
  - destruct b; try done. destruct ok; injection He as <-; split; cbn in *; try done; set_solver.
  - destruct b; try done. unfold tryTakePendingRequest in He. cbn in He.
    destruct p as [|req p]; injection He as <-; [split; cbn in *; rewrite ?app_nil_r in *; done|].
    split; cbn in *.
    + done.
    + rewrite <- app_assoc. done.
    + destruct (stop req); set_solver.
    + by destruct (stop req).
    + destruct (stop req); set_solver.
    + destruct (stop req); set_solver.
  - destruct b; try done. destruct w; [|done]. injection He as <-. split; cbn in *; try done. set_solver.
  - destruct b; try done. injection He as <-. split; cbn in *; try done. set_solver.
  - destruct b as [| | |req|]; try done.
    destruct out; injection He as <-; split; cbn in *; rewrite ?fmap_app, ?app_nil_r in *;
      rewrite <- ?app_assoc; cbn; try done; set_solver.
  - destruct b as [| | | |[req|]]; try done.
    injection He as <-; split; cbn in *; rewrite ?fmap_app, ?app_nil_r in *;
      rewrite <- ?app_assoc; cbn; try done; set_solver.
  - destruct b as [| | | |[req|]]; try done. unfold noteCatFileBatchDone in He. cbn in He.
    destruct p as [|req p]; injection He as <-; split; cbn in *; rewrite ?app_nil_r in *; try done; set_solver.
Qed.

Lemma reachable_inv d : reachable d -> inv d.
Proof.
  intros [ls Hls]. pose proof inv_init as Hi. revert Hi Hls. generalize init.
  induction ls as [|l ls IH]; intros d0 Hi Hls; cbn in Hls; [by simplify_eq|].
  destruct (exec l d0) as [d1|] eqn:He; [|done]. eapply IH; [|exact Hls]. by eapply exec_inv.
Qed.

(** C28: whatever the interleaving of callers and helper processes, at most
    one helper runs, and one exactly while [catFileBatchRunning]; requests
    leave the queue in the order they entered it, none lost or repeated;
    each that left it was answered or is being served; no response channel
    is sent on twice (so none is ever full); and a helper that waits while
    requests are pending has a wake-up to receive. *)
Theorem queue_safe d :
  reachable d ->
  length (batches d) = (if catFileBatchRunning d then 1 else 0) /\
  taken d ++ (id <$> pendReq d) = queued d /\
  (forall n, n ∈ taken d -> n ∈ (responses d).*1 \/ exists b, b ∈ batches d /\ n ∈ in_flight b) /\
  NoDup (responses d).*1 /\
  (forall i, batches d !! i = Some Waiting -> pendReq d <> [] -> is_Some (exec (Wake i) d)).
Proof.
  intros Hr. destruct (reachable_inv d Hr) as [Hs Hfifo Ha Ho Hk Hw]. split_and!; [done|done| | |].
  - intros n Hn. apply Ha, elem_of_app in Hn as [?|Hn]; [by left|right].
    apply list_elem_of_join in Hn as (l & Hn & (b & -> & Hb)%list_elem_of_fmap). eauto.
  - by apply NoDup_app in Ho as (? & _ & _).
  - intros i Hi Hp. cbn. rewrite Hi, Hw; [done| |done]. by eapply list_elem_of_lookup_2.
Qed.

(** The steps of a helper that does not fail, and does not time out. *)
Definition good (l : label) : Prop :=
  match l with
  | Started _ ok => ok = true
  | Take _ | Wake _ => True
  | Answer _ out => forall e, out <> Failed e
  | _ => False
  end.

Definition weight (b : batch) : nat :=
  match b with Starting => 2 | Trying => 1 | Waiting => 0 | Serving _ => 3 | Returning _ => 0 end.

(** A bound on the number of good steps. *)
Definition work (d : Storage) : nat :=
  3 * length (pendReq d) + (if wake d then 2 else 0) + sum_list (weight <$> batches d).

(** A helper runs, is not about to return, and no request is a stop. *)
Record serving (d : Storage) : Prop := {
  srv_running : catFileBatchRunning d = true;
  srv_batch : forall o, Returning o ∉ batches d;
  srv_stop : Forall (fun r => stop r = false) (pendReq d) }.

Lemma good_step d l d' :
  inv d -> serving d -> good l -> exec l d = Some d' ->
  serving d' /\ work d' < work d /\ queued d' = queued d.
Proof.
  intros [Hs _ _ _ _ _] [Hrun Hb Hstop] Hg He.
  destruct (single_cases d Hs) as [[Hr _]|[_ [b Hbs]]]; [congruence|].
  destruct d as [p r w bs rs q t]; cbn in *; subst r bs.
  destruct l as [req|[|i] ok|[|i]|[|i]|i|[|i] out|i|i]; try done; cbn in He.
  - destruct b; try done. cbn in Hg. subst ok. injection He as <-.
    split_and!; [split; cbn; [done|set_solver|done]|unfold work; cbn; lia|done].
  - destruct b; try done. destruct p as [|req p]; cbn in He; injection He as <-.
    + split_and!; [split; cbn; [done|set_solver|done]|unfold work; cbn; lia|done].
    + apply Forall_cons in Hstop as [Hst Hstop]. rewrite Hst.
      split_and!; [split; cbn; [done|set_solver|done]|unfold work; cbn; lia|done].
  - destruct b; try done. destruct w; [|done]. injection He as <-.
    split_and!; [split; cbn; [done|set_solver|done]|unfold work; cbn; lia|done].
  - destruct b as [| | |req|]; try done. cbn in Hg. destruct out; [| |by specialize (Hg e)]; injection He as <-.
    all: split_and!; [split; cbn; [done|set_solver|done]|unfold work; cbn; lia|done].
Qed.

Lemma good_progress d :
  inv d -> serving d ->
  (exists l, good l /\ is_Some (exec l d)) \/ (forall n, n ∈ queued d -> n ∈ (responses d).*1).
Proof.
  intros [Hs Hfifo Ha _ _ Hw] [Hrun Hb Hstop].
  destruct (single_cases d Hs) as [[Hr _]|[_ [b Hbs]]]; [congruence|].
  destruct b as [| | |req|o].
  - left. exists (Started 0 true). split; [done|]. cbn. by rewrite Hbs.
  - left. exists (Take 0). split; [done|]. cbn. rewrite Hbs. by destruct (tryTakePendingRequest d).
  - destruct (pendReq d) as [|req p] eqn:Hp.
    + right. intros n Hn. rewrite <- Hfifo, app_nil_r in Hn. specialize (Ha n Hn).
      by rewrite Hbs, app_nil_r in Ha.
    + left. exists (Wake 0). split; [done|]. cbn. rewrite Hbs, Hw; [done|rewrite Hbs; by left|done].
  - left. exists (Answer 0 Missing). split; [by intros e|]. cbn. by rewrite Hbs.
  - exfalso. apply (Hb o). rewrite Hbs. by left.
Qed.

(** C29: a running helper answers every request.  From any reachable state
    where a helper runs, is not about to return, and none of the pending
    requests is a stop, as long as git answers and no wait times out, the
    helper takes at most [work d] further steps, and is not stuck before
    every request queued has its response. *)
Theorem queue_live d ls d' :
  reachable d -> serving d -> Forall good ls -> run ls d = Some d' ->
  length ls <= work d /\
  ((exists l, good l /\ is_Some (exec l d')) \/ forall n, n ∈ queued d -> n ∈ (responses d').*1).
Proof.
  intros Hr Hs Hg Hrun. pose proof (reachable_inv d Hr) as Hi. clear Hr. revert d Hi Hs Hrun.
  induction Hg as [|l ls Hl _ IH]; intros d Hi Hs Hrun; cbn in Hrun.
  - injection Hrun as <-. split; [apply Nat.le_0_l|by apply good_progress].
  - destruct (exec l d) as [d1|] eqn:He; [|done].
    destruct (good_step d l d1 Hi Hs Hl He) as (Hs1 & Hwork & Hq).
    destruct (IH d1 (exec_inv _ _ _ Hi He) Hs1 Hrun) as [Hlen Hend].
    split; [cbn [length]; lia|]. by rewrite Hq in Hend.
Qed.

Definition req (n : nat) : objRequest := MkReq (str "HEAD") false n.

Lemma queue_live_witness :
  exists d d', run [Start (req 0); Start (req 1)] init = Some d /\
    run [Started 0 true; Take 0; Answer 0 Missing; Take 0; Answer 0 Missing] d = Some d' /\
    ((exists l, good l /\ is_Some (exec l d')) \/ forall n, n ∈ queued d -> n ∈ (responses d').*1).
Proof.
  eexists _, _. split; [reflexivity|]. split; [reflexivity|].
  refine (proj2 (queue_live _ [Started 0 true; Take 0; Answer 0 Missing; Take 0; Answer 0 Missing] _ _ _ _ _)).
  - by exists [Start (req 0); Start (req 1)].
  - split; cbn; [done|intros o Ho%list_elem_of_singleton; done|by repeat constructor].
  - repeat constructor; by intros e.
  - reflexivity.
Defined.

Lemma queue_safe_witness :
  exists d, run [Start (req 0); Start (req 1); Started 0 true; Take 0] init = Some d /\
    taken d ++ (id <$> pendReq d) = queued d.
Proof.
  eexists. split; [reflexivity|]. eapply queue_safe. by exists [Start (req 0); Start (req 1); Started 0 true; Take 0].
Defined.

(** But [noteCatFileBatchDone] tests the queue the wrong way around.  A
    helper that ends with an error while another request is pending is not
    replaced: a state is reachable where a request waits and nothing but a
    further request can happen.  And a helper that ends with nothing pending
    is replaced: so it is after [StopGitHelperProcess] got its response. *)
Theorem queue_strands_requests :
  (exists d, reachable d /\ pendReq d = [req 1] /\ forall l d', exec l d = Some d' -> exists r, l = Start r) /\
  (exists d, reachable d /\ responses d = [(0, Err errMissing); (1, Ok zero_object)] /\
     pendReq d = [] /\ batches d = [Starting] /\ catFileBatchRunning d = true).
Proof.
  split.
  - eexists. split.
    + exists [Start (req 0); Started 0 true; Take 0; Start (req 1); Answer 0 (Failed EOF); Return_ 0]. reflexivity.
    + split; [reflexivity|]. intros l d' He. destruct l as [r|i ?|i|i|i|i ?|i|i]; [eauto|by destruct i..].
  - eexists. split.
    + exists [Start (req 0); Started 0 true; Take 0; Answer 0 Missing; Start (MkReq [] true 1);
              Take 0; Stopped 0; Return_ 0]. reflexivity.
    + done.
Qed.
End Queue.
