(* ===== verification/GitStore.v ===== *)
(** * store/gitstore/gitstore.go: the git-backed store

    Refs, handles and the operations of the [Store] interface over a git
    repository, whose commands are [GitPack.Git].  The operations have the
    interface's names and may panic, so they are collected in the Module
    [Gitstore] and not made an instance of [Store]. *)

From S2P Require Import Prelude GoStrings Url Sha Store GitTree GitPack GitCat.

Local Open Scope gomodfs_scope.

(** ** strconv.Unquote of a double-quoted string

    Bytes from 128 on are taken to be valid UTF-8, which is kept. *)

Definition dquote : ascii := byte_of 34.

(** [utf8.AppendRune]. *)
Definition utf8_encode (r : Z) : bytes :=
  if (r <? 128)%Z then [byte_of r]
  else if (r <? 2048)%Z then [byte_of (192 + r / 64); byte_of (128 + r mod 64)]
  else if (r <? 65536)%Z then
    [byte_of (224 + r / 4096); byte_of (128 + r / 64 mod 64); byte_of (128 + r mod 64)]
  else [byte_of (240 + r / 262144); byte_of (128 + r / 4096 mod 64);
        byte_of (128 + r / 64 mod 64); byte_of (128 + r mod 64)].

(** The value of [n] digits of a base, by the value of one digit. *)
Fixpoint digits (val : ascii -> option Z) (radix : Z) (n : nat) (acc : Z) (s : bytes) : option (Z * bytes) :=
  match n with
  | O => Some (acc, s)
  | S n' => match s with
            | c :: s' => d ← val c; digits val radix n' (acc * radix + d)%Z s'
            | [] => None
            end
  end.
Definition octal_val (c : ascii) : option Z :=
  let z := byte_val c in if ((48 <=? z) && (z <=? 55))%Z then Some (z - 48)%Z else None.

(** What follows a backslash: the bytes it stands for, and the rest. *)
Definition unquote_escape (s : bytes) : option (bytes * bytes) :=
  match s with
  | [] => None
  | c :: s' =>
      if decide (c = "a"%char) then Some ([byte_of 7], s')
      else if decide (c = "b"%char) then Some ([byte_of 8], s')
      else if decide (c = "f"%char) then Some ([byte_of 12], s')
      else if decide (c = "n"%char) then Some ([byte_of 10], s')
      else if decide (c = "r"%char) then Some ([byte_of 13], s')
      else if decide (c = "t"%char) then Some ([byte_of 9], s')
      else if decide (c = "v"%char) then Some ([byte_of 11], s')
      else if decide (c = "\"%char \/ c = dquote) then Some ([c], s')
      else if decide (c = "x"%char) then
        '(v, r) ← digits hex_val 16 2 0 s'; Some ([byte_of v], r)
      else if decide (c = "u"%char \/ c = "U"%char) then
        '(v, r) ← digits hex_val 16 (if decide (c = "u"%char) then 4 else 8) 0 s';
        if (1114111 <? v)%Z || ((55296 <=? v) && (v <=? 57343))%Z then None else Some (utf8_encode v, r)
      else
        '(v, r) ← digits octal_val 8 3 0 s; if (255 <? v)%Z then None else Some ([byte_of v], r)
  end.

(** The contents between the quotes; [fuel] bounds the number of
    characters. *)
Fixpoint unquote_loop (fuel : nat) (s : bytes) : option bytes :=
  match fuel with
  | O => None
  | S fuel' =>
      match s with
      | [] => None
      | c :: s' =>
          if decide (c = dquote) then (if decide (s' = []) then Some [] else None)
          else if decide (c = nl) then None
          else if decide (c = "\"%char) then
            '(x, r) ← unquote_escape s'; l ← unquote_loop fuel' r; Some (x ++ l)
          else l ← unquote_loop fuel' s'; Some (c :: l)
      end
  end.

Definition Unquote (s : bytes) : option bytes :=
  match s with
  | c :: s' => if decide (c = dquote) then unquote_loop (length s) s' else None
  | [] => None
  end.

(** ** Parameters

    go4.org/mem's [ParseInt] of base 10 and 64 bits. *)
Class Mem := { mem_ParseInt : bytes -> option Z }.
Class MemLaws (M : Mem) := {
  mem_ParseInt_Itoa : forall n, (0 <= n < 2 ^ 63)%Z -> mem_ParseInt (Itoa n) = Some n }.

Record blobMeta := MkBlobMeta { bm_Blob : bytes; bm_Size : Z; bm_Mode : Z }.

Record modHandle := MkHandle {
  modTree : bytes;
  mh_blobMeta : gmap bytes blobMeta;
  mh_dirEnts : gmap bytes (list Dirent) }.

(** The mode bits of io/fs that git's modes become. *)
Definition ModeSymlink : Z := 2 ^ 27.
Definition ModeIrregular : Z := 2 ^ 19.

Definition fileModeFromGitOctalBytes (octal : bytes) : Z :=
  if decide (octal = str "040000") then Z.lor 493 ModeDir
  else if decide (octal = str "100644") then 420
  else if decide (octal = str "100755") then 493
  else if decide (octal = str "120000") then Z.lor 493 ModeSymlink
  else if decide (octal = str "160000") then Z.lor 493 ModeIrregular
  else 0.

Definition dirFileInfo (baseName : bytes) : FileInfo :=
  MkFileInfo baseName 0 (Z.lor ModeDir 493) FakeStaticFileTime true.
Definition regFileInfo (baseName : bytes) (m : blobMeta) : FileInfo :=
  MkFileInfo baseName (bm_Size m) (bm_Mode m) FakeStaticFileTime false.

Module Gitstore.
Section store.
Context `{E : ModEscape} {M : Mem}.

(** ** Refs *)

Definition refName (h : ModuleVersion) : res bytes :=
  escModuleName ← map_err (errWrap "failed to escape module name") (EscapePath (Module h));
  escVersion ← map_err (errWrap "failed to escape version") (EscapeVersion (Version h));
  Ok (str "refs/gomod/" ++ PathEscape escModuleName ++ str "@" ++ PathEscape escVersion).
Definition modRefName (h : ModuleVersion) : res bytes := base ← refName h; Ok (base ++ str "(mod)").
Definition infoRefName (h : ModuleVersion) : res bytes := base ← refName h; Ok (base ++ str "(info)").

(** One line of [git for-each-ref]. *)
Definition parse_ref (line : bytes) : option ModuleVersion :=
  let line := match Cut line (str "(") with Some (a, _) => a | None => line end in
  rest ← CutPrefix line (str "gomod/");
  '(modEsc2, verEsc2) ← Cut rest (str "@");
  modEsc ← PathUnescape modEsc2;
  verEsc ← PathUnescape verEsc2;
  match UnescapePath modEsc, UnescapeVersion verEsc with
  | Ok mod_, Ok ver => Some (MkMV mod_ ver)
  | _, _ => None
  end.

Fixpoint cached_loop (lines : list bytes) (seen : gset ModuleVersion) (mods : list ModuleVersion)
    : list ModuleVersion :=
  match lines with
  | [] => mods
  | line :: lines' =>
      match parse_ref line with
      | None => cached_loop lines' seen mods
      | Some mv =>
          if decide (mv ∈ seen) then cached_loop lines' seen mods
          else cached_loop lines' ({[mv]} ∪ seen) (mods ++ [mv])
      end
  end.

(** ** Handles *)

(** The loop of [newModHandle] over the output of [git ls-tree]; each round
    uses up a line, which bounds the fuel. *)
Definition parse_line (line : bytes) : option (res (bytes * blobMeta * Dirent)) :=
  let bad := Some (Err (errText "unexpected git ls-tree output")) in
  match Cut line (str " ") with
  | None => bad
  | Some (hexRef, rest) =>
      r ← hex_Decode20 hexRef;
      match r with
      | Err e => Some (Err (errWrap "failed to decode hex in ls-tree line" e))
      | Ok ref =>
          match Cut rest (str " ") with
          | None => bad
          | Some (modeOct, rest) =>
              let mode := fileModeFromGitOctalBytes modeOct in
              match Cut rest (str " ") with
              | None => bad
              | Some (sizeStr, rest) =>
                  if mode_IsDir mode && negb (bool_decide (sizeStr = str "-")) then bad else
                  match (if mode_IsDir mode then Some 0%Z else mem_ParseInt sizeStr) with
                  | None => Some (Err (errText "failed to parse size in ls-tree line"))
                  | Some size =>
                      match (if HasPrefix rest [dquote] then Unquote rest else Some rest) with
                      | None => Some (Err (errText "failed to unquote git-escaped path"))
                      | Some path =>
                          Some (Ok (path, MkBlobMeta ref size mode, MkDirent (path_Base path) mode size))
                      end
                  end
              end
          end
      end
  end.

(** What a line adds to the handle. *)
Definition add_line (x : bytes * blobMeta * Dirent) (mh : modHandle) : modHandle :=
  let '(path, meta, ent) := x in
  let dir := if decide (path_Dir path = str ".") then [] else path_Dir path in
  MkHandle (modTree mh)
    (if mode_IsDir (bm_Mode meta) then mh_blobMeta mh else <[path := meta]> (mh_blobMeta mh))
    (<[dir := default [] (mh_dirEnts mh !! dir) ++ [ent]]> (mh_dirEnts mh)).

Fixpoint ls_tree_loop (fuel : nat) (remain : bytes) (mh : modHandle) : option (res modHandle) :=
  match remain with
  | [] => Some (Ok mh)
  | _ =>
      match fuel with
      | O => None
      | S fuel' =>
          match Cut remain [nl] with
          | None => Some (Err (errText "unexpected git ls-tree output"))
          | Some (line, rest) =>
              r ← parse_line line;
              match r with
              | Err e => Some (Err e)
              | Ok x => ls_tree_loop fuel' rest (add_line x mh)
              end
          end
      end
  end.

Context {G : Type} {Gi : Git G}.
Abbreviation Op A := (pst G (res A)).

(** A git command. *)
Definition call {A} (m : st G A) : pst G A := fun g => Some (m g).

Definition newModHandle (tree : bytes) : Op modHandle :=
  out <-! call (git_ls_tree (hex_encode tree ++ str ":zip")) ;;
  match out with
  | Err e => pst_err (errWrap "failed to get zip root tree" e)
  | Ok out =>
      fun g => r ← ls_tree_loop (S (length out)) out (MkHandle tree ∅ ∅); Some (r, g)
  end.

(** ** The operations of the store *)

(** [errors.Is(err, errMissing)]. *)
Definition missing_is (e' : error) (e : error) : error := if errors_Is e is_errMissing then e' else e.

(** [x, err := getObject(...)] with the error as a value. *)
Definition try_object (rev : bytes) (want : option bytes) : pst G (res (res object)) :=
  r <-! getObject rev want ;; pst_ok r.

Definition lift {A} (r : res A) : Op A := pst_ret r.

Definition GetFile (mh : modHandle) (path : bytes) : Op bytes :=
  match mh_dirEnts mh !! path with
  | Some _ => pst_err ErrIsDir
  | None =>
      r <-? try_object (hex_encode (modTree mh) ++ str ":zip/" ++ path) None ;;
      match r with
      | Err e => pst_err (missing_is ErrNotExist e)
      | Ok obj =>
          if decide (o_typ obj = str "tree") then pst_err ErrIsDir
          else if decide (o_typ obj <> str "blob") then pst_err (errText "expected a blob")
          else pst_ok (o_content obj)
      end
  end.

Definition Stat (mh : modHandle) (modPath : bytes) : res FileInfo :=
  match mh_dirEnts mh !! modPath with
  | Some _ => Ok (dirFileInfo (path_Base modPath))
  | None =>
      match mh_blobMeta mh !! modPath with
      | Some meta => Ok (regFileInfo (path_Base modPath) meta)
      | None => Err ErrNotExist
      end
  end.

(** A directory without entries is no error. *)
Definition Readdir (mh : modHandle) (path : bytes) : list Dirent := default [] (mh_dirEnts mh !! path).

Definition GetInfoFile (mv : ModuleVersion) : Op bytes :=
  ref <-? lift (refName mv) ;;
  r <-? try_object (ref ++ str ":info") (Some (str "blob")) ;;
  match r with
  | Ok obj => pst_ok (o_content obj)
  | Err _ =>
      ref <-? lift (infoRefName mv) ;;
      r <-? try_object ref (Some (str "blob")) ;;
      match r with
      | Ok obj => pst_ok (o_content obj)
      | Err e => pst_err (missing_is ErrCacheMiss e)
      end
  end.

Definition GetModFile (mv : ModuleVersion) : Op bytes :=
  ref <-? lift (modRefName mv) ;;
  r <-? try_object ref (Some (str "blob")) ;;
  match r with
  | Ok obj => pst_ok (o_content obj)
  | Err e => pst_err (missing_is ErrCacheMiss e)
  end.

(** Hash the data, and make the ref point at it. *)
Definition put_blob (ref data : bytes) : Op unit :=
  out <-! call (git_hash_object data) ;;
  match out with
  | Err e => pst_err (errWrap "failed to hash object" e)
  | Ok out =>
      r <-! call (git_update_ref ref (TrimSpace out)) ;;
      pst_ret (map_err (errWrap "failed to update ref") r)
  end.

Definition PutModFile (mv : ModuleVersion) (data : bytes) : Op unit :=
  ref <-? lift (modRefName mv) ;; put_blob ref data.
Definition PutInfoFile (mv : ModuleVersion) (data : bytes) : Op unit :=
  ref <-? lift (infoRefName mv) ;; put_blob ref data.

Definition GetZipRoot (mv : ModuleVersion) : Op modHandle :=
  ref <-? lift (refName mv) ;;
  r <-? try_object (ref ++ str "^{tree}") (Some (str "tree")) ;;
  match r with
  | Err e => pst_err (if errors_Is e is_errMissing then ErrCacheMiss else errWrap "failed to get zip root tree" e)
  | Ok treeObj => newModHandle (o_hash treeObj)
  end.

Definition GetZipHash (mh : modHandle) : Op bytes :=
  obj <-? getObject (hex_encode (modTree mh) ++ str ":ziphash") (Some (str "blob")) ;;
  pst_ok (o_content obj).

Definition CachedModules : Op (list ModuleVersion) :=
  out <-! call git_for_each_ref ;;
  match out with
  | Err e => pst_err (errWrap "failed to list git refs" e)
  | Ok out => pst_ok (cached_loop (split_byte nl out) ∅ [])
  end.

Context {R : GoRange} {Zl : Zlib}.

(** The files of the tree that [PutModule] builds: the parts that are not
    nil, in the order of the map, and the module's files below zip/. *)
Definition parts (data : PutModuleData) : gmap bytes (option bytes) :=
  {[ str "ziphash" := ZipHash data; str "info" := InfoFile data; str "mod" := ModFile data ]}.

Definition module_files (data : PutModuleData) : list (bytes * res bytes * Z) :=
  omap (fun '(ext, v) => v ← v; Some (ext, Ok v, 420%Z)) (go_range [] (parts data)) ++
  ((fun f => (str "zip/" ++ pf_Path f, pf_Open f, pf_Mode f)) <$> Files data).

(** Enough fuel for [buildTree]: more than the longest name has bytes. *)
Definition tree_fuel (tb : treeBuilder) : nat :=
  S (max_list (length <$> (map_to_list (tb_f tb)).*1)).

Definition module_tree (data : PutModuleData) : pst treeBuilder (res bytes) :=
  u <-? (r <-! addFiles (module_files data) ;; pst_ret (map_err (errWrap "failed to add file") r)) ;;
  tb <-! pst_get ;;
  r <-! buildTree (tree_fuel tb) [] ;;
  pst_ret (map_err (errWrap "failed to build git tree") r).

Definition PutModule (mv : ModuleVersion) (data : PutModuleData) : Op modHandle :=
  ref <-? lift (refName mv) ;;
  match module_tree data newTreeBuilder with
  | None => pst_panic
  | Some (Err e, _) => pst_err e
  | Some (Ok treeHash, tb) =>
      (** the error of [sendToGit] is only logged *)
      sendToGit tb ;;!
      r <-! call (git_update_ref ref (hex_encode treeHash)) ;;
      match r with
      | Err e => pst_err (errWrap "failed to update tree ref" e)
      | Ok _ => newModHandle treeHash
      end
  end.
End store.
End Gitstore.
