(* ===== verification/GitHandle.v ===== *)
(** * store/gitstore/gitstore.go: module handles

    What [git ls-tree] lists of a tree, as git documents it, and what
    [newModHandle] makes of it: the handle lists every directory's entries
    in git's order and knows every file.  The listing of a tree that the
    store built is that of the files it was built from. *)

From S2P Require Import Prelude GoStrings Sha Store PathDir GitTree GitPack GitCat GitStore.
Import Gitstore.

Local Open Scope gomodfs_scope.

(** ** The listing

    [git ls-tree -t -r] prints a line for every entry of a tree and of the
    trees below it, a tree before its entries. *)

Inductive ls_mode := LTree | LFile | LExec | LLink.
Record ls_entry := MkLs { le_hash : bytes; le_mode : ls_mode; le_size : Z; le_dir : list bytes; le_name : bytes }.

Definition le_octal (e : ls_entry) : bytes :=
  match le_mode e with
  | LTree => str "040000" | LFile => str "100644" | LExec => str "100755" | LLink => str "120000"
  end.
Definition le_is_dir (e : ls_entry) : bool := match le_mode e with LTree => true | _ => false end.
Definition le_segs (e : ls_entry) : list bytes := le_dir e ++ [le_name e].

(** The modes of a tree's entries; submodules are left out. *)
Definition ls_mode_of (mode : bytes) : option ls_mode :=
  if decide (mode = str "40000") then Some LTree
  else if decide (mode = str "100644") then Some LFile
  else if decide (mode = str "100755") then Some LExec
  else if decide (mode = str "120000") then Some LLink
  else None.

(** The entries of the tree with a hash. *)
Definition tree_lines (m : gmap bytes object) (h : bytes) : option (list (bytes * bytes * bytes)) :=
  o ← m !! h;
  if decide (o_typ o <> str "tree") then None else parse_tree (length (o_content o)) (o_content o).

(** The object at a path below a tree. *)
Fixpoint tree_walk (m : gmap bytes object) (h : bytes) (segs : list bytes) : option bytes :=
  match segs with
  | [] => Some h
  | s :: segs' =>
      l ← tree_lines m h;
      '(_, (_, h')) ← list_find (fun e => e.1.2 = s) l; tree_walk m h' segs'
  end.

(** The listing of a tree whose trees nest at most [depth] deep. *)
Definition below (name : bytes) (e : ls_entry) : ls_entry :=
  MkLs (le_hash e) (le_mode e) (le_size e) (name :: le_dir e) (le_name e).
Definition list_line (sub : bytes -> option (list ls_entry)) (m : gmap bytes object)
    (line : bytes * bytes * bytes) : option (list ls_entry) :=
  let '(mode, name, h) := line in
  k ← ls_mode_of mode;
  match k with
  | LTree => l ← sub h; Some (MkLs h LTree 0 [] name :: (below name <$> l))
  | _ => o ← m !! h; Some [MkLs h k (Z.of_nat (length (o_content o))) [] name]
  end.
Fixpoint git_listing (depth : nat) (m : gmap bytes object) (h : bytes) : option (list ls_entry) :=
  match depth with
  | O => None
  | S depth' => lines ← tree_lines m h; mjoin <$> mapM (list_line (git_listing depth' m) m) lines
  end.

(** How git prints a path: as it is, or quoted in a way that strconv.Unquote
    reads. *)
Definition quotes (q p : bytes) : Prop :=
  nl ∉ q /\ (q = p /\ head p <> Some dquote \/ head q = Some dquote /\ Unquote q = Some p).

Section listing.
Context (quote : bytes -> bytes) (Hquote : forall p, quotes (quote p) p).

Definition ls_line (e : ls_entry) : bytes :=
  hex_encode (le_hash e) ++ str " " ++ le_octal e ++ str " " ++
  (if le_is_dir e then str "-" else Itoa (le_size e)) ++ str " " ++ quote (join_byte slash (le_segs e)).

Definition ls_output (l : list ls_entry) : bytes := mjoin ((fun x => x ++ [nl]) <$> (ls_line <$> l)).

Record ls_ok (e : ls_entry) : Prop := {
  lo_hash : length (le_hash e) = 20;
  lo_size : (0 <= le_size e < 2 ^ 63)%Z;
  lo_segs : Forall good_elem (le_segs e) }.

(** The mode, the entry and the metadata that a line gives. *)
Definition le_gomode (e : ls_entry) : Z := fileModeFromGitOctalBytes (le_octal e).
Definition le_dirent (e : ls_entry) : Dirent :=
  MkDirent (le_name e) (le_gomode e) (if le_is_dir e then 0 else le_size e).
Definition le_meta (e : ls_entry) : blobMeta :=
  MkBlobMeta (le_hash e) (if le_is_dir e then 0 else le_size e) (le_gomode e).

Context {Me : Mem} {MeL : MemLaws Me}.

Lemma le_is_dir_mode e : mode_IsDir (le_gomode e) = le_is_dir e.
Proof. unfold le_gomode, le_octal, le_is_dir. by destruct (le_mode e). Qed.

Lemma parse_quoted q p :
  quotes q p -> (if HasPrefix q [dquote] then Unquote q else Some q) = Some p.
Proof.
  intros [_ [[-> Hq]|[Hq Hu]]]; unfold HasPrefix.
  - destruct (CutPrefix p [dquote]) as [r|] eqn:Hc; [|done]. apply CutPrefix_Some in Hc. by rewrite Hc in Hq.
  - destruct q as [|c q]; [done|]. injection Hq as ->.
    change (dquote :: q) with ([dquote] ++ q) at 1. by rewrite CutPrefix_app.
Qed.

Lemma parse_ls_line e :
  ls_ok e -> parse_line (ls_line e) = Some (Ok (join_byte slash (le_segs e), le_meta e, le_dirent e)).
Proof.
  intros [Hh Hsz Hsegs]. unfold parse_line, ls_line. change (str " ") with [" "%char]. cbn [app].
  assert (word (hex_encode (le_hash e))) as Hw by (apply word_hex; by destruct (le_hash e)).
  rewrite Cut_byte by (by apply word_notin). rewrite hex_Decode20_encode by done. cbn [mbind option_bind].
  rewrite Cut_byte by (unfold le_octal; destruct (le_mode e); by_decide). cbv zeta. fold (le_gomode e).
  rewrite le_is_dir_mode.
  assert (" "%char ∉ if le_is_dir e then str "-" else Itoa (le_size e)) as Hs.
  { destruct (le_is_dir e); [by_decide|]. apply word_notin; [|done]. apply word_Itoa. lia. }
  rewrite Cut_byte by done.
  rewrite (parse_quoted _ _ (Hquote _)).
  apply Forall_app in Hsegs as [Hd Hn]. apply Forall_cons in Hn as [Hn _].
  assert (path_Base (join_byte slash (le_segs e)) = le_name e) as -> by (by apply path_Base_join).
  unfold le_meta, le_dirent. destruct (le_is_dir e).
  - rewrite bool_decide_eq_true_2 by done. done.
  - cbn [andb]. by rewrite mem_ParseInt_Itoa.
Qed.

Lemma ls_line_nl e : ls_ok e -> nl ∉ ls_line e.
Proof.
  intros [Hh Hsz _]. unfold ls_line. rewrite !not_elem_of_app. split_and!; [|by_decide| |by_decide| |by_decide|by destruct (Hquote (join_byte slash (le_segs e)))].
  - apply word_notin; [|done]. apply word_hex. by destruct (le_hash e).
  - unfold le_octal. destruct (le_mode e); by_decide.
  - destruct (le_is_dir e); [by_decide|]. apply word_notin; [|done]. apply word_Itoa. lia.
Qed.

Definition ls_add (mh : modHandle) (e : ls_entry) : modHandle :=
  add_line (join_byte slash (le_segs e), le_meta e, le_dirent e) mh.

Lemma ls_tree_loop_output l fuel mh :
  Forall ls_ok l -> length l <= fuel -> ls_tree_loop fuel (ls_output l) mh = Some (Ok (fold_left ls_add l mh)).
Proof.
  intros Hl. revert fuel mh. induction Hl as [|e l He _ IH]; intros fuel mh Hf; [by destruct fuel|].
  destruct fuel as [|fuel]; cbn in Hf; [lia|].
  change (ls_output (e :: l)) with ((ls_line e ++ [nl]) ++ ls_output l). rewrite <- app_assoc. cbn [app].
  cbn [ls_tree_loop]. destruct (ls_line e ++ nl :: ls_output l) eqn:Hs; [by destruct (ls_line e)|].
  rewrite <- Hs, Cut_byte by (by apply ls_line_nl). rewrite parse_ls_line by done.
  cbn [mbind option_bind]. apply IH. lia.
Qed.

(** What adding a line does to the two maps. *)
Lemma ls_add_spec mh e :
  ls_ok e ->
  ls_add mh e = MkHandle (modTree mh)
    (if le_is_dir e then mh_blobMeta mh else <[join_byte slash (le_segs e) := le_meta e]> (mh_blobMeta mh))
    (<[join_byte slash (le_dir e) := Readdir mh (join_byte slash (le_dir e)) ++ [le_dirent e]]> (mh_dirEnts mh)).
Proof.
  intros [_ _ Hsegs]. unfold ls_add, add_line. apply Forall_app in Hsegs as [Hd Hn].
  apply Forall_cons in Hn as [Hn _].
  assert (path_Dir (join_byte slash (le_segs e)) =
    if decide (le_dir e = []) then str "." else join_byte slash (le_dir e)) as -> by (by apply path_Dir_join).
  cbn [le_meta bm_Mode]. rewrite le_is_dir_mode.
  assert ((if decide ((if decide (le_dir e = []) then str "." else join_byte slash (le_dir e)) = str ".")
    then [] else if decide (le_dir e = []) then str "." else join_byte slash (le_dir e)) =
    join_byte slash (le_dir e)) as Hdir.
  { destruct (decide (le_dir e = [])) as [->|]; [done|]. rewrite decide_False; [done|]. by apply join_not_dot. }
  by rewrite Hdir.
Qed.

Lemma ls_fold l mh :
  Forall ls_ok l ->
  let mh' := fold_left ls_add l mh in
  modTree mh' = modTree mh /\
  (forall d, Forall good_elem d ->
    mh_dirEnts mh' !! join_byte slash d =
    match filter (fun e => le_dir e = d) l with
    | [] => mh_dirEnts mh !! join_byte slash d
    | es => Some (Readdir mh (join_byte slash d) ++ (le_dirent <$> es))
    end) /\
  (forall p, Forall good_elem p ->
    mh_blobMeta mh' !! join_byte slash p =
    match last (filter (fun e => le_is_dir e = false /\ le_segs e = p) l) with
    | None => mh_blobMeta mh !! join_byte slash p
    | Some e => Some (le_meta e)
    end).
Proof.
  intros Hl. revert mh. induction Hl as [|e l He _ IH]; intros mh; [done|]. cbn [fold_left].
  destruct (IH (ls_add mh e)) as (Ht & Hd & Hp). rewrite (ls_add_spec mh e He) in *. cbn [modTree] in Ht.
  pose proof (lo_segs _ He) as Hsegs. apply Forall_app in Hsegs as Hsegs'. destruct Hsegs' as [Hdir _].
  split; [done|]. split.
  - intros d Hgd. rewrite (Hd d Hgd), filter_cons. unfold Readdir. cbn [mh_dirEnts].
    destruct (decide (le_dir e = d)) as [<-|Hne].
    + rewrite lookup_insert_eq. destruct (filter _ l) as [|e' es]; [done|].
      apply f_equal. exact (eq_sym (app_assoc _ [le_dirent e] (le_dirent <$> e' :: es))).
    + rewrite lookup_insert_ne; [done|]. intros Heq. by apply Hne, join_inj.
  - intros p Hgp. rewrite (Hp p Hgp), filter_cons. cbn [mh_blobMeta].
    destruct (decide (le_is_dir e = false /\ le_segs e = p)) as [[Hf <-]|Hne].
    + rewrite Hf, last_cons. destruct (last (filter _ l)); [done|]. by rewrite lookup_insert_eq.
    + destruct (last (filter _ l)); [done|]. destruct (le_is_dir e) eqn:Hf; [done|].
      rewrite lookup_insert_ne; [done|]. intros Heq. apply join_inj in Heq; [|done|done]. naive_solver.
Qed.

(** The handle made from git's listing of a tree.  [newModHandle] succeeds,
    and its maps hold, for each directory, the entries listed in it, in
    order, and for each path the last file listed there. *)
Lemma newModHandle_listing {G} {Gi : Git G} tree (l : list ls_entry) (g g' : G) :
  Forall ls_ok l -> git_ls_tree (hex_encode tree ++ str ":zip") g = (Ok (ls_output l), g') ->
  exists mh, newModHandle tree g = Some (Ok mh, g') /\ modTree mh = tree /\
    (forall d, Forall good_elem d -> mh_dirEnts mh !! join_byte slash d =
      match filter (fun e => le_dir e = d) l with [] => None | es => Some (le_dirent <$> es) end) /\
    (forall p, Forall good_elem p -> mh_blobMeta mh !! join_byte slash p =
      le_meta <$> last (filter (fun e => le_is_dir e = false /\ le_segs e = p) l)).
Proof.
  intros Hl Hg. unfold newModHandle, call, pst_bind. rewrite Hg.
  destruct (ls_fold l (MkHandle tree ∅ ∅) Hl) as (Ht & Hd & Hp).
  rewrite ls_tree_loop_output; [|done|].
  2:{ cbn [length]. apply Nat.le_le_succ_r. clear. induction l as [|e l IH]; [done|].
      change (ls_output (e :: l)) with ((ls_line e ++ [nl]) ++ ls_output l). rewrite !length_app. cbn. lia. }
  eexists. split; [done|]. split; [done|]. split.
  - intros d Hgd. rewrite (Hd d Hgd). unfold Readdir. cbn [mh_dirEnts]. by rewrite !lookup_empty.
  - intros p Hgp. rewrite (Hp p Hgp). cbn [mh_blobMeta]. rewrite lookup_empty. by destruct (last _).
Qed.
End listing.

(** ** The listing of a tree that the store built *)

Section built.
Context {R : GoRange} {RL : GoRangeLaws R}.
Context (f : gmap bytes gitFile) (Hclean : clean_names f) (Hnc : no_conflict f) (m : gmap bytes object).
Context (Hblobs : forall n x, f !! n = Some x ->
  gf_gitHash x = mkObjRef (str "blob") (gf_contents x) /\ stored m (str "blob", gf_contents x)).

Definition file_ls_mode (x : gitFile) : ls_mode :=
  if (Z.land (gf_mode x) execBits =? 0)%Z then LFile else LExec.

(** The entry of a file, below the directory that is listed. *)
Definition entry_of (x : gitFile) (e : ls_entry) : Prop :=
  le_hash e = gf_gitHash x /\ le_mode e = file_ls_mode x /\ le_size e = Z.of_nat (length (gf_contents x)).

(** Every listed entry is a file, or a directory on the way to one. *)
Definition ls_sound (dir : bytes) (l : list ls_entry) : Prop := forall e, e ∈ l ->
  length (le_hash e) = 20 /\ exists suf x rest, f !! (dir ++ suf) = Some x /\
    split_byte slash suf = le_segs e ++ rest /\ le_is_dir e = negb (bool_decide (rest = [])) /\
    if le_is_dir e then le_size e = 0%Z else entry_of x e.

(** The path of every file, and of the directories on the way, is listed. *)
Definition ls_complete (suf : bytes) (x : gitFile) (l : list ls_entry) : Prop := forall p rest,
  split_byte slash suf = p ++ rest -> p <> [] ->
  exists e, e ∈ l /\ le_segs e = p /\ le_is_dir e = negb (bool_decide (rest = [])).

Lemma below_segs b e : le_segs (below b e) = b :: le_segs e.
Proof. done. Qed.

Lemma split_newEnt suf x :
  let e := newEnt suf x in
  if isDir e then exists rest, suf = base e ++ slash :: rest /\ split_byte slash suf = base e :: split_byte slash rest
  else split_byte slash suf = [base e].
Proof.
  cbv zeta. pose proof (newEnt_spec suf x) as (Hs & _ & _ & Hsuf).
  destruct (isDir (newEnt suf x)).
  - destruct Hsuf as [rest Hsuf]. exists rest. split; [done|]. rewrite Hsuf at 1. by apply split_byte_app.
  - rewrite Hsuf at 1. by apply split_byte_elem.
Qed.

(** The lines that an entry of a directory makes, for a tree and for a
    file. *)
Definition line_built (dir : bytes) (e : dirEnt) (ol : option (list ls_entry)) : Prop :=
  exists l, ol = Some l /\ ls_sound dir l /\
    forall suf x, f !! (dir ++ suf) = Some x -> base (newEnt suf x) = base e -> isDir (newEnt suf x) = isDir e ->
      ls_complete suf x l.

Lemma list_line_dir sub dir suf0 x0 h l :
  let e := newEnt suf0 x0 in
  f !! (dir ++ suf0) = Some x0 -> isDir e = true ->
  sub h = Some l -> length h = 20 -> ls_sound (dir ++ base e ++ [slash]) l ->
  (forall suf x, f !! (dir ++ base e ++ [slash] ++ suf) = Some x -> ls_complete suf x l) ->
  line_built dir e (list_line sub m (tree_mode e, base e, h)).
Proof.
  intros e Hx0 Hd Hl Hlen Hsound Hcomp.
  pose proof (split_newEnt suf0 x0) as Hs0. cbv zeta in Hs0. fold e in Hs0. rewrite Hd in Hs0.
  destruct Hs0 as (rest0 & Hsuf0 & Hs0).
  assert (slash ∉ base e) as Hslash by (by destruct (newEnt_spec suf0 x0)).
  unfold line_built, list_line. rewrite (proj2 (tree_mode_dir e) Hd), Hd.
  change (ls_mode_of (str "40000")) with (Some LTree). cbn [mbind option_bind]. rewrite Hl. cbn [mbind option_bind].
  eexists. split; [done|]. split.
  - intros en [->|Hen]%elem_of_cons.
    { split; [done|]. exists suf0, x0, (split_byte slash rest0). split_and!; [done..| |done].
      rewrite bool_decide_eq_false_2; [done|apply split_byte_nonempty]. }
    apply list_elem_of_fmap in Hen as (en' & -> & Hen').
    destruct (Hsound _ Hen') as (Hlen' & suf & x & rest & Hx & Hseg & Hdir & Hat). split; [done|].
    exists (base e ++ slash :: suf), x, rest. rewrite <- !app_assoc in Hx. split_and!; [done| |done|done].
    by rewrite below_segs, split_byte_app, Hseg.
  - intros suf x Hx Hb Hd' p r Hp Hne. pose proof (split_newEnt suf x) as Hs. cbv zeta in Hs. rewrite Hd' in Hs.
    destruct Hs as (rest & Hsuf & Hs). rewrite Hb in Hsuf, Hs. rewrite Hsuf in Hx.
    rewrite Hs in Hp. destruct p as [|b p]; [done|]. cbn [app] in Hp. injection Hp as <- Hp.
    destruct (decide (p = [])) as [->|Hnp].
    + exists (MkLs h LTree 0 [] (base e)). split; [by left|]. split; [done|].
      rewrite bool_decide_eq_false_2; [done|]. intros ->. by apply split_byte_nonempty in Hp.
    + destruct (Hcomp rest x Hx p r Hp Hnp) as (en & Hen & Hseg & Hdir). exists (below (base e) en).
      split; [right; by apply list_elem_of_fmap_2|]. by rewrite below_segs, Hseg.
Qed.

Lemma list_line_file sub dir suf0 x0 :
  let e := newEnt suf0 x0 in
  f !! (dir ++ suf0) = Some x0 -> isDir e = false ->
  line_built dir e (list_line sub m (tree_mode e, base e, gf_gitHash x0)).
Proof.
  intros e Hx0 Hd. pose proof (split_newEnt suf0 x0) as Hs0. cbv zeta in Hs0. fold e in Hs0. rewrite Hd in Hs0.
  assert (fi e = x0) as Hfi by (by destruct (newEnt_spec suf0 x0) as (_ & ? & _)).
  destruct (Hblobs _ _ Hx0) as [Hg Hst]. unfold stored in Hst. cbn [fst snd] in Hst. rewrite <- Hg in Hst.
  unfold line_built, list_line. rewrite (tree_mode_file e Hd), Hfi, Hd.
  assert (ls_mode_of (file_mode x0) = Some (file_ls_mode x0)) as ->.
  { unfold file_ls_mode, file_mode. by destruct (_ =? 0)%Z. }
  cbn [mbind option_bind].
  set (en := MkLs (gf_gitHash x0) (file_ls_mode x0) (Z.of_nat (length (gf_contents x0))) [] (base e)).
  assert (le_is_dir en = false) as Hnd by (unfold le_is_dir, en, file_ls_mode; cbn; by destruct (_ =? 0)%Z).
  exists [en]. split; [|split].
  - rewrite Hst. unfold en, file_ls_mode. by destruct (_ =? 0)%Z.
  - intros en' ->%list_elem_of_singleton. split; [cbn; rewrite Hg; apply mkObjRef_length|].
    exists suf0, x0, []. rewrite app_nil_r, Hnd. by split_and!.
  - intros suf x Hx Hb Hd' p r Hp Hne. pose proof (split_newEnt suf x) as Hs. cbv zeta in Hs.
    rewrite Hd' in Hs. rewrite Hs, Hb in Hp. destruct p as [|b p]; [done|]. cbn [app] in Hp.
    injection Hp as <- Hp. symmetry in Hp. apply app_eq_nil in Hp as [-> ->].
    exists en. split; [by left|]. by split.
Qed.

(** The lines git reads of a tree that was built. *)
Lemma tree_lines_built fuel dir c objs :
  Forall (stored m) objs -> tree_of fuel f dir = Some (c, objs) ->
  exists ents hs, ents_ok dir f ents /\ length hs = length ents /\
    tree_lines m (mkObjRef (str "tree") c) = Some (zip_with (fun e h => (tree_mode e, base e, h)) ents hs) /\
    (forall i e h, ents !! i = Some e -> hs !! i = Some h ->
      if isDir e then exists fuel' c' objs', tree_of fuel' f (dir ++ base e ++ [slash]) = Some (c', objs') /\
        h = mkObjRef (str "tree") c' /\ Forall (stored m) objs'
      else h = gf_gitHash (fi e)).
Proof.
  intros Hst Ht.
  destruct (tree_of_lines f Hclean Hnc fuel dir c objs) as (ents & hs & Hok & Hlen & Hin & Hparse & Hhs); [|done|].
  { intros n x Hx. destruct (Hblobs _ _ Hx) as [-> _]. apply mkObjRef_length. }
  rewrite Forall_forall in Hst. pose proof (Hst _ Hin) as Htree. unfold stored in Htree. cbn [fst snd] in Htree.
  exists ents, hs. split_and!; [done..| |].
  - unfold tree_lines. rewrite Htree. cbn [mbind option_bind o_typ o_content].
    by rewrite decide_False by (intros H; by apply H).
  - intros i e h He Hh. specialize (Hhs _ _ _ He Hh). destruct (isDir e); [|done].
    destruct Hhs as (fuel' & c' & objs' & ? & ? & Hobjs). exists fuel', c', objs'. split_and!; [done..|].
    apply Forall_forall. intros. by apply Hst, Hobjs.
Qed.

Lemma git_listing_built depth fuel dir c objs :
  Forall (stored m) objs -> tree_of fuel f dir = Some (c, objs) -> 0 < depth ->
  (forall suf, is_Some (f !! (dir ++ suf)) -> length (split_byte slash suf) <= depth) ->
  exists l, git_listing depth m (mkObjRef (str "tree") c) = Some l /\ ls_sound dir l /\
    forall suf x, f !! (dir ++ suf) = Some x -> ls_complete suf x l.
Proof.
  revert fuel dir c objs. induction depth as [|depth IH]; intros fuel dir c objs Hst Ht Hpos Hdepth; [lia|].
  destruct (tree_lines_built fuel dir c objs Hst Ht) as (ents & hs & Hok & Hlen & Hlines & Hhs).
  cbn [git_listing]. rewrite Hlines. cbn [mbind option_bind].
  assert (forall i e h, ents !! i = Some e -> hs !! i = Some h ->
    line_built dir e (list_line (git_listing depth m) m (tree_mode e, base e, h))) as Hline.
  { intros i e h He Hh. specialize (Hhs _ _ _ He Hh).
    destruct (ents_sound _ _ _ Hok e) as (suf0 & x0 & Hx0 & ->); [by eapply list_elem_of_lookup_2|].
    pose proof (split_newEnt suf0 x0) as Hs0. cbv zeta in Hs0. destruct (isDir (newEnt suf0 x0)) eqn:Hd.
    - destruct Hhs as (fuel' & c' & objs' & Ht' & -> & Hobjs). destruct Hs0 as (rest0 & _ & Hs0).
      pose proof (Hdepth suf0 ltac:(by eexists)) as Hd0. rewrite Hs0 in Hd0.
      pose proof (split_byte_nonempty slash rest0) as Hn0. destruct (split_byte slash rest0) as [|r0 rs0]; [done|].
      cbn [length] in Hd0. destruct (IH _ _ _ _ Hobjs Ht') as (l & Hl & Hsound & Hcomp); [lia| |].
      + intros suf Hx. rewrite <- !app_assoc in Hx. specialize (Hdepth _ Hx). cbn [app] in Hdepth.
        rewrite split_byte_app in Hdepth by (by destruct (newEnt_spec suf0 x0)). cbn in Hdepth. lia.
      + apply (list_line_dir _ _ _ _ _ l); [done..|apply mkObjRef_length|done|].
        intros suf x Hx. apply Hcomp. by rewrite <- !app_assoc.
    - rewrite Hhs. pose proof (newEnt_spec suf0 x0) as (_ & -> & _). by apply list_line_file. }
  set (lines := zip_with _ ents hs).
  assert (is_Some (mapM (list_line (git_listing depth m) m) lines)) as [parts Hparts].
  { apply mapM_is_Some_2, Forall_lookup. intros i line Hi. apply lookup_zip_with_Some in Hi as (e & h & -> & He & Hh).
    destruct (Hline _ _ _ He Hh) as (l & Hl & _). by exists l. }
  rewrite Hparts. eexists. split; [done|]. apply mapM_Some in Hparts. split.
  - intros en (part & Hen & Hpart)%list_elem_of_join. apply list_elem_of_lookup in Hpart as [i Hi].
    destruct (Forall2_lookup_r _ _ _ _ _ Hparts Hi) as (line & Hi' & Hl).
    apply lookup_zip_with_Some in Hi' as (e & h & -> & He & Hh).
    destruct (Hline _ _ _ He Hh) as (l & Hl' & Hsound & _). rewrite Hl in Hl'. injection Hl' as ->. by apply Hsound.
  - intros suf x Hx p rest Hp Hne. destruct (ents_complete _ _ _ Hok _ _ Hx) as (e & He & Hb & Hd).
    apply list_elem_of_lookup in He as [i He].
    destruct (lookup_lt_is_Some_2 hs i) as [h Hh]; [rewrite Hlen; by eapply lookup_lt_Some|].
    destruct (Hline _ _ _ He Hh) as (l & Hl & _ & Hcomp).
    destruct (Forall2_lookup_l _ _ _ i (tree_mode e, base e, h) Hparts) as (part & Hi & Hpart).
    { unfold lines. by rewrite lookup_zip_with, He, Hh. }
    rewrite Hl in Hpart. injection Hpart as <-. destruct (Hcomp suf x Hx) with (p := p) (rest := rest) as (en & Hen & Hrest); [done..|].
    exists en. split; [|done]. apply list_elem_of_join. exists l. split; [done|]. by eapply list_elem_of_lookup_2.
Qed.

(** The tree that a path's first directory names. *)
Lemma tree_walk_built fuel dir c objs name suf :
  Forall (stored m) objs -> tree_of fuel f dir = Some (c, objs) -> slash ∉ name ->
  is_Some (f !! (dir ++ name ++ [slash] ++ suf)) ->
  exists fuel' c' objs', tree_walk m (mkObjRef (str "tree") c) [name] = Some (mkObjRef (str "tree") c') /\
    tree_of fuel' f (dir ++ name ++ [slash]) = Some (c', objs') /\ Forall (stored m) objs'.
Proof.
  intros Hst Ht Hname [x Hx]. change (name ++ [slash] ++ suf) with (join_byte slash [name; suf]) in Hx.
  destruct (tree_lines_built fuel dir c objs Hst Ht) as (ents & hs & Hok & Hlen & Hlines & Hhs).
  cbn [tree_walk]. rewrite Hlines.
  cbn [mbind option_bind]. destruct (ents_complete _ _ _ Hok _ _ Hx) as (e & He & Hb & Hd).
  destruct (newEnt_join name [suf] x Hname) as [Hb' Hd']. rewrite Hb' in Hb.
  rewrite Hd' in Hd. apply list_elem_of_lookup in He as [i He].
  destruct (lookup_lt_is_Some_2 hs i) as [h Hh]; [rewrite Hlen; by eapply lookup_lt_Some|].
  assert (list_find (fun e : bytes * bytes * bytes => e.1.2 = name) (zip_with (fun e h => (tree_mode e, base e, h)) ents hs) =
    Some (i, (tree_mode e, base e, h))) as ->.
  { apply list_find_Some. split; [by rewrite lookup_zip_with, He, Hh|]. split; [done|].
    intros j y Hj Hlt Hy. apply lookup_zip_with_Some in Hj as (e' & h' & -> & He' & _). cbn in Hy.
    pose proof (ents_nodup _ _ _ Hok) as Hnd. rewrite NoDup_alt in Hnd.
    assert (j = i) as ->; [|lia]. apply (Hnd j i name); rewrite list_lookup_fmap; [rewrite He'|rewrite He]; cbn; by f_equal. }
  cbn [mbind option_bind]. specialize (Hhs _ _ _ He Hh). rewrite Hd in Hhs.
  destruct Hhs as (fuel' & c' & objs' & Ht' & -> & Hobjs). rewrite Hb in Ht'.
  exists fuel', c', objs'. by split_and!.
Qed.
End built.
