(* ===== verification/MemGit.v ===== *)
(** * A git repository in memory

    An instance of [GitPack.Git] with objects and refs, which resolves the
    revisions the store asks for by the rules of [GitTree.git_read] and
    reads the packs it is sent by [GitPack.read_pack].  The theorems about
    the git-backed store are evaluated on it. *)

From S2P Require Import Prelude GoStrings Sha GitTree GitPack GitCat GitStore GitHandle.

Local Open Scope gomodfs_scope.

Record repo := MkRepo { r_objects : gmap bytes object; r_refs : gmap bytes bytes }.

Definition empty_repo : repo := MkRepo ∅ ∅.

Definition put_object (m : gmap bytes object) (typ content : bytes) : gmap bytes object :=
  let h := mkObjRef typ content in <[h := MkObject typ content h]> m.

(** Adding an object of a pack. *)
Definition object_type (n : Z) : bytes := if decide (n = objTree) then str "tree" else str "blob".
Definition add_packed (m : gmap bytes object) (o : Z * bytes) : gmap bytes object :=
  put_object m (object_type o.1) o.2.

(** "<ref or hash>", with ":<path>" or "^{tree}" after it. *)
Definition resolve (r : repo) (rev : bytes) : option bytes :=
  let base x := match hex_decode x with Some h => Some h | None => r_refs r !! x end in
  match Cut rev (str ":") with
  | Some (x, path) => h ← base x; tree_walk (r_objects r) h (split_byte slash path)
  | None => base (TrimSuffix rev (str "^{tree}"))
  end.

Definition cat_file (line : bytes) (r : repo) : bytes :=
  let rev := TrimSuffix line [nl] in
  match h ← resolve r rev; r_objects r !! h with
  | Some o => answer_found (o_hash o) (o_typ o) (o_content o)
  | None => answer_missing rev
  end.

(** Quoting, of every byte by its octal digits, for a path that holds a
    double quote, a backslash or a control character. *)
Definition octal (c : ascii) : bytes :=
  let z := byte_val c in
  ["\"%char; byte_of (48 + z / 64); byte_of (48 + z / 8 mod 8); byte_of (48 + z mod 8)].
Definition plain (c : ascii) : Prop := (32 <= byte_val c)%Z /\ c <> dquote /\ c <> "\"%char.
#[export] Instance plain_dec c : Decision (plain c).
Proof. unfold plain. apply _. Defined.
Definition mem_quote (p : bytes) : bytes :=
  if decide (Forall plain p) then p else dquote :: mjoin (octal <$> p) ++ [dquote].

Lemma unquote_octal c rest : unquote_escape (tail (octal c) ++ rest) = Some ([c], rest).
Proof. destruct c as [[] [] [] [] [] [] [] []]; vm_compute; reflexivity. Qed.

Lemma unquote_loop_octal p fuel :
  length p < fuel -> unquote_loop fuel (mjoin (octal <$> p) ++ [dquote]) = Some p.
Proof.
  revert fuel. induction p as [|c p IH]; intros [|fuel] Hf; cbn in Hf; [lia|done|lia|].
  change (mjoin (octal <$> c :: p)) with ("\"%char :: tail (octal c) ++ mjoin (octal <$> p)).
  cbn [app unquote_loop]. rewrite !decide_False, decide_True by by_decide.
  rewrite <- app_assoc, unquote_octal. cbn [mbind option_bind]. rewrite IH by lia. done.
Qed.

Lemma octal_nl c : nl ∉ octal c.
Proof.
  assert (bool_decide (nl ∉ octal c) = true) as H; [|by apply bool_decide_eq_true in H].
  destruct c as [[] [] [] [] [] [] [] []]; vm_compute; reflexivity.
Qed.

Lemma mem_quote_quotes p : quotes (mem_quote p) p.
Proof.
  unfold mem_quote, quotes. case_decide as Hp.
  - rewrite Forall_forall in Hp. split.
    + intros Hnl. destruct (Hp _ Hnl) as [H _]. change (byte_val nl) with 10%Z in H. lia.
    + left. split; [done|]. destruct p as [|c p]; [done|]. intros [= ->].
      by destruct (Hp dquote) as (_ & ? & _); [left|].
  - split.
    + apply not_elem_of_cons. split; [done|]. apply not_elem_of_app. split; [|by_decide].
      intros (l & Hin & Hl)%list_elem_of_join. apply list_elem_of_fmap in Hl as (c & -> & _).
      by apply (octal_nl c).
    + right. split; [done|]. unfold Unquote. rewrite decide_True by done. apply unquote_loop_octal.
      cbn [length]. rewrite length_app. cbn [length].
      assert (length p <= length (mjoin (octal <$> p))); [|lia]. clear.
      induction p as [|c p IH]; [done|]. change (mjoin _) with (octal c ++ mjoin (octal <$> p)).
      rewrite length_app. cbn [length octal]. lia.
Qed.

(** How deep trees may nest for [git ls-tree]. *)
Definition max_depth : nat := 20.

(** The names that git accepts for a ref; of its rules, those about the
    prefix and about characters. *)
Definition good_ref (ref : bytes) : bool :=
  HasPrefix ref (str "refs/") && bool_decide (Forall (fun c => (32 < byte_val c)%Z /\ c ∉ str "~^:?*[\") ref).

Definition describe (o : object) : bytes := o_typ o ++ str " " ++ Itoa (Z.of_nat (length (o_content o))).

#[export] Instance mem_git : Git repo := {
  git_batch_check := fun input r =>
    (Ok (batch_check_output (fun h => describe <$> r_objects r !! h)
           (omap hex_decode (filter (fun l => l <> []) (split_byte nl input)))), r);
  git_index_pack := fun pack r =>
    match read_pack pack with
    | Some objs => (Ok tt, MkRepo (fold_left add_packed objs (r_objects r)) (r_refs r))
    | None => (Err (errText "index-pack"), r)
    end;
  git_update_ref := fun ref hash r =>
    match hex_decode hash with
    | Some h =>
        if good_ref ref then (Ok tt, MkRepo (r_objects r) (<[ref := h]> (r_refs r)))
        else (Err (errText "refusing to update ref with bad name"), r)
    | None => (Err (errText "not a valid SHA1"), r)
    end;
  git_hash_object := fun data r =>
    (Ok (hex_encode (mkObjRef (str "blob") data) ++ [nl]), MkRepo (put_object (r_objects r) (str "blob") data) (r_refs r));
  git_ls_tree := fun rev r =>
    match h ← resolve r rev; git_listing max_depth (r_objects r) h with
    | Some l => (Ok (ls_output mem_quote l), r)
    | None => (Err (errText "ls-tree"), r)
    end;
  git_for_each_ref := fun r =>
    (Ok (mjoin ((fun ref => TrimPrefix ref (str "refs/") ++ [nl]) <$> (map_to_list (r_refs r)).*1)), r);
  git_cat_file := fun line r => (cat_file line r, r) }.
