(* ===== verification/GitStoreProps.v ===== *)
(** * store/gitstore/gitstore.go: properties of the git-backed store

    Refs and the list of cached modules, handles read from [git ls-tree],
    and files that come back as they were put. *)

From S2P Require Import Prelude GoStrings Url Sha Store PathDir GitTree GitPack GitCat GitStore GitHandle MemGit.
Import Gitstore.

Local Open Scope gomodfs_scope.

(** ** The cached modules *)

Section refs.
Context `{L : ModEscapeLaws} {Me : Mem}.

(** The short form of a module's ref, or of its (mod) or (info) ref. *)
Definition short_ref (mv : ModuleVersion) (suffix : bytes) : option bytes :=
  match refName mv with
  | Ok r => (fun s => s ++ suffix) <$> CutPrefix r (str "refs/")
  | Err _ => None
  end.

Definition ref_suffix (s : bytes) : Prop := s = [] \/ s = str "(mod)" \/ s = str "(info)".

Lemma refName_spec mv r :
  refName mv = Ok r -> exists em ev, EscapePath (Module mv) = Ok em /\ EscapeVersion (Version mv) = Ok ev /\
    r = str "refs/gomod/" ++ PathEscape em ++ str "@" ++ PathEscape ev.
Proof.
  unfold refName. destruct (EscapePath (Module mv)) as [em|]; [|done].
  destruct (EscapeVersion (Version mv)) as [ev|]; [|done]. intros [= <-]. by exists em, ev.
Qed.

Lemma parse_short_ref mv suffix line :
  short_ref mv suffix = Some line -> ref_suffix suffix -> parse_ref line = Some mv /\ nl ∉ line.
Proof.
  unfold short_ref. destruct (refName mv) as [r|] eqn:Hr; [|done]. intros Hs Hsuf.
  apply refName_spec in Hr as (em & ev & Hem & Hev & ->).
  change (str "refs/gomod/") with (str "refs/" ++ str "gomod/") in Hs. rewrite <- !app_assoc, CutPrefix_app in Hs.
  apply (inj Some) in Hs as <-.
  set (name := str "gomod/" ++ PathEscape em ++ str "@" ++ PathEscape ev).
  assert (forall c, shouldEscape c = true -> (byte_val c < 48)%Z -> c <> "%"%char ->
    c ∉ str "gomod/@" -> c ∉ name) as Hname.
  { intros c H1 H2 H3 H4. subst name. rewrite !not_elem_of_app. split_and!;
      [|by apply PathEscape_notin| |by apply PathEscape_notin]; intros Hin; apply H4; revert Hin; cbn; set_solver. }
  split.
  - unfold parse_ref. assert (match Cut (name ++ suffix) (str "(") with Some (a, _) => a | None => name ++ suffix end = name) as ->.
    { assert ("("%char ∉ name) as Hp by (apply Hname; [done|done|done|by_decide]).
      change (str "(") with ["("%char]. destruct Hsuf as [->|[->| ->]].
      - by rewrite app_nil_r, Cut_byte_None.
      - change (str "(mod)") with ("("%char :: str "mod)"). by rewrite Cut_byte.
      - change (str "(info)") with ("("%char :: str "info)"). by rewrite Cut_byte. }
    subst name. rewrite CutPrefix_app. cbn [mbind option_bind].
    change (str "@") with ["@"%char]. cbn [app]. rewrite Cut_byte.
    + cbn [mbind option_bind]. rewrite !PathUnescape_Escape. cbn [mbind option_bind].
      rewrite (Unescape_EscapePath _ _ Hem), (Unescape_EscapeVersion _ _ Hev). by destruct mv.
    + intros Hin. apply (EscapePath_at _ _ Hem). eapply url_escape_in; [|done|exact Hin].
      change (byte_val "@") with 64%Z. lia.
  - rewrite not_elem_of_app. split; [apply Hname; [done|done|done|by_decide]|].
    destruct Hsuf as [->|[->| ->]]; by_decide.
Qed.

Lemma cached_loop_spec lines mvs seen mods :
  parse_ref <$> lines = Some <$> mvs -> NoDup mods -> (forall mv, mv ∈ seen <-> mv ∈ mods) ->
  NoDup (cached_loop lines seen mods) /\
  forall mv, mv ∈ cached_loop lines seen mods <-> mv ∈ mods \/ mv ∈ mvs.
Proof.
  revert mvs seen mods. induction lines as [|line lines IH]; intros mvs seen mods Hp Hnd Hseen.
  { destruct mvs; [|done]. cbn. split; [done|]. set_solver. }
  destruct mvs as [|mv mvs]; [done|]. injection Hp as Hl Hp. cbn [cached_loop]. rewrite Hl.
  case_decide as Hin.
  - destruct (IH mvs seen mods Hp Hnd Hseen) as [? Hm]. split; [done|]. intros mv'. rewrite Hm.
    apply Hseen in Hin. set_solver.
  - destruct (IH mvs ({[mv]} ∪ seen) (mods ++ [mv]) Hp) as [? Hm].
    + apply NoDup_app. split_and!; [done| |apply NoDup_singleton].
      intros x Hx ->%list_elem_of_singleton. by apply Hin, Hseen.
    + intros mv'. rewrite elem_of_union, elem_of_singleton, elem_of_app, list_elem_of_singleton, Hseen. tauto.
    + split; [done|]. intros mv'. rewrite Hm. set_solver.
Qed.

(** The module versions that [CachedModules] returns are those whose
    refs git lists, under any of their three names, each once: the names
    that the store gives its refs are read back as the modules. *)
Theorem CachedModules_complete {G} {Gi : Git G} (refs : list (ModuleVersion * bytes)) lines (g g' : G) :
  Forall2 (fun ref line => short_ref ref.1 ref.2 = Some line /\ ref_suffix ref.2) refs lines ->
  git_for_each_ref g = (Ok (mjoin ((fun line => line ++ [nl]) <$> lines)), g') ->
  exists mvs, CachedModules g = Some (Ok mvs, g') /\ NoDup mvs /\ forall mv, mv ∈ mvs <-> mv ∈ refs.*1.
Proof.
  intros Hrefs Hg. unfold CachedModules, call, pst_bind. rewrite Hg.
  assert (parse_ref <$> lines = Some <$> refs.*1 /\ Forall (fun l => nl ∉ l) lines) as [Hp Hnl].
  { clear Hg. induction Hrefs as [|[mv suf] line refs lines [Hs Hsuf] _ [IH1 IH2]]; [done|].
    destruct (parse_short_ref _ _ _ Hs Hsuf) as [Hl Hn]. split; [|by constructor].
    rewrite !fmap_cons. cbn [fst]. by rewrite Hl, IH1. }
  rewrite split_byte_lines by done.
  assert (forall ls seen mods, cached_loop (ls ++ [[]]) seen mods = cached_loop ls seen mods) as Hlast.
  { induction ls as [|l ls IHl]; intros seen mods; [done|]. cbn [app cached_loop].
    destruct (parse_ref l); [|done]. by case_decide. }
  rewrite Hlast.
  destruct (cached_loop_spec lines refs.*1 ∅ [] Hp) as [Hnd Hin]; [constructor|set_solver|].
  eexists. split; [done|]. split; [done|]. intros mv. rewrite Hin. set_solver.
Qed.
End refs.

(** ** A module that was put is read back *)

Section laws.
Context {G : Type} {Gi : Git G} {Zl : Zlib} {ZL : ZlibLaws Zl}.

(** What git documents of the commands, in terms of its object database:
    the database is addressed by content; [cat-file --batch-check] tells
    what it holds; [index-pack] adds a well-formed pack; a revision
    "<tree>:<path>" names the file at the path; [ls-tree] prints the lines
    of the tree that is named, quoting paths in its way, for trees that nest
    at most [core.maxTreeDepth] deep; no other command removes objects. *)
Class GitLaws := {
  git_ok : G -> Prop;
  git_db : G -> gmap bytes object;
  git_db_hash : forall g h o, git_ok g -> git_db g !! h = Some o -> h = mkObjRef (o_typ o) (o_content o) /\ o_hash o = h;
  git_batch_check_law : forall hs g, git_ok g -> Forall (fun h => length h = 20) hs -> exists has,
    git_batch_check (batch_check_input hs) g = (Ok (batch_check_output has hs), g) /\
    forall h d, has h = Some d -> good_desc d /\ is_Some (git_db g !! h);
  git_index_pack_law : forall pack objs g, git_ok g -> read_pack pack = Some objs ->
    Forall (fun o => Z.of_nat (length o.2) < 2 ^ 63)%Z objs -> exists g',
    git_index_pack pack g = (Ok tt, g') /\ git_ok g' /\ git_db g' = fold_left add_packed objs (git_db g);
  git_update_ref_law : forall ref h g r g', git_ok g -> git_update_ref ref h g = (r, g') ->
    git_ok g' /\ git_db g' = git_db g;
  git_max_depth : nat;
  git_quote : bytes -> bytes;
  git_quote_law : forall p, quotes (git_quote p) p;
  git_ls_tree_law : forall tree path sub l g, git_ok g ->
    tree_walk (git_db g) tree (split_byte slash path) = Some sub ->
    git_listing git_max_depth (git_db g) sub = Some l -> exists g',
    git_ls_tree (hex_encode tree ++ str ":" ++ path) g = (Ok (ls_output git_quote l), g') /\
    git_ok g' /\ git_db g' = git_db g;
  git_cat_path : forall g tree path mode c, git_ok g ->
    git_read (git_db g) tree (split_byte slash path) = Some (mode, c) -> exists g',
    git_cat_file (hex_encode tree ++ str ":" ++ path ++ [nl]) g =
      (answer_found (mkObjRef (str "blob") c) (str "blob") c, g') }.

Context {GL : GitLaws}.

(** Packed objects end up in the database, and it keeps what it had. *)
Lemma add_packed_stored (objs : list (Z * bytes)) (m : gmap bytes object) X :
  sha1_ok X -> Forall (fun o => (object_type o.1, o.2) ∈ X) objs ->
  let m' := fold_left add_packed objs m in
  Forall (fun o => stored m' (object_type o.1, o.2)) objs /\
  forall p, p ∈ X -> stored m p -> stored m' p.
Proof.
  intros [_ HX]. assert (forall a b, a ∈ X -> b ∈ X -> mkObjRef a.1 a.2 = mkObjRef b.1 b.2 -> a = b) as Hinj.
  { intros a b Ha Hb. rewrite Forall_forall in HX. specialize (HX a Ha). rewrite Forall_forall in HX. by apply HX. }
  revert m. induction objs as [|o objs IH]; intros m Hin; [by split|].
  apply Forall_cons in Hin as [Ho Hin]. cbn [fold_left].
  assert (stored (add_packed m o) (object_type o.1, o.2)) as Hs.
  { unfold stored, add_packed, put_object. cbn. by rewrite lookup_insert_eq. }
  assert (forall p, p ∈ X -> stored m p -> stored (add_packed m o) p) as Hkeep.
  { intros p Hp Hst. unfold stored, add_packed, put_object. cbv zeta.
    destruct (decide (mkObjRef (object_type o.1) o.2 = mkObjRef p.1 p.2)) as [E|E].
    - rewrite <- E, lookup_insert_eq. apply (Hinj (object_type o.1, o.2) p) in E as <-; done.
    - by rewrite lookup_insert_ne. }
  destruct (IH (add_packed m o) Hin) as [Hall Hk]. split; [constructor; [by apply Hk|done]|].
  intros p Hp Hst. by apply Hk, Hkeep.
Qed.

(** After [sendToGit], git has every object of the builder. *)
Lemma sendToGit_stores X tb g :
  git_ok g -> sha1_ok X -> within X tb -> indexed tb ->
  Forall (fun p => (p.1 = str "blob" \/ p.1 = str "tree") /\ (Z.of_nat (length p.2) < 2 ^ 63)%Z) X ->
  (Z.of_nat (length (hashes tb)) < 2 ^ 32)%Z ->
  (forall p o, p ∈ X -> git_db g !! mkObjRef p.1 p.2 = Some o -> (o_typ o, o_content o) = p) ->
  exists r g', sendToGit tb g = Some (r, g') /\ git_ok g' /\
    forall p, p ∈ X -> stored (hashSet tb) p -> stored (git_db g') p.
Proof.
  intros Hok HX Hw [_ Hi] Hsend Hlen Hnc. rewrite Forall_forall in Hsend.
  assert (forall h o, hashSet tb !! h = Some o -> length h = 20 /\ sendable o) as Hobj.
  { intros h o Ho. destruct (Hw _ _ Ho) as (p & Hp & -> & ->). destruct (Hsend _ Hp).
    split; [apply mkObjRef_length|done]. }
  assert (sane tb) as Hsane.
  { apply Forall_forall. intros h Hh. apply Hi in Hh as [o Ho]. destruct (Hobj _ _ Ho). eauto. }
  destruct (git_batch_check_law (hashes tb) g Hok) as (has & Hcheck & Hhas).
  { eapply Forall_impl; [exact Hsane|]. by intros ? []. }
  pose proof (sendToGit_lemma tb g g has Hsane Hlen (fun h d H => proj1 (Hhas h d H)) Hcheck) as Hs.
  assert (forall p, p ∈ X -> stored (hashSet tb) p -> has (mkObjRef p.1 p.2) <> None -> stored (git_db g) p) as Hold.
  { intros p Hp _ Hh. destruct (has _) as [d|] eqn:Hd; [|done]. destruct (Hhas _ _ Hd) as [_ [o Ho]].
    pose proof (Hnc _ _ Hp Ho) as <-. destruct (git_db_hash _ _ _ Hok Ho) as [_ Hh']. unfold stored.
    cbn [fst snd] in *. rewrite Ho. destruct o. cbn in *. by subst. }
  destruct (filter (fun h => has h = None) (hashes tb)) as [|h0 missing] eqn:Hf.
  - exists (Ok (MkStats 0 0 0 0)), g. split; [done|]. split; [done|]. intros p Hp Hst. apply Hold; [done..|].
    intros Hn. assert (mkObjRef p.1 p.2 ∈ @nil bytes) as Hin; [|by apply elem_of_nil in Hin].
    rewrite <- Hf, list_elem_of_filter. split; [done|]. apply Hi. by eexists.
  - destruct Hs as (pack & objs & Hobjs & Hread & Hs).
    assert (Forall (fun o => (o_typ o = str "blob" \/ o_typ o = str "tree") /\
      (Z.of_nat (length (o_content o)) < 2 ^ 63)%Z /\ (o_typ o, o_content o) ∈ X) objs) as Hall.
    { apply Forall_forall. intros o Ho. apply list_elem_of_lookup in Ho as [i Hio].
      destruct (Forall2_lookup_r _ _ _ _ _ Hobjs Hio) as (h & _ & Ho).
      destruct (Hw _ _ Ho) as (p & Hp & -> & ->). destruct (Hsend _ Hp). cbn. by destruct p. }
    destruct (git_index_pack_law pack _ g Hok Hread) as (g' & Hip & Hok' & Hdb).
    { apply Forall_fmap. eapply Forall_impl; [exact Hall|]. by intros o (_ & ? & _). }
    rewrite Hip in Hs. exists (Ok (pack_stats objs)), g'. split; [done|]. split; [done|]. intros p Hp Hst.
    assert (forall o, o ∈ objs -> object_type (type_no o) = o_typ o) as Htype.
    { intros o Ho. rewrite Forall_forall in Hall. destruct (Hall _ Ho) as [Ht _].
      unfold type_no, object_type. by destruct (decide (o_typ o = str "tree")) as [E|E], Ht. }
    destruct (add_packed_stored ((fun o => (type_no o, o_content o)) <$> objs) (git_db g) X HX) as [Hnew Hkeep].
    { apply Forall_fmap, Forall_forall. intros o Ho. cbn. rewrite Htype by done. rewrite Forall_forall in Hall.
      by destruct (Hall _ Ho) as (_ & _ & ?). }
    rewrite Hdb. destruct (decide (has (mkObjRef p.1 p.2) = None)) as [Hn|Hn]; [|by apply Hkeep, Hold].
    assert (mkObjRef p.1 p.2 ∈ h0 :: missing) as Hin.
    { rewrite <- Hf, list_elem_of_filter. split; [done|]. apply Hi. by eexists. }
    apply list_elem_of_lookup in Hin as [i Hih].
    destruct (Forall2_lookup_l _ _ _ _ _ Hobjs Hih) as (o & Hio & Ho). unfold stored in Hst.
    rewrite Hst in Ho. injection Ho as <-. rewrite Forall_fmap, Forall_forall in Hnew.
    specialize (Hnew _ (list_elem_of_lookup_2 _ _ _ Hio)). cbn in Hnew.
    rewrite Htype in Hnew by (by eapply list_elem_of_lookup_2). cbn in Hnew. by destruct p.
Qed.

Context `{E : ModEscape} {Me : Mem} {MeL : MemLaws Me} {R : GoRange} {RL : GoRangeLaws R}.

(** The names, contents and modes that [PutModule] stores, for files that
    open. *)
Definition files_of (data : PutModuleData) : list (bytes * bytes * Z) :=
  omap (fun '(n, r, mode) => match r with Ok c => Some (n, c, mode) | Err _ => None end) (module_files data).
Definition fuel_of (f : gmap bytes gitFile) : nat := S (max_list (length <$> (map_to_list f).*1)).

(** The objects that [PutModule] makes. *)
Definition module_objects (data : PutModuleData) : list (bytes * bytes) :=
  all_objects (fuel_of (git_files (files_of data))) (files_of data).

(** A module whose tree git can hold: its files open, their names have no
    NUL, no empty, "." or ".." part and no more parts than git lists, and
    none is a directory of another; SHA-1 does not collide on the
    objects it is stored as, nor between them and those git has; and these
    are fewer than 2^32 and smaller than 2^63 bytes. *)
Record storable (data : PutModuleData) (m : gmap bytes object) : Prop := {
  st_open : Forall (fun f => is_ok (pf_Open f) = true) (Files data);
  st_names : clean_names (git_files (files_of data));
  st_paths : forall path, is_Some (git_files (files_of data) !! (str "zip/" ++ path)) ->
    Forall good_elem (split_byte slash path) /\ length (split_byte slash path) <= git_max_depth;
  st_conflict : no_conflict (git_files (files_of data));
  st_sha1 : sha1_ok (module_objects data);
  st_old : forall p o, p ∈ module_objects data -> m !! mkObjRef p.1 p.2 = Some o -> (o_typ o, o_content o) = p;
  st_size : Forall (fun p => (Z.of_nat (length p.2) < 2 ^ 63)%Z) (module_objects data);
  st_count : (Z.of_nat (length (module_objects data)) < 2 ^ 32)%Z }.

Lemma module_files_opened data :
  Forall (fun f => is_ok (pf_Open f) = true) (Files data) -> module_files data = opened (files_of data).
Proof.
  intros Hok. unfold files_of. assert (Forall (fun x => is_ok x.1.2 = true) (module_files data)) as Hall.
  { unfold module_files. apply Forall_app. split.
    - induction (go_range [] (parts data)) as [|[ext [v|]] l IH]; cbn; [constructor|by constructor|done].
    - apply Forall_fmap. eapply Forall_impl; [exact Hok|]. done. }
  induction Hall as [|[[n r] mode] l Hr _ IH]; [done|]. destruct r; [|done].
  cbn [omap list_omap]. unfold opened in *. rewrite fmap_cons. by rewrite <- IH.
Qed.

Lemma fuel_of_enough f n : is_Some (f !! n) -> length n < fuel_of f.
Proof.
  intros [x Hx]. unfold fuel_of. apply Nat.lt_succ_r, max_list_elem_of_le, list_elem_of_fmap.
  exists n. split; [done|]. apply list_elem_of_fmap. exists (n, x). split; [done|]. by apply elem_of_map_to_list.
Qed.

Lemma hashes_bound X tb : indexed tb -> within X tb -> length (hashes tb) <= length X.
Proof.
  intros [Hnd Hi] Hw. rewrite <- (length_fmap (fun p => mkObjRef p.1 p.2) X).
  apply submseteq_length, NoDup_submseteq; [done|]. intros h Hh.
  apply Hi in Hh as [o Ho]. destruct (Hw _ _ Ho) as (p & Hp & -> & _). apply list_elem_of_fmap. eauto.
Qed.

(** The file of a module at a path: the last one given with that name. *)
Definition in_zip (data : PutModuleData) (path : bytes) : option gitFile :=
  git_files (omap (fun f => match pf_Open f with Ok c => Some (pf_Path f, c, pf_Mode f) | Err _ => None end)
    (Files data)) !! path.

Lemma git_files_app l1 l2 : git_files (l1 ++ l2) = fold_left (fun m '(n, c, mode) => <[n := git_file c mode]> m) l2 (git_files l1).
Proof. apply fold_left_app. Qed.

Lemma git_files_prefix (pre path : bytes) (l : list (bytes * bytes * Z)) (m m' : gmap bytes gitFile) :
  m !! (pre ++ path) = m' !! path ->
  fold_left (fun m '(n, c, mode) => <[n := git_file c mode]> m) ((fun '(n, c, mode) => (pre ++ n, c, mode)) <$> l) m !! (pre ++ path) =
  fold_left (fun m '(n, c, mode) => <[n := git_file c mode]> m) l m' !! path.
Proof.
  revert m m'. induction l as [|[[n c] mode] l IH]; intros m m' Hm; [done|]. rewrite fmap_cons. cbn [fold_left].
  apply IH. destruct (decide (n = path)) as [->|Hn]; [by rewrite !lookup_insert_eq|].
  rewrite !lookup_insert_ne; [done|done|]. intros Heq. by apply (inj (app pre)) in Heq.
Qed.

(** It is the one that is stored below zip/. *)
Lemma in_zip_files data path : git_files (files_of data) !! (str "zip/" ++ path) = in_zip data path.
Proof.
  unfold in_zip, files_of, module_files. rewrite omap_app, git_files_app.
  assert (omap (fun '(n, r, mode) => match r with Ok c => Some (n, c, mode) | Err _ => None end)
      ((fun f => (str "zip/" ++ pf_Path f, pf_Open f, pf_Mode f)) <$> Files data) =
    (fun '(n, c, mode) => (str "zip/" ++ n, c, mode)) <$>
      omap (fun f => match pf_Open f with Ok c => Some (pf_Path f, c, pf_Mode f) | Err _ => None end) (Files data)) as ->.
  { induction (Files data) as [|f l IH]; [done|]. rewrite fmap_cons. cbn [omap list_omap].
    destruct (pf_Open f); [by rewrite IH|done]. }
  apply git_files_prefix. rewrite lookup_empty. apply eq_None_not_Some.
  assert (forall n, is_Some (git_files (omap (fun '(n, r, mode) => match r with Ok c => Some (n, c, mode) | Err _ => None end)
    (omap (fun '(ext, v) => v ← v; Some (ext, Ok v, 420%Z)) (go_range [] (parts data)))) !! n) ->
    n ∈ [str "ziphash"; str "info"; str "mod"]) as Hp.
  { apply git_names_decide. apply Forall_forall. intros n Hn.
    apply list_elem_of_fmap in Hn as ([n' ?] & -> & Hn). apply list_elem_of_fmap in Hn as ([[n c] mode] & [= -> ->] & Hn).
    apply list_elem_of_omap in Hn as ([[n' r] mode'] & Hn & Heq). destruct r; [|done]. injection Heq as -> -> ->.
    apply list_elem_of_omap in Hn as ([ext v] & Hn & Heq). destruct v as [v|]; [|done]. injection Heq as -> <- <-.
    apply elem_of_range in Hn. unfold parts in Hn. cbn [fst].
    do 2 (apply lookup_insert_Some in Hn as [[<- _]|[_ Hn]]; [by_decide|]).
    apply lookup_singleton_Some in Hn as [<- _]. by_decide. }
  intros Hs%Hp. rewrite !elem_of_cons in Hs. by destruct Hs as [Hs|[Hs|[Hs|Hs%elem_of_nil]]].
Qed.

(** What a handle says of a path, for the module that was stored: the
    file's information, with its blob, size and mode; a directory when files
    lie below it; otherwise that nothing is there. *)
Definition file_meta (x : gitFile) : blobMeta :=
  MkBlobMeta (gf_gitHash x) (Z.of_nat (length (gf_contents x)))
    (if (Z.land (gf_mode x) execBits =? 0)%Z then 420 else 493).
Definition has_below (data : PutModuleData) (path : bytes) : Prop :=
  exists rest, is_Some (in_zip data (path ++ slash :: rest)).
Definition knows_path (data : PutModuleData) (mh : modHandle) (path : bytes) : Prop :=
  match in_zip data path with
  | Some x => mh_dirEnts mh !! path = None /\ Stat mh path = Ok (regFileInfo (path_Base path) (file_meta x))
  | None =>
      (has_below data path ->
         is_Some (mh_dirEnts mh !! path) /\ Stat mh path = Ok (dirFileInfo (path_Base path))) /\
      (~ has_below data path -> Stat mh path = Err ErrNotExist)
  end.

Section handle.
Context (data : PutModuleData) (l : list ls_entry) (d : list bytes).
Hypothesis Hconf : no_conflict (git_files (files_of data)).
Hypothesis Hsound : ls_sound (git_files (files_of data)) (str "zip/") l.
Hypothesis Hcomplete : forall path x, in_zip data path = Some x -> ls_complete path x l.
Hypothesis Hd : Forall good_elem d.
Hypothesis Hne : d <> [].

Lemma split_join_good : split_byte slash (join_byte slash d) = d.
Proof. apply split_join; [done|]. eapply Forall_impl; [exact Hd|]. by intros w (_ & ? & _). Qed.

Lemma listed_below : filter (fun e => le_dir e = d) l <> [] <-> has_below data (join_byte slash d).
Proof.
  split.
  - destruct (filter _ l) as [|e es] eqn:He; [done|]. intros _.
    assert (e ∈ filter (fun e => le_dir e = d) l) as Hin by (rewrite He; by left).
    apply list_elem_of_filter in Hin as [<- Hin].
    destruct (Hsound _ Hin) as (_ & suf & x & rest & Hx & Hs & _). unfold le_segs in Hs. rewrite <- app_assoc in Hs.
    exists (join_byte slash (le_name e :: rest)), x.
    rewrite in_zip_files, <- (join_split slash suf), Hs in Hx. by rewrite <- join_byte_app by (done || by destruct d).
  - intros [rest [x Hx]] Hnil. destruct (split_byte slash rest) as [|r rs] eqn:Hr; [by apply split_byte_nonempty in Hr|].
    destruct (Hcomplete _ _ Hx (d ++ [r]) rs) as (e & He & Hs & _).
    { by rewrite split_byte_concat, split_join_good, Hr, <- app_assoc. }
    { by destruct d. }
    apply app_inj_tail in Hs as [Hs _]. assert (e ∈ filter (fun e => le_dir e = d) l) as Hin.
    { by apply list_elem_of_filter. }
    rewrite Hnil in Hin. by apply not_elem_of_nil in Hin.
Qed.

Lemma listed_file e :
  e ∈ filter (fun e => le_is_dir e = false /\ le_segs e = d) l ->
  exists x, in_zip data (join_byte slash d) = Some x /\ le_meta e = file_meta x.
Proof.
  intros [[Hf <-] Hin]%list_elem_of_filter. destruct (Hsound _ Hin) as (_ & suf & x & rest & Hx & Hs & Hdir & He).
  rewrite Hf in Hdir, He. destruct (decide (rest = [])) as [->|Hr]; [|by rewrite bool_decide_eq_false_2 in Hdir].
  rewrite app_nil_r in Hs. exists x. split; [by rewrite <- Hs, join_split, <- in_zip_files|].
  destruct He as (Hh & Hm & Hsz). unfold le_meta, file_meta, le_gomode, le_octal. rewrite Hf, Hh, Hm, Hsz.
  unfold file_ls_mode. by destruct (_ =? 0)%Z.
Qed.

(** A handle whose maps are those of the listing of the zip directory. *)
Lemma listing_knows mh :
  mh_dirEnts mh !! join_byte slash d =
    match filter (fun e => le_dir e = d) l with [] => None | es => Some (le_dirent <$> es) end ->
  mh_blobMeta mh !! join_byte slash d =
    le_meta <$> last (filter (fun e => le_is_dir e = false /\ le_segs e = d) l) ->
  knows_path data mh (join_byte slash d).
Proof.
  intros Hdirs Hblobs. pose proof listed_below as Hb. unfold knows_path, Stat. rewrite Hdirs, Hblobs.
  destruct (last _) as [e|] eqn:He.
  - destruct (listed_file e) as (x & Hx & Hm).
    { apply last_Some in He as [k ->]. apply elem_of_app. right. by left. }
    rewrite Hx. destruct (filter (fun e => le_dir e = d) l) as [|e' es]; [|exfalso].
    + split; [done|]. cbn [fmap option_fmap option_map]. by rewrite Hm.
    + destruct (proj1 Hb ltac:(done)) as [rest Hrest]. rewrite <- in_zip_files in Hx, Hrest. refine (Hconf _ _ (mk_is_Some _ _ Hx) Hrest _).
      exists rest. change (slash :: rest) with ([slash] ++ rest). by rewrite <- !app_assoc.
  - destruct (in_zip data (join_byte slash d)) as [x|] eqn:Hx.
    + exfalso. destruct (Hcomplete _ _ Hx d []) as (e & Hin & Hs & Hf); [by rewrite split_join_good, app_nil_r|done|].
      rewrite bool_decide_eq_true_2 in Hf by done. apply last_None in He.
      assert (e ∈ filter (fun e => le_is_dir e = false /\ le_segs e = d) l) as Hin' by (by apply list_elem_of_filter).
      rewrite He in Hin'. by apply not_elem_of_nil in Hin'.
    + destruct (filter (fun e => le_dir e = d) l) as [|e' es].
      * split; [|done]. intros H. by destruct (proj2 Hb H).
      * split; [done|]. intros Hn. by destruct (Hn (proj1 Hb ltac:(done))).
Qed.
End handle.

(** The module's tree, as [PutModule] builds it and git then holds it. *)
Definition git_holds (data : PutModuleData) (m : gmap bytes object) (c : bytes) : Prop :=
  let f := git_files (files_of data) in
  exists fuel objs, tree_of fuel f [] = Some (c, objs) /\ Forall (stored m) objs /\
    (forall n x, f !! n = Some x -> (Z.of_nat (length (gf_contents x)) < 2 ^ 63)%Z) /\
    forall n x, f !! n = Some x ->
      gf_gitHash x = mkObjRef (str "blob") (gf_contents x) /\ stored m (str "blob", gf_contents x).

(** The first half of [PutModule]: the tree is built, and sent to git. *)
Lemma PutModule_builds data g :
  git_ok g -> storable data (git_db g) ->
  exists c tb r g1, module_tree data newTreeBuilder = Some (Ok (mkObjRef (str "tree") c), tb) /\
    sendToGit tb g = Some (r, g1) /\ git_ok g1 /\ git_holds data (git_db g1) c.
Proof.
  intros Hok [Hopen Hnames _ Hconf Hsha Hold Hsize Hcount].
  set (l := files_of data) in *. set (fuel := fuel_of (git_files l)).
  change (module_objects data) with (all_objects fuel l) in *.
  destruct (build_run fuel l) as (tb & c & objs & tb' & Hadd & Htf & Hbuild & Ht & Hobjs & Hw & Hi & Hst & Hb);
    [done|done|unfold fuel, fuel_of; lia|by intros; apply fuel_of_enough|done|].
  assert (module_tree data newTreeBuilder = Some (Ok (mkObjRef (str "tree") c), tb')) as Htree.
  { unfold module_tree. rewrite module_files_opened by done. fold l. unfold pst_try, pst_bind. rewrite Hadd.
    cbn [pst_ret map_err]. unfold pst_get. cbv beta iota. change (tree_fuel tb) with (fuel_of (tb_f tb)).
    rewrite Htf. fold fuel. by rewrite Hbuild. }
  destruct (sendToGit_stores (all_objects fuel l) tb' g) as (r & g1 & Hsend & Hok1 & Hdb); [done|done|done|done| | |done|].
  { rewrite Forall_forall in Hsize. apply Forall_forall. intros p Hp. split; [|by apply Hsize].
    pose proof (all_objects_types fuel l) as Hty. rewrite Forall_forall in Hty. by apply Hty. }
  { pose proof (hashes_bound _ _ Hi Hw). lia. }
  exists c, tb', r, g1. split_and!; [done..|]. exists fuel, objs. split; [done|]. split.
  { rewrite Forall_forall in Hst |- *. intros p Hp. apply Hdb; [by apply Hobjs|by apply Hst]. }
  assert (forall n x, git_files l !! n = Some x -> (str "blob", gf_contents x) ∈ all_objects fuel l) as HX.
  { intros n x Hx. destruct (Hb _ _ Hx) as [_ Hs]. destruct (Hw _ _ Hs) as (p & Hp & _ & [= Hp1 Hp2]).
    destruct p as [p1 p2]. cbn in Hp1, Hp2. by rewrite <- Hp1, <- Hp2 in Hp. }
  split; intros n x Hx.
  - rewrite Forall_forall in Hsize. by apply (Hsize _ (HX _ _ Hx)).
  - destruct (Hb _ _ Hx) as [? Hs]. split; [done|]. apply Hdb; [by eapply HX|done].
Qed.

(** The second half: the handle is made from git's listing of the tree. *)
Lemma newModHandle_built data m g c :
  git_ok g -> storable data m -> git_holds data (git_db g) c -> (exists path, is_Some (in_zip data path)) ->
  exists mh g', newModHandle (mkObjRef (str "tree") c) g = Some (Ok mh, g') /\
    modTree mh = mkObjRef (str "tree") c /\ git_ok g' /\ git_db g' = git_db g /\
    forall d, Forall good_elem d -> d <> [] -> knows_path data mh (join_byte slash d).
Proof.
  intros Hok [_ Hnames Hpaths Hconf _ _ _ _] (fuel & objs & Ht & Hst & Hsz & Hb) [p0 Hp0].
  set (f := git_files (files_of data)) in *.
  destruct (tree_walk_built f Hnames Hconf (git_db g) Hb fuel [] c objs (str "zip") p0)
    as (fuel' & c' & objs' & Hwalk & Ht' & Hst'); [done|done|by_decide|by rewrite <- in_zip_files in Hp0|].
  cbn [app] in Ht'. change (str "zip" ++ [slash]) with (str "zip/") in Ht'.
  destruct (git_listing_built f Hnames Hconf (git_db g) Hb git_max_depth fuel' (str "zip/") c' objs')
    as (l & Hl & Hsound & Hcomp); [done|done| |by intros suf Hsuf; apply Hpaths|].
  { destruct (Hpaths p0) as [_ Hlen]; [by rewrite <- in_zip_files in Hp0|]. pose proof (split_byte_nonempty slash p0).
    destruct (split_byte slash p0); [done|]. cbn in Hlen. lia. }
  destruct (git_ls_tree_law (mkObjRef (str "tree") c) (str "zip") (mkObjRef (str "tree") c') l g)
    as (g' & Hls & Hok' & Hdb'); [done|done|done|].
  destruct (newModHandle_listing git_quote git_quote_law (mkObjRef (str "tree") c) l g g')
    as (mh & Hmh & Htree & Hdirs & Hmeta); [|done|].
  { apply Forall_forall. intros e He. destruct (Hsound _ He) as (Hh & suf & x & rest & Hx & Hs & _ & Hat).
    split; [done| |].
    - destruct (le_is_dir e); [rewrite Hat; lia|]. destruct Hat as (_ & _ & ->). specialize (Hsz _ _ Hx). lia.
    - destruct (Hpaths suf ltac:(by eexists)) as [Hg _]. rewrite Hs in Hg. by apply Forall_app in Hg as [? _]. }
  exists mh, g'. split_and!; [done..|]. intros d Hd Hne. apply (listing_knows data l d); auto.
  intros path x Hx. rewrite <- in_zip_files in Hx. by apply Hcomp.
Qed.

(** Reading a file of the module through a handle on its tree. *)
Lemma GetFile_built data m mh g c path x :
  git_ok g -> storable data m -> git_holds data (git_db g) c -> modTree mh = mkObjRef (str "tree") c ->
  mh_dirEnts mh !! path = None -> in_zip data path = Some x ->
  (Z.of_nat (length (gf_contents x)) <= maxObjSize)%Z ->
  exists g', GetFile mh path g = Some (Ok (gf_contents x), g').
Proof.
  intros Hok [_ Hnames _ Hconf _ _ _ _] (fuel & objs & Ht & Hst & _ & Hb) Hmt Hdir Hx Hmax.
  assert (git_read (git_db g) (mkObjRef (str "tree") c) (split_byte slash (str "zip/" ++ path)) =
    Some (file_mode x, gf_contents x)) as Hread.
  { rewrite (git_read_tree (git_files (files_of data)) Hnames Hconf _ fuel [] _ objs _);
      [|done..|apply split_byte_nonempty|apply split_byte_no_sep].
    rewrite <- in_zip_files in Hx. cbn [app]. by rewrite join_split, Hx. }
  destruct (git_cat_path _ _ _ _ _ Hok Hread) as [g' Hcat].
  unfold GetFile. rewrite Hdir, Hmt. exists g'. unfold try_object, pst_try, pst_bind, getObject.
  rewrite <- !app_assoc. change (str ":zip/") with (str ":" ++ str "zip/"). rewrite <- !app_assoc.
  rewrite <- app_assoc in Hcat. rewrite Hcat.
  pose proof (read_answer_found (mkObjRef (str "blob") (gf_contents x)) (str "blob") (gf_contents x) []) as Ha.
  rewrite app_nil_r in Ha. rewrite Ha; [|apply mkObjRef_length|split; by_decide|done|done].
  done.
Qed.

End laws.

(** ** The laws hold of the repository in memory *)

Definition repo_ok (r : repo) : Prop := forall h o, r_objects r !! h = Some o ->
  h = mkObjRef (o_typ o) (o_content o) /\ o_hash o = h /\ sendable o.

Lemma put_object_ok r t c :
  repo_ok r -> t = str "blob" \/ t = str "tree" -> (Z.of_nat (length c) < 2 ^ 63)%Z ->
  repo_ok (MkRepo (put_object (r_objects r) t c) (r_refs r)).
Proof.
  intros Hr Ht Hc h o Ho. cbn in Ho. unfold put_object in Ho.
  apply lookup_insert_Some in Ho as [[<- <-]|[_ Ho]]; [|by apply Hr]. by split_and!.
Qed.

Lemma add_packed_ok objs r :
  repo_ok r -> Forall (fun o : Z * bytes => Z.of_nat (length o.2) < 2 ^ 63)%Z objs ->
  repo_ok (MkRepo (fold_left add_packed objs (r_objects r)) (r_refs r)).
Proof.
  intros Hr Ho. revert r Hr. induction Ho as [|o objs Ho _ IH]; intros r Hr; [by destruct r|].
  cbn [fold_left]. apply (IH (MkRepo (add_packed (r_objects r) o) (r_refs r))).
  apply put_object_ok; [done| |done]. unfold object_type. case_decide; auto.
Qed.

Lemma describe_good o : sendable o -> good_desc (describe o).
Proof.
  intros [Ht Hlen]. unfold describe. set (n := Z.of_nat _) in *. unfold good_desc.
  assert (word (Itoa n)) as Hw by (apply word_Itoa; lia).
  assert (exists d, last (Itoa n) = Some d /\ is_digit d) as (d & Hd & Hdig).
  { destruct (last (Itoa n)) as [d|] eqn:Hl; [|by apply last_None in Hl; destruct Hw].
    exists d. split; [done|]. apply last_Some in Hl as [l Hl]. pose proof (Itoa_digits n ltac:(lia)) as Hall.
    rewrite Hl in Hall. apply Forall_app in Hall as [_ Hall]. by apply Forall_cons in Hall as [? _]. }
  assert (forall x, last (x ++ Itoa n) = Some d) as Hlast by (intros x; by rewrite last_app, Hd).
  split_and!.
  - rewrite !not_elem_of_app. split_and!; [|by_decide|by apply word_notin].
    destruct Ht as [Ht|Ht]; rewrite Ht; by_decide.
  - rewrite app_assoc, Hlast. intros [= ->]. by vm_compute in Hdig.
  - rewrite !app_assoc. intros [k Hk]. apply (f_equal last) in Hk. rewrite Hlast, last_app in Hk.
    cbn in Hk. injection Hk as ->. by vm_compute in Hdig.
  - rewrite !length_app. pose proof (Itoa_length n ltac:(lia)). destruct Ht as [Ht|Ht]; rewrite Ht; cbn; lia.
Qed.

Lemma hexes_read hs :
  Forall (fun h => length h = 20) hs ->
  omap hex_decode (filter (fun l => l <> []) (split_byte nl (batch_check_input hs))) = hs.
Proof.
  intros Hhs. unfold batch_check_input.
  replace ((fun h => hex_encode h ++ [nl]) <$> hs) with ((fun l => l ++ [nl]) <$> (hex_encode <$> hs))
    by (by rewrite <- list_fmap_compose).
  rewrite split_byte_lines.
  2:{ apply Forall_fmap, (Forall_impl _ _ _ Hhs). intros h Hh. apply word_notin; [|done]. apply word_hex. by destruct h. }
  rewrite filter_app. change (filter (fun l => l <> []) [[]]) with (@nil bytes). rewrite app_nil_r.
  induction Hhs as [|h hs Hh _ IH]; [done|]. rewrite fmap_cons, filter_cons_True.
  - cbn [omap list_omap]. rewrite hex_decode_encode. by f_equal.
  - destruct h; [done|]. by rewrite hex_encode_cons.
Qed.

Lemma git_read_walk m h segs mode c :
  git_read m h segs = Some (mode, c) ->
  exists h' o, tree_walk m h segs = Some h' /\ m !! h' = Some o /\ o_typ o = str "blob" /\ o_content o = c.
Proof.
  revert h. induction segs as [|s segs IH]; intros h H; [done|]. cbn [git_read tree_walk] in *. unfold tree_lines.
  destruct (m !! h) as [o|]; [|done]. cbn [mbind option_bind] in H.
  destruct (decide (o_typ o <> str "tree")) as [|Ht]; [done|].
  cbn [mbind option_bind]. rewrite decide_False by done.
  destruct (parse_tree _ _) as [l|]; [|done]. cbn [mbind option_bind] in *.
  destruct (list_find _ l) as [[i [[md nm] h']]|]; [|done]. cbn [mbind option_bind] in *.
  case_decide; [by apply IH|]. case_decide; [subst segs|done].
  destruct (m !! h') as [o'|] eqn:Ho'; [|done]. cbn [mbind option_bind] in H. case_decide; [|done].
  injection H as <- <-. cbn [tree_walk]. by exists h', o'.
Qed.

Lemma resolve_path r tree path :
  resolve r (hex_encode tree ++ str ":" ++ path) = tree_walk (r_objects r) tree (split_byte slash path).
Proof.
  unfold resolve. change (str ":") with [":"%char]. cbn [app]. rewrite Cut_byte.
  - by rewrite hex_decode_encode.
  - intros Hin. pose proof (hex_encode_digits tree) as Hdig. rewrite Forall_forall in Hdig.
    specialize (Hdig _ Hin). change (byte_val ":") with 58%Z in Hdig. lia.
Qed.

#[export] Instance mem_git_laws : GitLaws (G := repo).
Proof.
  refine {| git_ok := repo_ok; git_db := r_objects; git_max_depth := max_depth; git_quote := mem_quote |}.
  - intros g h o Hok Ho. by destruct (Hok _ _ Ho) as (? & ? & _).
  - intros hs g Hok Hhs. exists (fun h => describe <$> r_objects g !! h). split.
    + cbn. by rewrite hexes_read.
    + intros h d Hd. apply fmap_Some in Hd as (o & Ho & ->). rewrite Ho. split; [|done].
      apply describe_good. by destruct (Hok _ _ Ho) as (_ & _ & ?).
  - intros pack objs g Hok Hread Hsz. cbn [git_index_pack mem_git]. rewrite Hread. eexists. split; [done|]. split; [|done].
    by apply add_packed_ok.
  - intros ref h g r g' Hok. cbn. destruct (hex_decode h); [destruct (good_ref ref)|]; by intros [= <- <-].
  - apply mem_quote_quotes.
  - intros tree path sub l g Hok Hwalk Hl. exists g. cbn [git_ls_tree mem_git].
    rewrite resolve_path, Hwalk. cbn [mbind option_bind]. by rewrite Hl.
  - intros g tree path mode c Hok Hread. exists g. cbn [git_cat_file mem_git]. unfold cat_file.
    destruct (git_read_walk _ _ _ _ _ Hread) as (h & o & Hw & Ho & Ht & <-).
    rewrite !app_assoc, TrimSuffix_app, <- app_assoc, resolve_path, Hw. cbn [mbind option_bind]. rewrite Ho.
    destruct (Hok _ _ Ho) as (Hh & -> & _). by rewrite Ht, Hh, Ht.
Defined.

(** ** A module in an empty repository *)

(** A concrete [ParseInt], with the documented results. *)
Definition test_mem : Mem := {| mem_ParseInt := ParseInt 64 |}.

Lemma test_mem_laws : MemLaws test_mem.
Proof. split. intros n Hn. by apply ParseInt_Itoa. Qed.

Definition test_mv : ModuleVersion := MkMV (str "a.b/M") (str "v1.0.0").

(** A file in a directory, an executable, and a file of a name that git
    quotes. *)
Definition test_module : PutModuleData :=
  MkPutModuleData (Some (str "{}")) (Some (str "module a.b/M")) None
    [MkPutFile (str "a/x.go") 420 9 (Ok (str "package a")); MkPutFile (str "run.sh") 493 9 (Ok (str "#!/bin/sh"));
     MkPutFile (dquote :: str "q") 420 1 (Ok (str "q"))].

Definition test_put : option (res modHandle * repo) :=
  PutModule (E := BangEscape.bang_escape) (R := some_range) (Zl := mark_zlib) (M := test_mem) test_mv test_module empty_repo.

(** Two refs of one module. *)
Definition test_refs : repo :=
  MkRepo ∅ {[ str "refs/gomod/a.b%2F%21m@v1.0.0" := []; str "refs/gomod/a.b%2F%21m@v1.0.0(mod)" := [] ]}.

Lemma CachedModules_complete_witness :
  exists mvs, CachedModules (E := BangEscape.bang_escape) test_refs = Some (Ok mvs, test_refs) /\
    NoDup mvs /\ forall mv, mv ∈ mvs <-> mv ∈ [test_mv; test_mv].
Proof.
  apply (CachedModules_complete (L := BangEscape.bang_laws) [(test_mv, []); (test_mv, str "(mod)")]
    [str "gomod/a.b%2F%21m@v1.0.0"; str "gomod/a.b%2F%21m@v1.0.0(mod)"]); [|vm_compute; reflexivity].
  constructor; [|constructor; [|constructor]]; (split; [vm_compute; reflexivity|]); [by left|by right; left].
Defined.

Lemma test_module_storable : storable (R := some_range) test_module (git_db (G := repo) empty_repo).
Proof.
  set (l := files_of (R := some_range) test_module).
  assert (forall n, is_Some (git_files l !! n) -> n ∈ (l.*1).*1) as Hnames.
  { apply git_names_decide. by apply Forall_forall. }
  split; fold l.
  - by_decide.
  - intros n Hn%Hnames. revert n Hn. apply Forall_forall. by_decide.
  - intros path Hn%Hnames.
    assert (forallb (fun n => match CutPrefix n (str "zip/") with
      | Some p => bool_decide (Forall good_elem (split_byte slash p) /\ length (split_byte slash p) <= max_depth)
      | None => true end) (l.*1).*1 = true) as Hall by (vm_compute; reflexivity).
    rewrite forallb_forall in Hall. specialize (Hall _ (proj1 (list_elem_of_In _ _) Hn)).
    rewrite CutPrefix_app in Hall. by apply bool_decide_eq_true in Hall.
  - intros n1 n2 H1%Hnames H2%Hnames. revert n2 H2. apply Forall_forall. revert n1 H1. apply Forall_forall. by_decide.
  - by_decide.
  - intros p o _ Ho. change (git_db (G := repo) empty_repo) with (∅ : gmap bytes object) in Ho. by rewrite lookup_empty in Ho.
  - by_decide.
  - by_decide.
Qed.

