(* ===== verification/GitMisses.v ===== *)
(** * store/gitstore/gitstore.go: misses, and files put on their own

    What the operations report when git does not have an object, and the
    mod and info files that [PutModFile] and [PutInfoFile] keep under refs
    of their own. *)

From S2P Require Import Prelude GoStrings Url Sha Store GitTree GitPack GitCat GitStore MemGit GitStoreProps.
Import Gitstore.

Local Open Scope gomodfs_scope.

Section misses.
Context `{E : ModEscape} {Me : Mem} {G : Type} {Gi : Git G}.

(** A word with a literal after it is a word. *)
Lemma word_app w x : word w -> Forall (fun c => is_space c = false) x -> word (w ++ x).
Proof. intros [Hne Hw] Hx. split; [by destruct w|]. by apply Forall_app. Qed.

Lemma PathEscape_space s : Forall (fun c => is_space c = false) (PathEscape s).
Proof.
  apply Forall_forall. intros c Hc. destruct (is_space c) eqn:Hs; [|done]. exfalso. revert Hc.
  assert ((byte_val c = 32 \/ 9 <= byte_val c <= 13)%Z) as Hv.
  { unfold is_space in Hs. to_prop. lia. }
  apply PathEscape_notin; [|lia|by intros ->].
  rewrite <- (byte_of_val c). assert (exists z, byte_val c = z /\ z ∈ [9; 10; 11; 12; 13; 32]%Z) as (z & -> & Hz).
  { eexists. split; [done|]. set_unfold. lia. }
  set_unfold in Hz. by destruct_or! Hz; subst.
Qed.

Lemma refName_word mv ref : refName mv = Ok ref -> word ref.
Proof.
  intros (em & ev & _ & _ & ->)%refName_spec. apply word_app; [split; [done|by_decide]|].
  apply Forall_app. split; [apply PathEscape_space|]. apply Forall_app. split; [by_decide|apply PathEscape_space].
Qed.

Definition answers_missing (g : G) (rev : bytes) : Prop := git_cat_file (rev ++ [nl]) g = (answer_missing rev, g).

Lemma getObject_missing rev want g :
  word rev -> answers_missing g rev -> getObject rev want g = Some (Err errMissing, g).
Proof.
  intros Hw Hg. unfold getObject. rewrite Hg. pose proof (read_answer_missing rev [] Hw) as Hm.
  rewrite app_nil_r in Hm. by rewrite Hm.
Qed.

Lemma try_object_missing rev want g :
  word rev -> answers_missing g rev -> try_object rev want g = Some (Ok (Err errMissing), g).
Proof. intros Hw Hg. unfold try_object, pst_bind. by rewrite getObject_missing. Qed.

(** C30: what git does not have is reported as a miss.  When git answers
    that it has none of the revisions it is asked for, the mod file, the
    info file and the module are cache misses, and a file of a handle does
    not exist, so that the caller fetches them; but a path of two words is
    reported as a malformed answer of git instead. *)
Theorem misses_reported mv ref g :
  refName mv = Ok ref -> (forall rev, answers_missing g rev) ->
  GetModFile mv g = Some (Err ErrCacheMiss, g) /\
  GetInfoFile mv g = Some (Err ErrCacheMiss, g) /\
  GetZipRoot mv g = Some (Err ErrCacheMiss, g) /\
  (forall mh path, mh_dirEnts mh !! path = None -> Forall (fun c => is_space c = false) path -> modTree mh <> [] ->
    GetFile mh path g = Some (Err ErrNotExist, g)) /\
  (forall mh a b, mh_dirEnts mh !! (a ++ str " " ++ b) = None -> Forall (fun c => is_space c = false) a ->
    word b -> b <> str "missing" -> modTree mh <> [] ->
    GetFile mh (a ++ str " " ++ b) g = Some (Err (errText "error parsing size"), g)).
Proof.
  intros Hr Hg. pose proof (refName_word _ _ Hr) as Hw. split_and!.
  - unfold GetModFile, modRefName, lift, pst_try, pst_bind. rewrite Hr. cbn [mbind res_bind pst_ret].
    rewrite try_object_missing; [done| |done]. apply word_app; [done|by_decide].
  - unfold GetInfoFile, infoRefName, lift, pst_try, pst_bind. rewrite Hr. cbn [mbind res_bind pst_ret].
    rewrite !try_object_missing; try done; (apply word_app; [done|by_decide]).
  - unfold GetZipRoot, lift, pst_try, pst_bind. rewrite Hr. cbn [mbind res_bind pst_ret].
    rewrite try_object_missing; [done| |done]. apply word_app; [done|by_decide].
  - intros mh path Hd Hp Ht. unfold GetFile. rewrite Hd. unfold pst_try, pst_bind.
    rewrite try_object_missing; [done| |done]. apply word_app; [by apply word_hex|].
    apply Forall_app. split; [by_decide|done].
  - intros mh a b Hd Ha Hb Hbm Ht. unfold GetFile. rewrite Hd. unfold pst_try, try_object, pst_bind, getObject.
    rewrite Hg. set (w := hex_encode (modTree mh) ++ str ":zip/" ++ a).
    assert (word w) as Hww.
    { apply word_app; [by apply word_hex|]. apply Forall_app. split; [by_decide|done]. }
    replace (answer_missing _) with ((w ++ str " " ++ b ++ str " missing") ++ nl :: [])
      by (unfold answer_missing, w; rewrite <- !app_assoc; done).
    unfold read_answer. rewrite Cut_byte.
    2:{ rewrite !not_elem_of_app. split_and!; [by apply word_notin|by_decide|by apply word_notin|by_decide]. }
    change (str " missing") with (" "%char :: str "missing"). change (str " ") with [" "%char]. cbn [app].
    destruct Hww, Hb. rewrite Fields_word, Fields_word, Fields_last by (done || by_decide).
    rewrite decide_False by done. done.
Qed.
End misses.

Lemma misses_reported_witness :
  GetModFile (E := BangEscape.bang_escape) test_mv empty_repo = Some (Err ErrCacheMiss, empty_repo) /\
  GetFile (MkHandle [byte_of 1] ∅ ∅) (str "a/x.go") empty_repo = Some (Err ErrNotExist, empty_repo) /\
  GetFile (MkHandle [byte_of 1] ∅ ∅) (str "a/x y.go") empty_repo = Some (Err (errText "error parsing size"), empty_repo).
Proof.
  destruct (misses_reported (E := BangEscape.bang_escape) (Me := test_mem) (G := repo) test_mv
    (str "refs/gomod/a.b%2F%21m@v1.0.0") empty_repo) as (H1 & _ & _ & H2 & H3).
  - vm_compute. reflexivity.
  - intros rev. unfold answers_missing. cbn [git_cat_file mem_git]. unfold cat_file. rewrite TrimSuffix_app.
    destruct (resolve _ rev) as [h|]; [|done]. cbn [mbind option_bind r_objects empty_repo]. by rewrite lookup_empty.
  - split; [exact H1|]. split.
    + apply H2; [done|by_decide|done].
    + apply (H3 _ (str "a/x") (str "y.go")); [done|by_decide|split; [done|by_decide]|done|done].
Defined.

(** ** Files put on their own *)

(** What git documents: [git hash-object -w --stdin] stores a blob and
    prints its hash on a line; a ref that [git update-ref] set to the blob
    names it. *)
Class GitBlobLaws (G : Type) (Gi : Git G) := {
  git_has_blob : G -> bytes -> Prop;
  git_hash_object_law : forall data g out g', git_hash_object data g = (Ok out, g') ->
    TrimSpace out = hex_encode (mkObjRef (str "blob") data) /\ git_has_blob g' data;
  git_ref_blob_law : forall ref data g g', git_has_blob g data ->
    git_update_ref ref (hex_encode (mkObjRef (str "blob") data)) g = (Ok tt, g') ->
    exists g'', git_cat_file (ref ++ [nl]) g' = (answer_found (mkObjRef (str "blob") data) (str "blob") data, g'') }.

Section roundtrip.
Context `{E : ModEscape} {G : Type} {Gi : Git G} {GL : GitBlobLaws G Gi}.

(** A ref that was set to a blob reads as it. *)
Lemma put_blob_getObject ref data g g' :
  put_blob ref data g = Some (Ok tt, g') -> (Z.of_nat (length data) <= maxObjSize)%Z ->
  exists o g'', try_object ref (Some (str "blob")) g' = Some (Ok (Ok o), g'') /\ o_content o = data.
Proof.
  unfold put_blob, pst_bind, call. destruct (git_hash_object data g) as [[out|e] g1] eqn:Hh; [|done].
  apply git_hash_object_law in Hh as [-> Hb]. destruct (git_update_ref _ _ g1) as [[[]|e] g2] eqn:Hu; [|done].
  intros [= <-] Hlen. destruct (git_ref_blob_law _ _ _ _ Hb Hu) as [g3 Hc].
  eexists _, g3. unfold try_object, pst_bind, getObject. rewrite Hc.
  pose proof (read_answer_found (mkObjRef (str "blob") data) (str "blob") data []) as Ha. rewrite app_nil_r in Ha.
  rewrite Ha; [done|apply mkObjRef_length|split; by_decide|done|done].
Qed.

(** Mod and info files come back as they were put.  When [PutModFile]
    reports no error, [GetModFile] returns the contents; when [PutInfoFile]
    reports none and the module itself is not stored, [GetInfoFile] does;
    for files up to 512 MiB. *)
Theorem PutFile_GetFile mv data g g' :
  (Z.of_nat (length data) <= maxObjSize)%Z ->
  (PutModFile mv data g = Some (Ok tt, g') ->
    exists g'', GetModFile mv g' = Some (Ok data, g'')) /\
  (PutInfoFile mv data g = Some (Ok tt, g') ->
    (forall ref, refName mv = Ok ref -> answers_missing g' (ref ++ str ":info")) ->
    exists g'', GetInfoFile mv g' = Some (Ok data, g'')).
Proof.
  intros Hlen. unfold PutModFile, PutInfoFile, modRefName, infoRefName, GetModFile, GetInfoFile, lift, pst_try.
  unfold modRefName, infoRefName, pst_bind. destruct (refName mv) as [ref|e] eqn:Hr; cbn [mbind res_bind pst_ret].
  2:{ split; [done|]. intros [=]. }
  split.
  - intros Hp. destruct (put_blob_getObject _ _ _ _ Hp Hlen) as (o & g3 & Ho & <-). rewrite Ho. by exists g3.
  - intros Hp Hm. destruct (put_blob_getObject _ _ _ _ Hp Hlen) as (o & g3 & Ho & <-).
    rewrite try_object_missing; [|apply word_app; [by eapply refName_word|by_decide]|by apply Hm].
    rewrite Ho. by exists g3.
Qed.
End roundtrip.

(** The laws hold of the repository in memory. *)
Lemma TrimSpace_word w : word w -> TrimSpace (w ++ [nl]) = w.
Proof.
  intros [Hne Hw]. assert (forall x y, Forall (fun c => is_space c = false) x -> x <> [] ->
    drop_while is_space (x ++ y) = x ++ y) as Hd.
  { intros [|c x] y Hx ?; [done|]. apply Forall_cons in Hx as [Hc _]. cbn. by rewrite Hc. }
  unfold TrimSpace. rewrite Hd by done. rewrite reverse_app. change (reverse [nl]) with [nl].
  change (drop_while is_space ([nl] ++ reverse w)) with (drop_while is_space (reverse w)).
  rewrite <- (app_nil_r (reverse w)), Hd, app_nil_r; [by apply reverse_involutive|by apply Forall_reverse|].
  intros H. apply (f_equal reverse) in H. by rewrite reverse_involutive in H.
Qed.

Lemma good_ref_resolve ref r :
  good_ref ref = true -> resolve r ref = r_refs r !! ref.
Proof.
  unfold good_ref. rewrite andb_true_iff, bool_decide_eq_true. intros [Hp Hc]. unfold resolve.
  unfold HasPrefix in Hp. destruct (CutPrefix ref _) as [x|] eqn:Hx; [|done]. apply CutPrefix_Some in Hx.
  assert (forall c, c ∈ str "~^:?*[\" -> c ∉ ref) as Hn.
  { intros c Hin Hr. rewrite Forall_forall in Hc. by apply (Hc _ Hr). }
  change (str ":") with [":"%char]. rewrite Cut_byte_None by (apply Hn; by_decide).
  assert (TrimSuffix ref (str "^{tree}") = ref) as ->.
  { unfold TrimSuffix. destruct (CutSuffix ref _) as [y|] eqn:Hy; [|done]. apply CutSuffix_Some in Hy.
    exfalso. apply (Hn "^"%char); [by_decide|]. rewrite Hy. apply elem_of_app. right. by_decide. }
  destruct (hex_decode ref) as [h|] eqn:Hh; [|done]. exfalso. by rewrite Hx in Hh.
Qed.

#[export] Instance mem_blob_laws : GitBlobLaws repo mem_git.
Proof.
  refine {| git_has_blob := fun r data => let h := mkObjRef (str "blob") data in
    r_objects r !! h = Some (MkObject (str "blob") data h) |}.
  - intros data g out g' [= <- <-]. split.
    + apply TrimSpace_word, word_hex. pose proof (mkObjRef_length (str "blob") data). by destruct (mkObjRef _ _).
    + apply lookup_insert_eq.
  - intros ref data g g' Hb. cbn [git_update_ref git_cat_file mem_git]. rewrite hex_decode_encode.
    destruct (good_ref ref) eqn:Hg; [|done]. intros [= <-]. eexists. unfold cat_file. rewrite TrimSuffix_app.
    rewrite good_ref_resolve by done. cbn [r_refs r_objects]. rewrite lookup_insert_eq. cbn [mbind option_bind].
    cbv zeta in Hb. change ["b"%char; "l"%char; "o"%char; "b"%char] with (str "blob"). by rewrite Hb.
Qed.

Definition ok_state {A} (x : option (res A * repo)) : option repo :=
  match x with Some (Ok _, r) => Some r | _ => None end.

Lemma ok_state_Some (x : option (res unit * repo)) : is_Some (ok_state x) -> exists r, x = Some (Ok tt, r).
Proof. destruct x as [[[[]|] r]|]; [eauto|intros [? [=]]..]. Qed.

Definition test_put_mod : option (res unit * repo) :=
  PutModFile (E := BangEscape.bang_escape) test_mv (str "module a.b/M") empty_repo.
Definition test_put_info : option (res unit * repo) :=
  PutInfoFile (E := BangEscape.bang_escape) test_mv (str "{}") empty_repo.

Lemma PutFile_GetFile_witness :
  exists g1 g2 g3 g4,
    test_put_mod = Some (Ok tt, g1) /\
    GetModFile (E := BangEscape.bang_escape) test_mv g1 = Some (Ok (str "module a.b/M"), g2) /\
    test_put_info = Some (Ok tt, g3) /\
    GetInfoFile (E := BangEscape.bang_escape) test_mv g3 = Some (Ok (str "{}"), g4).
Proof.
  destruct (ok_state_Some test_put_mod) as [g1 Hm]; [by_decide|].
  destruct (ok_state_Some test_put_info) as [g3 Hi]; [by_decide|].
  destruct (PutFile_GetFile (E := BangEscape.bang_escape) test_mv (str "module a.b/M") empty_repo g1) as [H1 _]; [done|].
  destruct (PutFile_GetFile (E := BangEscape.bang_escape) test_mv (str "{}") empty_repo g3) as [_ H2]; [done|].
  destruct (H1 Hm) as [g2 ?]. destruct (H2 Hi) as [g4 ?].
  - intros ref Hr. vm_compute in Hr. injection Hr as <-.
    assert (default [] ((fun g => fst (git_cat_file (str "refs/gomod/a.b%2F%21m@v1.0.0:info" ++ [nl]) g)) <$> ok_state test_put_info)
      = str "refs/gomod/a.b%2F%21m@v1.0.0:info missing" ++ [nl]) as Hc by (vm_compute; reflexivity).
    rewrite Hi in Hc. unfold answers_missing. rewrite <- app_assoc. apply (f_equal (fun x => (x, g3))). exact Hc.
  - exists g1, g2, g3, g4. auto.
Defined.
