(* ===== verification/Remote.v ===== *)
(** * store/remotestore: the remote store

    The HTTP protocol ([protocol.go]), the store that speaks it
    ([remotestore.go], Module [Remotestore]) and the server ([handler.go],
    Module [Handler]).  Client and server run in the monad of states with
    errors as values; a loop that does not end is [None].  Requests are
    sequential, so a singleflight call runs its function.  Close, which
    removes a directory nothing creates, is left out. *)

From S2P Require Import Prelude GoStrings Url Store StoreTree.

Local Open Scope gomodfs_scope.

(** ** protocol.go *)

Record FileMeta := MkMeta { fm_Size : Z; fm_Mode : Z }.
Abbreviation ModVersionMap := (gmap bytes FileMeta).

Definition apiPrefix : bytes := str "/api/v1/".
Definition modmapPrefix : bytes := apiPrefix ++ str "modmap/".
Definition filePrefix : bytes := apiPrefix ++ str "file/".
Definition metaPrefix : bytes := apiPrefix ++ str "meta/".

Definition parseMVFromPath `{E : ModEscape} (urlPath prefix : bytes) : res (ModuleVersion * bytes) :=
  let rest := TrimPrefix urlPath prefix in
  if decide (rest = urlPath) then Err (errText "path does not start with prefix") else
  match Cut rest (str "/@v/") with
  | None => Err (errText "path missing /@v/ separator")
  | Some (escapedMod, afterAtV) =>
      if decide (escapedMod = [] \/ afterAtV = []) then Err (errText "path has empty module or version") else
      '(escapedVer, ext) ←
        (if decide (prefix = metaPrefix) then
           match cut_last dot afterAtV with
           | None => Err (errText "meta path missing file extension")
           | Some (escapedVer, ext) =>
               if decide (ext <> str "info" /\ ext <> str "mod" /\ ext <> str "ziphash")
               then Err (errText "unknown meta extension") else Ok (escapedVer, ext)
           end
         else Ok (afterAtV, []));
      modPath ← map_err (errWrap "invalid escaped module") (UnescapePath escapedMod);
      ver ← map_err (errWrap "invalid escaped version") (UnescapeVersion escapedVer);
      Ok (MkMV modPath ver, ext)
  end.

Definition mvToEscapedPath `{E : ModEscape} (mv : ModuleVersion) : res bytes :=
  escMod ← EscapePath (Module mv);
  escVer ← EscapeVersion (Version mv);
  Ok (escMod ++ str "/@v/" ++ escVer).

(** ** What the program takes from elsewhere

    encoding/json for a [ModVersionMap], and github.com/pierrec/lz4. *)
Class Codec := {
  json_Marshal : ModVersionMap -> res bytes;
  json_Unmarshal : bytes -> res ModVersionMap;
  lz4_compress : bytes -> res bytes;
  lz4_decompress : bytes -> res bytes }.

(** An HTTP response as its reader sees it: status code, Content-Type,
    Content-Encoding, and what reading the body gives. *)
Record response := MkResp { Status : Z; ContentType : bytes; ContentEncoding : bytes; Body : res bytes }.

(** net/http's client: [NewRequest]'s check of the URL, and [client.Do] of
    a GET request with an Accept-Encoding header (empty: none set). *)
Class HttpClient (N : Type) := {
  http_NewRequest : bytes -> res unit;
  http_Do : bytes -> bytes -> st N (res response) }.

(** ** Building the directory map *)

(** [dirs] and [dirSet] of [buildDirMap]. *)
Record dirmap := MkDirMap { dm_dirs : gmap bytes (list Dirent); dm_set : gmap bytes (gset bytes) }.

Definition add_child (dir : bytes) (ent : Dirent) (m : dirmap) : dirmap :=
  let names := default ∅ (dm_set m !! dir) in
  if decide (d_Name ent ∈ names) then m else
  MkDirMap (<[dir := default [] (dm_dirs m !! dir) ++ [ent]]> (dm_dirs m))
           (<[dir := {[d_Name ent]} ∪ names]> (dm_set m)).

Definition dir_of (p : bytes) : bytes := if decide (path_Dir p = str ".") then [] else path_Dir p.

(** The loop up the directory tree; [None] when the fuel runs out. *)
Fixpoint add_parents (fuel : nat) (child : bytes) (m : dirmap) : option dirmap :=
  if decide (child = []) then Some m else
  match fuel with
  | O => None
  | S fuel' =>
      add_parents fuel' (dir_of child) (add_child (dir_of child) (MkDirent (path_Base child) ModeDir 0) m)
  end.

Definition add_file (fuel : nat) (filePath : bytes) (fm : FileMeta) (m : dirmap) : option dirmap :=
  let dir := dir_of filePath in
  add_parents fuel dir (add_child dir (MkDirent (path_Base filePath) (fm_Mode fm) (fm_Size fm)) m).

Fixpoint buildDirMap_loop (fuel : nat) (files : list (bytes * FileMeta)) (m : dirmap) : option dirmap :=
  match files with
  | [] => Some m
  | (p, fm) :: files' => m ← add_file fuel p fm m; buildDirMap_loop fuel files' m
  end.

Definition buildDirMap `{R : GoRange} (fuel : nat) (files : ModVersionMap) : option (gmap bytes (list Dirent)) :=
  dm_dirs <$> buildDirMap_loop fuel (go_range [] files) (MkDirMap ∅ ∅).

(** Rounds enough for every relative name: a directory of it is shorter. *)
Definition dirs_fuel (files : ModVersionMap) : nat := S (max_list (length <$> (map_to_list files).*1)).

(** ** remotestore.go *)

Record remoteModHandle := MkRemote {
  rmh_mv : ModuleVersion;
  rmh_files : ModVersionMap;
  rmh_dirs : gmap bytes (list Dirent) }.

Record remoteFileInfo := MkRemoteInfo { ri_name : bytes; ri_size : Z; ri_mode : Z; ri_isDir : bool }.

(** The methods of [remoteFileInfo]. *)
Definition remote_Mode (fi : remoteFileInfo) : Z :=
  if ri_isDir fi then Z.lor (ri_mode fi) ModeDir else ri_mode fi.
Definition remote_info (fi : remoteFileInfo) : FileInfo :=
  MkFileInfo (ri_name fi) (ri_size fi) (remote_Mode fi) FakeStaticFileTime (ri_isDir fi).

Definition errReadOnly : error := errText "remotestore: read-only store".

Module Remotestore.
Section store.
Context `{E : ModEscape} {Cd : Codec} {N : Type} {Hc : HttpClient N} {R : GoRange}.

(** The configuration, the caches (keyed for [meta] by module version and
    extension), and the state of the network. *)
Record Store := MkStore {
  BaseURL : bytes;
  modmaps : gmap ModuleVersion remoteModHandle;
  meta : gmap (ModuleVersion * bytes) bytes;
  net : N }.

(** [Close], given the field [tmpDir] and [os.RemoveAll].  Nothing sets the
    field, so that there is nothing to remove; it is not in the record. *)
Definition Close (tmpDir : bytes) (RemoveAll : bytes -> option error) : option error :=
  if decide (tmpDir <> []) then RemoveAll tmpDir else None.

Abbreviation Op A := (pst Store (res A)).

Definition upd_modmaps (v : gmap ModuleVersion remoteModHandle) (s : Store) : Store :=
  MkStore (BaseURL s) v (meta s) (net s).
Definition upd_meta (v : gmap (ModuleVersion * bytes) bytes) (s : Store) : Store :=
  MkStore (BaseURL s) (modmaps s) v (net s).

Definition lift {A} (r : res A) : Op A := pst_ret r.

(** A request for a path below the base URL. *)
Definition get (rel accept : bytes) : Op response := fun s =>
  let url := BaseURL s ++ rel in
  match http_NewRequest url with
  | Err e => Some (Err e, s)
  | Ok _ =>
      let '(r, n) := http_Do url accept (net s) in
      Some (r, MkStore (BaseURL s) (modmaps s) (meta s) n)
  end.

(** The order in which the keys are listed is not specified; the order of
    the map's elements is taken. *)
Definition CachedModules : Op (list ModuleVersion) := fun s =>
  Some (Ok (map_to_list (modmaps s)).*1, s).

Definition fetchModMap (mv : ModuleVersion) : Op remoteModHandle :=
  s <-! pst_get ;;
  match modmaps s !! mv with
  | Some h => pst_ok h
  | None =>
      escaped <-? lift (mvToEscapedPath mv) ;;
      resp <-? get (modmapPrefix ++ escaped) (str "lz4") ;;
      if decide (Status resp = 404%Z) then pst_err ErrCacheMiss
      else if decide (Status resp <> 200%Z) then pst_err (errText "remotestore: modmap") else
      body <-? lift (Body resp) ;;
      body <-? lift (if decide (ContentEncoding resp = str "lz4")
                     then map_err (errWrap "remotestore: lz4 decompress") (lz4_decompress body) else Ok body) ;;
      fmap <-? lift (map_err (errWrap "remotestore: json decode modmap") (json_Unmarshal body)) ;;
      match buildDirMap (dirs_fuel fmap) fmap with
      | None => pst_panic
      | Some dirs =>
          let h := MkRemote mv fmap dirs in
          pst_modify (fun s => upd_modmaps (<[mv := h]> (modmaps s)) s) ;;!
          pst_ok h
      end
  end.

Definition GetZipRoot (mv : ModuleVersion) : Op remoteModHandle :=
  s <-! pst_get ;;
  match modmaps s !! mv with
  | Some h => pst_ok h
  | None => fetchModMap mv
  end.

Definition Stat (rmh : remoteModHandle) (filePath : bytes) : res FileInfo :=
  if decide (filePath = []) then Ok (remote_info (MkRemoteInfo (str ".") 0 ModeDir true)) else
  match rmh_files rmh !! filePath with
  | Some fm => Ok (remote_info (MkRemoteInfo (path_Base filePath) (fm_Size fm) (fm_Mode fm) false))
  | None =>
      match rmh_dirs rmh !! filePath with
      | Some _ => Ok (remote_info (MkRemoteInfo (path_Base filePath) 0 ModeDir true))
      | None => Err ErrNotExist
      end
  end.

Definition Readdir (rmh : remoteModHandle) (dirPath : bytes) : res (list Dirent) :=
  match rmh_dirs rmh !! dirPath with
  | Some ents => Ok ents
  | None => if decide (dirPath = []) then Ok [] else Err ErrNotExist
  end.

Definition GetFile (rmh : remoteModHandle) (filePath : bytes) : Op bytes :=
  match rmh_files rmh !! filePath with
  | None =>
      match rmh_dirs rmh !! filePath with
      | Some _ => pst_err ErrIsDir
      | None => pst_err ErrNotExist
      end
  | Some _ =>
      escaped <-? lift (mvToEscapedPath (rmh_mv rmh)) ;;
      resp <-? get (filePrefix ++ escaped ++ str "?path=" ++ QueryEscape filePath) [] ;;
      if decide (Status resp = 404%Z) then pst_err ErrNotExist
      else if decide (Status resp <> 200%Z) then pst_err (errText "remotestore: get file")
      else lift (Body resp)
  end.

Definition fetchMetaFile (mv : ModuleVersion) (ext : bytes) : Op bytes :=
  escaped <-? lift (mvToEscapedPath mv) ;;
  resp <-? get (metaPrefix ++ escaped ++ str "." ++ ext) [] ;;
  if decide (Status resp = 404%Z) then pst_err ErrCacheMiss
  else if decide (Status resp <> 200%Z) then pst_err (errText "remotestore: get")
  else lift (Body resp).

Definition getMetaFile (mv : ModuleVersion) (ext : bytes) : Op bytes :=
  s <-! pst_get ;;
  match meta s !! (mv, ext) with
  | Some v => pst_ok v
  | None =>
      v <-? fetchMetaFile mv ext ;;
      pst_modify (fun s => upd_meta (<[(mv, ext) := v]> (meta s)) s) ;;!
      pst_ok v
  end.

Definition GetInfoFile (mv : ModuleVersion) : Op bytes := getMetaFile mv (str "info").
Definition GetModFile (mv : ModuleVersion) : Op bytes := getMetaFile mv (str "mod").
Definition GetZipHash (rmh : remoteModHandle) : Op bytes := getMetaFile (rmh_mv rmh) (str "ziphash").

Definition PutModule (mv : ModuleVersion) (data : PutModuleData) : Op remoteModHandle := pst_err errReadOnly.
Definition PutModFile (mv : ModuleVersion) (data : bytes) : Op unit := pst_err errReadOnly.
Definition PutInfoFile (mv : ModuleVersion) (data : bytes) : Op unit := pst_err errReadOnly.
End store.
End Remotestore.

(** ** handler.go *)

(** What the handlers use of a request: the URL's path, the [path]
    parameter of its query, and the Accept-Encoding header. *)
Record request := MkReq { URL_Path : bytes; Query_path : bytes; AcceptEncoding : bytes }.

(** The [FSBackend] interface; [GetStore] is over the same state. *)
Class FSBackend (B H : Type) := {
  be_GetZipRootOrDownload : ModuleVersion -> pst B (res H);
  be_GetMetaFileByExt : ModuleVersion -> bytes -> pst B (res bytes);
  be_GetStore :: Store.Store B H }.

(** tailscale.com/util/lru with at most 256 entries: a cached value, and
    setting one. *)
Class LruCache (L : Type) := {
  lru_Get : ModuleVersion -> st L (option bytes);
  lru_Set : ModuleVersion -> bytes -> L -> L }.

(** [err.Error()]. *)
Class ErrorText := { error_text : error -> bytes }.

Definition to_lower (c : ascii) : ascii :=
  if ((65 <=? byte_val c) && (byte_val c <=? 90))%Z then byte_of (byte_val c + 32) else c.

(** [acceptsLZ4]; [strings.EqualFold] with a literal of letters that no
    other Unicode letter folds to compares bytes without their case. *)
Definition acceptsLZ4 (header : bytes) : bool :=
  existsb (fun v =>
    let v := TrimSpace v in
    let encoding := match Cut v (str ";") with Some (a, _) => a | None => v end in
    bool_decide (to_lower <$> TrimSpace encoding = str "lz4")) (split_byte "," header).

Module Handler.
Section handler.
Context `{E : ModEscape} {Cd : Codec} {ErrT : ErrorText} {B H L : Type} {Be : FSBackend B H} {Lr : LruCache L}.

Record handler := MkHandler { backend : B; modmapLZ : L }.

Abbreviation Serve := (pst handler response).

(** [http.Error], which ends the text with a newline. *)
Definition http_Error (text : bytes) (code : Z) : Serve :=
  pst_ret (MkResp code (str "text/plain; charset=utf-8") [] (Ok (text ++ [nl]))).
Definition server_error (e : error) : Serve := http_Error (error_text e) 500.

(** A call of the backend, whose error is answered by [onErr]. *)
Definition call {A} (m : pst B (res A)) (onErr : error -> Serve) (k : A -> Serve) : Serve := fun h =>
  match m (backend h) with
  | None => None
  | Some (r, b) =>
      let h := MkHandler b (modmapLZ h) in
      match r with Ok a => k a h | Err e => onErr e h end
  end.

Definition miss_or_error (target : error -> bool) (text : string) (e : error) : Serve :=
  if errors_Is e target then http_Error (str text) 404 else server_error e.

(** The fuel bounds the depth of the directories. *)
Fixpoint walkFiles (fuel : nat) (mh : H) (dir : bytes) (fmap : ModVersionMap) : pst B (res ModVersionMap) :=
  match fuel with
  | O => pst_panic
  | Datatypes.S fuel' =>
      ents <-? (fun b => Some (Store.Readdir mh dir b)) ;;
      (fix entries (ents : list Dirent) (fmap : ModVersionMap) : pst B (res ModVersionMap) :=
         match ents with
         | [] => pst_ok fmap
         | ent :: ents' =>
             let name := join_path dir (d_Name ent) in
             fmap <-? (if mode_IsDir (d_Mode ent) then walkFiles fuel' mh name fmap
                       else pst_ok (<[name := MkMeta (d_Size ent) (d_Mode ent)]> fmap)) ;;
             entries ents' fmap
         end) ents fmap
  end.

Definition lz_response (data : bytes) : response :=
  MkResp 200 (str "application/json") (str "lz4") (Ok data).

Definition handleModMap (fuel : nat) (r : request) : Serve :=
  match parseMVFromPath (URL_Path r) modmapPrefix with
  | Err e => http_Error (error_text e) 400
  | Ok (mv, _) =>
      if negb (acceptsLZ4 (AcceptEncoding r)) then http_Error (str "Accept-Encoding must include lz4") 406 else
      h <-! pst_get ;;
      let '(cached, lz) := lru_Get mv (modmapLZ h) in
      pst_modify (fun h => MkHandler (backend h) lz) ;;!
      match cached with
      | Some data => pst_ret (lz_response data)
      | None =>
          call (be_GetZipRootOrDownload mv) (miss_or_error is_ErrCacheMiss "module not found") (fun mh =>
          call (walkFiles fuel mh [] ∅) server_error (fun fmap =>
          match json_Marshal fmap with
          | Err e => server_error e
          | Ok jsonData =>
              match lz4_compress jsonData with
              | Err e => server_error e
              | Ok compressed =>
                  pst_modify (fun h => MkHandler (backend h) (lru_Set mv compressed (modmapLZ h))) ;;!
                  pst_ret (lz_response compressed)
              end
          end))
      end
  end.

Definition octets (data : bytes) : response := MkResp 200 (str "application/octet-stream") [] (Ok data).

Definition handleFile (r : request) : Serve :=
  match parseMVFromPath (URL_Path r) filePrefix with
  | Err e => http_Error (error_text e) 400
  | Ok (mv, _) =>
      if decide (Query_path r = []) then http_Error (str "missing path query parameter") 400 else
      call (be_GetZipRootOrDownload mv) (miss_or_error is_ErrCacheMiss "module not found") (fun mh =>
      call (fun b => Some (Store.GetFile mh (Query_path r) b)) (miss_or_error is_ErrNotExist "file not found") (fun data =>
      pst_ret (octets data)))
  end.

Definition handleMeta (r : request) : Serve :=
  match parseMVFromPath (URL_Path r) metaPrefix with
  | Err e => http_Error (error_text e) 400
  | Ok (mv, ext) =>
      call (be_GetMetaFileByExt mv ext) (miss_or_error is_ErrCacheMiss "not found") (fun data =>
      pst_ret (octets data))
  end.

(** [Handler]: the routes, for a path that is clean ([ServeMux] redirects
    the others to their clean form). *)
Definition Handler (fuel : nat) (r : request) : Serve :=
  if HasPrefix (URL_Path r) modmapPrefix then handleModMap fuel r
  else if HasPrefix (URL_Path r) filePrefix then handleFile r
  else if HasPrefix (URL_Path r) metaPrefix then handleMeta r
  else http_Error (str "404 page not found") 404.
End handler.
End Handler.
