(* ===== verification/RemoteProps.v ===== *)
(** * store/remotestore: properties of the protocol and the directory map *)

From S2P Require Import Prelude GoStrings Url Store StoreTree PathDir Remote.

Local Open Scope gomodfs_scope.

(** ** Paths of the protocol *)

Section protocol.
Context `{L : ModEscapeLaws}.

Lemma TrimPrefix_app p s : TrimPrefix (p ++ s) p = s.
Proof. unfold TrimPrefix. by rewrite CutPrefix_app. Qed.

Lemma app_not_self {A} (p s : list A) : p <> [] -> s <> p ++ s.
Proof. intros Hp Hs. apply Hp. by apply (app_inv_tail s p []). Qed.

Definition known_ext (ext : bytes) : Prop := ext = str "info" \/ ext = str "mod" \/ ext = str "ziphash".

(** What follows a version in a path with the prefix. *)
Definition ext_suffix (prefix ext : bytes) : option bytes :=
  if decide (prefix = metaPrefix) then
    (if decide (ext = str "info" \/ ext = str "mod" \/ ext = str "ziphash") then Some (dot :: ext) else None)
  else if decide (ext = []) then Some [] else None.

Lemma known_ext_dot ext : known_ext ext -> dot ∉ ext.
Proof. intros [->|[-> | ->]]; by_decide. Qed.

Lemma UnescapePath_at e p : UnescapePath e = Ok p -> "@"%char ∉ e.
Proof. intros He. apply Escape_UnescapePath in He. by eapply EscapePath_at. Qed.

Lemma EscapePath_nil p : EscapePath p <> Ok [].
Proof. intros (a & b & Hab & _)%EscapePath_dot. by destruct a. Qed.

Lemma parseMVFromPath_lemma prefix urlPath mv ext :
  prefix ∈ [modmapPrefix; filePrefix; metaPrefix] ->
  parseMVFromPath urlPath prefix = Ok (mv, ext) <->
  exists esc suffix, mvToEscapedPath mv = Ok esc /\ ext_suffix prefix ext = Some suffix /\
    urlPath = prefix ++ esc ++ suffix.
Proof.
  intros Hp. assert (prefix <> []) as Hne.
  { intros ->. revert Hp. apply (bool_decide_unpack (~ _)). reflexivity. }
  unfold mvToEscapedPath, parseMVFromPath, ext_suffix. split.
  - unfold TrimPrefix. destruct (CutPrefix urlPath prefix) as [rest|] eqn:Hc; cbn [from_option];
      [|by rewrite decide_True]. change (id rest) with rest.
    apply CutPrefix_Some in Hc as ->. rewrite decide_False by (by apply app_not_self).
    destruct (Cut rest (str "/@v/")) as [[em av]|] eqn:Hcut; [|done].
    apply Cut_Some in Hcut as ->. destruct (decide (em = [] \/ av = [])) as [|Hn]; [done|]. 
    assert (forall ev x, ((modPath ← map_err (errWrap "invalid escaped module") (UnescapePath em);
      ver ← map_err (errWrap "invalid escaped version") (UnescapeVersion ev); Ok (MkMV modPath ver, x)) = Ok (mv, ext)) ->
      x = ext /\ EscapePath (Module mv) = Ok em /\ EscapeVersion (Version mv) = Ok ev) as Hmv.
    { intros ev x H. destruct (UnescapePath em) as [p|] eqn:Hm; [|done]. cbn [map_err mbind res_bind] in H.
      destruct (UnescapeVersion ev) as [v|] eqn:Hv; [|done]. cbn [map_err mbind res_bind] in H.
      injection H as <- <-. split_and!; [done|by apply Escape_UnescapePath|by apply Escape_UnescapeVersion]. }
    destruct (decide (prefix = metaPrefix)) as [->|Hnm].
    + destruct (cut_last dot av) as [[ev x]|] eqn:Hl; [|done]. apply cut_last_Some in Hl as [-> Hx].
      destruct (decide (x <> str "info" /\ _)) as [|Hk]; [done|]. cbn [mbind res_bind].
      intros (-> & Hem & Hev)%Hmv. rewrite Hem, Hev. cbn [mbind res_bind].
      eexists _, (dot :: ext). split; [done|]. split; [|by rewrite <- !app_assoc].
      rewrite decide_True; [done|]. 
      destruct (decide (ext = str "info")), (decide (ext = str "mod")), (decide (ext = str "ziphash")); naive_solver.
    + cbn [mbind res_bind]. intros (<- & Hem & Hev)%Hmv. rewrite Hem, Hev. cbn [mbind res_bind].
      rewrite decide_True by done. eexists _, []. split_and!; [done..|]. by rewrite app_nil_r.
  - intros (esc & suffix & Hesc & Hsuf & ->).
    destruct (EscapePath (Module mv)) as [em|] eqn:Hem; [|done]. cbn [mbind res_bind] in Hesc.
    destruct (EscapeVersion (Version mv)) as [ev|] eqn:Hev; [|done]. cbn [mbind res_bind] in Hesc.
    assert (esc = em ++ str "/@v/" ++ ev) as -> by (by injection Hesc). rewrite TrimPrefix_app. rewrite decide_False by (by apply app_not_self).
    rewrite <- !app_assoc. change (str "/@v/" ++ ev ++ suffix) with (slash :: "@"%char :: str "v/" ++ ev ++ suffix).
    change (str "/@v/") with (slash :: "@"%char :: str "v/").
    rewrite (Cut_second em slash "@" (str "v/")) by (done || by eapply EscapePath_at).
    pose proof (EscapeVersion_elem _ _ Hev) as [Hevn _].
    rewrite decide_False.
    2:{ intros [->|Hn]; [by eapply EscapePath_nil|]. by destruct ev. }
    apply Unescape_EscapePath in Hem. apply Unescape_EscapeVersion in Hev.
    destruct (decide (prefix = metaPrefix)).
    + destruct (decide (ext = str "info" \/ _)) as [Hk|]; [|done]. injection Hsuf as <-.
      rewrite cut_last_app by (by apply known_ext_dot). rewrite decide_False by naive_solver.
      cbn [mbind res_bind]. rewrite Hem. cbn [map_err mbind res_bind]. rewrite Hev. by destruct mv.
    + destruct (decide (ext = [])) as [->|]; [|done]. injection Hsuf as <-. rewrite app_nil_r.
      cbn [mbind res_bind]. rewrite Hem. cbn [map_err mbind res_bind]. rewrite Hev. by destruct mv.
Qed.

(** C32: the server reads exactly the paths that the client makes.  A path
    with a prefix of the protocol parses as a module version and extension
    iff it is the prefix, the escaped module version as
    [mvToEscapedPath] writes it, and for the metadata prefix a dot and one
    of the three extensions. *)
Theorem parseMVFromPath_iff prefix urlPath mv ext :
  prefix ∈ [modmapPrefix; filePrefix; metaPrefix] ->
  parseMVFromPath urlPath prefix = Ok (mv, ext) <->
  exists esc suffix, mvToEscapedPath mv = Ok esc /\ ext_suffix prefix ext = Some suffix /\
    urlPath = prefix ++ esc ++ suffix.
Proof. apply parseMVFromPath_lemma. Qed.
End protocol.

Lemma parseMVFromPath_iff_witness :
  parseMVFromPath (E := BangEscape.bang_escape) (str "/api/v1/meta/a.b/!m/@v/v1.0.0.info") metaPrefix =
  Ok (MkMV (str "a.b/M") (str "v1.0.0"), str "info").
Proof.
  apply (parseMVFromPath_iff (L := BangEscape.bang_laws)); [by_decide|].
  exists (str "a.b/!m/@v/v1.0.0"), (str ".info"). split_and!; reflexivity.
Defined.

(** ** The directory map: termination *)

Lemma dir_of_shorter s : relative s -> s <> [] -> length (dir_of s) < length s /\ relative (dir_of s).
Proof.
  intros Hrel Hne. unfold dir_of. case_decide; [split; [by destruct s; cbn; [|lia]|done]|].
  by destruct (path_Dir_shorter s Hrel).
Qed.

Lemma path_Dir_rooted s : head s = Some slash -> head (path_Dir s) = Some slash.
Proof.
  intros Hh. unfold path_Dir. destruct (cut_last slash s) as [[a b]|] eqn:Hc.
  - apply cut_last_Some in Hc as [-> _]. unfold path_Clean. rewrite decide_False by (by destruct a).
    rewrite bool_decide_eq_true_2; [done|]. by destruct a.
  - unfold cut_last in Hc. destruct (Cut (reverse s) [slash]) as [[? ?]|] eqn:Hn; [done|].
    apply Cut_None_notin in Hn. destruct s as [|c s]; [done|]. injection Hh as ->.
    exfalso. apply Hn. rewrite elem_of_reverse. by left.
Qed.

Lemma add_parents_total fuel child m :
  relative child -> length child <= fuel -> is_Some (add_parents fuel child m).
Proof.
  revert child m. induction fuel as [|fuel IH]; intros child m Hr Hl; cbn [add_parents]; case_decide as Hc; try by eexists.
  - destruct child; [done|cbn in Hl; lia].
  - destruct (dir_of_shorter child Hr Hc). apply IH; [done|lia].
Qed.

Lemma add_parents_rooted fuel child m : head child = Some slash -> add_parents fuel child m = None.
Proof.
  revert child m. induction fuel as [|fuel IH]; intros child m Hh; cbn [add_parents];
    (rewrite decide_False by (by intros ->)); [done|]. apply IH. unfold dir_of.
  pose proof (path_Dir_rooted _ Hh) as Hd. rewrite decide_False; [done|]. intros He. by rewrite He in Hd.
Qed.

Lemma dir_of_rooted p : head p = Some slash -> head (dir_of p) = Some slash.
Proof.
  intros Hp%path_Dir_rooted. unfold dir_of. rewrite decide_False; [done|]. intros He. by rewrite He in Hp.
Qed.

Lemma dir_of_relative p : relative p -> length (dir_of p) <= length p /\ relative (dir_of p).
Proof.
  intros Hp. destruct (decide (p = [])) as [->|]; [by split; vm_compute; [lia|]|].
  destruct (dir_of_shorter p Hp) as [? ?]; [done|]. split; [lia|done].
Qed.

Lemma buildDirMap_loop_rooted fuel files m :
  Exists (fun f => head f.1 = Some slash) files -> buildDirMap_loop fuel files m = None.
Proof.
  intros He. revert m. induction He as [[p fm] files Hp|[p fm] files _ IH]; intros m; cbn [buildDirMap_loop].
  - unfold add_file. by rewrite add_parents_rooted by (by apply dir_of_rooted).
  - destruct (add_file fuel p fm m); [|done]. apply IH.
Qed.

Lemma buildDirMap_loop_total fuel files m :
  Forall (fun f => relative f.1 /\ length f.1 <= fuel) files -> is_Some (buildDirMap_loop fuel files m).
Proof.
  intros Hf. revert m. induction Hf as [|[p fm] files [Hp Hl] _ IH]; intros m; cbn [buildDirMap_loop]; [by eexists|].
  cbn [fst] in *. destruct (dir_of_relative p Hp).
  destruct (add_parents_total fuel (dir_of p)
    (add_child (dir_of p) (MkDirent (path_Base p) (fm_Mode fm) (fm_Size fm)) m)) as [m' Hm']; [done|lia|].
  unfold add_file. cbv zeta. rewrite Hm'. apply IH.
Qed.

Section dirs.
Context `{RL : GoRangeLaws}.

Lemma range_Forall (files : ModVersionMap) (P : bytes -> Prop) :
  (forall p, is_Some (files !! p) -> P p) -> Forall (fun f => P f.1) (go_range [] files).
Proof.
  intros HP. rewrite go_range_perm. apply Forall_forall. intros [p fm] Hin%elem_of_map_to_list. apply HP. by eexists.
Qed.

Lemma dirs_fuel_enough (files : ModVersionMap) p : is_Some (files !! p) -> length p < dirs_fuel files.
Proof.
  intros [fm Hp]. unfold dirs_fuel. apply Nat.lt_succ_r, max_list_elem_of_le, list_elem_of_fmap.
  exists p. split; [done|]. apply list_elem_of_fmap. exists (p, fm). split; [done|]. by apply elem_of_map_to_list.
Qed.

(** C33: [buildDirMap] ends iff no file name is rooted.  On names that do
    not begin with a slash it returns a map, in fewer rounds per file than
    the longest name has bytes; on a rooted name, which the server may
    send, the loop over its parents never ends, whatever the order in which
    the files are visited. *)
Theorem buildDirMap_terminates (files : ModVersionMap) :
  (forall p, is_Some (files !! p) -> relative p) <-> exists fuel, is_Some (buildDirMap fuel files).
Proof.
  unfold buildDirMap. split.
  - intros Hrel. exists (dirs_fuel files). apply fmap_is_Some, buildDirMap_loop_total.
    pose proof (range_Forall files (fun p => relative p /\ length p <= dirs_fuel files)) as Hr. apply Hr.
    intros p Hp. split; [by apply Hrel|]. apply dirs_fuel_enough in Hp. lia.
  - intros [fuel [dirs Hd]] p [fm Hp] Hh. rewrite buildDirMap_loop_rooted in Hd; [done|].
    apply Exists_exists. exists (p, fm). split; [|done]. rewrite go_range_perm. by apply elem_of_map_to_list.
Qed.
End dirs.

Lemma buildDirMap_terminates_witness :
  ~ exists fuel, is_Some (buildDirMap (R := some_range) fuel {[ str "/x" := MkMeta 0 420 ]}).
Proof.
  intros Hd. pose proof (proj2 (buildDirMap_terminates (RL := some_range_laws) {[ str "/x" := MkMeta 0 420 ]}) Hd) as Hr.
  apply (Hr (str "/x")); [by eexists|done].
Defined.

(** ** The directory map: contents *)

(** The entry [ent] of directory [d] for the files: a file in it, or the
    first element of the path of a file further below. *)
Definition child (files : list (bytes * FileMeta)) (d : list bytes) (ent : Dirent) : Prop :=
  Forall good_elem (d ++ [d_Name ent]) /\
  ((exists fm, (join_byte slash (d ++ [d_Name ent]), fm) ∈ files /\ ent = MkDirent (d_Name ent) (fm_Mode fm) (fm_Size fm)) \/
   (exists rest fm, rest <> [] /\ Forall good_elem rest /\
     (join_byte slash (d ++ d_Name ent :: rest), fm) ∈ files /\ ent = MkDirent (d_Name ent) ModeDir 0)).

(** A list of files as a module has them: clean relative names, each once,
    none of which is a directory of another. *)
Record clean_files (files : list (bytes * FileMeta)) : Prop := {
  cf_segs : Forall (fun f => exists segs, Forall good_elem segs /\ segs <> [] /\ f.1 = join_byte slash segs) files;
  cf_names : NoDup files.*1;
  cf_conflict : forall segs rest, rest <> [] -> Forall good_elem (segs ++ rest) ->
    join_byte slash segs ∈ files.*1 -> join_byte slash (segs ++ rest) ∈ files.*1 -> False }.

Definition entries (m : dirmap) (d : list bytes) : list Dirent := default [] (dm_dirs m !! join_byte slash d).

Lemma dir_of_join d n : Forall good_elem d -> good_elem n -> dir_of (join_byte slash (d ++ [n])) = join_byte slash d.
Proof.
  intros Hd Hn. unfold dir_of. rewrite path_Dir_join by done. destruct (decide (d = [])) as [->|]; [done|].
  rewrite decide_False; [done|]. by apply join_not_dot.
Qed.

(** The set of names follows the entries, which have different names. *)
Definition synced (m : dirmap) : Prop := forall d,
  (default ∅ (dm_set m !! d) : gset bytes) = list_to_set (d_Name <$> default [] (dm_dirs m !! d)) /\
  NoDup (d_Name <$> default [] (dm_dirs m !! d)) /\ dm_dirs m !! d <> Some [].

Section spec.
(** [C d ent]: the directory may have the entry; a name has one entry. *)
Context (C : list bytes -> Dirent -> Prop).
Context (C_fun : forall d e1 e2, C d e1 -> C d e2 -> d_Name e1 = d_Name e2 -> e1 = e2).

Definition within (m : dirmap) : Prop := forall d e, Forall good_elem d -> e ∈ entries m d -> C d e.

Lemma add_child_spec d ent m :
  Forall good_elem d -> C d ent -> synced m -> within m ->
  let m' := add_child (join_byte slash d) ent m in
  synced m' /\ within m' /\
  forall d' e, Forall good_elem d' -> e ∈ entries m' d' <-> e ∈ entries m d' \/ (d' = d /\ e = ent).
Proof.
  intros Hd HC Hs Hw. cbv zeta. unfold add_child. destruct (Hs (join_byte slash d)) as (Hset & Hnd & Hne).
  rewrite Hset. case_decide as Hin.
  - split; [done|]. split; [done|]. intros d' e Hd'. split; [by left|]. intros [?|[-> ->]]; [done|].
    apply elem_of_list_to_set, list_elem_of_fmap in Hin as (e & Hn & He).
    assert (e = ent) as <-; [|done]. apply (C_fun d); [by apply Hw|done|done].
  - assert (forall d' e, Forall good_elem d' -> e ∈ entries (MkDirMap
      (<[join_byte slash d := default [] (dm_dirs m !! join_byte slash d) ++ [ent]]> (dm_dirs m))
      (<[join_byte slash d := {[d_Name ent]} ∪ list_to_set (d_Name <$> default [] (dm_dirs m !! join_byte slash d))]> (dm_set m))) d'
      <-> e ∈ entries m d' \/ (d' = d /\ e = ent)) as Hent.
    { intros d' e Hd'. unfold entries. cbn [dm_dirs]. destruct (decide (d' = d)) as [->|Hneq].
      - rewrite lookup_insert_eq. cbn [from_option id]. rewrite elem_of_app, list_elem_of_singleton. naive_solver.
      - rewrite lookup_insert_ne by (intros Hj; by apply Hneq, join_inj). naive_solver. }
    split; [|split; [|exact Hent]].
    + intros x. cbn [dm_dirs dm_set]. destruct (decide (join_byte slash d = x)) as [<-|Hx].
      * rewrite !lookup_insert_eq. cbn [from_option id]. rewrite fmap_app. split_and!.
        -- rewrite list_to_set_app_L. cbn [fmap list_fmap list_to_set]. set_solver.
        -- apply NoDup_app. split_and!; [done| |apply NoDup_singleton]. intros y Hy ->%list_elem_of_singleton.
           by apply Hin, elem_of_list_to_set.
        -- intros [= Hl]. by destruct (default [] _).
      * rewrite !lookup_insert_ne by done. apply Hs.
    + intros d' e Hd' He. apply Hent in He as [He|[-> ->]]; [by apply Hw|done|done].
Qed.

(** The loop adds every directory on the way down to [d]. *)
Lemma add_parents_spec fuel d m :
  Forall good_elem d -> length d <= fuel -> synced m -> within m ->
  (forall d1 x d2, d = d1 ++ x :: d2 -> C d1 (MkDirent x ModeDir 0)) ->
  exists m', add_parents fuel (join_byte slash d) m = Some m' /\ synced m' /\ within m' /\
    forall d' e, Forall good_elem d' -> e ∈ entries m' d' <->
      e ∈ entries m d' \/ exists x d2, d = d' ++ x :: d2 /\ e = MkDirent x ModeDir 0.
Proof.
  revert fuel m. induction d as [|x d IH] using rev_ind; intros fuel m Hd Hf Hs Hw HC.
  { exists m. split; [by destruct fuel|]. split_and!; [done..|]. intros d' e _. split; [by left|].
    intros [?|(x & d2 & Hn & _)]; [done|]. by destruct d'. }
  apply Forall_app in Hd as [Hd Hx]. apply Forall_cons in Hx as [Hx _].
  rewrite length_app in Hf. cbn in Hf. destruct fuel as [|fuel]; [lia|].
  pose proof (dir_of_join d x Hd Hx) as Hdir.
  cbn [add_parents]. rewrite decide_False.
  2:{ destruct (join_head (d ++ [x])) as (c & s & -> & _); [by apply Forall_app; split; [|constructor]|by destruct d|done]. }
  rewrite Hdir, path_Base_join by done.
  destruct (add_child_spec d (MkDirent x ModeDir 0) m) as (Hs' & Hw' & He'); [done|by eapply HC|done|done|].
  destruct (IH fuel (add_child (join_byte slash d) (MkDirent x ModeDir 0) m)) as (m' & -> & Hs'' & Hw'' & He'');
    [done|lia|done|done| |].
  { intros d1 y d2 ->. apply (HC d1 y (d2 ++ [x])). by rewrite <- app_assoc. }
  exists m'. split_and!; [done..|]. intros d' e Hd'. rewrite He'', He' by done. split.
  - intros [[?|[-> ->]]|(y & d2 & -> & ->)]; [by left|right; by exists x, []|].
    right. exists y, (d2 ++ [x]). by rewrite <- app_assoc.
  - intros [?|(y & d2 & Hy & ->)]; [by left; left|]. destruct d2 as [|z d2 _] using rev_ind.
    + apply app_inj_tail in Hy as [-> ->]. by left; right.
    + right. exists y, d2. rewrite app_comm_cons, app_assoc in Hy. by apply app_inj_tail in Hy as [-> ->].
Qed.
End spec.

Lemma child_fun files d e1 e2 :
  clean_files files -> child files d e1 -> child files d e2 -> d_Name e1 = d_Name e2 -> e1 = e2.
Proof.
  intros [_ Hnd Hconf] [Hg1 H1] [Hg2 H2] Hn.
  assert (forall rest fm fm', rest <> [] -> Forall good_elem rest ->
    (join_byte slash (d ++ [d_Name e1]), fm) ∈ files -> (join_byte slash (d ++ d_Name e1 :: rest), fm') ∈ files -> False) as Hc.
  { intros rest fm fm' Hr Hgr Hin Hin'. rewrite cons_middle, app_assoc in Hin'.
    apply (Hconf (d ++ [d_Name e1]) rest); [done|by apply Forall_app| |]; apply list_elem_of_fmap; by eexists (_, _). }
  rewrite <- Hn in H2. destruct H1 as [(fm & Hf & He1)|(rest & fm & Hr & Hgr & Hf & He1)],
    H2 as [(fm' & Hf' & He2)|(rest' & fm' & Hr' & Hgr' & Hf' & He2)].
  - assert (fm = fm') as <-; [|by rewrite He1, He2].
    apply list_elem_of_lookup in Hf as [i Hi]. apply list_elem_of_lookup in Hf' as [j Hj].
    assert (i = j) as <-; [|congruence]. eapply (NoDup_lookup files.*1); [done|..]; by rewrite list_lookup_fmap, ?Hi, ?Hj.
  - exfalso. by eapply Hc.
  - exfalso. by eapply Hc.
  - by rewrite He1, He2.
Qed.

(** What one file adds. *)
Lemma child_snoc L d0 n0 fm d e :
  Forall good_elem (d0 ++ [n0]) ->
  child (L ++ [(join_byte slash (d0 ++ [n0]), fm)]) d e <->
  child L d e \/ (d = d0 /\ e = MkDirent n0 (fm_Mode fm) (fm_Size fm)) \/
    exists x d2, d0 = d ++ x :: d2 /\ e = MkDirent x ModeDir 0.
Proof.
  intros Hg. split.
  - intros [Hd [(fm' & Hf & He)|(rest & fm' & Hr & Hgr & Hf & He)]];
      apply elem_of_app in Hf as [Hf|Hf]; try (by left; split; [done|eauto 10]); right.
    + apply list_elem_of_singleton, pair_equal_spec in Hf as [Hj ->]. left. apply join_inj in Hj; [|done..].
      apply app_inj_tail in Hj as [-> Hn]. by rewrite <- Hn.
    + apply list_elem_of_singleton, pair_equal_spec in Hf as [Hj ->]. right.
      rewrite cons_middle, app_assoc in Hj. apply join_inj in Hj; [|by apply Forall_app|done].
      destruct rest as [|z rest _] using rev_ind; [done|]. rewrite app_assoc in Hj.
      apply app_inj_tail in Hj as [<- _]. exists (d_Name e), rest. by rewrite <- app_assoc.
  - intros [[Hd Hc]|[[-> ->]|(x & d2 & -> & ->)]].
    + split; [done|]. destruct Hc as [(fm' & Hf & He)|(rest & fm' & ? & ? & Hf & He)]; [left|right].
      * exists fm'. split; [|done]. apply elem_of_app. by left.
      * exists rest, fm'. split_and!; [done..| |done]. apply elem_of_app. by left.
    + split; [done|]. left. exists fm. split; [|done]. apply elem_of_app. right. by left.
    + rewrite <- app_assoc in Hg. cbn [app] in Hg. split; cbn [d_Name].
      * apply Forall_app in Hg as [H1 H2]. apply Forall_cons in H2 as [H2 _]. apply Forall_app. by split; [|constructor].
      * right. exists (d2 ++ [n0]), fm. split_and!; [by destruct d2| | |done].
        -- apply Forall_app in Hg as [_ Hg]. by apply Forall_cons in Hg as [_ Hg].
        -- apply elem_of_app. right. rewrite <- app_assoc. by left.
Qed.

Lemma length_join_segs l (n : bytes) : length l <= length (join_byte slash (l ++ [n])).
Proof.
  rewrite length_join. assert (length l < weight (l ++ [n])); [|lia].
  induction l as [|w l IH]; cbn [app length]; rewrite weight_cons; lia.
Qed.

Lemma buildDirMap_loop_spec fuel fs P L m :
  clean_files fs -> (forall f, f ∈ P ++ L -> f ∈ fs) -> Forall (fun f => length f.1 <= fuel) L ->
  synced m -> (forall d e, Forall good_elem d -> e ∈ entries m d <-> child P d e) ->
  exists m', buildDirMap_loop fuel L m = Some m' /\ synced m' /\
    forall d e, Forall good_elem d -> e ∈ entries m' d <-> child (P ++ L) d e.
Proof.
  intros Hcl Hsub Hf. revert P m Hsub. induction Hf as [|[p fm] L Hl _ IH]; intros P m Hsub Hs Hm.
  { exists m. by rewrite app_nil_r. }
  pose proof (cf_segs _ Hcl) as Hsegs. rewrite Forall_forall in Hsegs.
  destruct (Hsegs (p, fm)) as (segs & Hg & Hne & Hp); [apply Hsub, elem_of_app; right; by left|]. cbn [fst] in *. subst p.
  destruct segs as [|n0 d0 _] using rev_ind; [done|]. clear Hne.
  set (C := child fs). assert (forall d e, child (P ++ [(join_byte slash (d0 ++ [n0]), fm)]) d e -> C d e) as HC.
  { intros d e [Hd Hc]. split; [done|]. assert (forall f, f ∈ P ++ [(join_byte slash (d0 ++ [n0]), fm)] -> f ∈ fs) as Hin.
    { intros f Hin. apply Hsub. apply elem_of_app in Hin as [?| ->%list_elem_of_singleton]; apply elem_of_app; [by left|right; by left]. }
    destruct Hc as [(fm' & ? & ?)|(rest & fm' & ? & ? & ? & ?)]; [left|right]; eauto 10. }
  assert (forall d e1 e2, C d e1 -> C d e2 -> d_Name e1 = d_Name e2 -> e1 = e2) as Hfun.
  { intros d e1 e2. by apply child_fun. }
  pose proof Hg as Hg'. apply Forall_app in Hg' as [Hd0 Hn0]. apply Forall_cons in Hn0 as [Hn0 _].
  pose proof (dir_of_join d0 n0 Hd0 Hn0) as Hdir.
  cbn [buildDirMap_loop]. unfold add_file. rewrite Hdir, path_Base_join by done. cbv zeta.
  destruct (add_child_spec C Hfun d0 (MkDirent n0 (fm_Mode fm) (fm_Size fm)) m) as (Hs1 & Hw1 & He1); [done| |done| |].
  { apply HC, child_snoc; [done|]. right; left. done. }
  { intros d e Hd He. apply HC, child_snoc; [done|]. left. by apply Hm. }
  destruct (add_parents_spec C Hfun fuel d0 (add_child (join_byte slash d0) (MkDirent n0 (fm_Mode fm) (fm_Size fm)) m) Hd0)
    as (m1 & -> & Hs2 & Hw2 & He2); [|done|done| |].
  { etrans; [apply (length_join_segs d0 n0)|done]. }
  { intros d1 x d2 ->. apply HC, child_snoc; [done|]. right; right. eauto. }
  cbn [mbind option_bind].
  destruct (IH (P ++ [(join_byte slash (d0 ++ [n0]), fm)]) m1) as (m' & -> & Hs' & Hm'); [|done| |].
  - intros f Hin. apply Hsub. by rewrite <- app_assoc in Hin.
  - intros d e Hd. rewrite He2, He1, Hm, child_snoc by done. tauto.
  - exists m'. split_and!; [done..|]. intros d e Hd. rewrite Hm' by done. by rewrite <- app_assoc.
Qed.

(** The directories of the map are paths of good elements. *)
Definition good_keys (m : dirmap) : Prop :=
  forall k, is_Some (dm_dirs m !! k) -> exists d, Forall good_elem d /\ k = join_byte slash d.

Lemma add_child_good d ent m : Forall good_elem d -> good_keys m -> good_keys (add_child (join_byte slash d) ent m).
Proof.
  intros Hd Hm k Hk. unfold add_child in Hk. case_decide; [by apply Hm|]. cbn [dm_dirs] in Hk.
  apply lookup_insert_is_Some in Hk as [<-|[_ Hk]]; [by exists d|by apply Hm].
Qed.

Lemma add_parents_good fuel d m m' :
  Forall good_elem d -> good_keys m -> add_parents fuel (join_byte slash d) m = Some m' -> good_keys m'.
Proof.
  revert d m. induction fuel as [|fuel IH]; intros d m Hd Hm H; cbn [add_parents] in H;
    (case_decide as He; [by injection H as <-|]); [done|].
  destruct d as [|x d _] using rev_ind; [done|]. apply Forall_app in Hd as [Hd Hx]. apply Forall_cons in Hx as [Hx _].
  rewrite (dir_of_join d x Hd Hx) in H. apply IH in H; [done|done|]. by apply add_child_good.
Qed.

Lemma buildDirMap_loop_good fuel fs m m' :
  Forall (fun f : bytes * FileMeta => exists segs, Forall good_elem segs /\ segs <> [] /\ f.1 = join_byte slash segs) fs ->
  good_keys m -> buildDirMap_loop fuel fs m = Some m' -> good_keys m'.
Proof.
  intros Hfs. revert m. induction Hfs as [|[p fm] fs (segs & Hg & Hne & Hp) _ IH]; intros m Hm H; [by injection H as <-|].
  cbn [fst] in Hp. subst p. destruct segs as [|n0 d0 _] using rev_ind; [done|].
  apply Forall_app in Hg as [Hd0 Hn0]. apply Forall_cons in Hn0 as [Hn0 _].
  cbn [buildDirMap_loop] in H. unfold add_file in H. cbv zeta in H. rewrite (dir_of_join d0 n0 Hd0 Hn0) in H.
  destruct (add_parents _ _ _) as [m1|] eqn:Hm1; [|done]. cbn [mbind option_bind] in H.
  apply add_parents_good in Hm1; [by eapply IH|done|]. by apply add_child_good.
Qed.

(** The directories of the files, and what is in them. *)
Definition is_dir (files : ModVersionMap) (path : bytes) : Prop :=
  exists d e, path = join_byte slash d /\ child (map_to_list files) d e.
Definition in_dir (files : ModVersionMap) (path : bytes) (e : Dirent) : Prop :=
  exists d, path = join_byte slash d /\ child (map_to_list files) d e.

(** The map has the directories of the files and no others, each with its
    entries, each name once. *)
Definition listing (files : ModVersionMap) (path : bytes) (o : option (list Dirent)) : Prop :=
  match o with
  | Some ents => is_dir files path /\ NoDup (d_Name <$> ents) /\ forall e, e ∈ ents <-> in_dir files path e
  | None => ~ is_dir files path
  end.

Lemma buildDirMap_spec `{RL : GoRangeLaws} (files : ModVersionMap) :
  clean_files (map_to_list files) ->
  exists dirs, buildDirMap (dirs_fuel files) files = Some dirs /\ forall path, listing files path (dirs !! path).
Proof.
  intros Hcl. unfold buildDirMap. pose proof (go_range_perm [] files) as Hperm.
  destruct (buildDirMap_loop_spec (dirs_fuel files) (map_to_list files) [] (go_range [] files) (MkDirMap ∅ ∅) Hcl)
    as (m & Hm & Hs & He).
  - intros f Hf. by rewrite <- Hperm.
  - pose proof (range_Forall files (fun p => length p <= dirs_fuel files)) as Hr. apply Hr.
    intros p Hp%dirs_fuel_enough. lia.
  - intros d. cbn [dm_dirs dm_set]. rewrite !lookup_empty. by split_and!; [|constructor|].
  - intros d e _. unfold entries. cbn [dm_dirs]. rewrite lookup_empty. cbn [from_option].
    split; [by intros ?%elem_of_nil|]. by intros [_ [(fm & Hn%elem_of_nil & _)|(rest & fm & _ & _ & Hn%elem_of_nil & _)]].
  - rewrite Hm. exists (dm_dirs m). split; [done|].
    assert (good_keys m) as Hgood.
    { eapply buildDirMap_loop_good; [|..|exact Hm]; [rewrite Hperm; apply Hcl|].
      intros k [? Hk]. cbn [dm_dirs] in Hk. by rewrite lookup_empty in Hk. }
    assert (forall d e, Forall good_elem d -> e ∈ entries m d <-> child (map_to_list files) d e) as Hent.
    { intros d e Hd. rewrite He by done. unfold child. setoid_rewrite Hperm. done. }
    intros path. unfold listing. destruct (dm_dirs m !! path) as [ents|] eqn:Hp.
    + destruct (Hgood path ltac:(by eexists)) as (d & Hd & ->).
      destruct (Hs (join_byte slash d)) as (_ & Hnd & Hne). rewrite Hp in Hnd, Hne. cbn [from_option] in Hnd.
      assert (forall e, e ∈ ents <-> child (map_to_list files) d e) as Hin.
      { intros e. rewrite <- (Hent d e Hd). unfold entries. by rewrite Hp. }
      split; [|split; [done|]].
      * destruct ents as [|e ents]; [done|]. exists d, e. split; [done|]. apply Hin. by left.
      * intros e. rewrite Hin. split; [by exists d|]. intros (d' & Hj & Hc). apply join_inj in Hj as ->; [done|done|].
        destruct Hc as [Hg _]. by apply Forall_app in Hg as [? _].
    + intros (d & e & -> & Hc). assert (Forall good_elem d) as Hd.
      { destruct Hc as [Hg _]. by apply Forall_app in Hg as [? _]. }
      apply (Hent d e Hd) in Hc. unfold entries in Hc. rewrite Hp in Hc. by apply elem_of_nil in Hc.
Qed.

