(* ===== verification/RemoteServes.v ===== *)
(** * store/remotestore: client and server together

    The store that a client gets through the HTTP protocol from a server's
    [Handler] has the files of the module that the server's backend has:
    the refinement of the backend by the remote store. *)

From S2P Require Import Prelude GoStrings Url Sha Lru Store StoreTree PathDir MemStore NfsAttr NfsCache FS FSFacts FSProps Remote RemoteProps.

Local Open Scope gomodfs_scope.

(** ** The file system as the server's backend *)

Section backend.
Context `{E : ModEscape} {S H W : Type} `{St : !Store S H} `{Wd : !World W} (cfg : config).

Definition lift_store {A} (m : st S A) : st (FS S H W) A := fun f =>
  let '(r, s) := m (fs_store f) in (r, upd_fs_store s f).

(** [GetStore]: the store of the file system. *)
Definition GetStore : Store (FS S H W) H := {|
  Store.CachedModules := lift_store Store.CachedModules;
  Store.GetZipRoot := fun mv => lift_store (Store.GetZipRoot mv);
  Store.GetInfoFile := fun mv => lift_store (Store.GetInfoFile mv);
  Store.GetModFile := fun mv => lift_store (Store.GetModFile mv);
  Store.PutModFile := fun mv d => lift_store (Store.PutModFile mv d);
  Store.PutInfoFile := fun mv d => lift_store (Store.PutInfoFile mv d);
  Store.GetZipHash := fun mh => lift_store (Store.GetZipHash mh);
  Store.GetFile := fun mh p => lift_store (Store.GetFile mh p);
  Store.Stat := fun mh p => lift_store (Store.Stat mh p);
  Store.Readdir := fun mh p => lift_store (Store.Readdir mh p);
  Store.PutModule := fun mv d => lift_store (Store.PutModule mv d) |}.

Definition fs_backend : FSBackend (FS S H W) H := {|
  be_GetZipRootOrDownload := GetZipRootOrDownload cfg;
  be_GetMetaFileByExt := GetMetaFileByExt cfg;
  be_GetStore := GetStore |}.
End backend.

(** ** What client and server rely on *)

(** A map that JSON represents: names in ASCII, sizes and modes within
    their types. *)
Definition json_ok (m : ModVersionMap) : Prop := forall p fm, m !! p = Some fm ->
  Forall (fun c => (byte_val c < 128)%Z) p /\ (- 2 ^ 63 <= fm_Size fm < 2 ^ 63)%Z /\ (0 <= fm_Mode fm < 2 ^ 32)%Z.

Class CodecLaws (Cd : Codec) := {
  json_roundtrip : forall m, json_ok m -> exists b, json_Marshal m = Ok b /\ json_Unmarshal b = Ok m;
  lz4_roundtrip : forall b, exists c, lz4_compress b = Ok c /\ lz4_decompress c = Ok b }.

(** The cache returns what was set last, or nothing. *)
Class LruCacheLaws (L : Type) (Lr : LruCache L) := {
  lru_elements : L -> gmap ModuleVersion bytes;
  lru_Get_law : forall mv l v l', lru_Get mv l = (v, l') -> v = lru_elements l !! mv /\ lru_elements l' ⊆ lru_elements l;
  lru_Set_law : forall mv v l, lru_elements (lru_Set mv v l) ⊆ <[mv := v]> (lru_elements l) }.

Section serves.
Context `{EL : ModEscapeLaws} {Cd : Codec} {CL : CodecLaws Cd} {ErrT : ErrorText}.
Context {B H L : Type} {Be : FSBackend B H} {Lr : LruCache L} {LL : LruCacheLaws L Lr}.
Context {RG : GoRange} {RL : GoRangeLaws RG}.
Context (fuel : nat) (base : bytes).
Abbreviation server := (Handler.handler (B := B) (L := L)).
Context {Hc : HttpClient server}.

(** Paths that a URL holds as they are. *)
Definition url_safe (s : bytes) : Prop := Forall (fun c => is_alnum c = true \/ c ∈ str "-._~!/@+") s.

Definition rel_url (path f : bytes) : bytes :=
  path ++ (if decide (f = []) then [] else str "?path=" ++ QueryEscape f).

(** The network delivers requests for the base URL to the handler, and its
    responses.  A client that sets no Accept-Encoding sends gzip. *)
Class Serves := {
  serves_url : forall path f, url_safe path -> http_NewRequest (base ++ rel_url path f) = Ok tt;
  serves_Do : forall path f accept n resp n', url_safe path ->
    Handler.Handler fuel (MkReq path f (if decide (accept = []) then str "gzip" else accept)) n = Some (resp, n') ->
    http_Do (base ++ rel_url path f) accept n = (Ok resp, n') }.

Context {Sv : Serves}.

(** ** The module's files *)

(** The files of a tree, with their paths. *)
Fixpoint tree_files (path : bytes) (t : tree) : list (bytes * FileMeta) :=
  match t with
  | Leaf => []
  | Dir kids =>
      (fix go l := match l with
                   | [] => []
                   | (e, k) :: l' =>
                       let name := join_path path (d_Name e) in
                       (if is_Dir k then tree_files name k else [(name, MkMeta (d_Size e) (d_Mode e))]) ++ go l'
                   end) kids
  end.

Definition add_all (l : list (bytes * FileMeta)) (m : ModVersionMap) : ModVersionMap :=
  fold_left (fun m f => <[f.1 := f.2]> m) l m.

Lemma walkFiles_tree n (mh : H) path t m (b : B) :
  holds_tree b mh path t -> is_Dir t = true -> depth t <= n ->
  Handler.walkFiles n mh path m b = Some (Ok (add_all (tree_files path t) m), b).
Proof.
  revert path t m. induction n as [|n IH]; intros path t m Ht Hdir Hd; (destruct t as [|kids]; [done|]); [cbn in Hd; lia|].
  cbn [Handler.walkFiles]. destruct Ht as [Hr Hk]. erewrite try_ok by (by rewrite Hr).
  cbn [depth] in Hd. cbn [tree_files]. clear Hr Hdir. revert m Hk Hd.
  induction kids as [|[e k] kids IHk]; intros m Hk Hd; [done|].
  destruct Hk as (He & Htk & Hk). cbn [fmap list_fmap fst]. rewrite He.
  set (one := if is_Dir k then tree_files (join_path path (d_Name e)) k
    else [(join_path path (d_Name e), MkMeta (d_Size e) (d_Mode e))]).
  erewrite (try_ok _ _ _ (add_all one m)).
  2:{ subst one. destruct (is_Dir k) eqn:Hdk; [|reflexivity]. apply IH; [done|done|lia]. }
  unfold add_all. rewrite fold_left_app. apply IHk; [done|lia].
Qed.

(** The backend has the module: its root, the tree below it, and its
    files' contents. *)
Record has_module (mv : ModuleVersion) (mh : H) (files : ModVersionMap) (contents : bytes -> bytes) (b : B) : Prop := {
  hm_root : be_GetZipRootOrDownload mv b = Some (Ok mh, b);
  hm_tree : exists t, holds_tree b mh [] t /\ is_Dir t = true /\ depth t <= fuel /\ files = add_all (tree_files [] t) ∅;
  hm_file : forall p, is_Some (files !! p) -> Store.GetFile mh p b = (Ok (contents p), b) }.

(** The compressed modmap, if the server has it cached, is of these files. *)
Definition cache_ok (mv : ModuleVersion) (files : ModVersionMap) (l : L) : Prop :=
  forall data, lru_elements l !! mv = Some data ->
    exists json, lz4_decompress data = Ok json /\ json_Unmarshal json = Ok files.

Section module.
Context (mv : ModuleVersion) (mh : H) (files : ModVersionMap) (contents : bytes -> bytes) (esc : bytes) (b : B).
Hypothesis Hesc : mvToEscapedPath mv = Ok esc.
Hypothesis Hsafe : url_safe esc.
Hypothesis Hmod : has_module mv mh files contents b.
Hypothesis Hjson : json_ok files.

(** A server that finds the module, now or after its first request. *)
Definition ready (h : server) : Prop :=
  be_GetZipRootOrDownload mv (Handler.backend h) = Some (Ok mh, b) /\ cache_ok mv files (Handler.modmapLZ h).

Lemma parse_request prefix :
  prefix ∈ [modmapPrefix; filePrefix] -> parseMVFromPath (prefix ++ esc) prefix = Ok (mv, []).
Proof.
  intros Hp. apply parseMVFromPath_lemma.
  - rewrite elem_of_cons, list_elem_of_singleton in Hp. set_solver.
  - exists esc, []. split; [done|]. unfold ext_suffix. rewrite app_nil_r, decide_False; [done|].
    intros ->. revert Hp. apply (bool_decide_unpack (~ _)). reflexivity.
Qed.

Lemma modmap_response h :
  ready h -> exists data json h',
    Handler.Handler fuel (MkReq (modmapPrefix ++ esc) [] (str "lz4")) h = Some (Handler.lz_response data, h') /\
    lz4_decompress data = Ok json /\ json_Unmarshal json = Ok files /\ ready h'.
Proof.
  intros [Hb Hl]. unfold Handler.Handler. cbn [URL_Path]. unfold HasPrefix. rewrite CutPrefix_app.
  unfold Handler.handleModMap. cbn [URL_Path AcceptEncoding]. rewrite parse_request by by_decide.
  change (acceptsLZ4 (str "lz4")) with true. cbn [negb]. unfold pst_bind, pst_get, pst_modify.
  destruct (lru_Get mv (Handler.modmapLZ h)) as [cached l] eqn:Hg. apply lru_Get_law in Hg as [-> Hsub].
  assert (cache_ok mv files l) as Hl'.
  { intros data Hd. apply Hl. by eapply lookup_weaken. }
  cbn [Handler.backend Handler.modmapLZ]. destruct (lru_elements (Handler.modmapLZ h) !! mv) as [data|] eqn:Hd.
  - destruct (Hl data Hd) as (json & ? & ?). by eexists data, json, _.
  - unfold Handler.call. cbn [Handler.backend Handler.modmapLZ]. rewrite Hb.
    destruct (hm_tree _ _ _ _ _ Hmod) as (t & Ht & Hdir & Hdep & Hf).
    rewrite (walkFiles_tree fuel mh [] t ∅ b) by done. rewrite <- Hf.
    destruct (json_roundtrip files Hjson) as (json & -> & Hj). destruct (lz4_roundtrip json) as (data & -> & Hz).
    eexists data, json, _. split; [done|]. split_and!; [done..|]. cbn [Handler.backend Handler.modmapLZ].
    split; [apply Hmod|]. intros data' Hd'. pose proof (lookup_weaken _ _ _ _ Hd' (lru_Set_law mv data l)) as Hs.
    rewrite lookup_insert_eq in Hs. injection Hs as <-. eauto.
Qed.

Lemma file_response h p :
  ready h -> is_Some (files !! p) -> p <> [] -> exists h',
    Handler.Handler fuel (MkReq (filePrefix ++ esc) p (str "gzip")) h = Some (Handler.octets (contents p), h') /\ ready h'.
Proof.
  intros [Hb Hl] Hp Hne. unfold Handler.Handler. cbn [URL_Path].
  assert (HasPrefix (filePrefix ++ esc) modmapPrefix = false) as -> by reflexivity.
  assert (HasPrefix (filePrefix ++ esc) filePrefix = true) as -> by (unfold HasPrefix; by rewrite CutPrefix_app).
  unfold Handler.handleFile. cbn [URL_Path Query_path]. rewrite parse_request by by_decide.
  rewrite decide_False by done. unfold Handler.call. rewrite Hb. cbn [Handler.backend Handler.modmapLZ].
  rewrite (hm_file _ _ _ _ _ Hmod) by done. eexists. split; [done|]. split; [apply Hmod|done].
Qed.

(** ** The client *)

Abbreviation client := (Remotestore.Store (N := server)).
Definition upd_net (n : server) (c : client) : client :=
  Remotestore.MkStore (Remotestore.BaseURL c) (Remotestore.modmaps c) (Remotestore.meta c) n.

Lemma get_serves path f accept (c : client) resp n' :
  Remotestore.BaseURL c = base -> url_safe path ->
  Handler.Handler fuel (MkReq path f (if decide (accept = []) then str "gzip" else accept)) (Remotestore.net c) =
    Some (resp, n') ->
  Remotestore.get (rel_url path f) accept c = Some (Ok resp, upd_net n' c).
Proof.
  intros Hbase Hs Hh. unfold Remotestore.get, upd_net. cbv zeta. rewrite Hbase, serves_url by done.
  by rewrite (serves_Do _ _ _ _ _ _ Hs Hh).
Qed.

Lemma safe_prefix prefix : prefix ∈ [modmapPrefix; filePrefix] -> url_safe (prefix ++ esc).
Proof.
  intros Hp. apply Forall_app. split; [|done].
  rewrite elem_of_cons, list_elem_of_singleton in Hp. destruct Hp as [-> | ->]; by_decide.
Qed.

(** A connected client: its server is ready, and its own cache, when it has
    the module, has the handle [h]. *)
Definition connected (c : client) : Prop := Remotestore.BaseURL c = base /\ ready (Remotestore.net c).

Lemma GetZipRoot_files (c : client) dirs :
  connected c -> Remotestore.modmaps c !! mv = None -> buildDirMap (dirs_fuel files) files = Some dirs ->
  exists c', Remotestore.GetZipRoot mv c = Some (Ok (MkRemote mv files dirs), c') /\ connected c' /\
    Remotestore.modmaps c' !! mv = Some (MkRemote mv files dirs).
Proof.
  intros [Hbase Hr] Hn Hdirs. destruct (modmap_response _ Hr) as (data & json & n' & Hh & Hz & Hj & Hr').
  assert (Remotestore.get (modmapPrefix ++ esc) (str "lz4") c = Some (Ok (Handler.lz_response data), upd_net n' c)) as Hget.
  { rewrite <- (get_serves (modmapPrefix ++ esc) [] (str "lz4")); [|done|apply safe_prefix; by_decide|exact Hh].
    unfold rel_url. by rewrite app_nil_r. }
  unfold Remotestore.GetZipRoot, Remotestore.fetchModMap, pst_bind, pst_get. rewrite Hn, Hn.
  unfold Remotestore.lift, pst_try, pst_bind. rewrite Hesc. cbn [pst_ret]. rewrite Hget.
  cbn [Status Body ContentEncoding Handler.lz_response]. rewrite decide_False by done. rewrite decide_False by tauto.
  cbn [pst_ret]. rewrite decide_True by done. rewrite Hz. cbn [map_err pst_ret]. rewrite Hj. cbn [map_err pst_ret].
  rewrite Hdirs. eexists. split; [done|]. split; [done|]. apply lookup_insert_eq.
Qed.

(** What the remote store answers for a handle with these files: [Readdir]
    of a path, and [Stat] and [GetFile] of a path that is not empty. *)
Definition readdir_answer (h : remoteModHandle) (path : bytes) : Prop :=
  (is_dir files path -> exists ents, Remotestore.Readdir h path = Ok ents /\ NoDup (d_Name <$> ents) /\
     forall e, e ∈ ents <-> in_dir files path e) /\
  (~ is_dir files path -> Remotestore.Readdir h path = if decide (path = []) then Ok [] else Err ErrNotExist).
Definition path_answer (h : remoteModHandle) (c : client) (path : bytes) : Prop :=
  match files !! path with
  | Some fm =>
      Remotestore.Stat h path = Ok (MkFileInfo (path_Base path) (fm_Size fm) (fm_Mode fm) FakeStaticFileTime false) /\
      exists c', Remotestore.GetFile h path c = Some (Ok (contents path), c') /\ connected c'
  | None =>
      (is_dir files path ->
         Remotestore.Stat h path = Ok (MkFileInfo (path_Base path) 0 ModeDir FakeStaticFileTime true) /\
         Remotestore.GetFile h path c = Some (Err ErrIsDir, c)) /\
      (~ is_dir files path ->
         Remotestore.Stat h path = Err ErrNotExist /\ Remotestore.GetFile h path c = Some (Err ErrNotExist, c))
  end.
Definition answers (h : remoteModHandle) (c : client) : Prop :=
  (forall path, readdir_answer h path) /\ (forall path, path <> [] -> path_answer h c path).

Lemma GetFile_served (c : client) dirs p fm :
  connected c -> files !! p = Some fm -> p <> [] ->
  exists c', Remotestore.GetFile (MkRemote mv files dirs) p c = Some (Ok (contents p), c') /\ connected c'.
Proof.
  intros [Hbase Hr] Hp Hne. destruct (file_response _ p Hr) as (n' & Hh & Hr'); [by eexists|done|].
  assert (Remotestore.get (filePrefix ++ esc ++ str "?path=" ++ QueryEscape p) [] c =
    Some (Ok (Handler.octets (contents p)), upd_net n' c)) as Hget.
  { rewrite <- (get_serves (filePrefix ++ esc) p []); [|done|apply safe_prefix; by_decide|exact Hh].
    unfold rel_url. rewrite decide_False by done. by rewrite <- app_assoc. }
  unfold Remotestore.GetFile. cbn [rmh_files rmh_mv]. rewrite Hp. unfold Remotestore.lift, pst_try, pst_bind.
  rewrite Hesc. cbn [pst_ret]. rewrite Hget. cbn [Status Body Handler.octets].
  rewrite decide_False by done. rewrite decide_False by tauto. by eexists.
Qed.

Lemma remote_answers (c : client) :
  connected c -> Remotestore.modmaps c !! mv = None -> clean_files (map_to_list files) ->
  exists h c', Remotestore.GetZipRoot mv c = Some (Ok h, c') /\ connected c' /\
    Remotestore.GetZipRoot mv c' = Some (Ok h, c') /\ answers h c'.
Proof.
  intros Hcc Hn Hcl. destruct (buildDirMap_spec files Hcl) as (dirs & Hdirs & Hlist).
  destruct (GetZipRoot_files c dirs Hcc Hn Hdirs) as (c' & Hz & Hc' & Hm).
  exists (MkRemote mv files dirs), c'. split_and!; [done|done| |].
  { unfold Remotestore.GetZipRoot, pst_bind, pst_get. by rewrite Hm. }
  split; intros path; specialize (Hlist path); unfold listing in Hlist.
  - unfold readdir_answer, Remotestore.Readdir. cbn [rmh_dirs]. destruct (dirs !! path) as [ents|].
    + destruct Hlist as (Hd & Hnd & Hin). split; [intros _; by exists ents|by intros Hno].
    + by split.
  - intros Hp. unfold path_answer, Remotestore.Stat. cbn [rmh_files rmh_dirs]. rewrite decide_False by done.
    destruct (files !! path) as [fm|] eqn:Hf; [split; [done|by eapply GetFile_served]|].
    unfold Remotestore.GetFile. cbn [rmh_files rmh_dirs]. rewrite Hf. destruct (dirs !! path) as [ents|].
    + split; [done|]. intros Hno. by destruct (Hno (proj1 Hlist)).
    + by split.
Qed.
End module.

(** C34: the remote store refines the backend of the server it is connected
    to.  For a module that the backend has, [GetZipRoot] of the client gets
    a handle from the server, and then from its cache; with it [Readdir]
    of a directory lists exactly the backend's files and directories in it,
    each once, [Stat] gives a file's size and mode, and [GetFile] its
    contents; the directories of the backend's files, and no other paths,
    are directories, for which [GetFile] is [ErrIsDir]; and any other path,
    whatever its characters, does not exist for all three, but that the root
    of a module without files is an empty directory: for modules
    whose files have clean ASCII names, whose escaped name a URL can hold,
    and any network that delivers requests and responses. *)
Theorem remote_refines_backend mv mh files contents esc b (c : Remotestore.Store (N := server)) :
  mvToEscapedPath mv = Ok esc -> url_safe esc ->
  has_module mv mh files contents b -> json_ok files -> clean_files (map_to_list files) ->
  connected mv mh files b c -> Remotestore.modmaps c !! mv = None ->
  exists h c', Remotestore.GetZipRoot mv c = Some (Ok h, c') /\ connected mv mh files b c' /\
    Remotestore.GetZipRoot mv c' = Some (Ok h, c') /\ answers mv mh files contents b h c'.
Proof. intros. by eapply remote_answers. Qed.
End serves.

(** ** A client, a network and a server *)

(** A codec that writes the entries one after the other; a name ends at a
    byte that is not ASCII. *)
Definition colon : ascii := ":".
Definition name_end : ascii := byte_of 255.
Definition enc_entry (f : bytes * FileMeta) : bytes :=
  f.1 ++ name_end :: Itoa (fm_Size f.2 + 2 ^ 63) ++ colon :: Itoa (fm_Mode f.2) ++ [colon].
Definition dec_number (s : bytes) : option (Z * bytes) :=
  '(a, r) ← Cut s [colon]; n ← ParseInt 128 a; Some (n, r).
Fixpoint dec_entries (fuel : nat) (s : bytes) : option (list (bytes * FileMeta)) :=
  match s, fuel with
  | [], _ => Some []
  | _, O => None
  | _, S fuel' =>
      '(p, s) ← Cut s [name_end];
      '(size, s) ← dec_number s;
      '(mode, s) ← dec_number s;
      l ← dec_entries fuel' s;
      Some ((p, MkMeta (size - 2 ^ 63) mode) :: l)
  end.

Definition list_codec : Codec := {|
  json_Marshal := fun m => Ok (mjoin (enc_entry <$> map_to_list m));
  json_Unmarshal := fun s => match dec_entries (length s) s with
                             | Some l => Ok (list_to_map l)
                             | None => Err (errText "json")
                             end;
  lz4_compress := fun s => Ok ("L"%char :: s);
  lz4_decompress := fun s => match s with _ :: s => Ok s | [] => Err (errText "lz4") end |}.

Lemma dec_number_Itoa n s : (0 <= n < 2 ^ 127)%Z -> dec_number (Itoa n ++ colon :: s) = Some (n, s).
Proof.
  intros Hn. unfold dec_number. rewrite Cut_byte by (apply Itoa_notin; [lia|done]). cbn [mbind option_bind].
  by rewrite ParseInt_Itoa.
Qed.

Lemma dec_enc l fuel :
  Forall (fun f => Forall (fun c => (byte_val c < 128)%Z) f.1 /\ (- 2 ^ 63 <= fm_Size f.2 < 2 ^ 63)%Z /\
    (0 <= fm_Mode f.2 < 2 ^ 32)%Z) l ->
  length l <= fuel -> dec_entries fuel (mjoin (enc_entry <$> l)) = Some l.
Proof.
  intros Hl. revert fuel. induction Hl as [|[p [size mode]] l (Hp & Hsz & Hmd) _ IH]; intros fuel Hf; [by destruct fuel|].
  destruct fuel as [|fuel]; cbn in Hf; [lia|]. cbn [fst snd fm_Size fm_Mode] in *.
  change (mjoin (enc_entry <$> (p, MkMeta size mode) :: l)) with (enc_entry (p, MkMeta size mode) ++ mjoin (enc_entry <$> l)).
  unfold enc_entry at 1. cbn [fst snd fm_Size fm_Mode]. set (rest := mjoin _).
  replace ((p ++ name_end :: Itoa (size + 2 ^ 63) ++ colon :: Itoa mode ++ [colon]) ++ rest)
    with (p ++ name_end :: Itoa (size + 2 ^ 63) ++ colon :: Itoa mode ++ colon :: rest)
    by (rewrite <- !app_assoc; cbn [app]; rewrite <- !app_assoc; cbn [app]; rewrite <- !app_assoc; done).
  assert (name_end ∉ p) as Hn.
  { intros Hin. rewrite Forall_forall in Hp. specialize (Hp _ Hin). change (byte_val name_end) with 255%Z in Hp. lia. }
  destruct (p ++ name_end :: _) as [|c s] eqn:He; [by destruct p|]. cbn [dec_entries]. rewrite <- He.
  rewrite Cut_byte by done. cbn [mbind option_bind]. rewrite dec_number_Itoa by lia. cbn [mbind option_bind].
  rewrite dec_number_Itoa by lia. cbn [mbind option_bind]. subst rest. rewrite IH by lia. cbn [mbind option_bind].
  by replace (size + 2 ^ 63 - 2 ^ 63)%Z with size by lia.
Qed.

Lemma length_enc l : length l <= length (mjoin (enc_entry <$> l)).
Proof.
  induction l as [|f l IH]; [done|]. change (mjoin (enc_entry <$> f :: l)) with (enc_entry f ++ mjoin (enc_entry <$> l)).
  rewrite length_app. unfold enc_entry at 1. rewrite !length_app. cbn [length]. lia.
Qed.

Lemma list_codec_laws : CodecLaws list_codec.
Proof.
  split.
  - intros m Hm. eexists. split; [done|]. cbn [json_Unmarshal list_codec]. rewrite dec_enc; [|..|apply length_enc].
    + by rewrite list_to_map_to_list.
    + apply Forall_forall. intros [p fm] Hin%elem_of_map_to_list. by apply Hm.
  - intros b. by eexists.
Qed.

(** A cache that is emptied when it is full. *)
Definition map_lru : LruCache (gmap ModuleVersion bytes) := {|
  lru_Get := fun mv l => (l !! mv, l);
  lru_Set := fun mv v l => if decide (256 <= size l) then {[ mv := v ]} else <[mv := v]> l |}.

Lemma map_lru_laws : LruCacheLaws _ map_lru.
Proof.
  refine {| lru_elements := fun l => l |}.
  - intros mv l v l' [= <- <-]. done.
  - intros mv v l. cbn. case_decide; [|done]. apply insert_mono, map_empty_subseteq.
Defined.

(** A network that hands requests for the base URL to the handler. *)
Section loopback.
Context `{E : ModEscape} {Cd : Codec} {ErrT : ErrorText}.
Context {B H L : Type} {Be : FSBackend B H} {Lr : LruCache L} (fuel : nat) (base : bytes).

Definition loopback : HttpClient (Handler.handler (B := B) (L := L)) := {|
  http_NewRequest := fun url => if HasPrefix url base then Ok tt else Err (errText "unsupported protocol scheme");
  http_Do := fun url accept n =>
    match CutPrefix url base with
    | None => (Err (errText "no such host"), n)
    | Some rel =>
        let '(path, f) := match Cut rel (str "?") with
                          | Some (path, q) => (path, default [] (QueryUnescape (TrimPrefix q (str "path="))))
                          | None => (rel, [])
                          end in
        match Handler.Handler fuel (MkReq path f (if decide (accept = []) then str "gzip" else accept)) n with
        | Some (resp, n') => (Ok resp, n')
        | None => (Err EOF, n)
        end
    end |}.

Lemma loopback_serves : Serves fuel base (Hc := loopback).
Proof.
  assert (forall path, url_safe path -> "?"%char ∉ path) as Hq.
  { intros path Hs Hin. unfold url_safe in Hs. rewrite Forall_forall in Hs.
    destruct (Hs _ Hin) as [Hn|Hn]; [done|]. revert Hn. apply (bool_decide_unpack (~ _)). reflexivity. }
  split.
  - intros path f Hs. cbn [http_NewRequest loopback]. unfold HasPrefix. by rewrite CutPrefix_app.
  - intros path f accept n resp n' Hs Hh. cbn [http_Do loopback]. rewrite CutPrefix_app. unfold rel_url.
    change (str "?") with ["?"%char]. destruct (decide (f = [])) as [Hf|Hf].
    + subst f. rewrite app_nil_r, Cut_byte_None by auto. by rewrite Hh.
    + change (str "?path=" ++ QueryEscape f) with ("?"%char :: str "path=" ++ QueryEscape f).
      rewrite Cut_byte by auto. rewrite TrimPrefix_app, QueryUnescape_Escape. cbn [from_option id]. by rewrite Hh.
Qed.
End loopback.

(** Clean files, by computation. *)
Lemma clean_files_decide l :
  Forall (fun f : bytes * FileMeta => Forall good_elem (split_byte slash f.1)) l -> NoDup l.*1 ->
  Forall (fun a => Forall (fun b => ~ (a ++ [slash]) `prefix_of` b) l.*1) l.*1 -> clean_files l.
Proof.
  intros Hg Hnd Hc. assert ([] ∉ l.*1) as Hnil.
  { intros ([p fm] & Hp & Hin)%list_elem_of_fmap. cbn in Hp. subst p. rewrite Forall_forall in Hg.
    specialize (Hg _ Hin). apply Forall_cons in Hg as [[? _] _]. done. }
  split; [|done|].
  - eapply Forall_impl; [exact Hg|]. intros f Hf. exists (split_byte slash f.1).
    split_and!; [done|apply split_byte_nonempty|by rewrite join_split].
  - intros segs rest Hr Hgood Ha Hb. rewrite Forall_forall in Hc. specialize (Hc _ Ha). rewrite Forall_forall in Hc.
    apply (Hc _ Hb). destruct (decide (segs = [])) as [->|Hs]; [done|]. exists (join_byte slash rest).
    clear -Hs Hr. induction segs as [|w segs IH]; [done|]. destruct segs as [|w' segs].
    + destruct rest as [|r rest]; [done|].
      change (w ++ slash :: join_byte slash (r :: rest) = (w ++ [slash]) ++ join_byte slash (r :: rest)).
      by rewrite <- app_assoc.
    + change (w ++ slash :: join_byte slash ((w' :: segs) ++ rest) =
        ((w ++ slash :: join_byte slash (w' :: segs)) ++ [slash]) ++ join_byte slash rest).
      rewrite IH by done. rewrite <- !app_assoc. cbn [app]. by rewrite <- ?app_assoc.
Qed.

#[local] Instance test_error_text : ErrorText := {| error_text := fun _ => str "error" |}.

Definition test_backend : FSBackend (FS mem ModuleVersion unit) ModuleVersion :=
  fs_backend (E := BangEscape.bang_escape) test_cfg.
Definition test_base : bytes := str "http://h".
Definition test_modmap : ModVersionMap := add_all (tree_files [] test_tree) ∅.
Definition test_contents (p : bytes) : bytes := if decide (p = str "go.mod") then str "m" else str "y".

(** The file system after it found the module's root. *)
Definition test_root : FS mem ModuleVersion unit :=
  upd_zipRootCache {[ test_mv := test_mv ]} (upd_handleMaps None test_fs).

Lemma test_has_module :
  has_module (Be := test_backend) 5 test_mv test_mv test_modmap test_contents test_root.
Proof.
  split.
  - vm_compute. reflexivity.
  - exists test_tree. split_and!; [by vm_compute; split_and!|done|by_decide|done].
  - intros p Hp. assert (p ∈ [str "go.mod"; str "x/y.go"]) as Hin.
    { destruct Hp as [fm Hp]. revert Hp. unfold test_modmap. change (tree_files [] test_tree) with
        [(str "go.mod", MkMeta 1 420); (str "x/y.go", MkMeta 1 420)]. unfold add_all. cbn [fold_left fst snd].
      rewrite !lookup_insert_Some, lookup_empty. set_solver. }
    apply elem_of_cons in Hin as [->| ->%list_elem_of_singleton]; vm_compute; reflexivity.
Qed.

Definition test_client : Remotestore.Store (N := Handler.handler (B := FS mem ModuleVersion unit) (L := gmap ModuleVersion bytes)) :=
  Remotestore.MkStore test_base ∅ ∅ (Handler.MkHandler test_fs ∅).

Lemma remote_refines_backend_witness :
  let Hc := loopback (E := BangEscape.bang_escape) (Cd := list_codec) (Be := test_backend) (Lr := map_lru) 5 test_base in
  exists h c' c'', Remotestore.GetZipRoot (E := BangEscape.bang_escape) (Cd := list_codec) (Hc := Hc) (R := some_range) test_mv test_client = Some (Ok h, c') /\
    Remotestore.GetFile (E := BangEscape.bang_escape) (Hc := Hc) h (str "x/y.go") c' = Some (Ok (str "y"), c'').
Proof.
  intros Hc.
  destruct (remote_refines_backend (EL := BangEscape.bang_laws) (CL := list_codec_laws) (Be := test_backend) (LL := map_lru_laws)
    (RL := some_range_laws) (Sv := loopback_serves 5 test_base) 5 test_base test_mv test_mv test_modmap test_contents
    (str "a.b/!m/@v/v1.0.0") test_root test_client) as (h & c' & Hz & _ & _ & _ & Hf).
  - reflexivity.
  - unfold url_safe. by_decide.
  - apply test_has_module.
  - intros p fm Hp. assert ((p, fm) ∈ map_to_list test_modmap) as Hin by (by apply elem_of_map_to_list).
    revert Hin. apply (Forall_forall (fun f => Forall (fun c => (byte_val c < 128)%Z) f.1 /\
      (- 2 ^ 63 <= fm_Size f.2 < 2 ^ 63)%Z /\ (0 <= fm_Mode f.2 < 2 ^ 32)%Z) (map_to_list test_modmap)). by_decide.
  - apply clean_files_decide; by_decide.
  - split; [done|]. split; [vm_compute; reflexivity|]. intros data Hd.
    change ((∅ : gmap ModuleVersion bytes) !! test_mv = Some data) in Hd. by rewrite lookup_empty in Hd.
  - reflexivity.
  - specialize (Hf (str "x/y.go") ltac:(done)). change (test_modmap !! str "x/y.go") with (Some (MkMeta 1 420)) in Hf.
    destruct Hf as (_ & c'' & Hg & _). exists h, c', c''. split; [exact Hz|exact Hg].
Defined.
