(* ===== verification/Rpc.v ===== *)
(** * portmap/portmap.go and go-nfs/conn.go, errors.go: RPC

    Record marking (RFC 5531, section 11) as the portmapper and the NFS
    server read and write it, the portmapper's replies, and how the NFS
    server turns what a procedure does into one reply.  A connection's
    input is the bytes that remain to be read; writing to it succeeds.  Log
    calls are left out. *)

From S2P Require Import Prelude GoStrings Sha.

Local Open Scope gomodfs_scope.
Local Open Scope Z_scope.

(** ** Reading and record marking *)

(** [io.ReadFull] of [n] bytes: the error is [io.EOF] when there are none,
    and reads nothing for [n = 0]. *)
Definition ReadFull (n : nat) (s : bytes) : res bytes * bytes :=
  if (length s <? n)%nat then (Err (if decide (s = []) then EOF else ErrUnexpectedEOF), [])
  else (Ok (take n s), drop n s).

Definition lastFrag : Z := Z.shiftl 1 31.

(** A record with the header of its only fragment. *)
Definition frame (msg : bytes) : bytes :=
  be_bytes 4 (Z.lor (u32 (Z.of_nat (length msg))) lastFrag) ++ msg.

(** ** portmap.go *)

Module Portmap.

Definition rpcCall : Z := 0.
Definition rpcReply : Z := 1.
Definition rpcVersion : Z := 2.
Definition replyMsgAccepted : Z := 0.
Definition acceptSuccess : Z := 0.
Definition portmapProg : Z := 100000.
Definition portmapVers : Z := 2.
Definition pmapProcNull : Z := 0.
Definition pmapProcGetport : Z := 3.
Definition ipprotoTCP : Z := 6.
Definition nfsProg : Z := 100003.
Definition mountProg : Z := 100005.
Definition nlmProg : Z := 100021.
Definition maxRecord : Z := Z.shiftl 64 10.

(** The loop of [readRecord]; each round reads a header, which bounds the
    fuel. *)
Fixpoint readRecord_loop (fuel : nat) (rec s : bytes) : option (res bytes * bytes) :=
  match fuel with
  | O => None
  | S fuel' =>
      match ReadFull 4 s with
      | (Err e, s) => Some (Err e, s)
      | (Ok hdr, s) =>
          let h := be_val hdr in
          let n := Z.ldiff h lastFrag in
          if maxRecord <? Z.of_nat (length rec) + n then Some (Err (errText "record too large"), s)
          else
          match ReadFull (Z.to_nat n) s with
          | (Err e, s) => Some (Err e, s)
          | (Ok frag, s) =>
              let rec := rec ++ frag in
              if negb (Z.land h lastFrag =? 0) then Some (Ok rec, s) else readRecord_loop fuel' rec s
          end
      end
  end.
Definition readRecord (s : bytes) : option (res bytes * bytes) := readRecord_loop (S (length s)) [] s.

Record xdrReader := MkXdr { xb : bytes; bad : bool }.

Definition r_u32 (r : xdrReader) : Z * xdrReader :=
  if (length (xb r) <? 4)%nat then (0, MkXdr (xb r) true)
  else (be_val (take 4 (xb r)), MkXdr (drop 4 (xb r)) (bad r)).

(** The length is a [uint64], so that adding to it does not wrap. *)
Definition skipOpaqueAuth (r : xdrReader) : xdrReader :=
  let '(_, r) := r_u32 r in
  let '(len, r) := r_u32 r in
  let n := Z.ldiff (len + 3) 3 in
  if Z.of_nat (length (xb r)) <? n then MkXdr (xb r) true
  else MkXdr (drop (Z.to_nat n) (xb r)) (bad r).

Section server.
Context (Port : Z).

Definition reply (msg : bytes) : option bytes :=
  let r := MkXdr msg false in
  let '(xid, r) := r_u32 r in
  let '(x, r) := r_u32 r in if negb (x =? rpcCall) then None else
  let '(x, r) := r_u32 r in if negb (x =? rpcVersion) then None else
  let '(x, r) := r_u32 r in if negb (x =? portmapProg) then None else
  let '(x, r) := r_u32 r in if negb (x =? portmapVers) then None else
  let '(proc, r) := r_u32 r in
  let r := skipOpaqueAuth (skipOpaqueAuth r) in
  '(port, r) ←
    (if proc =? pmapProcNull then Some (0, r)
     else if proc =? pmapProcGetport then
       let '(prog, r) := r_u32 r in
       let '(vers, r) := r_u32 r in
       let '(prot, r) := r_u32 r in
       Some (if (prot =? ipprotoTCP) && ((prog =? nfsProg) || (prog =? mountProg) || (prog =? nlmProg))
             then u32 Port else 0, r)
     else None);
  if bad r then None else
  Some (be_bytes 4 xid ++ be_bytes 4 rpcReply ++ be_bytes 4 replyMsgAccepted ++ be_bytes 4 0 ++ be_bytes 4 0 ++
        be_bytes 4 acceptSuccess ++ (if proc =? pmapProcGetport then be_bytes 4 port else [])).

(** [serveConn]: what it writes for the input, until the input ends or is
    no call that is answered.  Each round reads a record, which bounds the
    fuel. *)
Fixpoint serveConn_loop (fuel : nat) (s : bytes) : option bytes :=
  match fuel with
  | O => None
  | S fuel' =>
      '(rec, s) ← readRecord s;
      match rec with
      | Err _ => Some []
      | Ok rec =>
          match reply rec with
          | None => Some []
          | Some resp => out ← serveConn_loop fuel' s; Some (frame resp ++ out)
          end
      end
  end.
Definition serveConn (s : bytes) : option bytes := serveConn_loop (S (length s)) s.

(** [ServeUDP] for one packet, which is cut to the size of its buffer. *)
Definition ServeUDP_one (packet : bytes) : option bytes := reply (take (Z.to_nat maxRecord) packet).
End server.
End Portmap.

(** ** errors.go: RPC errors *)

(** The error types of the RPC layer, and any other error. *)
Inductive app_error : Type :=
  | AuthError (stat : Z)
  | RPCMismatchError (low high : Z)
  | ProcUnavailableError
  | SystemError
  | AppError (e : error).

(** The codes, numbered with [iota]. *)
Definition ResponseCodeSuccess : Z := 0.
Definition ResponseCodeProgUnavailable : Z := 1.
Definition ResponseCodeProcUnavailable : Z := 2.
Definition ResponseCodeGarbageArgs : Z := 3.
Definition ResponseCodeSystemErr : Z := 4.
Definition ResponseCodeRPCMismatch : Z := 5.
Definition ResponseCodeAuthError : Z := 6.

(** An [RPCError]: its [Code], and what [MarshalBinary] gives. *)
Record RPCError := MkRPC { Code : Z; MarshalBinary : bytes }.

Definition le_bytes (n : nat) (z : Z) : bytes := reverse (be_bytes n z).

(** [errors.As(err, &rpcErr)]. *)
Fixpoint find_nfs (e : error) : option RPCError :=
  match e with
  | NFSStatusError status _ => Some (MkRPC ResponseCodeSuccess (be_bytes 4 status))
  | errWrap _ e' => find_nfs e'
  | errJoin es => (fix go es := match es with
                                | [] => None
                                | e :: es' => match find_nfs e with Some r => Some r | None => go es' end
                                end) es
  | _ => None
  end.
Definition as_RPCError (e : app_error) : option RPCError :=
  match e with
  | AuthError stat => Some (MkRPC ResponseCodeAuthError (le_bytes 4 stat))
  | RPCMismatchError low high => Some (MkRPC ResponseCodeRPCMismatch (le_bytes 4 low ++ le_bytes 4 high))
  | ProcUnavailableError => Some (MkRPC ResponseCodeProcUnavailable [])
  | SystemError => Some (MkRPC ResponseCodeSystemErr [])
  | AppError e => find_nfs e
  end.

Definition basicErrorFormatter (e : app_error) : RPCError :=
  default (MkRPC ResponseCodeSystemErr []) (as_RPCError e).
Definition errFormatterWithBody (body : bytes) (e : app_error) : RPCError :=
  match e with
  | AppError (NFSStatusError status _) => MkRPC ResponseCodeSuccess (be_bytes 4 status ++ body)
  | _ => basicErrorFormatter e
  end.
Definition opAttrErrorFormatter : app_error -> RPCError := errFormatterWithBody (replicate 4 nul).
Definition wccDataErrorFormatter : app_error -> RPCError := errFormatterWithBody (replicate 8 nul).

(** ** conn.go *)

Module Conn.

Definition maxRPCSize : Z := Z.shiftl 10 20.
Definition ErrInputInvalid : error := errText "invalid input".
Definition ErrAlreadySent : error := errText "response already started".

(** [ReadRPCRecord]; [msg] is nil before the first fragment. *)
Fixpoint ReadRPCRecord_loop (fuel : nat) (msg : option bytes) (s : bytes) : option (res bytes * bytes) :=
  match fuel with
  | O => None
  | S fuel' =>
      match ReadFull 4 s with
      | (Err e, s) => Some (Err e, s)
      | (Ok hdr, s) =>
          let frag := be_val hdr in
          let last := negb (Z.land frag lastFrag =? 0) in
          let n := Z.ldiff frag lastFrag in
          if maxRPCSize <? n + Z.of_nat (length (default [] msg)) then Some (Err (errText "fragment too large"), s)
          else
          match ReadFull (Z.to_nat n) s with
          | (Err e, s) => Some (Err e, s)
          | (Ok buf, s) =>
              match msg with
              | None => if last : bool then Some (Ok buf, s) else ReadRPCRecord_loop fuel' (if decide (buf = []) then None else Some buf) s
              | Some m => if last : bool then Some (Ok (m ++ buf), s) else ReadRPCRecord_loop fuel' (Some (m ++ buf)) s
              end
          end
      end
  end.
Definition ReadRPCRecord (s : bytes) : option (res bytes * bytes) := ReadRPCRecord_loop (S (length s)) None s.

(** A response; [w_fmt] is its [errorFmt], and the request is known by its
    transaction number. *)
Record response := MkResponse {
  xid : Z;
  writer : bytes;
  responded : bool;
  w_err : option app_error;
  errorFmt : app_error -> RPCError }.

Definition newResponse (xid : Z) : response := MkResponse xid [] false None basicErrorFormatter.

Definition MsgAccepted : Z := 0.
Definition MsgDenied : Z := 1.

Definition emit (data : bytes) (w : response) : response :=
  MkResponse (xid w) (writer w ++ data) (responded w) (w_err w) (errorFmt w).

Definition writeXdrHeader (w : response) : response := emit (be_bytes 4 (xid w) ++ be_bytes 4 1) w.

(** The null authentication is a flavor and an empty body. *)
Definition writeHeader (code : Z) (w : response) : option error * response :=
  if responded w then (Some ErrAlreadySent, w) else
  let w := writeXdrHeader (MkResponse (xid w) (writer w) true (w_err w) (errorFmt w)) in
  let status := if (code =? ResponseCodeAuthError) || (code =? ResponseCodeRPCMismatch) then MsgDenied else MsgAccepted in
  let w := emit (be_bytes 4 status) w in
  let w := if status =? MsgAccepted then emit (be_bytes 4 0 ++ be_bytes 4 0) w else w in
  (None, emit (be_bytes 4 code) w).

Definition Write (dat : bytes) (w : response) : option error * response :=
  let '(e, w) := if responded w then (None, w) else writeHeader ResponseCodeSuccess w in
  match e with Some e => (Some e, w) | None => (None, emit dat w) end.

(** [c.err], while the context is not done. *)
Definition err (e : app_error) (w : response) : option error * response :=
  let w := MkResponse (xid w) (writer w) (responded w) (Some (default e (w_err w))) (errorFmt w) in
  if responded w then (None, w) else
  let rpcErr := errorFmt w e in
  let '(werr, w) := writeHeader (Code rpcErr) w in
  match werr with Some e => (Some e, w) | None => Write (MarshalBinary rpcErr) w end.

(** A procedure: what it does to the response, and its error. *)
Definition HandleFunc : Type := response -> option app_error * response.

(** [handle], for the procedure that [handlerFor] found. *)
Definition handle (h : option HandleFunc) (w : response) : option error * response :=
  match h with
  | None => err ProcUnavailableError w
  | Some h =>
      let '(appError, w) := h w in
      let '(e, w) := match appError with
                     | Some e => if responded w then (None, w) else err e w
                     | None => (None, w)
                     end in
      match e with
      | Some e => (Some e, w)
      | None => if responded w then (None, w) else err SystemError w
      end
  end.
End Conn.
