(* ===== verification/RpcProps.v ===== *)
(** * portmap/portmap.go and go-nfs/conn.go: properties of the RPC layer

    Records are read back whatever fragments they come in, the portmapper
    answers every call of a connection, and the NFS server sends one reply
    to each request. *)

From S2P Require Import Prelude GoStrings Sha Rpc.

Local Open Scope gomodfs_scope.
Local Open Scope Z_scope.

(** ** The last-fragment bit *)

Lemma pow31_testbit i : 0 <= i -> Z.testbit lastFrag i = (i =? 31).
Proof. intros Hi. unfold lastFrag. rewrite Z.shiftl_1_l, Z.pow2_bits_eqb by lia. by rewrite Z.eqb_sym. Qed.

Lemma testbit31 h : 0 <= h < 2 ^ 32 -> Z.testbit h 31 = negb (h <? 2 ^ 31).
Proof.
  intros Hh. destruct (Z.ltb_spec h (2 ^ 31)).
  - destruct (decide (h = 0)) as [->|]; [done|]. apply Z.bits_above_log2; [lia|]. apply Z.log2_lt_pow2; lia.
  - replace h with (h - 2 ^ 31 + 1 * 2 ^ 31) by lia. rewrite Z.testbit_true by lia.
    rewrite Z.div_add, Z.div_small by lia. done.
Qed.

Lemma bits_high h i : 0 <= h < 2 ^ 32 -> 31 < i -> Z.testbit h i = false.
Proof.
  intros Hh Hi. destruct (decide (h = 0)) as [->|]; [by rewrite Z.bits_0|].
  apply Z.bits_above_log2; [lia|]. pose proof (proj1 (Z.log2_lt_pow2 h 32 ltac:(lia))). lia.
Qed.

Lemma ldiff_last h : 0 <= h < 2 ^ 32 -> Z.ldiff h lastFrag = h mod 2 ^ 31.
Proof.
  intros Hh. apply Z.bits_inj'. intros i Hi. rewrite Z.ldiff_spec, pow31_testbit by done.
  destruct (Z.eqb_spec i 31) as [->|].
  - by rewrite andb_false_r, Z.mod_pow2_bits_high by lia.
  - rewrite andb_true_r. destruct (Z.ltb_spec i 31).
    + by rewrite Z.mod_pow2_bits_low by lia.
    + rewrite Z.mod_pow2_bits_high by lia. apply bits_high; lia.
Qed.

Lemma land_last h : 0 <= h < 2 ^ 32 -> (Z.land h lastFrag =? 0) = (h <? 2 ^ 31).
Proof.
  intros Hh. assert (Z.land h lastFrag = if h <? 2 ^ 31 then 0 else lastFrag) as ->.
  { apply Z.bits_inj'. intros i Hi. rewrite Z.land_spec, pow31_testbit by done.
    destruct (Z.eqb_spec i 31) as [->|].
    - rewrite testbit31 by done. destruct (h <? 2 ^ 31); [by rewrite Z.bits_0|done].
    - rewrite andb_false_r. destruct (h <? 2 ^ 31); [by rewrite Z.bits_0|]. rewrite pow31_testbit by done.
      symmetry. by apply Z.eqb_neq. }
  by destruct (h <? 2 ^ 31).
Qed.

Lemma lor_last n : 0 <= n < 2 ^ 31 -> Z.lor n lastFrag = n + 2 ^ 31.
Proof.
  intros Hn. assert (Z.land n lastFrag = 0) as Hl.
  { apply Z.eqb_eq. rewrite land_last by lia. apply Z.ltb_lt. lia. }
  change (2 ^ 31) with lastFrag. by rewrite Z.add_nocarry_lxor, Z.lxor_lor by done.
Qed.

(** ** Records *)

(** A fragment with its header, and a record in fragments. *)
Definition fragment (last : bool) (f : bytes) : bytes :=
  be_bytes 4 (Z.of_nat (length f) + if last then 2 ^ 31 else 0) ++ f.
Fixpoint fragments (fs : list bytes) (last : bytes) : bytes :=
  match fs with
  | [] => fragment true last
  | f :: fs' => fragment false f ++ fragments fs' last
  end.

(** Reading records up to a limit, as both readers do. *)
Fixpoint read_loop (limit : Z) (fuel : nat) (rec s : bytes) : option (res bytes * bytes) :=
  match fuel with
  | O => None
  | S fuel' =>
      match ReadFull 4 s with
      | (Err e, s) => Some (Err e, s)
      | (Ok hdr, s) =>
          let h := be_val hdr in
          let n := Z.ldiff h lastFrag in
          if limit <? Z.of_nat (length rec) + n then Some (Err (errText "too large"), s) else
          match ReadFull (Z.to_nat n) s with
          | (Err e, s) => Some (Err e, s)
          | (Ok frag, s) =>
              if negb (Z.land h lastFrag =? 0) then Some (Ok (rec ++ frag), s) else read_loop limit fuel' (rec ++ frag) s
          end
      end
  end.

(** The same outcome, but for the text of an error. *)
Definition same_read (a b : option (res bytes * bytes)) : Prop :=
  match a, b with
  | Some (Ok x, s), Some (Ok y, t) => x = y /\ s = t
  | Some (Err _, _), Some (Err _, _) => True
  | None, None => True
  | _, _ => False
  end.

Lemma readRecord_generic fuel rec s :
  same_read (Portmap.readRecord_loop fuel rec s) (read_loop Portmap.maxRecord fuel rec s).
Proof.
  revert rec s. induction fuel as [|fuel IH]; intros rec s; [done|]. cbn [Portmap.readRecord_loop read_loop].
  destruct (ReadFull 4 s) as [[hdr|] s1]; [|done]. cbv zeta. destruct (Portmap.maxRecord <? _); [done|].
  destruct (ReadFull _ s1) as [[f|] s2]; [|done]. destruct (negb _); [done|apply IH].
Qed.

Lemma ReadRPCRecord_generic fuel msg s :
  msg <> Some [] -> same_read (Conn.ReadRPCRecord_loop fuel msg s) (read_loop Conn.maxRPCSize fuel (default [] msg) s).
Proof.
  revert msg s. induction fuel as [|fuel IH]; intros msg s Hmsg; [done|]. cbn [Conn.ReadRPCRecord_loop read_loop].
  destruct (ReadFull 4 s) as [[hdr|] s1]; [|done]. cbv zeta. rewrite Z.add_comm.
  destruct (Conn.maxRPCSize <? _); [done|]. destruct (ReadFull _ s1) as [[f|] s2]; [|done].
  destruct msg as [m|]; cbn [from_option id].
  - destruct (negb _); [done|]. apply (IH (Some (m ++ f))). intros [= Hn]. by destruct m.
  - destruct (negb _); [done|]. case_decide as Hf; [subst f; apply (IH None); done|]. apply (IH (Some f)). congruence.
Qed.

Lemma ReadFull_app a b : ReadFull (length a) (a ++ b) = (Ok a, b).
Proof.
  unfold ReadFull. rewrite (proj2 (Nat.ltb_ge _ _)) by (rewrite length_app; lia).
  by rewrite take_app_length, drop_app_length.
Qed.

Lemma ReadFull_4 z s : ReadFull 4 (be_bytes 4 z ++ s) = (Ok (be_bytes 4 z), s).
Proof. pose proof (ReadFull_app (be_bytes 4 z) s) as H. by rewrite be_bytes_length in H. Qed.

Definition total (fs : list bytes) : Z := Z.of_nat (length (mjoin fs)).

Lemma read_loop_fragments limit fs last rec rest fuel :
  limit < 2 ^ 31 -> Z.of_nat (length rec) + total (fs ++ [last]) <= limit -> (length fs < fuel)%nat ->
  read_loop limit fuel rec (fragments fs last ++ rest) = Some (Ok (rec ++ mjoin (fs ++ [last])), rest).
Proof.
  intros Hl. unfold total. revert rec fuel.
  induction fs as [|f fs IH]; intros rec fuel Ht Hf; (destruct fuel as [|fuel]; [lia|]).
  - change (mjoin ([] ++ [last])) with (last ++ []) in *. rewrite app_nil_r in *. cbn [fragments read_loop].
    unfold fragment. rewrite <- app_assoc, ReadFull_4. cbv zeta. rewrite be_val_u32 by lia.
    rewrite ldiff_last, land_last by lia.
    replace (Z.of_nat (length last) + 2 ^ 31) with (Z.of_nat (length last) + 1 * 2 ^ 31) by lia.
    rewrite Z.mod_add, Z.mod_small by lia. rewrite (proj2 (Z.ltb_ge limit _)) by lia.
    rewrite Nat2Z.id, ReadFull_app. rewrite (proj2 (Z.ltb_ge _ (2 ^ 31))) by lia. done.
  - change (mjoin ((f :: fs) ++ [last])) with (f ++ mjoin (fs ++ [last])) in *. rewrite length_app in Ht.
    cbn [fragments read_loop]. unfold fragment at 1. rewrite <- !app_assoc, ReadFull_4. cbv zeta.
    rewrite be_val_u32 by lia. rewrite ldiff_last, land_last by lia. rewrite Z.add_0_r, Z.mod_small by lia.
    rewrite (proj2 (Z.ltb_ge limit _)) by lia. rewrite Nat2Z.id, ReadFull_app. rewrite (proj2 (Z.ltb_lt _ (2 ^ 31))) by lia.
    cbn [negb]. rewrite IH; [by rewrite <- app_assoc|rewrite length_app; lia|cbn in Hf; lia].
Qed.

Lemma length_fragments fs last : (length fs < length (fragments fs last))%nat.
Proof.
  induction fs as [|f fs IH]; cbn [fragments length]; unfold fragment; rewrite !length_app, be_bytes_length; lia.
Qed.

(** A record whose fragments are announced to exceed the limit. *)
Lemma read_loop_too_large limit fs f b rec rest fuel :
  limit < 2 ^ 31 -> Z.of_nat (length rec) + total fs <= limit < Z.of_nat (length rec) + total fs + Z.of_nat (length f) ->
  Z.of_nat (length f) < 2 ^ 31 -> (length fs < fuel)%nat ->
  exists e s, read_loop limit fuel rec (mjoin (fragment false <$> fs) ++ fragment b f ++ rest) = Some (Err e, s).
Proof.
  intros Hl. unfold total. revert rec fuel.
  induction fs as [|g fs IH]; intros rec fuel Ht Hlen Hf; (destruct fuel as [|fuel]; [lia|]).
  - cbn in Ht. cbn [fmap list_fmap mjoin list_join app read_loop]. unfold fragment. rewrite <- app_assoc, ReadFull_4.
    cbv zeta. rewrite be_val_u32 by (destruct b; lia). rewrite ldiff_last by (destruct b; lia).
    assert ((Z.of_nat (length f) + (if b then 2 ^ 31 else 0)) mod 2 ^ 31 = Z.of_nat (length f)) as ->.
    { destruct b; [replace (Z.of_nat (length f) + 2 ^ 31) with (Z.of_nat (length f) + 1 * 2 ^ 31) by lia; rewrite Z.mod_add by lia|rewrite Z.add_0_r];
        apply Z.mod_small; lia. }
    rewrite (proj2 (Z.ltb_lt limit _)) by lia. eauto.
  - change (mjoin (g :: fs)) with (g ++ mjoin fs) in *. rewrite length_app in Ht.
    change (mjoin (fragment false <$> g :: fs)) with (fragment false g ++ mjoin (fragment false <$> fs)).
    rewrite <- app_assoc. cbn [read_loop]. unfold fragment at 1. rewrite <- !app_assoc, ReadFull_4. cbv zeta.
    rewrite be_val_u32 by lia. rewrite ldiff_last, land_last by lia. rewrite Z.add_0_r, Z.mod_small by lia.
    rewrite (proj2 (Z.ltb_ge limit _)) by lia. rewrite Nat2Z.id, ReadFull_app. rewrite (proj2 (Z.ltb_lt _ (2 ^ 31))) by lia.
    cbn [negb]. apply IH; [rewrite length_app; lia|done|cbn in Hf; lia].
Qed.

Definition is_too_large (o : option (res bytes * bytes)) : Prop := exists e s, o = Some (Err e, s).

Lemma same_read_Ok a x s : same_read a (Some (Ok x, s)) -> a = Some (Ok x, s).
Proof. destruct a as [[[y|] t]|]; [|done..]. by intros [-> ->]. Qed.

Lemma same_read_Err a e s : same_read a (Some (Err e, s)) -> is_too_large a.
Proof. destruct a as [[[y|] t]|]; [done| |done]. intros _. by eexists _, _. Qed.

Lemma read_whole limit fs last rest :
  limit < 2 ^ 31 -> total (fs ++ [last]) <= limit ->
  read_loop limit (S (length (fragments fs last ++ rest))) [] (fragments fs last ++ rest) =
  Some (Ok (mjoin (fs ++ [last])), rest).
Proof.
  intros Hl Ht. apply (read_loop_fragments limit fs last []); [done|done|].
  pose proof (length_fragments fs last). rewrite length_app. lia.
Qed.

Lemma readRecord_fragments fs last rest :
  total (fs ++ [last]) <= Portmap.maxRecord ->
  Portmap.readRecord (fragments fs last ++ rest) = Some (Ok (mjoin (fs ++ [last])), rest).
Proof.
  intros Ht. apply same_read_Ok. unfold Portmap.readRecord.
  rewrite <- (read_whole Portmap.maxRecord) by done. apply readRecord_generic.
Qed.

Lemma length_partial fs b f : (length fs < length (mjoin (fragment false <$> fs) ++ fragment b f))%nat.
Proof.
  induction fs as [|g fs IH]; cbn [length].
  - rewrite length_app. unfold fragment. rewrite length_app, be_bytes_length. lia.
  - change (mjoin (fragment false <$> g :: fs)) with (fragment false g ++ mjoin (fragment false <$> fs)).
    rewrite <- app_assoc, length_app. unfold fragment at 1. rewrite length_app, be_bytes_length. lia.
Qed.

(** Records survive fragmentation.  However a record is split into
    fragments, the portmapper reads it whole, and leaves the input after it,
    if it has at most 64 KiB, and so does the NFS server up to 10 MiB; a
    record that is announced to be longer is refused by the fragment that
    exceeds the limit, whatever follows its header. *)
Theorem records_reassemble (fs : list bytes) (last rest : bytes) (b : bool) :
  (total (fs ++ [last]) <= Portmap.maxRecord ->
    Portmap.readRecord (fragments fs last ++ rest) = Some (Ok (mjoin (fs ++ [last])), rest)) /\
  (total (fs ++ [last]) <= Conn.maxRPCSize ->
    Conn.ReadRPCRecord (fragments fs last ++ rest) = Some (Ok (mjoin (fs ++ [last])), rest)) /\
  (total fs <= Portmap.maxRecord < total fs + Z.of_nat (length last) -> Z.of_nat (length last) < 2 ^ 31 ->
    is_too_large (Portmap.readRecord (mjoin (fragment false <$> fs) ++ fragment b last ++ rest))) /\
  (total fs <= Conn.maxRPCSize < total fs + Z.of_nat (length last) -> Z.of_nat (length last) < 2 ^ 31 ->
    is_too_large (Conn.ReadRPCRecord (mjoin (fragment false <$> fs) ++ fragment b last ++ rest))).
Proof.
  pose proof (length_partial fs b last) as Hlen. rewrite length_app in Hlen. split_and!.
  - apply readRecord_fragments.
  - intros Ht. apply same_read_Ok. unfold Conn.ReadRPCRecord.
    rewrite <- (read_whole Conn.maxRPCSize) by done. by apply (ReadRPCRecord_generic _ None).
  - intros Ht Hl. unfold Portmap.readRecord.
    edestruct (read_loop_too_large Portmap.maxRecord fs last b []) as (e & s & He); [done|exact Ht|exact Hl| |].
    2:{ eapply same_read_Err. rewrite <- He. apply readRecord_generic. }
    rewrite !length_app. lia.
  - intros Ht Hl. unfold Conn.ReadRPCRecord.
    edestruct (read_loop_too_large Conn.maxRPCSize fs last b []) as (e & s & He); [done|exact Ht|exact Hl| |].
    2:{ eapply same_read_Err. rewrite <- He. by apply (ReadRPCRecord_generic _ None). }
    rewrite !length_app. lia.
Qed.

Lemma records_reassemble_witness :
  Portmap.readRecord (fragments [str "ab"; []] (str "c") ++ str "rest") = Some (Ok (str "abc"), str "rest").
Proof. apply (records_reassemble [str "ab"; []] (str "c") (str "rest") true). unfold total. cbn. vm_compute. done. Defined.

(** ** The portmapper's replies *)

Inductive query := Null | Getport (prog vers prot : Z).
Record call := MkCall { c_xid : Z; c_cred : Z * bytes; c_verf : Z * bytes; c_query : query; c_extra : bytes }.

(** An [opaque_auth] with its padding to a multiple of four bytes. *)
Definition pad4 (n : Z) : Z := 4 * ((n + 3) / 4).
Definition opaque_auth (a : Z * bytes) : bytes :=
  let n := Z.of_nat (length a.2) in
  be_bytes 4 a.1 ++ be_bytes 4 n ++ a.2 ++ replicate (Z.to_nat (pad4 n - n)) nul.

Definition proc_of (q : query) : Z := match q with Null => 0 | Getport _ _ _ => 3 end.
Definition args_of (q : query) : bytes :=
  match q with Null => [] | Getport prog vers prot => be_bytes 4 prog ++ be_bytes 4 vers ++ be_bytes 4 prot end.
Definition call_bytes (c : call) : bytes :=
  mjoin (be_bytes 4 <$> [c_xid c; 0; 2; 100000; 2; proc_of (c_query c)]) ++
  opaque_auth (c_cred c) ++ opaque_auth (c_verf c) ++ args_of (c_query c) ++ c_extra c.

Definition u32_ok (z : Z) : Prop := 0 <= z < 2 ^ 32.
Definition query_ok (q : query) : Prop :=
  match q with Null => True | Getport prog vers prot => u32_ok prog /\ u32_ok vers /\ u32_ok prot end.
Definition call_ok (c : call) : Prop :=
  u32_ok (c_xid c) /\ u32_ok (c_cred c).1 /\ u32_ok (c_verf c).1 /\ query_ok (c_query c).

(** The port that a query is answered with. *)
Definition port_of (Port : Z) (q : query) : list Z :=
  match q with
  | Null => []
  | Getport prog _ prot => [if decide (prot = 6 /\ prog ∈ [100003; 100005; 100021]) then u32 Port else 0]
  end.
Definition reply_bytes (Port : Z) (c : call) : bytes :=
  mjoin (be_bytes 4 <$> [c_xid c; 1; 0; 0; 0; 0] ++ port_of Port (c_query c)).

Lemma r_u32_be z s b : u32_ok z -> Portmap.r_u32 (Portmap.MkXdr (be_bytes 4 z ++ s) b) = (z, Portmap.MkXdr s b).
Proof.
  intros Hz. unfold Portmap.r_u32. cbn [Portmap.xb Portmap.bad].
  rewrite (proj2 (Nat.ltb_ge _ _)) by (rewrite length_app, be_bytes_length; lia).
  rewrite take_app_length', drop_app_length' by (by rewrite be_bytes_length). by rewrite be_val_u32.
Qed.

Lemma ldiff_3 n : Z.ldiff n 3 = 4 * (n / 4).
Proof. change 3 with (Z.ones 2). rewrite Z.ldiff_ones_r, Z.shiftl_mul_pow2, Z.shiftr_div_pow2 by lia. change (2 ^ 2) with 4. lia. Qed.

Lemma skipOpaqueAuth_auth a s b :
  u32_ok a.1 -> Z.of_nat (length a.2) < 2 ^ 32 ->
  Portmap.skipOpaqueAuth (Portmap.MkXdr (opaque_auth a ++ s) b) = Portmap.MkXdr s b.
Proof.
  intros Ha Hl. unfold Portmap.skipOpaqueAuth, opaque_auth. cbv zeta. rewrite <- !app_assoc, !r_u32_be by (done || unfold u32_ok; lia).
  cbv beta iota. rewrite ldiff_3. fold (pad4 (Z.of_nat (length a.2))). cbn [Portmap.xb Portmap.bad].
  set (n := Z.of_nat (length a.2)) in *. assert (0 <= n <= pad4 n) as Hp.
  { unfold pad4. pose proof (Z.div_mod (n + 3) 4 ltac:(lia)). pose proof (Z.mod_pos_bound (n + 3) 4 ltac:(lia)). lia. }
  rewrite app_assoc. assert (length (a.2 ++ replicate (Z.to_nat (pad4 n - n)) nul) = Z.to_nat (pad4 n)) as Hlen.
  { rewrite length_app, length_replicate. subst n. lia. }
  rewrite (proj2 (Z.ltb_ge _ _)) by (rewrite length_app, Hlen; lia).
  by rewrite drop_app_length' by done.
Qed.

Lemma reply_call Port c :
  call_ok c -> Z.of_nat (length (call_bytes c)) <= Portmap.maxRecord ->
  Portmap.reply Port (call_bytes c) = Some (reply_bytes Port c).
Proof.
  destruct c as [xid cred verf q extra]. unfold call_ok, call_bytes. cbn [c_xid c_cred c_verf c_query c_extra].
  intros (Hx & Hc & Hv & Hq) Hlen. unfold opaque_auth in Hlen. rewrite !length_app in Hlen.
  assert (Z.of_nat (length cred.2) < 2 ^ 32 /\ Z.of_nat (length verf.2) < 2 ^ 32) as [Hlc Hlv].
  { unfold Portmap.maxRecord in Hlen. change (Z.shiftl 64 10) with 65536 in Hlen. lia. }
  unfold Portmap.reply.
  change (mjoin (be_bytes 4 <$> [xid; 0; 2; 100000; 2; proc_of q])) with
    (be_bytes 4 xid ++ be_bytes 4 0 ++ be_bytes 4 2 ++ be_bytes 4 100000 ++ be_bytes 4 2 ++ be_bytes 4 (proc_of q) ++ []).
  rewrite <- !app_assoc. cbn [app]. do 5 (rewrite r_u32_be by (done || unfold u32_ok; lia); cbv beta iota zeta).
  cbn [negb Z.eqb Portmap.rpcCall Portmap.rpcVersion Portmap.portmapProg Portmap.portmapVers Pos.eqb].
  rewrite r_u32_be by (unfold u32_ok; destruct q; cbn; lia). cbv beta iota zeta.
  rewrite !skipOpaqueAuth_auth by done. destruct q as [|prog vers prot]; cbn [proc_of args_of].
  - cbn [app]. unfold Portmap.pmapProcNull. cbn [Z.eqb mbind option_bind Portmap.bad]. unfold reply_bytes.
    cbn [port_of c_xid c_query app]. done.
  - destruct Hq as (Hp & Hve & Hpr). rewrite <- !app_assoc. 
    change (3 =? Portmap.pmapProcNull) with false. change (3 =? Portmap.pmapProcGetport) with true. cbv iota.
    do 3 (rewrite r_u32_be by done; cbv beta iota). cbn [mbind option_bind Portmap.bad].
    unfold reply_bytes, port_of. cbn [c_xid c_query].
    assert ((prot =? Portmap.ipprotoTCP) && ((prog =? Portmap.nfsProg) || (prog =? Portmap.mountProg) || (prog =? Portmap.nlmProg)) =
      bool_decide (prot = 6 /\ prog ∈ [100003; 100005; 100021])) as ->.
    { apply eq_bool_prop_intro. rewrite bool_decide_spec, andb_True, !orb_True, !Is_true_true, !Z.eqb_eq. set_solver. }
    rewrite <- decide_bool_decide. done.
Qed.

(** A call as it is sent: cut into fragments in some way. *)
Definition sends (c : call) (p : list bytes * bytes) : Prop := mjoin (p.1 ++ [p.2]) = call_bytes c.
Definition stream (ps : list (list bytes * bytes)) : bytes := mjoin ((fun p => fragments p.1 p.2) <$> ps).

(** What ends a connection: the end of the input, or a record that the
    portmapper does not answer. *)
Definition ends (Port : Z) (tail : bytes) : Prop :=
  tail = [] \/ exists rec rest, Portmap.readRecord tail = Some (Ok rec, rest) /\ Portmap.reply Port rec = None.

Lemma serveConn_loop_calls Port calls ps tail fuel :
  Forall2 sends calls ps -> Forall call_ok calls ->
  Forall (fun c => Z.of_nat (length (call_bytes c)) <= Portmap.maxRecord) calls -> ends Port tail ->
  (length calls < fuel)%nat ->
  Portmap.serveConn_loop Port fuel (stream ps ++ tail) =
  Some (mjoin ((fun c => frame (reply_bytes Port c)) <$> calls)).
Proof.
  intros Hs Hok Hlen Hend. revert fuel. induction Hs as [|c [fs last] calls ps Hc _ IH]; intros fuel Hf;
    (destruct fuel as [|fuel]; [lia|]); cbn [Portmap.serveConn_loop].
  - change (stream [] ++ tail) with tail. destruct Hend as [->|(rec & rest & -> & Hr)]; [done|].
    cbn [mbind option_bind]. by rewrite Hr.
  - apply Forall_cons in Hok as [Hok1 Hok]. apply Forall_cons in Hlen as [Hlen1 Hlen].
    change (stream ((fs, last) :: ps)) with (fragments fs last ++ stream ps). rewrite <- app_assoc.
    unfold sends in Hc. cbn [fst snd] in Hc.
    rewrite readRecord_fragments by (unfold total; by rewrite Hc). cbn [mbind option_bind]. rewrite Hc, reply_call by done.
    rewrite IH; [done|done|done|cbn in Hf; lia].
Qed.

(** C35: the portmapper answers every call of a connection.  For any sequence
    of well-formed calls of at most 64 KiB, in any fragments, the replies are
    written in the order of the calls, each in one fragment and with its
    call's transaction number; GETPORT gets the port exactly for the NFS,
    MOUNT and NLM programs over TCP, and 0 otherwise; and the connection
    ends with the input or the first record that is no such call. *)
Theorem serveConn_replies Port calls ps tail :
  Forall2 sends calls ps -> Forall call_ok calls ->
  Forall (fun c => Z.of_nat (length (call_bytes c)) <= Portmap.maxRecord) calls -> ends Port tail ->
  Portmap.serveConn Port (stream ps ++ tail) = Some (mjoin ((fun c => frame (reply_bytes Port c)) <$> calls)).
Proof.
  intros Hs Hok Hlen Hend. apply serveConn_loop_calls; [done..|].
  apply Forall2_length in Hs as ->. rewrite length_app. clear.
  assert (length ps <= length (stream ps))%nat; [|lia].
  induction ps as [|[fs last] ps IH]; [done|].
  change (stream ((fs, last) :: ps)) with (fragments fs last ++ stream ps). rewrite length_app.
  pose proof (length_fragments fs last). cbn [length]. lia.
Qed.

Definition test_call : call := MkCall 7 (1, str "cred!") (0, []) (Getport 100003 3 6) (be_bytes 4 0).

Lemma serveConn_replies_witness :
  Portmap.serveConn 2049 (frame (call_bytes test_call)) =
  Some (frame (mjoin (be_bytes 4 <$> [7; 1; 0; 0; 0; 0; 2049]))).
Proof.
  rewrite <- (app_nil_r (frame _)) at 1.
  assert (frame (call_bytes test_call) = stream [([], call_bytes test_call)]) as -> by (vm_compute; reflexivity).
  rewrite (serveConn_replies 2049 [test_call] [([], call_bytes test_call)] []).
  - vm_compute. reflexivity.
  - constructor; [|constructor]. vm_compute. reflexivity.
  - constructor; [|constructor]. unfold call_ok, test_call. cbn [c_xid c_cred c_verf c_query query_ok fst]. unfold u32_ok. lia.
  - constructor; [|constructor]. vm_compute. done.
  - by left.
Defined.

(** ** One reply to each request *)

(** What a procedure may do to its response: set its error formatter,
    write a header or data. *)
Inductive action :=
  | SetFormat (f : app_error -> RPCError)
  | Header (code : Z)
  | Data (d : bytes).

(** The actions run, ignoring their errors as a procedure may; a failed one
    writes nothing. *)
Definition act (a : action) (w : Conn.response) : Conn.response :=
  match a with
  | SetFormat f => Conn.MkResponse (Conn.xid w) (Conn.writer w) (Conn.responded w) (Conn.w_err w) f
  | Header code => (Conn.writeHeader code w).2
  | Data d => (Conn.Write d w).2
  end.
Definition procedure (l : list action) (e : option app_error) : Conn.HandleFunc := fun w =>
  (e, fold_left (fun w a => act a w) l w).

(** The header of a reply (RFC 5531): the transaction number, REPLY, and
    either MSG_ACCEPTED, a null verifier and the code, or MSG_DENIED and
    the code. *)
Definition denied (code : Z) : bool := (code =? ResponseCodeAuthError) || (code =? ResponseCodeRPCMismatch).
Definition header (xid code : Z) : bytes :=
  mjoin (be_bytes 4 <$> ([xid; 1] ++ (if denied code then [1] else [0; 0; 0]) ++ [code])).

(** What a run of actions leaves: nothing, or the header of the first one
    that writes with the data of all. *)
Fixpoint written (l : list action) : option (Z * bytes) :=
  match l with
  | [] => None
  | SetFormat _ :: l' => written l'
  | Header code :: l' => Some (code, mjoin (omap (fun a => match a with Data d => Some d | _ => None end) l'))
  | Data d :: l' => Some (ResponseCodeSuccess, d ++ mjoin (omap (fun a => match a with Data d => Some d | _ => None end) l'))
  end.
Definition last_format (l : list action) : app_error -> RPCError :=
  default basicErrorFormatter (last (omap (fun a => match a with SetFormat f => Some f | _ => None end) l)).

Lemma writeHeader_fresh code w :
  Conn.responded w = false ->
  Conn.writeHeader code w = (None, Conn.MkResponse (Conn.xid w) (Conn.writer w ++ header (Conn.xid w) code) true (Conn.w_err w) (Conn.errorFmt w)).
Proof.
  intros Hr. unfold Conn.writeHeader. rewrite Hr. unfold header. fold (denied code).
  destruct (denied code); unfold Conn.writeXdrHeader, Conn.emit; cbn; by rewrite <- !app_assoc.
Qed.

Definition data_of (l : list action) : bytes := mjoin (omap (fun a => match a with Data d => Some d | _ => None end) l).

Lemma Write_started d w :
  Conn.responded w = true -> Conn.Write d w = (None, Conn.emit d w).
Proof. intros Hr. unfold Conn.Write. by rewrite Hr. Qed.

Lemma Write_fresh d w :
  Conn.responded w = false ->
  Conn.Write d w = (None, Conn.MkResponse (Conn.xid w) (Conn.writer w ++ header (Conn.xid w) ResponseCodeSuccess ++ d)
    true (Conn.w_err w) (Conn.errorFmt w)).
Proof.
  intros Hr. unfold Conn.Write. rewrite Hr, writeHeader_fresh by done. unfold Conn.emit.
  cbn [Conn.xid Conn.writer Conn.responded Conn.w_err Conn.errorFmt]. by rewrite <- app_assoc.
Qed.

Lemma actions_started l w :
  Conn.responded w = true ->
  let w' := fold_left (fun w a => act a w) l w in
  Conn.responded w' = true /\ Conn.writer w' = Conn.writer w ++ data_of l /\ Conn.xid w' = Conn.xid w.
Proof.
  revert w. induction l as [|a l IH]; intros w Hr; [by rewrite app_nil_r|]. cbn [fold_left].
  destruct a as [f|code|d]; cbn [act].
  - apply (IH (Conn.MkResponse (Conn.xid w) (Conn.writer w) (Conn.responded w) (Conn.w_err w) f) Hr).
  - unfold Conn.writeHeader. rewrite Hr. by apply IH.
  - rewrite Write_started by done. cbn [snd]. destruct (IH (Conn.emit d w) Hr) as (? & Hw & ?). split_and!; [done| |done].
    rewrite Hw. cbn [Conn.emit Conn.writer]. by rewrite <- app_assoc.
Qed.

Lemma actions_fresh l w :
  Conn.responded w = false ->
  let w' := fold_left (fun w a => act a w) l w in
  Conn.xid w' = Conn.xid w /\
  match written l with
  | Some (code, body) => Conn.responded w' = true /\ Conn.writer w' = Conn.writer w ++ header (Conn.xid w) code ++ body
  | None => Conn.responded w' = false /\ Conn.writer w' = Conn.writer w /\ Conn.w_err w' = Conn.w_err w /\
      Conn.errorFmt w' = default (Conn.errorFmt w) (last (omap (fun a => match a with SetFormat f => Some f | _ => None end) l))
  end.
Proof.
  revert w. induction l as [|a l IH]; intros w Hr; [done|]. cbn [fold_left written].
  destruct a as [f|code|d]; cbn [act].
  - destruct (IH (Conn.MkResponse (Conn.xid w) (Conn.writer w) (Conn.responded w) (Conn.w_err w) f) Hr) as [Hx Hw].
    split; [exact Hx|]. destruct (written l) as [[code body]|]; [exact Hw|]. destruct Hw as (? & ? & ? & Hf). split_and!; [done..|].
    rewrite Hf. cbn [omap list_omap Conn.errorFmt]. rewrite last_cons. by destruct (last _).
  - rewrite writeHeader_fresh by done. cbn [snd]. edestruct (actions_started l) as (H1 & H2 & H3); [|by split_and!; [exact H3|exact H1|rewrite H2; cbn [Conn.writer]; rewrite <- app_assoc]]. done.
  - rewrite Write_fresh by done. cbn [snd]. edestruct (actions_started l) as (H1 & H2 & H3); [|by split_and!; [exact H3|exact H1|rewrite H2; cbn [Conn.writer]; rewrite <- !app_assoc]]. done.
Qed.

Lemma err_fresh e w :
  Conn.responded w = false ->
  let r := Conn.errorFmt w e in
  exists w', Conn.err e w = (None, w') /\ Conn.responded w' = true /\
    Conn.writer w' = Conn.writer w ++ header (Conn.xid w) (Code r) ++ MarshalBinary r.
Proof.
  intros Hr. unfold Conn.err. cbv zeta. cbn [Conn.responded]. rewrite Hr.
  rewrite writeHeader_fresh by done. cbn [Conn.xid Conn.writer Conn.w_err Conn.errorFmt].
  rewrite Write_started by done. eexists. split_and!; [done..|]. cbn [Conn.emit Conn.writer]. by rewrite <- app_assoc.
Qed.

Lemma handle_once xid l e :
  exists w, Conn.handle (Some (procedure l e)) (Conn.newResponse xid) = (None, w) /\ Conn.responded w = true /\
    Conn.writer w = (match written l with
                     | Some (code, body) => header xid code ++ body
                     | None =>
                         let r := last_format l (default SystemError e) in header xid (Code r) ++ MarshalBinary r
                     end) /\
  exists w', Conn.handle None (Conn.newResponse xid) = (None, w') /\
    Conn.writer w' = mjoin (be_bytes 4 <$> [xid; 1; 0; 0; 0; 2]).
Proof.
  assert (exists w', Conn.handle None (Conn.newResponse xid) = (None, w') /\
    Conn.writer w' = mjoin (be_bytes 4 <$> [xid; 1; 0; 0; 0; 2])) as Hnone.
  { destruct (err_fresh ProcUnavailableError (Conn.newResponse xid) eq_refl) as (w' & Hw & _ & Hb).
    exists w'. split; [exact Hw|]. rewrite Hb. cbn [Conn.newResponse Conn.writer Conn.errorFmt]. by rewrite app_nil_r. }
  unfold Conn.handle at 1, procedure. destruct (actions_fresh l (Conn.newResponse xid) eq_refl) as [Hx Hw].
  set (w := fold_left _ l _) in *. cbn [Conn.newResponse Conn.xid Conn.writer Conn.errorFmt] in Hx, Hw.
  destruct (written l) as [[code body]|].
  - destruct Hw as [Hr Hb]. exists w. split_and!; [by destruct e; rewrite ?Hr|done..].
  - destruct Hw as (Hr & Hb & _ & Hf). rewrite Hr. assert (Conn.errorFmt w = last_format l) as Hfmt by exact Hf.
    destruct (err_fresh (default SystemError e) w Hr) as (w' & He & Hr' & Hb'). exists w'.
    rewrite Hb, Hx, Hfmt in Hb'. split_and!; [|done..].
    destruct e as [e|]; cbn [from_option id] in He; rewrite ?Hr, He; [by rewrite Hr'|done].
Qed.

(** Every request gets exactly one reply.  Whatever a procedure writes
    and whichever error it returns, what is sent is one header with the
    request's transaction number and then data: the data it wrote, and if it
    wrote nothing, its error in the form of its error formatter, or a system
    error.  A request for an unknown procedure is answered with the code 2,
    which RFC 5531 assigns to PROG_MISMATCH and not to PROC_UNAVAIL. *)
Theorem handle_replies_once xid l e :
  exists w, Conn.handle (Some (procedure l e)) (Conn.newResponse xid) = (None, w) /\ Conn.responded w = true /\
    Conn.writer w = (match written l with
                     | Some (code, body) => header xid code ++ body
                     | None =>
                         let r := last_format l (default SystemError e) in header xid (Code r) ++ MarshalBinary r
                     end) /\
  exists w', Conn.handle None (Conn.newResponse xid) = (None, w') /\
    Conn.writer w' = mjoin (be_bytes 4 <$> [xid; 1; 0; 0; 0; 2]).
Proof. apply handle_once. Qed.
