(* ===== verification/WebDav.v ===== *)
(** * webdav.go: the WebDAV server's file system

    [Webdav.Stat] and [Webdav.OpenFile] answer the handler of
    golang.org/x/net/webdav, a library; the files that [OpenFile] returns
    have the methods of a [webdav.File].  The WinFSP server ([WinFsp])
    returns the same directories.  A method that may panic is a function to
    [option]. *)

From S2P Require Import Prelude GoStrings Lru Store StoreTree Paths NfsAttr NfsCache FS.

Local Open Scope gomodfs_scope.

(** ** The readers of a file in memory (io, bytes) *)

Module SectionReader.

(** [io.NewSectionReader(bytes.NewReader(contents), 0, len(contents))]: the
    base is 0 and the limit the length. *)
Record reader := MkReader { contents : bytes; off : Z }.

Definition limit (r : reader) : Z := Z.of_nat (length (contents r)).

Definition NewReader (contents : bytes) : reader := MkReader contents 0.

(** [Read] into a buffer of [n] bytes. *)
Definition Read (n : nat) (r : reader) : bytes * option error * reader :=
  if (limit r <=? off r)%Z then ([], Some EOF, r) else
  let p := take n (drop (Z.to_nat (off r)) (contents r)) in
  (p, None, MkReader (contents r) (off r + Z.of_nat (length p))).

(** [Seek]: from the start, the current offset, or the end. *)
Definition Seek (offset whence : Z) (r : reader) : res Z * reader :=
  let to (o : Z) :=
    if (o <? 0)%Z then (Err (errText "Seek: invalid offset"), r) else (Ok o, MkReader (contents r) o) in
  if (whence =? 0)%Z then to offset
  else if (whence =? 1)%Z then to (i64 (offset + off r))
  else if (whence =? 2)%Z then to (i64 (offset + limit r))
  else (Err (errText "Seek: invalid whence"), r).

(** A reader that reads [n] bytes at a time until [io.EOF], as [io.Copy]
    does; [None] when the fuel runs out. *)
Fixpoint ReadAll (fuel n : nat) (r : reader) : option bytes :=
  match fuel with
  | O => None
  | S fuel' =>
      match Read n r with
      | (_, Some _, _) => Some []
      | (p, None, r') => q ← ReadAll fuel' n r'; Some (p ++ q)
      end
  end.

Lemma ReadAll_from fuel n r :
  (0 < n)%nat -> (0 <= off r)%Z -> (length (contents r) - Z.to_nat (off r) < fuel)%nat ->
  ReadAll fuel n r = Some (drop (Z.to_nat (off r)) (contents r)).
Proof.
  intros Hn. revert r. induction fuel as [|fuel IH]; intros [c o]; cbn [contents off]; intros Ho Hf;
    cbn [ReadAll]; unfold Read, limit; cbn [contents off].
  - lia.
  - destruct (Z.leb_spec (Z.of_nat (length c)) o) as [Hl|Hl]; [by rewrite drop_ge by lia|].
    rewrite length_take, length_drop. rewrite IH; cbn [contents off]; [|lia..].
    cbn [mbind option_bind]. f_equal.
    rewrite <-(take_drop n (drop (Z.to_nat o) c)) at 2. f_equal. rewrite drop_drop.
    destruct (decide (n <= length c - Z.to_nat o)%nat).
    + f_equal. lia.
    + rewrite !drop_ge; [done|lia..].
Qed.
End SectionReader.

(** ** Open files *)

Module Webdav.
Import SectionReader.

(** [wdRegularFile]. *)
Record wdRegularFile := MkRegular { ReadSeeker : reader; size : Z; path : bytes }.

(** [wdDir]. *)
Record wdDir := MkDir { pathInZip : bytes; baseName : bytes; ents : list Dirent }.

(** A [webdav.File]; [emptyDir] embeds a nil [webdav.File], whose methods
    panic. *)
Inductive File : Type :=
  | FRegular (f : wdRegularFile)
  | FDir (d : wdDir)
  | FEmptyDir (base : bytes).

Definition newWDFileFromContents (name contents : bytes) : wdRegularFile :=
  MkRegular (NewReader contents) (Z.of_nat (length contents)) name.

(** [dirFileInfo.Name]. *)
Definition dirFileInfo_Name (baseName : bytes) : option bytes :=
  if decide (baseName = []) then None else Some baseName.

Definition dirent_fileInfo (now : Z) (ent : Dirent) : FileInfo :=
  if mode_IsDir (d_Mode ent) then dir_info (d_Name ent)
  else reg_info now (MkReg (d_Name ent) (d_Size ent) (mode_Perm (d_Mode ent)) None false).

Definition regular_Stat (now : Z) (f : wdRegularFile) : FileInfo :=
  reg_info now (MkReg (path f) (size f) 0 None false).

Definition dir_Readdir (now count : Z) (d : wdDir) : option (res (list FileInfo)) :=
  if (0 <? count)%Z then None else Some (Ok (dirent_fileInfo now <$> ents d)).

(** The methods of a [webdav.File], case by case. *)
Definition file_Stat (now : Z) (f : File) : res FileInfo :=
  match f with
  | FRegular f => Ok (regular_Stat now f)
  | FDir d => Ok (dir_info (baseName d))
  | FEmptyDir b => Ok (dir_info b)
  end.

Definition file_Readdir (now count : Z) (f : File) : option (res (list FileInfo)) :=
  match f with
  | FRegular _ => Some (Err ErrInvalid)
  | FDir d => dir_Readdir now count d
  | FEmptyDir _ => Some (Ok [])
  end.

Definition file_Read (n : nat) (f : File) : option (bytes * option error * File) :=
  match f with
  | FRegular f =>
      let '(p, e, r) := Read n (ReadSeeker f) in Some (p, e, FRegular (MkRegular r (size f) (path f)))
  | FDir _ => Some ([], Some ErrInvalid, f)
  | FEmptyDir _ => None
  end.

Definition file_Seek (offset whence : Z) (f : File) : option (res Z * File) :=
  match f with
  | FRegular f =>
      let '(o, r) := Seek offset whence (ReadSeeker f) in
      Some (o, FRegular (MkRegular r (size f) (path f)))
  | FDir _ => Some (Err ErrInvalid, f)
  | FEmptyDir _ => None
  end.

Definition file_Write (p : bytes) (f : File) : option (res Z) :=
  match f with
  | FRegular _ | FDir _ => Some (Err ErrInvalid)
  | FEmptyDir _ => None
  end.

Definition file_Close (f : File) : option error := None.

(** [webdav.ErrNotImplemented]. *)
Definition file_Patch {A} (patches : list A) : res (list A) := Err (errText "not implemented").

Definition quote : bytes := [byte_of 34].

(** [staticDeadProps]: one property, the creation date. *)
Definition staticDeadProps : list ((bytes * bytes) * bytes) :=
  [((str "DAV:", str "creationdate"),
    str "<D:creationdate xmlns:D=" ++ quote ++ str "DAV:" ++ quote ++ str ">" ++
    str "2009-11-12T13:14:15Z" ++ str "</D:creationdate>")].

Definition file_DeadProps (f : File) : res (list ((bytes * bytes) * bytes)) := Ok staticDeadProps.

(** [dummyFSPGoFileDir]: the further methods that a directory has as a file
    of WinFSP. *)
Definition dummy_ReadAt (n : nat) (off : Z) : res bytes := Err ErrInvalid.
Definition dummy_Sync : option error := None.
Definition dummy_Truncate (size : Z) : res unit := Err ErrPermission.
Definition dummy_WriteAt (p : bytes) (off : Z) : res Z := Err ErrInvalid.

(** ** The file system *)

(** The flags of package os, on Linux. *)
Definition O_RDONLY : Z := 0.
Definition O_WRONLY : Z := 1.
Definition O_RDWR : Z := 2.
Definition O_APPEND : Z := 1024.
Definition O_CREATE : Z := 64.
Definition O_TRUNC : Z := 512.

Definition writeFlags : Z :=
  Z.lor (Z.lor (Z.lor (Z.lor O_WRONLY O_RDWR) O_APPEND) O_CREATE) O_TRUNC.

Definition Mkdir (name : bytes) (perm : Z) : res unit := Err ErrPermission.
Definition RemoveAll (name : bytes) : res unit := Err ErrPermission.
Definition Rename (oldName newName : bytes) : res unit := Err ErrPermission.

Section webdav.
Context `{E : ModEscape} {S H W : Type} `{St : !Store S H} `{Wd : !World W} (cfg : config).

Abbreviation M A := (pst (FS S H W) (res A)).

(** The time, and the JSON that [StatusJSON] renders. *)
Context (now : Z) (json : bytes).

Definition Stat (name : bytes) : M FileInfo :=
  let base := path_Base name in
  let dp := parsed name in
  if NotExist dp then pst_err ErrNotExist
  else if decide (WellKnown dp <> []) then
    if decide (WellKnown dp = wkTSGoExtracted) then
      let trip := default (MkTriple [] [] []) (isTSGoModule (ModVersion dp)) in
      pst_ok (reg_info now (MkReg name (Z.of_nat (length (tsgoExtractedFileContents (t_Hash trip)))) 0 None false))
    else pst_ok (reg_info now (MkReg name 123 0 None false))
  else if decide (CacheDownloadFileExt dp <> []) then
    r <-? catch (getMetaFileByExt cfg (ModVersion dp) (CacheDownloadFileExt dp)) ;;
    match r with
    | Err _ => pst_err EIO
    | Ok v => pst_ok (reg_info now (MkReg name (Z.of_nat (length v)) 0 None false))
    end
  else if negb (InZip dp) then pst_ok (dir_info base)
  else
  mh <-? getZipRoot cfg (ModVersion dp) ;;
  r <-? catch (call_store (Store.Stat mh (Path dp))) ;;
  match r with
  | Err e => if errors_Is e is_ErrNotExist then pst_err ErrNotExist else pst_err e
  | Ok fi => pst_ok fi
  end.

Definition OpenFile (name : bytes) (flag : Z) : M File :=
  let base := path_Base name in
  if negb (Z.land flag writeFlags =? 0)%Z then pst_err ErrPermission else
  let dp := parsed name in
  if NotExist dp then pst_err ErrNotExist
  else if decide (WellKnown dp <> []) then
    if decide (WellKnown dp = statusFile) then pst_ok (FRegular (newWDFileFromContents base json))
    else if decide (WellKnown dp = wkTSGoExtracted) then
      let trip := default (MkTriple [] [] []) (isTSGoModule (ModVersion dp)) in
      pst_ok (FRegular (newWDFileFromContents base (tsgoExtractedFileContents (t_Hash trip))))
    else pst_err ErrNotExist
  else if decide (CacheDownloadFileExt dp <> []) then
    r <-? catch (getMetaFileByExt cfg (ModVersion dp) (CacheDownloadFileExt dp)) ;;
    match r with
    | Err _ => pst_err EIO
    | Ok v => pst_ok (FRegular (newWDFileFromContents name v))
    end
  else if negb (InZip dp) then pst_ok (FEmptyDir base)
  else
  mh <-? getZipRoot cfg (ModVersion dp) ;;
  r <-? catch (call_store (GetFile mh (Path dp))) ;;
  match r with
  | Err e =>
      if errors_Is e is_ErrIsDir then
        ents <-? call_store (Readdir mh (Path dp)) ;;
        pst_ok (FDir (MkDir (Path dp) base ents))
      else pst_err e
  | Ok contents => pst_ok (FRegular (newWDFileFromContents name contents))
  end.
End webdav.

(** ** The HTTP handler *)

(** The parts of a request that [newWebDAVHandler] looks at. *)
Record request := MkRequest { Method : bytes; IfModifiedSince : bytes; IfNoneMatch : bytes }.

(** Either it answers 304 itself, or the library's handler [wh] serves the
    request, with the [Expires] header set or not. *)
Inductive answer : Type :=
  | NotModified
  | Served (expires : option bytes).

(** [expires] is the text of the time three months from now. *)
Definition ServeHTTP (expires : bytes) (r : request) : answer :=
  if decide (Method r = str "GET" \/ Method r = str "HEAD") then
    if decide (IfModifiedSince r <> [] \/ IfNoneMatch r <> []) then NotModified
    else Served (Some expires)
  else Served None.
End Webdav.
