(* ===== verification/WinFsp.v ===== *)
(** * winfsp.go: the WinFSP server's file system

    [Fsp.Stat] and [Fsp.OpenFile] answer the library winfsp/gofs, which
    passes Windows paths; the directories are those of [WebDav].  A regular
    file gets its contents at its first [ReadAt], through the cache of
    [FS.getFileContents]. *)

From S2P Require Import Prelude GoStrings Lru Store StoreTree Paths NfsAttr NfsCache FS WebDav.

Local Open Scope gomodfs_scope.

Module Fsp.
Import Webdav.

(** [filepath.ToSlash] on Windows. *)
Definition ToSlash (name : bytes) : bytes :=
  (fun c => if decide (c = "\"%char) then slash else c) <$> name.

Definition unixifyPath (name : bytes) : bytes := TrimPrefix (ToSlash name) (str "/").

(** The option bit that [fspBaseBehaviorWrapper.Open] clears before it calls
    the library's [Open], which is [open_]. *)
Definition FILE_OPEN_NO_RECALL : Z := 4194304.
Definition Open {A} (open_ : bytes -> Z -> Z -> A) (name : bytes) (createOptions grantedAccess : Z) : A :=
  open_ name (Z.ldiff createOptions FILE_OPEN_NO_RECALL) grantedAccess.

Definition helloMsg : bytes := str "Hello from gomodfs on WinFSP!" ++ [nl].
Definition helloName : bytes := str "gomodfs hello.txt".

Definition Mkdir (name : bytes) (perm : Z) : res unit := Err ErrPermission.
Definition Remove (name : bytes) : res unit := Err ErrPermission.
Definition Rename (source target : bytes) : res unit := Err ErrPermission.

(** [dirWithEnts]: it embeds a nil file, and its other methods panic. *)
Record dirWithEnts := MkDirWithEnts { dw_fi : FileInfo; dw_ents : list FileInfo }.

Section fsp.
Context `{E : ModEscape} {S H W : Type} `{St : !Store S H} `{Wd : !World W} (cfg : config).

Abbreviation M A := (pst (FS S H W) (res A)).

(** The time, and the JSON that [StatusJSON] renders. *)
Context (now : Z) (json : bytes).

Definition helloStat : FileInfo := reg_info now (MkReg helloName (Z.of_nat (length helloMsg)) 0 None false).
Definition statusStat : FileInfo := reg_info now (MkReg statusFile (Z.shiftl 4 10) 0 None false).
Definition rootStat : FileInfo := dir_info (str "\").
Definition rootDir : dirWithEnts := MkDirWithEnts rootStat [helloStat; statusStat].

(** ** Regular files *)

(** [winFSPRegularFile]; the function [getContents] is given by the
    arguments that it passes to [getFileContents]. *)
Record winFSPRegularFile := MkFspRegular {
  fi : FileInfo;
  getContents : option (ModuleVersion * H * bytes);
  contents : bytes;
  haveData : bool }.

Definition newFWPFileFromContents (baseName contents : bytes) : winFSPRegularFile :=
  MkFspRegular (reg_info now (MkReg baseName (Z.of_nat (length contents)) 0 None false)) None contents false.

(** [data]: the contents, and the file with what it remembers. *)
Definition data (f : winFSPRegularFile) : M (bytes * winFSPRegularFile) :=
  match getContents f with
  | None => pst_ok (contents f, f)
  | Some (mv, mh, path) =>
      if haveData f then pst_ok (contents f, f) else
      c <-? getFileContents cfg mv mh path ;;
      pst_ok (c, MkFspRegular (fi f) (getContents f) c true)
  end.

(** [ReadAt] into a buffer of [n] bytes; a negative offset panics. *)
Definition ReadAt (n : nat) (off : Z) (f : winFSPRegularFile)
    : pst (FS S H W) (bytes * option error * winFSPRegularFile) :=
  r <-! data f ;;
  match r with
  | Err e => pst_ret ([], Some e, f)
  | Ok (contents, f') =>
      if (off <? 0)%Z then pst_panic else
      let p := take n (drop (Z.to_nat (Z.min off (Z.of_nat (length contents)))) contents) in
      if decide (length p = 0%nat /\ (0 < n)%nat) then pst_ret ([], Some EOF, f')
      else pst_ret (p, None, f')
  end.

(** ** The file system *)

(** A [gofs.File]. *)
Inductive File : Type :=
  | FspRegular (f : winFSPRegularFile)
  | FspDir (d : wdDir)
  | FspEmptyDir (base : bytes)
  | FspRoot (d : dirWithEnts).

Definition fsp_Stat (f : File) : res FileInfo :=
  match f with
  | FspRegular f => Ok (fi f)
  | FspDir d => Ok (dir_info (baseName d))
  | FspEmptyDir b => Ok (dir_info b)
  | FspRoot d => Ok (dw_fi d)
  end.

Definition fsp_Readdir (count : Z) (f : File) : option (res (list FileInfo)) :=
  match f with
  | FspRegular _ => Some (Err ErrInvalid)
  | FspDir d => dir_Readdir now count d
  | FspEmptyDir _ => Some (Ok [])
  | FspRoot d => Some (Ok (dw_ents d))
  end.

(** [Truncate], [Write], [WriteAt], and the two methods that are not used:
    [None] is a panic. *)
Definition fsp_Truncate (size : Z) (f : File) : option (res unit) :=
  match f with
  | FspRegular _ => Some (Err ErrPermission)
  | FspDir _ | FspEmptyDir _ => Some (dummy_Truncate size)
  | FspRoot _ => None
  end.
Definition fsp_Write (p : bytes) (f : File) : option (res Z) :=
  match f with
  | FspRegular _ => Some (Err ErrPermission)
  | FspDir _ => Some (Err ErrInvalid)
  | FspEmptyDir _ | FspRoot _ => None
  end.
Definition fsp_WriteAt (p : bytes) (off : Z) (f : File) : option (res Z) :=
  match f with
  | FspRegular _ => Some (Err ErrPermission)
  | FspDir _ | FspEmptyDir _ => Some (dummy_WriteAt p off)
  | FspRoot _ => None
  end.
Definition regular_Read (n : nat) (f : winFSPRegularFile) : option (res Z) := None.
Definition regular_Seek (offset whence : Z) (f : winFSPRegularFile) : option (res Z) := None.

Definition Stat (name : bytes) : M FileInfo :=
  let name := unixifyPath name in
  if decide (name = []) then pst_ok rootStat
  else if decide (name = helloName) then pst_ok helloStat else
  let base := path_Base name in
  let dp := parsed name in
  if NotExist dp then pst_err ErrNotExist
  else if decide (WellKnown dp <> []) then
    if decide (WellKnown dp = statusFile) then pst_ok statusStat else
    let trip := default (MkTriple [] [] []) (isTSGoModule (ModVersion dp)) in
    pst_ok (reg_info now (MkReg name (Z.of_nat (length (tsgoExtractedFileContents (t_Hash trip)))) 0 None false))
  else if decide (CacheDownloadFileExt dp <> []) then
    r <-? catch (getMetaFileByExt cfg (ModVersion dp) (CacheDownloadFileExt dp)) ;;
    match r with
    | Err _ => pst_err EIO
    | Ok v => pst_ok (reg_info now (MkReg name (Z.of_nat (length v)) 0 None false))
    end
  else if negb (InZip dp) then pst_ok (dir_info base)
  else
  mh <-? getZipRoot cfg (ModVersion dp) ;;
  r <-? catch (call_store (Store.Stat mh (Path dp))) ;;
  match r with
  | Err e => if errors_Is e is_ErrNotExist then pst_err ErrNotExist else pst_err e
  | Ok fi => pst_ok fi
  end.

Definition OpenFile (name : bytes) (flag : Z) : M File :=
  if negb (Z.land flag O_WRONLY =? 0)%Z || negb (Z.land flag O_RDWR =? 0)%Z then pst_err ErrPermission else
  let name := unixifyPath name in
  if decide (name = []) then pst_ok (FspRoot rootDir)
  else if decide (name = helloName) then pst_ok (FspRegular (newFWPFileFromContents name helloMsg)) else
  let base := path_Base name in
  if negb (Z.land flag writeFlags =? 0)%Z then pst_err ErrPermission else
  let dp := parsed name in
  if NotExist dp then pst_err ErrNotExist
  else if decide (WellKnown dp <> []) then
    if decide (WellKnown dp = statusFile) then pst_ok (FspRegular (newFWPFileFromContents base json))
    else if decide (WellKnown dp = wkTSGoExtracted) then
      let trip := default (MkTriple [] [] []) (isTSGoModule (ModVersion dp)) in
      pst_ok (FspRegular (newFWPFileFromContents base (tsgoExtractedFileContents (t_Hash trip))))
    else pst_err ErrNotExist
  else if decide (CacheDownloadFileExt dp <> []) then
    r <-? catch (getMetaFileByExt cfg (ModVersion dp) (CacheDownloadFileExt dp)) ;;
    match r with
    | Err _ => pst_err EIO
    | Ok v => pst_ok (FspRegular (newFWPFileFromContents name v))
    end
  else if negb (InZip dp) then pst_ok (FspEmptyDir base)
  else
  mh <-? getZipRoot cfg (ModVersion dp) ;;
  fi <-? call_store (Store.Stat mh (Path dp)) ;;
  if fi_IsDir fi then
    ents <-? call_store (Readdir mh (Path dp)) ;;
    pst_ok (FspDir (MkDir (Path dp) base ents))
  else
  pst_ok (FspRegular (MkFspRegular (reg_info now (MkReg name (fi_Size fi) 0 None false))
    (Some (ModVersion dp, mh, Path dp)) [] false)).
End fsp.
End Fsp.
