(* ===== verification/Fuse.v ===== *)
(** * fuse.go: the FUSE server's nodes

    The kernel looks a path up one element at a time; each node knows the
    path so far, and the library go-fuse keeps the nodes.  [Fuse.Lookup] is
    the method [Lookup] of all node types: the new node, with the mode of
    its [StableAttr], or an errno.  A node's cached contents and entries are
    part of its value, so that its methods return the node as they leave
    it. *)

From S2P Require Import Prelude GoStrings Lru Store StoreTree Paths NfsAttr NfsCache FS.

Local Open Scope gomodfs_scope.

Module Fuse.

(** ** Modes, flags, error numbers *)

Definition S_IFDIR : Z := 16384.
Definition S_IFREG : Z := 32768.
Definition S_IFLNK : Z := 40960.
(** 0755, 0644 and 0777. *)
Definition m755 : Z := 493.
Definition m644 : Z := 420.
Definition m777 : Z := 511.

Definition FOPEN_DIRECT_IO : Z := 1.
Definition FOPEN_KEEP_CACHE : Z := 2.

Definition ENOENT : Z := 2.
Definition EIO_ : Z := 5.
Definition ENOTDIR : Z := 20.
Definition EISDIR : Z := 21.
Definition EINVAL : Z := 22.

(** [fuseMode]: 73 is 0o111. *)
Definition fuseMode (m : Z) : Z :=
  if mode_IsDir m then Z.lor S_IFDIR m755
  else if negb (Z.land m 73 =? 0)%Z then Z.lor S_IFREG m755
  else Z.lor S_IFREG m644.

(** A result, or an error number. *)
Inductive eres (A : Type) : Type :=
  | Done (a : A)
  | Errno (n : Z).
#[global] Arguments Done {A} a.
#[global] Arguments Errno {A} n.

(** The fields of [fuse.EntryOut] and [fuse.AttrOut] that are set. *)
Record EntryOut := MkEntryOut { eo_AttrValid : Z; eo_EntryValid : Z; eo_Size : Z; eo_Mode : Z }.
Record AttrOut := MkAttrOut { ao_AttrValid : Z; ao_Size : Z; ao_Mode : Z }.

Definition setLongTTL (out : EntryOut) : EntryOut := MkEntryOut 86400 86400 (eo_Size out) (eo_Mode out).
Definition setSize (n : Z) (out : EntryOut) : EntryOut :=
  MkEntryOut (eo_AttrValid out) (eo_EntryValid out) n (eo_Mode out).
Definition setMode (m : Z) (out : EntryOut) : EntryOut :=
  MkEntryOut (eo_AttrValid out) (eo_EntryValid out) (eo_Size out) m.

(** [isReadonlyOpenFlags]; [linux] is [runtime.GOOS == "linux"]. *)
Definition isReadonlyOpenFlags (linux : bool) (flags : Z) : bool :=
  if (flags =? 0)%Z then true else linux && (flags =? 32768)%Z.

(** ** Names *)

Definition isLowerHex (c : ascii) : bool :=
  let z := byte_val c in ((97 <=? z) && (z <=? 102) || (48 <=? z) && (z <=? 57))%Z.

(** [tsgoRootLookupRx], [^([a-f0-9]{40})(\.extracted)?$]: the hash, and
    whether the second group matched. *)
Definition tsgoRootLookupRx (name : bytes) : option (bytes * bool) :=
  let hash := take 40 name in
  if decide (length hash = 40%nat) then
    if forallb isLowerHex hash then
      if decide (drop 40 name = []) then Some (hash, false)
      else if decide (drop 40 name = str ".extracted") then Some (hash, true)
      else None
    else None
  else None.

(** [infoTmpRx], [\.info\d+\.tmp$]: before [.tmp], one or more digits, and
    before these [.info]. *)
Definition infoTmpRx (name : bytes) : bool :=
  match CutSuffix name (str ".tmp") with
  | None => false
  | Some s =>
      let rest := drop_while is_digit (reverse s) in
      bool_decide (length rest < length s) && HasSuffix (reverse rest) (str ".info")
  end.

(** ** Nodes *)

Section nodes.
Context `{E : ModEscape} {S H W : Type} `{St : !Store S H} `{Wd : !World W} (cfg : config).

Abbreviation P A := (pst (FS S H W) A).

(** [pathUnderZipRoot]: [fileContent] is [Some] when [haveFileContent], and
    [ent] when the entries were read. *)
Record pathUnderZipRoot := MkZipNode {
  zn_mv : ModuleVersion;
  zn_root : H;
  zn_mode : Z;
  zn_size : Z;
  zn_path : bytes;
  zn_fileContent : option bytes;
  zn_ents : list Dirent;
  zn_ent : option (gmap bytes Dirent) }.

Inductive node : Type :=
  | moduleNameNode (paths : list bytes)
  | cacheRootNode
  | cacheDownloadNode (segs : list bytes) (module : bytes)
  | tsgoRoot (goos goarch : bytes)
  | zipNode (n : pathUnderZipRoot)
  | memFile (contents : bytes) (mode : Z)
  | statusFileNode.

(** The open handle of a file: [statusFH], or none. *)
Definition statusFH : Type := bytes.

Definition newZipRoot (mv : ModuleVersion) (root : H) : node :=
  zipNode (MkZipNode mv root ModeDir 0 [] None [] None).

(** What a [Lookup] gives: the new inode with its mode, or an errno; and the
    attributes that it sets. *)
Definition lookup_result : Type := eres (node * Z) * EntryOut.

Definition found (n : node) (mode : Z) (out : EntryOut) : P lookup_result := pst_ret (Done (n, mode), out).
Definition failed (errno : Z) (out : EntryOut) : P lookup_result := pst_ret (Errno errno, out).
Definition dirMode : Z := Z.lor S_IFDIR m755.
Definition fileMode : Z := Z.lor S_IFREG m644.

(** [moduleNameNode.Lookup] for a name with an [@]. *)
Definition lookupModule (paths : list bytes) (name : bytes) (out : EntryOut) : P lookup_result :=
  let '(finalFrag, escVer) := default (name, []) (Cut name (str "@")) in
  let escName := if decide (paths = []) then finalFrag else join_byte slash paths ++ str "/" ++ finalFrag in
  match UnescapePath escName with
  | Err _ => failed EIO_ out
  | Ok modName =>
      match UnescapeVersion escVer with
      | Err _ => failed EIO_ out
      | Ok ver =>
          let mv := MkMV modName ver in
          r <-! getZipRoot cfg mv ;;
          match r with
          | Err _ => failed EIO_ out
          | Ok root => found (newZipRoot mv root) dirMode out
          end
      end
  end.

Definition moduleNameNode_Lookup (paths : list bytes) (name : bytes) (out : EntryOut) : P lookup_result :=
  let out := setLongTTL out in
  let rest :=
    if Contains name (str "@") then lookupModule paths name out
    else found (moduleNameNode (paths ++ [name])) dirMode out in
  if decide (paths = []) then
    if decide (name = str "cache") then found cacheRootNode dirMode out
    else if decide (name = statusFile) then found statusFileNode fileMode out
    else match CutPrefix name (str "tsgo-") with
    | Some suf =>
        match Cut suf (str "-") with
        | None => failed ENOENT out
        | Some (goos, goarch) =>
            if negb (validTSGoOSARCH goos goarch) then failed ENOENT out
            else found (tsgoRoot goos goarch) dirMode out
        end
    | None => rest
    end
  else rest.

Definition cacheRootNode_Lookup (name : bytes) (out : EntryOut) : P lookup_result :=
  let out := setLongTTL out in
  if decide (name <> str "download") then failed ENOENT out
  else found (cacheDownloadNode [] []) dirMode out.

(** [filepath.Ext] of a name without slashes is [path.Ext]. *)
Definition lookupUnderModule (module name : bytes) (out : EntryOut) : P lookup_result :=
  if HasSuffix name (str ".partial") then failed ENOENT out else
  let dotExt := path_Ext name in
  if decide (dotExt ∈ [str ".info"; str ".mod"; str ".ziphash"]) then
    let ext := drop 1 dotExt in
    let version := TrimSuffix name dotExt in
    r <-! getMetaFileByExt cfg (MkMV module version) ext ;;
    match r with
    | Err _ => failed EIO_ out
    | Ok v => found (memFile v m644) fileMode (setSize (Z.of_nat (length v)) out)
    end
  else if infoTmpRx name then failed ENOENT out
  else failed EIO_ out.

Definition cacheDownloadNode_Lookup (segs : list bytes) (module name : bytes) (out : EntryOut)
    : P lookup_result :=
  let out := setLongTTL out in
  if decide (module <> []) then lookupUnderModule module name out
  else if decide (name = str "@v") then
    match UnescapePath (join_byte slash segs) with
    | Err _ => failed EIO_ out
    | Ok unescaped => found (cacheDownloadNode [] unescaped) dirMode out
    end
  else found (cacheDownloadNode (segs ++ [name]) []) dirMode out.

Definition tsgoRoot_Lookup (goos goarch name : bytes) (out : EntryOut) : P lookup_result :=
  match tsgoRootLookupRx name with
  | None => failed ENOENT out
  | Some (hash, wantExtractedFile) =>
      r <-! getTailscaleGoRoot goos goarch hash ;;
      match r with
      | Err _ => failed EIO_ out
      | Ok root =>
          let out := setLongTTL out in
          if wantExtractedFile : bool then found (memFile (tsgoExtractedFileContents hash) m644) fileMode out
          else
            let mv := MkMV tsGoModule (str "tsgo-" ++ goos ++ str "-" ++ goarch ++ str "-" ++ hash) in
            found (newZipRoot mv root) dirMode out
      end
  end.

(** The loop over [ents]: a later entry replaces an earlier one of its name. *)
Fixpoint entMap (ents : list Dirent) (m : gmap bytes Dirent) : gmap bytes Dirent :=
  match ents with
  | [] => m
  | e :: ents' => entMap ents' (<[d_Name e := e]> m)
  end.

Definition initDirEntsLocked (n : pathUnderZipRoot) : P (eres pathUnderZipRoot) :=
  match zn_ent n with
  | Some _ => pst_ret (Done n)
  | None =>
      r <-! call_store (Readdir (zn_root n) (zn_path n)) ;;
      match r with
      | Err _ => pst_ret (Errno EIO_)
      | Ok ents =>
          pst_ret (Done (MkZipNode (zn_mv n) (zn_root n) (zn_mode n) (zn_size n) (zn_path n)
            (zn_fileContent n) (zn_ents n ++ ents) (Some (entMap ents ∅))))
      end
  end.

Definition childPath (n : pathUnderZipRoot) (name : bytes) : bytes :=
  if decide (zn_path n <> []) then zn_path n ++ str "/" ++ name else name.

Definition childNode (n : pathUnderZipRoot) (name : bytes) (ent : Dirent) : pathUnderZipRoot :=
  MkZipNode (zn_mv n) (zn_root n) (d_Mode ent) (d_Size ent) (childPath n name) None [] None.

(** The result, and the node as it is left. *)
Definition zipNode_Lookup (n : pathUnderZipRoot) (name : bytes) (out : EntryOut)
    : P (lookup_result * pathUnderZipRoot) :=
  if negb (mode_IsDir (zn_mode n)) then pst_ret (Errno ENOTDIR, out, n) else
  r <-! initDirEntsLocked n ;;
  match r with
  | Errno e => pst_ret (Errno e, out, n)
  | Done n =>
      let out := setLongTTL out in
      match default ∅ (zn_ent n) !! name with
      | None => pst_ret (Errno ENOENT, out, n)
      | Some ent =>
          let out := setMode (fuseMode (d_Mode ent)) (setSize (u64 (d_Size ent)) out) in
          pst_ret (Done (zipNode (childNode n name ent), fuseMode (d_Mode ent)), out, n)
      end
  end.

(** [Lookup] of any node; a node without the method is not a directory, and
    go-fuse answers ENOENT for it. *)
Definition Lookup (n : node) (name : bytes) (out : EntryOut) : P (lookup_result * node) :=
  let same (r : P lookup_result) : P (lookup_result * node) := x <-! r ;; pst_ret (x, n) in
  match n with
  | moduleNameNode paths => same (moduleNameNode_Lookup paths name out)
  | cacheRootNode => same (cacheRootNode_Lookup name out)
  | cacheDownloadNode segs module => same (cacheDownloadNode_Lookup segs module name out)
  | tsgoRoot goos goarch => same (tsgoRoot_Lookup goos goarch name out)
  | zipNode z => x <-! zipNode_Lookup z name out ;; pst_ret (x.1, zipNode x.2)
  | memFile _ _ | statusFileNode => same (failed ENOENT out)
  end.

(** *** Listing a directory *)

(** [fuse.DirEntry]. *)
Record DirEntry := MkDirEntry { de_Name : bytes; de_Mode : Z; de_Off : Z }.

Definition dirEntry (i : nat) (ge : Dirent) : DirEntry :=
  MkDirEntry (d_Name ge) (fuseMode (d_Mode ge)) (u64 (Z.of_nat i)).

(** [dirStream]. *)
Definition dirStream : Type := list DirEntry.
Definition HasNext (s : dirStream) : bool := negb (bool_decide (length s = 0%nat)).
Definition Next (s : dirStream) : option (DirEntry * dirStream) :=
  match s with [] => None | ent :: s' => Some (ent, s') end.

Definition zipNode_Readdir (n : pathUnderZipRoot) : P (eres dirStream * pathUnderZipRoot) :=
  r <-! initDirEntsLocked n ;;
  match r with
  | Errno _ => pst_ret (Errno EIO_, n)
  | Done n => pst_ret (Done (imap dirEntry (zn_ents n)), n)
  end.

(** *** Reading a file *)

Definition zipNode_Getattr (n : pathUnderZipRoot) : AttrOut :=
  MkAttrOut (86400 * 90) (u64 (zn_size n)) (fuseMode (zn_mode n)).
Definition memFile_Getattr (contents : bytes) (mode : Z) : AttrOut :=
  MkAttrOut (86400 * 90) (Z.of_nat (length contents)) (Z.lor S_IFREG (Z.land mode m777)).
Definition statusFileNode_Getattr (h : option statusFH) : AttrOut :=
  MkAttrOut 1 (match h with Some json => Z.of_nat (length json) | None => 123 end) (Z.lor S_IFREG m644).

(** [symLink]; no node makes one. *)
Definition symLink_Getattr (mode : Z) : AttrOut :=
  MkAttrOut (86400 * 90) 0 (Z.lor S_IFLNK (Z.land mode m777)).
Definition symLink_Readlink (contents : bytes) : eres bytes := Done contents.

(** [Open]: the handle and the flags of the open file. *)
Definition zipNode_Open (linux : bool) (n : pathUnderZipRoot) (flags : Z) : eres (option statusFH * Z) :=
  if mode_IsDir (zn_mode n) then Errno EISDIR
  else if negb (isReadonlyOpenFlags linux flags) then Errno EINVAL
  else Done (None, FOPEN_KEEP_CACHE).
Definition memFile_Open (linux : bool) (flags : Z) : eres (option statusFH * Z) :=
  if negb (isReadonlyOpenFlags linux flags) then Errno EINVAL else Done (None, FOPEN_KEEP_CACHE).
Definition statusFileNode_Open (json : bytes) (flags : Z) : eres (option statusFH * Z) :=
  Done (Some json, FOPEN_DIRECT_IO).

(** [contents[off:end]] of a slice whose capacity is its length: a panic
    unless [0 <= off <= end]. *)
Definition slice (contents : bytes) (off end_ : Z) : option bytes :=
  if ((0 <=? off) && (off <=? end_) && (end_ <=? Z.of_nat (length contents)))%Z
  then Some (take (Z.to_nat (end_ - off)) (drop (Z.to_nat off) contents)) else None.

(** [end := int(off) + len(dest)], at most the length. *)
Definition readEnd (contents : bytes) (off : Z) (dest : nat) : Z :=
  let end_ := i64 (off + Z.of_nat dest) in
  if (Z.of_nat (length contents) <? end_)%Z then Z.of_nat (length contents) else end_.

(** [Read] into a buffer of [dest] bytes at [off]. *)
Definition memFile_Read (contents : bytes) (dest : nat) (off : Z) : option (eres bytes) :=
  Done <$> slice contents off (readEnd contents off dest).

Definition statusFileNode_Read (h : option statusFH) (dest : nat) (off : Z) : option (eres bytes) :=
  match h with
  | None => Some (Errno EIO_)
  | Some json => Done <$> slice json off (readEnd json off dest)
  end.

(** An [int] has 64 bits, so that no [off] is above [math.MaxInt]. *)
Definition zipNode_Read_at (contents : bytes) (dest : nat) (off : Z) : option (eres bytes) :=
  if (i64 (off + Z.of_nat dest) <? off)%Z then Some (Errno EINVAL)
  else Done <$> slice contents off (readEnd contents off dest).

Definition zipNode_Read (n : pathUnderZipRoot) (dest : nat) (off : Z) : P (eres bytes * pathUnderZipRoot) :=
  if mode_IsDir (zn_mode n) then pst_ret (Errno EISDIR, n) else
  r <-! (match zn_fileContent n with
         | Some c => pst_ret (Ok c)
         | None => call_store (GetFile (zn_root n) (zn_path n))
         end) ;;
  match r with
  | Err _ => pst_ret (Errno EIO_, n)
  | Ok contents =>
      let n := MkZipNode (zn_mv n) (zn_root n) (zn_mode n) (zn_size n) (zn_path n)
                 (Some contents) (zn_ents n) (zn_ent n) in
      match zipNode_Read_at contents dest off with
      | None => pst_panic
      | Some r => pst_ret (r, n)
      end
  end.

(** ** Paths *)

(** What the kernel does to find a path: one [Lookup] for each element, in
    fresh nodes. *)
Fixpoint walk (n : node) (names : list bytes) : P (eres node) :=
  match names with
  | [] => pst_ret (Done n)
  | name :: names' =>
      r <-! Lookup n name (MkEntryOut 0 0 0 0) ;;
      match r.1.1 with
      | Errno e => pst_ret (Errno e)
      | Done (child, _) => walk child names'
      end
  end.

(** [MountFUSE]'s root. *)
Definition root : node := moduleNameNode [].
End nodes.

#[global] Arguments node H : clear implicits.
#[global] Arguments pathUnderZipRoot H : clear implicits.
End Fuse.
