(* ===== verification/Stats.v ===== *)
(** * stats/stats.go: operation statistics

    A [*Stats] is shared by all requests; [ops] maps an operation to a
    pointer to its [OpStat], and a span keeps that pointer until it ends.
    [Stats] here is the struct with the heap of [OpStat]s that it and its
    clones point into.  A section under [mu] is a step; the counters of
    Prometheus, a library, and the log are left out. *)

From stdpp Require Import sorting.
From S2P Require Import Prelude GoStrings Store.

Local Open Scope gomodfs_scope.

(** ** time.Duration *)

Module Duration.
Local Open Scope Z_scope.

Definition Nanosecond : Z := 1.
Definition Microsecond : Z := 1000.
Definition Millisecond : Z := 1000000.
Definition Second : Z := 1000000000.
Definition minDuration : Z := - 2 ^ 63.
Definition maxDuration : Z := 2 ^ 63 - 1.

(** [t.Sub(u)], which saturates; [time.Since] is [Sub] from now. *)
Definition Sub (t u : Z) : Z := Z.max minDuration (Z.min maxDuration (t - u)).

Definition lessThanHalf (x y : Z) : bool := u64 (u64 x + u64 x) <? u64 y.

(** [Round]: half away from zero, saturating. *)
Definition Round (d m : Z) : Z :=
  if m <=? 0 then d else
  let r := Z.rem d m in
  if d <? 0 then
    let r := - r in
    if lessThanHalf r m then d + r else
    let d1 := i64 (d - m + r) in if d1 <? d then d1 else minDuration
  else
    if lessThanHalf r m then d - r else
    let d1 := i64 (d + m - r) in if d <? d1 then d1 else maxDuration.

(** [fmtFrac]: the fraction of [v / 10^prec] without trailing zeros, and the
    integer part. *)
Fixpoint fmtFrac (prec : nat) (v : Z) (print : bool) (acc : bytes) : bytes * Z :=
  match prec with
  | O => (if print then dot :: acc else acc, v)
  | S p =>
      let d := v mod 10 in
      let print := print || negb (d =? 0) in
      fmtFrac p (v / 10) print (if print then digit d :: acc else acc)
  end.

(** [String]. *)
Definition String (d : Z) : bytes :=
  let u := Z.abs d in
  let text :=
    if u <? Second then
      if u =? 0 then str "0s" else
      let '(prec, unit) :=
        if u <? Microsecond then (0%nat, str "ns")
        else if u <? Millisecond then (3%nat, [byte_of 194; byte_of 181] ++ str "s")
        else (6%nat, str "ms") in
      let '(frac, u) := fmtFrac prec u false [] in Itoa u ++ frac ++ unit
    else
      let '(frac, u) := fmtFrac 9 u false [] in
      let secs := Itoa (u mod 60) ++ frac ++ str "s" in
      let u := u / 60 in
      if u =? 0 then secs else
      let mins := Itoa (u mod 60) ++ str "m" ++ secs in
      let u := u / 60 in
      if u =? 0 then mins else Itoa u ++ str "h" ++ mins in
  if d <? 0 then "-"%char :: text else text.
End Duration.

(** ** Spans *)

Record OpStat := MkOpStat { Started : Z; Ended : Z; Errs : Z; CtxErrs : Z; TotalDur : Z }.

Definition NumSuccess (os : OpStat) : Z := i64 (Ended os - Errs os).

(** The heap of [OpStat]s, the next free address, and the map [ops], which
    is nil at first. *)
Record Stats := MkStats {
  heap : gmap nat OpStat;
  next : nat;
  ops : option (gmap bytes nat) }.

Definition newStats : Stats := MkStats ∅ 0 None.

(** A nil [*Stats] is [None]; [as_st] tells whether [st] is set. *)
Record ActiveSpan := MkSpan {
  as_st : bool;
  as_os : option nat;
  as_op : bytes;
  as_start : Z;
  as_done : bool }.

Definition incStarted (os : OpStat) : OpStat :=
  MkOpStat (i64 (Started os + 1)) (Ended os) (Errs os) (CtxErrs os) (TotalDur os).

(** The pointer of [op], allocated if there is none; [None] is a nil
    dereference. *)
Definition opStat (op : bytes) (st : Stats) : nat * Stats :=
  let m := default ∅ (ops st) in
  match m !! op with
  | Some l => (l, MkStats (heap st) (next st) (Some m))
  | None => (next st, MkStats (<[next st := MkOpStat 0 0 0 0 0]> (heap st)) (next st + 1) (Some (<[op := next st]> m)))
  end.

Definition StartSpan (st : option Stats) (op : bytes) (now : Z) : option (ActiveSpan * option Stats) :=
  match st with
  | None => Some (MkSpan false None op now false, None)
  | Some st =>
      let '(l, st) := opStat op st in
      os ← heap st !! l;
      Some (MkSpan true (Some l) op now false,
            Some (MkStats (<[l := incStarted os]> (heap st)) (next st) (ops st)))
  end.

Definition endOp (err : option error) (duration : Z) (os : OpStat) : OpStat :=
  MkOpStat (Started os) (i64 (Ended os + 1))
    (match err with Some _ => i64 (Errs os + 1) | None => Errs os end)
    (match err with
     | Some e => if errors_Is e is_context then i64 (CtxErrs os + 1) else CtxErrs os
     | None => CtxErrs os
     end)
    (i64 (TotalDur os + duration)).

(** [End]: a panic when called twice, or when one of [st] and [os] is nil
    and the other is not. *)
Definition End (s : ActiveSpan) (err : option error) (now : Z) (st : option Stats)
    : option (ActiveSpan * option Stats) :=
  if as_done s then None else
  let s := MkSpan (as_st s) (as_os s) (as_op s) (as_start s) true in
  match as_st s, as_os s, st with
  | false, None, _ => Some (s, st)
  | true, Some l, Some st =>
      os ← heap st !! l;
      Some (s, Some (MkStats (<[l := endOp err (Duration.Sub now (as_start s)) os]> (heap st)) (next st) (ops st)))
  | _, _, _ => None
  end.

(** [Clone]: fresh copies of the [OpStat]s, in the order of the range over
    the map, which decides only their addresses. *)
Fixpoint clone_loop (l : list (bytes * nat)) (clone : gmap bytes nat) (st : Stats)
    : option (gmap bytes nat * Stats) :=
  match l with
  | [] => Some (clone, st)
  | (k, v) :: l' =>
      os ← heap st !! v;
      clone_loop l' (<[k := next st]> clone)
        (MkStats (<[next st := os]> (heap st)) (next st + 1) (ops st))
  end.

Definition Clone `{R : GoRange} (st : option Stats) : option (option (gmap bytes nat) * option Stats) :=
  match st with
  | None => Some (None, None)
  | Some st =>
      '(clone, st) ← clone_loop (go_range (str "Clone") (default ∅ (ops st))) ∅ st;
      Some (Some clone, Some st)
  end.

(** ** The page *)

(** [html.EscapeString]. *)
Definition EscapeString (s : bytes) : bytes :=
  s ≫= fun c =>
    if decide (c = "&"%char) then str "&amp;"
    else if decide (c = "'"%char) then str "&#39;"
    else if decide (c = "<"%char) then str "&lt;"
    else if decide (c = ">"%char) then str "&gt;"
    else if decide (c = byte_of 34) then str "&#34;"
    else [c].

Definition errsText (v : OpStat) : bytes :=
  if (0 <? Errs v)%Z then
    if (0 <? CtxErrs v)%Z then Itoa (Errs v) ++ str " (" ++ Itoa (CtxErrs v) ++ str " ctx)"
    else Itoa (Errs v)
  else [].

(** [TotalDur / time.Duration(cmp.Or(Ended, 1))]. *)
Definition average (v : OpStat) : Z :=
  i64 (Z.quot (TotalDur v) (if (Ended v =? 0)%Z then 1 else Ended v)).

Definition tdRight : bytes := str "</td><td align=right>".

Definition row (op : bytes) (v : OpStat) : bytes :=
  str "<tr><td>" ++ EscapeString op ++ tdRight ++ Itoa (Ended v) ++ tdRight ++
  Itoa (i64 (Started v - Ended v)) ++ tdRight ++ errsText v ++ tdRight ++
  Duration.String (Duration.Round (average v) Duration.Microsecond) ++ tdRight ++
  Duration.String (Duration.Round (TotalDur v) Duration.Millisecond) ++ str "</td></tr>" ++ [nl].

Definition pageHead : bytes :=
  str "<html><body cellpadding=3 border=1><table>" ++ [nl; byte_of 9] ++
  str "<tr><th align=left>op</th><th>calls</th><th>pending</th><th>errs</th><th>avg</th><th>total</th></tr>" ++
  [nl; byte_of 9].

(** The status code and the body; [None] is a nil dereference. *)
Definition ServeHTTP (st : option Stats) : option (Z * bytes) :=
  match st with
  | None => Some (500%Z, str "stats not enabled" ++ [nl])
  | Some st =>
      let m := default ∅ (ops st) in
      let keys := merge_sort bytes_le (map_to_list m).*1 in
      rows ← mapM (fun op => l ← m !! op; v ← heap st !! l; Some (row op v)) keys;
      Some (200%Z, pageHead ++ mjoin rows ++ str "</table></body></html>")
  end.

(** ** Requests that share a [Stats] *)

(** A run: spans are started and ended in any order, and the statistics
    cloned in between.  [w_log] records every call of [End]: the operation,
    the error and the duration. *)
Record world := MkWorld {
  w_st : Stats;
  w_spans : list ActiveSpan;
  w_log : list (bytes * option error * Z);
  w_clones : list (gmap bytes nat) }.

Definition start_world : world := MkWorld newStats [] [] [].

Inductive event : Type :=
  | EvStart (op : bytes) (now : Z)
  | EvEnd (i : nat) (err : option error) (now : Z)
  | EvClone.

Section runs.
Context `{R : GoRange}.

Definition step (e : event) (w : world) : option world :=
  match e with
  | EvStart op now =>
      '(sp, st) ← StartSpan (Some (w_st w)) op now; st ← st;
      Some (MkWorld st (w_spans w ++ [sp]) (w_log w) (w_clones w))
  | EvEnd i err now =>
      sp ← w_spans w !! i;
      '(sp', st) ← End sp err now (Some (w_st w)); st ← st;
      Some (MkWorld st (<[i := sp']> (w_spans w))
              (w_log w ++ [(as_op sp, err, Duration.Sub now (as_start sp))]) (w_clones w))
  | EvClone =>
      '(c, st) ← Clone (Some (w_st w)); c ← c; st ← st;
      Some (MkWorld st (w_spans w) (w_log w) (w_clones w ++ [c]))
  end.

Fixpoint run (es : list event) (w : world) : option world :=
  match es with
  | [] => Some w
  | e :: es' => w ← step e w; run es' w
  end.
End runs.

(** The statistics of an operation, through [ops] or a clone. *)
Definition read (st : Stats) (m : gmap bytes nat) (op : bytes) : option OpStat := l ← m !! op; heap st !! l.

Definition opMap (w : world) : gmap bytes nat := default ∅ (ops (w_st w)).

Definition of_op {A} (f : A -> bytes) (op : bytes) (l : list A) : list A := filter (fun x => f x = op) l.
Definition count {A} (P : A -> bool) (l : list A) : Z := Z.of_nat (length (filter P l)).
Definition ended_err (x : bytes * option error * Z) : bool := match x.1.2 with Some _ => true | None => false end.
Definition ended_ctx (x : bytes * option error * Z) : bool :=
  match x.1.2 with Some e => errors_Is e is_context | None => false end.
Definition sumZ (l : list Z) : Z := foldr Z.add 0%Z l.

(** What the statistics of [op] should be, after the spans and the ends. *)
Definition summary (op : bytes) (spans : list ActiveSpan) (log : list (bytes * option error * Z)) : OpStat :=
  let mine := of_op (fun x => x.1.1) op log in
  MkOpStat (i64 (Z.of_nat (length (of_op as_op op spans)))) (i64 (Z.of_nat (length mine)))
    (i64 (count ended_err mine)) (i64 (count ended_ctx mine)) (i64 (sumZ (snd <$> mine))).

Record inv (w : world) : Prop := {
  i_heap l : is_Some (heap (w_st w) !! l) <-> l < next (w_st w);
  i_ops k l : opMap w !! k = Some l -> heap (w_st w) !! l = Some (summary k (w_spans w) (w_log w));
  i_inj k k' l : opMap w !! k = Some l -> opMap w !! k' = Some l -> k = k';
  i_spans sp : sp ∈ w_spans w -> as_st sp = true /\ exists l, as_os sp = Some l /\ opMap w !! as_op sp = Some l;
  i_log x : x ∈ w_log w -> is_Some (opMap w !! x.1.1);
  i_clones c k l : c ∈ w_clones w -> c !! k = Some l ->
    is_Some (heap (w_st w) !! l) /\ forall k', opMap w !! k' <> Some l }.

Lemma of_op_app {A} (f : A -> bytes) op l1 l2 : of_op f op (l1 ++ l2) = of_op f op l1 ++ of_op f op l2.
Proof. apply filter_app. Qed.

Lemma of_op_none {A} (f : A -> bytes) op l : (forall x, x ∈ l -> f x <> op) -> of_op f op l = [].
Proof.
  induction l as [|x l IH]; intros Hl; [done|]. unfold of_op. rewrite filter_cons, decide_False by (apply Hl; left).
  apply IH. intros y Hy. apply Hl. by right.
Qed.

Lemma sumZ_app l1 l2 : sumZ (l1 ++ l2) = (sumZ l1 + sumZ l2)%Z.
Proof. induction l1 as [|x l1 IH]; cbn; [done|]. unfold sumZ in *. rewrite IH. lia. Qed.

Lemma count_app {A} (P : A -> bool) l1 l2 : count P (l1 ++ l2) = (count P l1 + count P l2)%Z.
Proof. unfold count. rewrite filter_app, length_app. lia. Qed.

Lemma count_one {A} (P : A -> bool) x : count P [x] = if P x then 1%Z else 0%Z.
Proof. unfold count. rewrite filter_cons. by destruct (P x). Qed.

Lemma summary_none op spans log :
  (forall sp, sp ∈ spans -> as_op sp <> op) -> (forall x, x ∈ log -> x.1.1 <> op) ->
  summary op spans log = MkOpStat 0 0 0 0 0.
Proof. intros Hs Hl. unfold summary. by rewrite !of_op_none. Qed.

(** A span more counts as one started, for its operation alone. *)
Lemma summary_start op sp spans log :
  summary op (spans ++ [sp]) log =
  if decide (as_op sp = op) then incStarted (summary op spans log) else summary op spans log.
Proof.
  unfold summary, incStarted. rewrite of_op_app. cbn [Started Ended Errs CtxErrs TotalDur].
  case_decide as Hd; unfold of_op at 2; rewrite filter_cons.
  - rewrite decide_True by done. cbn [filter list_filter]. rewrite length_app, i64_add_l. do 2 f_equal. simpl. lia.
  - rewrite decide_False by done. cbn [filter list_filter]. by rewrite app_nil_r.
Qed.

Lemma summary_end op x spans log :
  summary op spans (log ++ [x]) =
  if decide (x.1.1 = op) then endOp x.1.2 x.2 (summary op spans log) else summary op spans log.
Proof.
  unfold summary, endOp. rewrite !of_op_app. cbn [Started Ended Errs CtxErrs TotalDur].
  case_decide as Hd.
  - assert (of_op (fun x => x.1.1) op [x] = [x]) as -> by (unfold of_op; by rewrite filter_cons, decide_True).
    rewrite length_app, !count_app, fmap_app, sumZ_app, !i64_add_l, !count_one.
    unfold ended_err at 2, ended_ctx at 2. cbn [length fmap list_fmap sumZ foldr].
    destruct (x.1.2) as [e|]; [destruct (errors_Is e is_context)|]; f_equal; f_equal; lia.
  - assert (of_op (fun x => x.1.1) op [x] = []) as -> by (unfold of_op; by rewrite filter_cons, decide_False).
    by rewrite !app_nil_r.
Qed.

(** Ending a span does not change its operation. *)
Lemma summary_insert op i sp sp' spans log :
  spans !! i = Some sp -> as_op sp' = as_op sp ->
  summary op (<[i := sp']> spans) log = summary op spans log.
Proof.
  intros Hi Ho. unfold summary. enough (length (of_op as_op op (<[i:=sp']> spans)) = length (of_op as_op op spans)) as -> by done.
  rewrite <-(take_drop_middle _ _ _ Hi) at 2. rewrite insert_take_drop by (by eapply lookup_lt_Some).
  rewrite !of_op_app, !length_app. f_equal. unfold of_op. rewrite !filter_cons, Ho. by case_decide.
Qed.

Lemma inv_start_world : inv start_world.
Proof. split; try done; cbn; try set_solver. intros l. rewrite lookup_empty, is_Some_alt. split; [done|lia]. Qed.

(** A step that puts a new value [f os] in the cell of [op]. *)
Lemma inv_update w w' op l os :
  inv w -> opMap w !! op = Some l -> heap (w_st w) !! l = Some os ->
  opMap w' = opMap w -> next (w_st w') = next (w_st w) -> w_clones w' = w_clones w ->
  heap (w_st w') = <[l := summary op (w_spans w') (w_log w')]> (heap (w_st w)) ->
  (forall k, k <> op -> summary k (w_spans w') (w_log w') = summary k (w_spans w) (w_log w)) ->
  (forall sp, sp ∈ w_spans w' -> as_st sp = true /\ exists l, as_os sp = Some l /\ opMap w !! as_op sp = Some l) ->
  (forall x, x ∈ w_log w' -> is_Some (opMap w !! x.1.1)) ->
  inv w'.
Proof.
  intros [Hh Ho Hi Hs Hl Hc] Hop Hos Hm Hn Hcl Hh' Hk Hs' Hl'.
  split; rewrite ?Hm, ?Hn, ?Hcl, ?Hh'; try done.
  - intros l'. rewrite lookup_insert_is_Some', <-Hh. naive_solver.
  - intros k l' Hk'. destruct (decide (k = op)) as [->|Hne].
    + simplify_eq. by rewrite lookup_insert_eq.
    + rewrite lookup_insert_ne by (intros ->; by eapply Hne, Hi). rewrite Hk by done. by apply Ho.
  - intros c k l' Hin Hck. rewrite lookup_insert_is_Some'. edestruct Hc; eauto.
Qed.

(** Allocating the cell of a new operation. *)
Lemma inv_alloc w op :
  inv w ->
  exists l st, opStat op (w_st w) = (l, st) /\ opMap (MkWorld st (w_spans w) (w_log w) (w_clones w)) !! op = Some l /\
    inv (MkWorld st (w_spans w) (w_log w) (w_clones w)) /\
    (forall k l', opMap w !! k = Some l' -> heap st !! l' = heap (w_st w) !! l' /\ default ∅ (ops st) !! k = Some l').
Proof.
  intros [Hh Ho Hi Hs Hl Hc]. unfold opStat. fold (opMap w).
  destruct (opMap w !! op) as [l|] eqn:Hop.
  - do 2 eexists. split; [done|]. unfold opMap at 1. cbn. split; [done|]. split; [|done]. by split.
  - do 2 eexists. split; [done|]. unfold opMap at 1. cbn. rewrite lookup_insert_eq. split; [done|].
    assert (forall k l, opMap w !! k = Some l -> l < next (w_st w)) as Hlt.
    { intros k l Hk. rewrite <-Hh, (Ho _ _ Hk). done. }
    split.
    + split; unfold opMap; cbn.
      * intros l. rewrite lookup_insert_is_Some', Hh. lia.
      * intros k l [[<- <-]|[Hne Hk]]%lookup_insert_Some.
        -- rewrite lookup_insert_eq, summary_none; [done| |].
           ++ intros sp Hin Heq. destruct (Hs _ Hin) as (_ & ? & _ & ?). congruence.
           ++ intros x Hin Heq. apply Hl in Hin. rewrite Heq, Hop in Hin. by destruct Hin.
        -- apply Hlt in Hk as Hlk. rewrite lookup_insert_ne by lia. by apply Ho.
      * intros k k' l [[<- <-]|[Hne Hk]]%lookup_insert_Some [[<- Heq]|[Hne' Hk']]%lookup_insert_Some;
          [done|apply Hlt in Hk'; lia|subst; apply Hlt in Hk; lia|by eapply Hi].
      * intros sp Hin. destruct (Hs _ Hin) as (? & l & ? & Hsp). split; [done|]. exists l. split; [done|].
        rewrite lookup_insert_ne; [done|]. congruence.
      * intros x Hin. rewrite lookup_insert_is_Some'. right. by apply Hl.
      * intros c k l Hin Hck. destruct (Hc _ _ _ Hin Hck) as [Hl' Hno]. split.
        -- rewrite lookup_insert_is_Some'. by right.
        -- intros k' [[<- <-]|[_ ?]]%lookup_insert_Some; [rewrite Hh in Hl'; lia|by eapply Hno].
    + intros k l' Hk. cbn. apply Hlt in Hk as Hlk. rewrite !lookup_insert_ne; [done|intros <-; congruence|lia].
Qed.

Section runs.
Context `{R : GoRange}.

Lemma step_start op now w :
  inv w -> exists w', step (EvStart op now) w = Some w' /\ inv w' /\
    w_spans w' = w_spans w ++ [MkSpan true (opMap w' !! op) op now false].
Proof.
  intros Hw. destruct (inv_alloc w op Hw) as (l & st & Heq & Hop & Hw1 & _).
  cbn [step StartSpan]. rewrite Heq. pose proof (i_ops _ Hw1 _ _ Hop) as Hos. cbn in Hos. rewrite Hos.
  cbn [mbind option_bind]. eexists. split; [done|].
  assert (opMap (MkWorld (MkStats (<[l:=incStarted (summary op (w_spans w) (w_log w))]> (heap st)) (next st) (ops st))
            (w_spans w ++ [MkSpan true (Some l) op now false]) (w_log w) (w_clones w)) !! op = Some l) as Hop' by done.
  rewrite Hop'. split; [|done].
  eapply (inv_update (MkWorld st (w_spans w) (w_log w) (w_clones w)) _ op l); try done.
  - cbn. by rewrite summary_start, decide_True.
  - intros k Hne. cbn. rewrite summary_start, decide_False; [done|]. by intros <-.
  - cbn. intros sp [Hin|Hin]%elem_of_app; [by apply (i_spans _ Hw1)|]. apply list_elem_of_singleton in Hin as ->. cbn. eauto.
  - apply (i_log _ Hw1).
Qed.

Lemma step_end i err now w sp :
  inv w -> w_spans w !! i = Some sp -> as_done sp = false ->
  exists w', step (EvEnd i err now) w = Some w' /\ inv w' /\
    w_spans w' = <[i := MkSpan true (as_os sp) (as_op sp) (as_start sp) true]> (w_spans w).
Proof.
  intros Hw Hi Hd. destruct (i_spans _ Hw sp) as (Hst & l & Hl & Hop); [by eapply list_elem_of_lookup_2|].
  cbn [step]. rewrite Hi. cbn [mbind option_bind]. unfold End. rewrite Hd, Hst, Hl.
  pose proof (i_ops _ Hw _ _ Hop) as Hos. cbn [as_st as_os]; rewrite Hos. cbn [mbind option_bind].
  eexists. split; [done|]. split; [|done].
  eapply (inv_update w _ (as_op sp) l); try done.
  - cbn. rewrite summary_end, decide_True by done. cbn. by erewrite summary_insert.
  - intros k Hne. cbn. rewrite summary_end, decide_False; [by erewrite summary_insert|]. intros <-. done.
  - cbn. intros sp' Hin. apply list_elem_of_lookup in Hin as [j Hj].
    apply list_lookup_insert_Some in Hj as [(<- & <- & _)|(_ & Hj)]; [cbn; eauto|].
    apply (i_spans _ Hw). by eapply list_elem_of_lookup_2.
  - cbn. intros x [Hin|Hin]%elem_of_app; [by apply (i_log _ Hw)|]. apply list_elem_of_singleton in Hin as ->. cbn. eauto.
Qed.

(** *** Clones *)

Lemma clone_loop_ok l cl st :
  NoDup l.*1 -> (forall k v, (k, v) ∈ l -> v < next st) ->
  (forall a, is_Some (heap st !! a) <-> a < next st) ->
  exists cl' st', clone_loop l cl st = Some (cl', st') /\ ops st' = ops st /\ next st <= next st' /\
    (forall a, is_Some (heap st' !! a) <-> a < next st') /\
    (forall a, a < next st -> heap st' !! a = heap st !! a) /\
    (forall k, k ∉ l.*1 -> cl' !! k = cl !! k) /\
    (forall k v, (k, v) ∈ l -> exists a, cl' !! k = Some a /\ next st <= a < next st' /\ heap st' !! a = heap st !! v).
Proof.
  revert cl st. induction l as [|[k v] l IH]; intros cl st Hnd Hv Hh; cbn [clone_loop].
  { exists cl, st. split_and!; try done. intros k v Hin. by apply not_elem_of_nil in Hin. }
  apply NoDup_cons in Hnd as [Hk Hnd].
  assert (v < next st) as Hvn by (eapply Hv; left). destruct (heap st !! v) as [os|] eqn:Hos; [|by apply Hh in Hvn as [? ?]; congruence].
  cbn [mbind option_bind].
  destruct (IH (<[k := next st]> cl) (MkStats (<[next st := os]> (heap st)) (next st + 1) (ops st)))
    as (cl' & st' & -> & Ho & Hn & Hh' & Hold & Hno & Hin); [done| | |].
  { intros k' v' Hin'. cbn. specialize (Hv k' v' ltac:(by right)). lia. }
  { intros a. cbn. rewrite lookup_insert_is_Some', Hh. lia. }
  cbn in Hn, Hold, Hno, Hin, Ho. exists cl', st'. split_and!; try done; [lia| | |].
  - intros a Ha. rewrite Hold, lookup_insert_ne by lia. done.
  - intros k' Hk'. cbn in Hk'. rewrite Hno, lookup_insert_ne; set_solver.
  - intros k' v' [[= -> ->]|Hin']%elem_of_cons.
    + exists (next st). rewrite Hno, lookup_insert_eq, Hold, lookup_insert_eq by (done || lia). split_and!; [done|lia..|done].
    + destruct (Hin _ _ Hin') as (a & Ha & ? & Heq). exists a. rewrite Heq, lookup_insert_ne; [split_and!; try done; lia|].
      specialize (Hv k' v' ltac:(by right)). lia.
Qed.

Context {RL : GoRangeLaws R}.

Lemma step_clone w :
  inv w -> exists w' c, step EvClone w = Some w' /\ inv w' /\ w_spans w' = w_spans w /\ w_clones w' = w_clones w ++ [c] /\
    opMap w' = opMap w /\ (forall a, is_Some (heap (w_st w) !! a) -> heap (w_st w') !! a = heap (w_st w) !! a) /\
    forall op, read (w_st w') c op = read (w_st w) (opMap w) op.
Proof.
  intros Hw. pose proof Hw as [Hh Ho Hi Hs Hl Hc]. cbn [step Clone]. fold (opMap w).
  pose proof (go_range_perm (str "Clone") (opMap w)) as Hp.
  assert (forall k v, (k, v) ∈ go_range (str "Clone") (opMap w) <-> opMap w !! k = Some v) as Hin.
  { intros k v. rewrite Hp. apply elem_of_map_to_list. }
  destruct (clone_loop_ok (go_range (str "Clone") (opMap w)) ∅ (w_st w))
    as (c & st' & -> & Hops & Hn & Hh' & Hold & Hno & Hcl).
  { rewrite Hp. apply NoDup_fst_map_to_list. }
  { intros k v Hkv%Hin. rewrite <-Hh, (Ho _ _ Hkv). done. }
  { done. }
  cbn [mbind option_bind]. eexists _, c. split; [done|]. cbn [w_spans w_clones w_st].
  assert (default ∅ (ops st') = opMap w) as Hm by (by rewrite Hops).
  assert (forall k l, opMap w !! k = Some l -> heap st' !! l = heap (w_st w) !! l) as Hsame.
  { intros k l Hk. apply Hold. rewrite <-Hh, (Ho _ _ Hk). done. }
  split_and!; try done.
  - split; unfold opMap; cbn; rewrite ?Hm; try done.
    + intros k l Hk. rewrite (Hsame _ _ Hk). by apply Ho.
    + intros c' k l [Hin'|Hin']%elem_of_app Hck.
      * destruct (Hc _ _ _ Hin' Hck) as [Ha ?]. split; [|done]. rewrite Hold by (by apply Hh). done.
      * apply list_elem_of_singleton in Hin' as ->. destruct (opMap w !! k) as [v|] eqn:Hk.
        -- apply Hin in Hk. destruct (Hcl _ _ Hk) as (a & Ha & Har & Heq). simplify_eq. split; [apply Hh'; lia|].
           intros k' Hk'. apply Ho, mk_is_Some, Hh in Hk'. lia.
        -- rewrite Hno in Hck by (intros [[k' v'] [-> Hkv]]%list_elem_of_fmap; apply Hin in Hkv; cbn in *; congruence). done.
  - intros a Ha. apply Hold. by apply Hh.
  - intros op. unfold read. destruct (opMap w !! op) as [v|] eqn:Hk; cbn [mbind option_bind].
    + apply Hin in Hk. destruct (Hcl _ _ Hk) as (a & -> & _ & Heq). done.
    + rewrite Hno; [done|]. intros [[k' v'] [-> Hkv]]%list_elem_of_fmap; apply Hin in Hkv; cbn in *; congruence.
Qed.

(** A cell that no operation uses is not touched. *)
Definition private (a : nat) (w : world) : Prop := is_Some (heap (w_st w) !! a) /\ forall k, opMap w !! k <> Some a.

Lemma stats_step_inv e w w' : inv w -> step e w = Some w' -> inv w'.
Proof.
  intros Hw Hs. destruct e as [op now|i err now|].
  - destruct (step_start op now w Hw) as (? & ? & ? & _). by simplify_eq.
  - destruct (w_spans w !! i) as [sp|] eqn:Hi; [|by cbn [step] in Hs; rewrite Hi in Hs].
    destruct (as_done sp) eqn:Hd; [cbn [step] in Hs; rewrite Hi in Hs; cbn in Hs; unfold End in Hs; by rewrite Hd in Hs|].
    destruct (step_end i err now w sp Hw Hi Hd) as (? & ? & ? & _). by simplify_eq.
  - destruct (step_clone w Hw) as (? & ? & ? & ? & _). by simplify_eq.
Qed.

Lemma step_private a e w w' :
  inv w -> private a w -> step e w = Some w' -> private a w' /\ heap (w_st w') !! a = heap (w_st w) !! a.
Proof.
  intros Hw [Ha Hno] Hs. destruct e as [op now|i err now|].
  - destruct (inv_alloc w op Hw) as (l & st & Heq & Hop & Hw1 & _).
    cbn [step StartSpan] in Hs. rewrite Heq in Hs. pose proof (i_ops _ Hw1 _ _ Hop) as Hos. cbn in Hos. rewrite Hos in Hs.
    cbn [mbind option_bind] in Hs. simplify_eq/=. unfold private, opMap. cbn.
    unfold opStat in Heq. fold (opMap w) in Heq. unfold opMap in Hop. cbn in Hop.
    destruct (opMap w !! op) as [l'|] eqn:Hl; simplify_eq/=.
    + assert (l <> a) by (intros ->; by eapply Hno). by rewrite lookup_insert_ne.
    + assert (next (w_st w) <> a) by (apply (i_heap _ Hw) in Ha; lia). rewrite !lookup_insert_ne by done.
      split; [|done]. split; [done|]. intros k [[_ ?]|[_ ?]]%lookup_insert_Some; [done|by eapply Hno].
  - cbn [step] in Hs. destruct (w_spans w !! i) as [sp|] eqn:Hi; [|done]. cbn [mbind option_bind] in Hs.
    unfold End in Hs. destruct (as_done sp); [done|]. cbn [as_st as_os] in Hs.
    destruct (i_spans _ Hw sp) as (Hst & l & Hl & Hop); [by eapply list_elem_of_lookup_2|].
    rewrite Hst, Hl in Hs. rewrite (i_ops _ Hw _ _ Hop) in Hs. cbn [mbind option_bind] in Hs. simplify_eq/=.
    assert (l <> a) by (intros ->; by eapply Hno). unfold private, opMap. cbn. by rewrite lookup_insert_ne.
  - destruct (step_clone w Hw) as (w1 & ? & Hs1 & _ & _ & _ & Hm & Hsame & _). simplify_eq.
    unfold private. by rewrite Hm, Hsame.
Qed.

Lemma stats_run_inv es w w' : inv w -> run es w = Some w' -> inv w'.
Proof.
  revert w. induction es as [|e es IH]; cbn [run]; intros w Hw Hr; [by simplify_eq|].
  destruct (step e w) as [w1|] eqn:Hs; [|done]. eapply IH; [by eapply stats_step_inv|done].
Qed.

Lemma run_private a es w w' :
  inv w -> private a w -> run es w = Some w' -> heap (w_st w') !! a = heap (w_st w) !! a.
Proof.
  revert w. induction es as [|e es IH]; cbn [run]; intros w Hw Ha Hr; [by simplify_eq|].
  destruct (step e w) as [w1|] eqn:Hs; [|done]. destruct (step_private _ _ _ _ Hw Ha Hs) as [Ha1 <-].
  by eapply IH; [eapply stats_step_inv| |].
Qed.

(** *** Every end is logged once *)

Definition active (op : bytes) (spans : list ActiveSpan) : list ActiveSpan :=
  filter (fun sp => as_done sp = false) (of_op as_op op spans).

Definition ends_logged (w : world) : Prop := forall op,
  length (of_op as_op op (w_spans w)) = length (active op (w_spans w)) + length (of_op (fun x => x.1.1) op (w_log w)).

Lemma length_of_op {A} (f : A -> bytes) op l1 x l2 :
  length (of_op f op (l1 ++ x :: l2)) =
  length (of_op f op l1) + (if decide (f x = op) then 1 else 0) + length (of_op f op l2).
Proof. rewrite of_op_app, length_app. unfold of_op at 2. rewrite filter_cons. case_decide; cbn; unfold of_op; lia. Qed.

Lemma length_active op l1 x l2 :
  length (active op (l1 ++ x :: l2)) =
  length (active op l1) + (if decide (as_op x = op) then if as_done x then 0 else 1 else 0) + length (active op l2).
Proof.
  unfold active. rewrite of_op_app, filter_app, length_app. unfold of_op at 2. rewrite filter_cons.
  case_decide; [|unfold of_op; lia]. rewrite filter_cons. destruct (as_done x);
    [rewrite decide_False by done|rewrite decide_True by done]; cbn; unfold of_op; lia.
Qed.

Lemma step_logged e w w' : inv w -> ends_logged w -> step e w = Some w' -> ends_logged w'.
Proof.
  intros Hw Hl Hs op. specialize (Hl op). destruct e as [op' now|i err now|].
  - destruct (step_start op' now w Hw) as (w1 & Hs1 & _ & Hsp). cbn [step] in Hs, Hs1.
    destruct (StartSpan _ _ _) as [[sp st]|]; cbn [mbind option_bind] in Hs, Hs1; [|done].
    destruct st as [st|]; cbn [mbind option_bind] in Hs, Hs1; simplify_eq/=.
    assert (as_done sp = false) as Hd by (by rewrite H).
    rewrite length_of_op, length_active, Hd. case_decide; cbn; lia.
  - destruct (w_spans w !! i) as [sp|] eqn:Hi; [|by cbn [step] in Hs; rewrite Hi in Hs].
    destruct (as_done sp) eqn:Hd; [cbn [step] in Hs; rewrite Hi in Hs; cbn in Hs; unfold End in Hs; by rewrite Hd in Hs|].
    destruct (step_end i err now w sp Hw Hi Hd) as (w1 & Hs1 & _ & Hsp). rewrite Hs in Hs1. injection Hs1 as <-. rewrite Hsp.
    assert (w_log w' = w_log w ++ [(as_op sp, err, Duration.Sub now (as_start sp))]) as ->.
    { cbn [step] in Hs. rewrite Hi in Hs. cbn [mbind option_bind] in Hs. destruct (End _ _ _ _) as [[sp' st]|]; [|done].
      cbn [mbind option_bind] in Hs. destruct st; [|done]. cbn [mbind option_bind] in Hs. by simplify_eq. }
    rewrite <-(take_drop_middle _ _ _ Hi) in Hl. rewrite insert_take_drop by (by eapply lookup_lt_Some).
    rewrite !length_of_op, !length_active in *. cbn [as_op as_done fst]. rewrite Hd in Hl. case_decide; cbn; lia.
  - destruct (step_clone w Hw) as (w1 & c & Hs1 & _ & Hsp & _). rewrite Hs in Hs1. injection Hs1 as <-. rewrite Hsp.
    assert (w_log w' = w_log w) as ->; [|done].
    cbn [step] in Hs. destruct (Clone _) as [[c' st]|]; [|done]. cbn [mbind option_bind] in Hs.
    destruct c'; [|done]. cbn [mbind option_bind] in Hs. destruct st; [|done]. cbn in Hs. by simplify_eq.
Qed.

Lemma run_logged es w w' : inv w -> ends_logged w -> run es w = Some w' -> ends_logged w'.
Proof.
  revert w. induction es as [|e es IH]; cbn [run]; intros w Hw Hl Hr; [by simplify_eq|].
  destruct (step e w) as [w1|] eqn:Hs; [|done]. eapply IH; [by eapply stats_step_inv|by eapply step_logged|done].
Qed.
End runs.

Lemma start_logged : ends_logged start_world.
Proof. done. Qed.

Lemma page_defined w : inv w -> is_Some (ServeHTTP (Some (w_st w))).
Proof.
  intros Hw. cbn [ServeHTTP]. fold (opMap w).
  assert (is_Some (mapM (fun op => l ← opMap w !! op; v ← heap (w_st w) !! l; Some (row op v))
            (merge_sort bytes_le (map_to_list (opMap w)).*1))) as [rows ->]; [|by eexists].
  apply mapM_is_Some_2, Forall_forall. intros op Hop. rewrite merge_sort_Permutation in Hop.
  apply list_elem_of_fmap in Hop as [[k l] [-> Hkl]]. apply elem_of_map_to_list in Hkl. cbn [compose fst].
  rewrite Hkl. cbn [mbind option_bind]. by rewrite (i_ops _ Hw _ _ Hkl).
Qed.

Lemma count_le {A} (P Q : A -> bool) l : (forall x, P x -> Q x) -> (0 <= count P l <= count Q l)%Z.
Proof.
  intros HPQ. unfold count. induction l as [|x l IH]; [done|]. rewrite !filter_cons.
  specialize (HPQ x). repeat case_decide; cbn [length]; naive_solver lia.
Qed.

Lemma count_length {A} (P : A -> bool) l : (0 <= count P l <= Z.of_nat (length l))%Z.
Proof. unfold count. pose proof (length_filter (fun x => Is_true (P x)) l). lia. Qed.

(** C38: after any sequence of spans started and ended and of clones taken,
    the statistics of an operation are exact: [Started] counts its spans,
    [Ended], [Errs] and [CtxErrs] the ends, the failed ones and those whose
    error is of the context, [TotalDur] adds up the durations (all modulo
    2^64), and every operation with a span has statistics.  Below 2^63 spans,
    started less ended, which the page shows as pending, is the number of
    active spans, and the errors are among the ended. *)
Theorem stats_account `{RL : !GoRangeLaws R} es w :
  run es start_world = Some w ->
  (forall sp, sp ∈ w_spans w -> is_Some (read (w_st w) (opMap w) (as_op sp))) /\
  forall op os, read (w_st w) (opMap w) op = Some os ->
    os = summary op (w_spans w) (w_log w) /\
    ((Z.of_nat (length (w_spans w)) < 2 ^ 63)%Z ->
     (Started os - Ended os = Z.of_nat (length (active op (w_spans w))) /\
      0 <= CtxErrs os <= Errs os /\ Errs os <= Ended os <= Started os)%Z).
Proof.
  intros Hr. pose proof (stats_run_inv _ _ _ inv_start_world Hr) as Hw.
  pose proof (run_logged _ _ _ inv_start_world start_logged Hr) as Hl. split.
  - intros sp Hin. destruct (i_spans _ Hw _ Hin) as (_ & l & _ & Hop). unfold read. rewrite Hop. cbn.
    by rewrite (i_ops _ Hw _ _ Hop).
  - intros op os Hos. unfold read in Hos. destruct (opMap w !! op) as [l|] eqn:Hop; [|done]. cbn in Hos.
    rewrite (i_ops _ Hw _ _ Hop) in Hos. simplify_eq. split; [done|]. intros Hlen. specialize (Hl op).
    set (mine := of_op (fun x => x.1.1) op (w_log w)) in *.
    assert (length (of_op as_op op (w_spans w)) <= length (w_spans w)) by apply length_filter.
    pose proof (count_length ended_err mine). pose proof (count_length ended_ctx mine).
    pose proof (count_le ended_ctx ended_err mine) as Hce. specialize (Hce ltac:(intros [[? [e|]] ?]; cbn; done)).
    unfold summary. cbn [Started Ended Errs CtxErrs]. fold mine. rewrite !i64_small by lia. lia.
Qed.

(** C39: no pointer to an [OpStat] dangles or is shared: a span points to the
    statistics of its operation, no two operations have the same, a clone
    points to statistics of its own, which no operation has, the page
    can be rendered, and the only call that panics is the [End] of a span
    that has ended (or does not exist). *)
Theorem spans_well_formed `{RL : !GoRangeLaws R} es w :
  run es start_world = Some w ->
  (forall sp, sp ∈ w_spans w -> exists l,
     as_os sp = Some l /\ opMap w !! as_op sp = Some l /\ is_Some (heap (w_st w) !! l)) /\
  (forall k k' l, opMap w !! k = Some l -> opMap w !! k' = Some l -> k = k') /\
  (forall c k l, c ∈ w_clones w -> c !! k = Some l ->
     is_Some (heap (w_st w) !! l) /\ forall k', opMap w !! k' <> Some l) /\
  is_Some (ServeHTTP (Some (w_st w))) /\
  (forall e, step e w = None <->
     exists i err now, e = EvEnd i err now /\ forall sp, w_spans w !! i = Some sp -> as_done sp = true).
Proof.
  intros Hr. pose proof (stats_run_inv _ _ _ inv_start_world Hr) as Hw. split_and!.
  - intros sp Hin. destruct (i_spans _ Hw _ Hin) as (_ & l & ? & Hop). exists l.
    by rewrite (i_ops _ Hw _ _ Hop).
  - apply (i_inj _ Hw).
  - apply (i_clones _ Hw).
  - by apply page_defined.
  - intros [op now|i err now|].
    + destruct (step_start op now w Hw) as (w1 & -> & _). naive_solver.
    + split.
      * intros Hs. exists i, err, now. split; [done|]. intros sp Hi. apply not_false_is_true. intros Hd.
        destruct (step_end i err now w sp Hw Hi Hd) as (w1 & Hs1 & _). congruence.
      * intros (i' & err' & now' & [= <- <- <-] & Hd). cbn [step]. destruct (w_spans w !! i) as [sp|]; [|done].
        cbn [mbind option_bind]. unfold End. by rewrite (Hd sp eq_refl).
    + destruct (step_clone w Hw) as (w1 & c & -> & _). naive_solver.
Qed.

(** A clone is a snapshot: whatever spans start or end later, reading an
    operation through the clone gives what the statistics were when it was
    taken. *)
Theorem clone_is_snapshot `{RL : !GoRangeLaws R} es w w1 c es' w2 :
  run es start_world = Some w -> step EvClone w = Some w1 -> last (w_clones w1) = Some c ->
  run es' w1 = Some w2 ->
  forall op, read (w_st w2) c op = read (w_st w) (opMap w) op.
Proof.
  intros Hr Hs Hc Hr2 op. pose proof (stats_run_inv _ _ _ inv_start_world Hr) as Hw.
  destruct (step_clone w Hw) as (w1' & c' & Hs' & Hw1 & _ & Hcl & _ & _ & Hread). simplify_eq.
  rewrite Hcl, last_snoc in Hc. simplify_eq. rewrite <-Hread. unfold read.
  destruct (c !! op) as [a|] eqn:Ha; [|done]. cbn [mbind option_bind].
  apply (run_private a es' w1 w2 Hw1); [|done]. split.
  - eapply (i_clones _ Hw1 c op a); [rewrite Hcl; set_solver|done].
  - intros k. eapply (i_clones _ Hw1 c op a); [rewrite Hcl; set_solver|done].
Qed.

(** A run: two spans of [a], one of which fails with a cancelled context,
    and one of [b]. *)
Definition test_events : list event :=
  [EvStart (str "a") 10; EvStart (str "b") 20; EvStart (str "a") 30;
   EvEnd 0 (Some (errWrap "x" Canceled)) 40; EvEnd 2 None 45].

Definition test_run (es : list event) (w : world) : world := default start_world (run (R := some_range) es w).
Definition test_world : world := test_run test_events start_world.

Lemma stats_account_witness :
  run (R := some_range) test_events start_world = Some test_world /\
  read (w_st test_world) (opMap test_world) (str "a") = Some (MkOpStat 2 2 1 1 45) /\
  MkOpStat 2 2 1 1 45 = summary (str "a") (w_spans test_world) (w_log test_world).
Proof.
  split; [vm_compute; reflexivity|]. split; [vm_compute; reflexivity|].
  refine (proj1 (proj2 (stats_account (RL := some_range_laws) test_events test_world _) _ _ _)); vm_compute; reflexivity.
Defined.

Lemma spans_well_formed_witness :
  step (R := some_range) (EvEnd 0 None 50) test_world = None /\ step (R := some_range) (EvEnd 1 None 50) test_world <> None.
Proof.
  assert (run (R := some_range) test_events start_world = Some test_world) as Hr by (vm_compute; reflexivity).
  pose proof (proj2 (proj2 (proj2 (proj2 (spans_well_formed (RL := some_range_laws) test_events test_world Hr))))) as Hp.
  split.
  - apply Hp. exists 0, None, 50%Z. split; [done|]. vm_compute. by intros sp [= <-].
  - rewrite Hp. intros (i & err & now & [= <- <- <-] & Hd). specialize (Hd _ eq_refl). done.
Defined.

Definition test_before : world := test_run (take 4 test_events) start_world.
Definition test_cloned : world := default start_world (step (R := some_range) EvClone test_before).
Definition test_clone : gmap bytes nat := default ∅ (last (w_clones test_cloned)).
Definition test_after : world := test_run [EvEnd 2 None 45; EvStart (str "a") 50] test_cloned.

Lemma clone_is_snapshot_witness :
  read (w_st test_after) test_clone (str "a") = read (w_st test_before) (opMap test_before) (str "a") /\
  read (w_st test_after) (opMap test_after) (str "a") <> read (w_st test_before) (opMap test_before) (str "a").
Proof.
  split; [|by vm_compute].
  apply (clone_is_snapshot (RL := some_range_laws) (take 4 test_events) test_before test_cloned test_clone
    [EvEnd 2 None 45; EvStart (str "a") 50] test_after); vm_compute; reflexivity.
Defined.

(** Durations as Go prints them. *)
Example duration_texts :
  Duration.String <$> [0; 999; 1500; 2000000; 1500000000; 61000000000; 3723000000001; -5000]%Z =
  [str "0s"; str "999ns"; str "1.5" ++ [byte_of 194; byte_of 181] ++ str "s"; str "2ms"; str "1.5s"; str "1m1s";
   str "1h2m3.000000001s"; str "-5" ++ [byte_of 194; byte_of 181] ++ str "s"].
Proof. vm_compute. reflexivity. Qed.

Example duration_rounds :
  Duration.Round 1499 Duration.Microsecond = 1000%Z /\ Duration.Round 1500 Duration.Microsecond = 2000%Z /\
  Duration.Round (-1500) Duration.Microsecond = (-2000)%Z /\
  Duration.Round Duration.maxDuration Duration.Millisecond = Duration.maxDuration.
Proof. vm_compute. done. Qed.
