(* ===== verification/Status.v ===== *)
(** * gomodfs.go: the JSON of the status file

    [FS.StatusJSON] marshals a fixed record and the clone of the statistics.
    [Json] is what it uses of [encoding/json]: objects, strings and numbers,
    printed with [MarshalIndent], and the reader of RFC 8259 for them, as a
    client has it.  The text of a floating-point number is an argument. *)

From stdpp Require Import sorting.
From S2P Require Import Prelude GoStrings Store GitStore Stats.

Local Open Scope gomodfs_scope.

(** ** encoding/json *)

Module Json.

(** *** Runes: the encoded runes of a string and the bytes that are none *)

Inductive rune : Type :=
  | Rune (enc : bytes)
  | BadByte (c : ascii).

Definition between (lo hi : Z) (c : ascii) : bool := ((lo <=? byte_val c) && (byte_val c <=? hi))%Z.
Definition continuation : ascii -> bool := between 128 191.

(** The byte after the first, in an encoding of three or four bytes. *)
Definition second_of_three (c d : ascii) : bool :=
  let z := byte_val c in
  if (z =? 224)%Z then between 160 191 d else if (z =? 237)%Z then between 128 159 d
  else between 225 239 c && continuation d.
Definition second_of_four (c d : ascii) : bool :=
  let z := byte_val c in
  if (z =? 240)%Z then between 144 191 d else if (z =? 244)%Z then between 128 143 d
  else between 241 243 c && continuation d.

(** [utf8.DecodeRuneInString], repeated. *)
Fixpoint runes (s : bytes) : list rune :=
  match s with
  | [] => []
  | c :: s1 =>
      if (byte_val c <? 128)%Z then Rune [c] :: runes s1 else
      match s1 with
      | [] => [BadByte c]
      | d :: s2 =>
          if between 194 223 c && continuation d then Rune [c; d] :: runes s2 else
          match s2 with
          | [] => BadByte c :: runes s1
          | e :: s3 =>
              if second_of_three c d && continuation e then Rune [c; d; e] :: runes s3 else
              match s3 with
              | [] => BadByte c :: runes s1
              | f :: s4 =>
                  if second_of_four c d && continuation e && continuation f
                  then Rune [c; d; e; f] :: runes s4 else BadByte c :: runes s1
              end
          end
      end
  end.

Definition runeError : bytes := utf8_encode 65533.

(** [strings.ToValidUTF8] with the replacement character. *)
Definition rune_text (r : rune) : bytes := match r with Rune enc => enc | BadByte _ => runeError end.
Definition to_valid (s : bytes) : bytes := runes s ≫= rune_text.
Definition valid (s : bytes) : bool := bool_decide (to_valid s = s).

(** *** Writing *)

Inductive json : Type :=
  | JString (s : bytes)
  | JNumber (text : bytes)
  | JObject (members : list (bytes * json)).

Definition backslash : ascii := "\"%char.

Definition hex4 (v : Z) : bytes :=
  backslash :: "u"%char ::
  [hex_digit (v / 4096); hex_digit (v / 256 mod 16); hex_digit (v / 16 mod 16); hex_digit (v mod 16)].

(** A byte below 128, as [appendString] writes it, with [escapeHTML]. *)
Definition escape_byte (c : ascii) : bytes :=
  if decide (c = dquote \/ c = backslash) then [backslash; c]
  else if decide (c = byte_of 8) then [backslash; "b"%char]
  else if decide (c = byte_of 12) then [backslash; "f"%char]
  else if decide (c = byte_of 10) then [backslash; "n"%char]
  else if decide (c = byte_of 13) then [backslash; "r"%char]
  else if decide (c = byte_of 9) then [backslash; "t"%char]
  else if (byte_val c <? 32)%Z || bool_decide (c = "<"%char \/ c = ">"%char \/ c = "&"%char)
  then hex4 (byte_val c) else [c].

Definition escape_rune (r : rune) : bytes :=
  match r with
  | BadByte _ => hex4 65533
  | Rune [c] => escape_byte c
  | Rune enc =>
      if decide (enc = utf8_encode 8232) then hex4 8232
      else if decide (enc = utf8_encode 8233) then hex4 8233 else enc
  end.

Definition quote (s : bytes) : bytes := dquote :: (runes s ≫= escape_rune) ++ [dquote].

Definition newline (depth : nat) : bytes := nl :: mjoin (replicate depth (str "  ")).

Definition member (p : json -> bytes) (depth : nat) (m : bytes * json) : bytes :=
  newline (S depth) ++ quote m.1 ++ str ": " ++ p m.2.

(** [json.MarshalIndent] with no prefix and two spaces. *)
Fixpoint print (depth : nat) (v : json) : bytes :=
  match v with
  | JString s => quote s
  | JNumber t => t
  | JObject [] => str "{}"
  | JObject (m :: ms) =>
      str "{" ++ member (print (S depth)) depth m ++
      foldr (fun m acc => str "," ++ member (print (S depth)) depth m ++ acc) (newline depth ++ str "}") ms
  end.

(** *** Reading *)

Definition unescape (c : ascii) : option ascii :=
  if decide (c = dquote \/ c = backslash \/ c = "/"%char) then Some c
  else if decide (c = "b"%char) then Some (byte_of 8)
  else if decide (c = "f"%char) then Some (byte_of 12)
  else if decide (c = "n"%char) then Some (byte_of 10)
  else if decide (c = "r"%char) then Some (byte_of 13)
  else if decide (c = "t"%char) then Some (byte_of 9)
  else None.

(** What follows the opening quote: the string, and the rest.  Of the
    surrogates, which only other writers use, each half is an error. *)
Fixpoint unquote (s : bytes) : option (bytes * bytes) :=
  match s with
  | [] => None
  | c :: s' =>
      if decide (c = dquote) then Some ([], s')
      else if decide (c = backslash) then
        match s' with
        | [] => None
        | e :: s2 =>
            if decide (e = "u"%char) then
              match s2 with
              | a :: b :: c :: d :: s3 =>
                  '(v, _) ← digits hex_val 16 4 0 [a; b; c; d];
                  if ((55296 <=? v) && (v <=? 57343))%Z then None else
                  '(t, r) ← unquote s3; Some (utf8_encode v ++ t, r)
              | _ => None
              end
            else x ← unescape e; '(t, r) ← unquote s2; Some (x :: t, r)
        end
      else if (byte_val c <? 32)%Z then None
      else '(t, r) ← unquote s'; Some (c :: t, r)
  end.

Definition is_blank (c : ascii) : bool :=
  bool_decide (c = " "%char \/ c = byte_of 9 \/ c = nl \/ c = byte_of 13).
Definition skip : bytes -> bytes := drop_while is_blank.

Definition number_byte (c : ascii) : bool :=
  is_digit c || bool_decide (c ∈ str "+-.eE").

Fixpoint take_number (s : bytes) : bytes * bytes :=
  match s with
  | [] => ([], [])
  | c :: s' => if number_byte c then let '(a, b) := take_number s' in (c :: a, b) else ([], s)
  end.

(** A value, and the members of an object; [fuel] bounds the values and the
    members. *)
Fixpoint parse_value (fuel : nat) (s : bytes) : option (json * bytes) :=
  match fuel with
  | O => None
  | S fuel' =>
      match skip s with
      | [] => None
      | c :: s' =>
          if decide (c = dquote) then '(t, r) ← unquote s'; Some (JString t, r)
          else if decide (c = "{"%char) then
            match skip s' with
            | d :: r => if decide (d = "}"%char) then Some (JObject [], r)
                        else '(ms, r) ← parse_members fuel' (d :: r); Some (JObject ms, r)
            | [] => None
            end
          else match take_number (c :: s') with
               | ([], _) => None
               | (t, r) => Some (JNumber t, r)
               end
      end
  end
with parse_members (fuel : nat) (s : bytes) : option (list (bytes * json) * bytes) :=
  match fuel with
  | O => None
  | S fuel' =>
      s ← CutPrefix (skip s) [dquote]; '(k, s) ← unquote s;
      s ← CutPrefix (skip s) (str ":"); '(v, s) ← parse_value fuel' s;
      match skip s with
      | c :: r =>
          if decide (c = ","%char) then '(ms, r) ← parse_members fuel' r; Some ((k, v) :: ms, r)
          else if decide (c = "}"%char) then Some ([(k, v)], r) else None
      | [] => None
      end
  end.

(** [json.Unmarshal]: one value and nothing after it. *)
Definition parse (s : bytes) : option json :=
  '(v, r) ← parse_value (length s) s; if decide (skip r = []) then Some v else None.

(** A value as it is read back. *)
Fixpoint reread (v : json) : json :=
  match v with
  | JString s => JString (to_valid s)
  | JNumber t => JNumber t
  | JObject ms => JObject ((fun m => (to_valid m.1, reread m.2)) <$> ms)
  end.

(** *** What is written reads back *)

Lemma json_nested_ind (P : json -> Prop) :
  (forall s, P (JString s)) -> (forall t, P (JNumber t)) ->
  (forall ms, Forall (fun m => P m.2) ms -> P (JObject ms)) -> forall v, P v.
Proof.
  intros Hs Hn Ho. fix IH 1. intros [s|t|ms]; [apply Hs|apply Hn|]. apply Ho.
  induction ms as [|m ms IHms]; constructor; [apply IH|apply IHms].
Qed.

(** Numbers that are texts of numbers. *)
Fixpoint wf (v : json) : Prop :=
  match v with
  | JString _ => True
  | JNumber t => t <> [] /\ Forall (fun c => number_byte c) t
  | JObject ms => foldr (fun m acc => wf m.2 /\ acc) True ms
  end.

Definition high (c : ascii) : Prop := (128 <= byte_val c)%Z.
Definition rune_wf (r : rune) : Prop :=
  match r with
  | BadByte c => high c
  | Rune [c] => (byte_val c < 128)%Z
  | Rune enc => Forall high enc
  end.

Lemma between_high lo hi c : (128 <= lo)%Z -> between lo hi c -> high c.
Proof. unfold between, high. rewrite andb_True, !Is_true_true, !Z.leb_le. lia. Qed.

Lemma second_high c d : second_of_three c d \/ second_of_four c d -> high d.
Proof.
  unfold second_of_three, second_of_four, continuation.
  intros [H|H]; revert H; cbv zeta; repeat case_match; rewrite ?andb_True; intros H'; try destruct H' as [_ H'];
    eapply between_high, H'; lia.
Qed.

Lemma runes_wf s : Forall rune_wf (runes s).
Proof.
  induction s as [s IH] using (induction_ltof1 _ length). unfold ltof in IH.
  destruct s as [|c s1]; [constructor|]. cbn [runes].
  destruct (Z.ltb_spec (byte_val c) 128) as [Hc|Hc]; [constructor; [done|apply IH; cbn; lia]|].
  assert (Forall rune_wf (BadByte c :: runes s1)) as Hbad by (constructor; [done|apply IH; cbn; lia]).
  destruct s1 as [|d s2]; [done|]. case_match eqn:H2.
  { apply Is_true_true, andb_True in H2 as [_ H2]. constructor; [|apply IH; cbn; lia].
    repeat constructor; [done|]. by eapply between_high, H2. }
  destruct s2 as [|e s3]; [done|]. case_match eqn:H3.
  { apply Is_true_true, andb_True in H3 as [H3 He]. constructor; [|apply IH; cbn; lia].
    repeat constructor; [done|eapply second_high; eauto|by eapply between_high, He]. }
  destruct s3 as [|f s4]; [done|]. case_match eqn:H4; [|done].
  apply Is_true_true in H4. rewrite !andb_True in H4. destruct H4 as [[H4 He] Hf]. constructor; [|apply IH; cbn; lia].
  repeat constructor; [done|eapply second_high; eauto|by eapply between_high, He|by eapply between_high, Hf].
Qed.

(** [x], in front of a string that has been read. *)
Definition before (x : bytes) (u : option (bytes * bytes)) : option (bytes * bytes) :=
  '(t, r) ← u; Some (x ++ t, r).

Lemma unquote_byte c s : (byte_val c < 128)%Z -> unquote (escape_byte c ++ s) = before [c] (unquote s).
Proof.
  intros Hc. destruct c as [[] [] [] [] [] [] [] []];
    solve [reflexivity | exfalso; revert Hc; apply Z.nlt_ge; apply Z.leb_le; reflexivity].
Qed.

Lemma unquote_high enc s : Forall high enc -> unquote (enc ++ s) = before enc (unquote s).
Proof.
  unfold before. induction 1 as [|c enc Hc _ IH]; cbn [app]; [by destruct (unquote s) as [[? ?]|]|].
  unfold high in Hc. cbn [unquote]. rewrite !decide_False by (intros ->; by vm_compute in Hc).
  rewrite (proj2 (Z.ltb_ge _ _)), IH by lia. by destruct (unquote s) as [[? ?]|].
Qed.

Lemma unquote_rune r s : rune_wf r -> unquote (escape_rune r ++ s) = before (rune_text r) (unquote s).
Proof.
  destruct r as [[|c [|d enc]]|c]; intros Hr; [by apply (unquote_high [])|by apply unquote_byte| |reflexivity].
  cbn [escape_rune rune_text]. case_decide as H1; [rewrite H1; reflexivity|].
  case_decide as H2; [rewrite H2; reflexivity|]. by apply unquote_high.
Qed.

Lemma unquote_runes l s : Forall rune_wf l ->
  unquote ((l ≫= escape_rune) ++ dquote :: s) = Some (l ≫= rune_text, s).
Proof.
  induction 1 as [|r l Hr _ IH]; [done|]. cbn [mbind list_bind]. rewrite <- app_assoc, unquote_rune by done.
  fold (l ≫= escape_rune). by rewrite IH.
Qed.

Lemma unquote_quote s t : exists q, quote s ++ t = dquote :: q /\ unquote q = Some (to_valid s, t).
Proof.
  exists ((runes s ≫= escape_rune) ++ dquote :: t). split; [unfold quote; cbn; by rewrite <- app_assoc|].
  apply unquote_runes, runes_wf.
Qed.

Lemma take_number_app t s :
  Forall (fun c => number_byte c) t -> (forall c, head s = Some c -> number_byte c = false) ->
  take_number (t ++ s) = (t, s).
Proof.
  intros Ht Hs. induction Ht as [|c t Hc _ IH]; cbn [app take_number].
  - destruct s as [|c s]; [done|]. cbn [take_number]. by rewrite (Hs c eq_refl).
  - apply Is_true_true in Hc. by rewrite Hc, IH.
Qed.

Lemma number_first c : number_byte c -> is_blank c = false /\ c <> dquote /\ c <> "{"%char.
Proof. destruct c as [[] [] [] [] [] [] [] []]; by vm_compute. Qed.

Lemma skip_newline depth s : skip (newline depth ++ s) = skip s.
Proof.
  unfold newline. cbn [app]. change (skip (nl :: ?x)) with (skip x). induction depth as [|d IH]; [done|].
  change (mjoin (replicate (S d) (str "  "))) with (str "  " ++ mjoin (replicate d (str "  "))). by rewrite <- app_assoc.
Qed.

(** How many values and members the reader goes through. *)
Fixpoint need (v : json) : nat :=
  match v with
  | JObject ms => S (foldr (fun m acc => S (need m.2 + acc)) 0 ms)
  | _ => 1
  end.

Definition reads (v : json) : Prop := forall fuel depth s,
  need v <= fuel -> wf v -> (forall c, head s = Some c -> number_byte c = false) ->
  parse_value fuel (print depth v ++ s) = Some (reread v, s).

Lemma parse_value_blank fuel s : parse_value fuel (str " " ++ s) = parse_value fuel s.
Proof. by destruct fuel. Qed.

Lemma parse_member fuel depth m s :
  need m.2 <= fuel -> wf m.2 -> reads m.2 -> (forall c, head s = Some c -> number_byte c = false) ->
  parse_members (S fuel) (member (print (S depth)) depth m ++ s) =
  match skip s with
  | c :: r =>
      if decide (c = ","%char) then '(ms, r) ← parse_members fuel r; Some ((to_valid m.1, reread m.2) :: ms, r)
      else if decide (c = "}"%char) then Some ([(to_valid m.1, reread m.2)], r) else None
  | [] => None
  end.
Proof.
  intros Hf Hw Hr Hs. cbn [parse_members]. unfold member. rewrite <- !app_assoc, skip_newline.
  destruct (unquote_quote m.1 (str ": " ++ print (S depth) m.2 ++ s)) as (q & -> & Hq).
  change (skip (dquote :: q)) with ([dquote] ++ q). rewrite CutPrefix_app. cbn [mbind option_bind]. rewrite Hq.
  cbn [mbind option_bind]. change (skip (str ": " ++ ?x)) with (str ":" ++ str " " ++ x). rewrite CutPrefix_app. cbn [mbind option_bind].
  by rewrite parse_value_blank, Hr.
Qed.

Definition members_text (depth : nat) (ms : list (bytes * json)) : bytes :=
  foldr (fun m acc => str "," ++ member (print (S depth)) depth m ++ acc) (newline depth ++ str "}") ms.

Lemma parse_members_text ms fuel depth m s :
  Forall (fun m => reads m.2) (m :: ms) -> foldr (fun m acc => wf m.2 /\ acc) True (m :: ms) ->
  foldr (fun m acc => S (need m.2 + acc)) 0 (m :: ms) <= fuel ->
  parse_members fuel (member (print (S depth)) depth m ++ members_text depth ms ++ s) =
  Some ((fun m => (to_valid m.1, reread m.2)) <$> m :: ms, s).
Proof.
  revert fuel m. induction ms as [|m' ms IH]; intros fuel m Hr [Hm Hw] Hf; inversion_clear Hr as [|? ? Hrm Hr'];
    (destruct fuel as [|fuel]; [by cbn in Hf; lia|]); cbn [foldr] in Hf; rewrite parse_member; try done; try lia.
  - unfold members_text. cbn [foldr]. rewrite <- app_assoc, skip_newline. done.
  - unfold members_text. cbn [foldr]. intros c [= <-]. done.
  - unfold members_text at 1. cbn [foldr]. fold (members_text depth ms).
    rewrite <- !app_assoc. change (skip (str "," ++ ?x)) with (","%char :: x). cbv iota beta. rewrite decide_True by done.
    rewrite IH; [done|done|done|cbn [foldr]; lia].
  - intros c [= <-]. done.
Qed.

Lemma all_read v : reads v.
Proof.
  induction v as [t|t|ms IH] using json_nested_ind; intros [|fuel] depth s Hf Hw Hs; try (by cbn in Hf; lia).
  - destruct (unquote_quote t s) as (q & Hq & Hu). cbn [print parse_value]. rewrite Hq.
    change (skip (dquote :: q)) with (dquote :: q). cbv iota beta. rewrite decide_True by done. by rewrite Hu.
  - destruct Hw as [Hne Ht]. destruct t as [|c t]; [done|]. pose proof (take_number_app (c :: t) s Ht Hs) as Htake.
    inversion_clear Ht as [|? ? Hc _]. destruct (number_first c Hc) as (Hb & Hq & Hbr).
    cbn [print parse_value app]. unfold skip. cbn [drop_while]. rewrite Hb, !decide_False by done. cbn [app] in Htake. by rewrite Htake.
  - destruct ms as [|m ms]; [done|]. cbn [print]. fold (members_text depth ms). cbn [parse_value].
    rewrite <- !app_assoc. change (skip (str "{" ++ ?x)) with ("{"%char :: x). cbv iota beta.
    rewrite (decide_False (P := "{"%char = dquote)), decide_True by done.
    assert (exists q, skip (member (print (S depth)) depth m ++ members_text depth ms ++ s) = dquote :: q /\
              parse_members fuel (dquote :: q) = Some ((fun m => (to_valid m.1, reread m.2)) <$> m :: ms, s))
      as (q & -> & Hq); [|cbv iota beta; rewrite decide_False by done; by rewrite Hq].
    rewrite <-(parse_members_text ms fuel depth m s IH Hw ltac:(cbn [need] in Hf; lia)).
    unfold member. rewrite <- !app_assoc, skip_newline.
    destruct (unquote_quote m.1 (str ": " ++ print (S depth) m.2 ++ members_text depth ms ++ s)) as (q & -> & _).
    exists q. split; [done|]. destruct fuel as [|fuel]; [done|]. cbn [parse_members]. by rewrite skip_newline.
Qed.

Lemma need_length v depth : wf v -> need v <= length (print depth v).
Proof.
  revert depth. induction v as [t|t|ms IH] using json_nested_ind; intros depth Hw; cbn [need print].
  - unfold quote. cbn. lia.
  - destruct Hw as [Ht _]. destruct t; [done|]. cbn. lia.
  - destruct ms as [|m ms]; [cbn; lia|]. fold (members_text depth ms).
    assert (forall m', S (length (print (S depth) m'.2)) <= length (member (print (S depth)) depth m')) as Hlen.
    { intros m'. unfold member, newline. rewrite !length_app. cbn. lia. }
    inversion_clear IH as [|? ? Hm Hms]. destruct Hw as [Hw Hws].
    rewrite !length_app. cbn [foldr]. specialize (Hm (S depth) Hw). pose proof (Hlen m).
    enough (foldr (fun m acc => S (need m.2 + acc)) 0 ms <= length (members_text depth ms)) by (change (length (str "{")) with 1; lia).
    unfold members_text. clear Hm Hw. induction Hms as [|m' ms Hm' _ IHms]; [cbn; lia|]. destruct Hws as [Hw Hws].
    cbn [foldr]. rewrite !length_app. specialize (Hm' (S depth) Hw). specialize (IHms Hws). pose proof (Hlen m'). change (length (str ",")) with 1. lia.
Qed.

Lemma parse_print v s : wf v -> skip s = [] -> (forall c, head s = Some c -> number_byte c = false) ->
  parse (print 0 v ++ s) = Some (reread v).
Proof.
  intros Hw Hb Hs. unfold parse.
  assert (need v <= length (print 0 v ++ s)) by (rewrite length_app; pose proof (need_length v 0 Hw); lia).
  rewrite all_read by done.
  cbn [mbind option_bind]. by rewrite decide_True.
Qed.
End Json.

(** ** FS.StatusJSON *)

(** The struct [StatusJSON]; a nil map is [None]. *)
Record StatusJSON := MkStatusJSON {
  Filesystem : bytes;
  Uptime : bytes;
  Ops : option (gmap bytes nat) }.

Definition opStat_json (os : OpStat) : Json.json :=
  Json.JObject
    [(str "Started", Json.JNumber (Itoa (Started os))); (str "Ended", Json.JNumber (Itoa (Ended os)));
     (str "Errs", Json.JNumber (Itoa (Errs os))); (str "CtxErrs", Json.JNumber (Itoa (CtxErrs os)));
     (str "TotalDur", Json.JNumber (Itoa (TotalDur os)))].

(** A map is written by its keys in order; [omitzero] leaves a nil one out.
    [None] is a dangling pointer. *)
Definition ops_json (h : gmap nat OpStat) (m : gmap bytes nat) : option (list (bytes * Json.json)) :=
  mapM (fun op => l ← m !! op; os ← h !! l; Some (op, opStat_json os)) (merge_sort bytes_le (map_to_list m).*1).

Definition status_json (h : gmap nat OpStat) (s : StatusJSON) : option Json.json :=
  ops ← match Ops s with
        | None => Some []
        | Some m => l ← ops_json h m; Some [(str "ops", Json.JObject l)]
        end;
  Some (Json.JObject ([(str "filesystem", Json.JString (Filesystem s)); (str "uptime", Json.JNumber (Uptime s))] ++ ops)).

(** [f.StatusJSON()], with [f.Stats] and the text of the seconds since the
    process started. *)
Definition FS_StatusJSON `{R : GoRange} (uptime : bytes) (st : option Stats) : option (bytes * option Stats) :=
  '(ops, st) ← Clone st;
  v ← status_json (default ∅ (heap <$> st)) (MkStatusJSON (str "gomodfs") uptime ops);
  Some (Json.print 0 v ++ [nl], st).

(** *** A client that reads the file

    The value of a member is that of the last with its name. *)

Definition member_of (name : bytes) (v : Json.json) : option Json.json :=
  match v with
  | Json.JObject ms => (list_to_map (reverse ms) : gmap bytes Json.json) !! name
  | _ => None
  end.

Definition int_member (name : bytes) (v : Json.json) : option Z :=
  n ← member_of name v; match n with Json.JNumber t => Atoi t | _ => None end.

Definition read_OpStat (v : Json.json) : option OpStat :=
  s ← int_member (str "Started") v; e ← int_member (str "Ended") v; r ← int_member (str "Errs") v;
  c ← int_member (str "CtxErrs") v; d ← int_member (str "TotalDur") v; Some (MkOpStat s e r c d).

Definition read_ops (v : Json.json) : option (gmap bytes OpStat) :=
  match v with
  | Json.JObject ms => l ← mapM (fun m => os ← read_OpStat m.2; Some (m.1, os)) ms; Some (list_to_map (reverse l))
  | _ => None
  end.

(** The name of the file system, the uptime and the statistics, if any. *)
Definition read_status (text : bytes) : option (bytes * bytes * option (gmap bytes OpStat)) :=
  v ← Json.parse text;
  name ← member_of (str "filesystem") v; name ← match name with Json.JString s => Some s | _ => None end;
  up ← member_of (str "uptime") v; up ← match up with Json.JNumber t => Some t | _ => None end;
  ops ← match member_of (str "ops") v with None => Some None | Some o => m ← read_ops o; Some (Some m) end;
  Some (name, up, ops).

Definition number (t : bytes) : Prop := t <> [] /\ Forall (fun c => Json.number_byte c) t.

Lemma Itoa_number n : number (Itoa n).
Proof.
  split.
  - unfold Itoa. case_match; [done|]. apply itoa_loop_nonempty.
  - assert (forall l, Forall is_digit l -> Forall (fun c => Json.number_byte c) l) as Hd.
    { intros l Hl. eapply Forall_impl; [done|]. intros c Hc. unfold Json.number_byte. apply orb_True. by left. }
    unfold Itoa. case_match; [constructor; [done|]|]; by apply Hd, itoa_loop_digits.
Qed.

Lemma Atoi_Itoa n : (- 2 ^ 63 <= n < 2 ^ 63)%Z -> Atoi (Itoa n) = Some n.
Proof.
  intros Hn. destruct (Z.ltb_spec n 0) as [Hneg|]; [|by apply ParseInt_Itoa; cbn; lia].
  unfold Itoa. rewrite (proj2 (Z.ltb_lt n 0)) by lia. pose proof (parse_Itoa (- n) ltac:(lia)) as Hp.
  unfold Itoa in Hp. rewrite (proj2 (Z.ltb_ge (- n) 0)) in Hp by lia.
  unfold Atoi, ParseInt. rewrite bool_decide_eq_true_2 by done. cbn [orb].
  destruct (itoa_loop _ _ _) as [|c s] eqn:Hi; [by apply itoa_loop_nonempty in Hi|].
  rewrite Hp. cbn [mbind option_bind]. rewrite (proj2 (Z.leb_le _ _)) by (cbn; lia). f_equal. lia.
Qed.

(** Counters that fit in Go's [int]. *)
Definition fits (os : OpStat) : Prop :=
  Forall (fun z => - 2 ^ 63 <= z < 2 ^ 63)%Z [Started os; Ended os; Errs os; CtxErrs os; TotalDur os].

Lemma summary_fits op spans log : fits (summary op spans log).
Proof. unfold fits, summary. cbn [Started Ended Errs CtxErrs TotalDur]. repeat constructor; apply i64_range. Qed.

Lemma read_opStat os : fits os -> read_OpStat (opStat_json os) = Some os.
Proof.
  unfold fits. rewrite !Forall_cons. intros (H1 & H2 & H3 & H4 & H5 & _).
  change (read_OpStat (opStat_json os)) with
    (s ← Atoi (Itoa (Started os)); e ← Atoi (Itoa (Ended os)); r ← Atoi (Itoa (Errs os));
     c ← Atoi (Itoa (CtxErrs os)); d ← Atoi (Itoa (TotalDur os)); Some (MkOpStat s e r c d)).
  rewrite !Atoi_Itoa by done. by destruct os.
Qed.

Lemma mapM_total {A B} (f : A -> option B) (g : A -> B) l : (forall x, x ∈ l -> f x = Some (g x)) -> mapM f l = Some (g <$> l).
Proof. intros H. apply mapM_Some_2, Forall2_fmap_r, Forall_Forall2_diag, Forall_forall, H. Qed.

(** The map [m] of pointers into [h]: none dangles, and every key is valid
    UTF-8. *)
Definition ops_wf (h : gmap nat OpStat) (m : gmap bytes nat) : Prop :=
  forall op l, m !! op = Some l -> Json.valid op /\ exists os, h !! l = Some os /\ fits os.

Lemma ops_read_back h m :
  ops_wf h m -> exists l m', ops_json h m = Some l /\ Json.wf (Json.JObject l) /\
    read_ops (Json.reread (Json.JObject l)) = Some m' /\ forall op, m' !! op = (a ← m !! op; h !! a).
Proof.
  intros Hwf. set (keys := merge_sort bytes_le (map_to_list m).*1).
  assert (keys ≡ₚ (map_to_list m).*1) as Hperm by apply merge_sort_Permutation.
  set (get op := default (MkOpStat 0 0 0 0 0) (a ← m !! op; h !! a)).
  assert (forall op, op ∈ keys -> Json.valid op /\ (a ← m !! op; h !! a) = Some (get op) /\ fits (get op)) as Hkeys.
  { intros op. rewrite Hperm. intros Hop. apply list_elem_of_fmap in Hop as [[k a] [-> Hka]].
    apply elem_of_map_to_list in Hka. cbn [fst]. destruct (Hwf _ _ Hka) as (Hv & os & Hos & Hf).
    unfold get. rewrite Hka. cbn [mbind option_bind]. by rewrite Hos. }
  exists ((fun op => (op, opStat_json (get op))) <$> keys), (list_to_map (reverse ((fun op => (op, get op)) <$> keys))).
  split_and!.
  - apply (mapM_total _ (fun op => (op, opStat_json (get op)))). intros op Hop. destruct (Hkeys _ Hop) as (_ & Hg & _).
    destruct (m !! op) as [a|]; [|done]. cbn [mbind option_bind] in *. by rewrite Hg.
  - clear. induction keys as [|op keys IH]; [done|]. cbn [fmap list_fmap Json.wf foldr snd opStat_json].
    split; [|done]. split_and!; try done; apply Itoa_number.
  - cbn [Json.reread read_ops]. rewrite <-list_fmap_compose.
    rewrite (mapM_total _ (fun m => (m.1, default (MkOpStat 0 0 0 0 0) (read_OpStat m.2)))).
    + cbn [mbind option_bind]. do 3 f_equal. rewrite <-list_fmap_compose. apply list_fmap_ext.
      intros i op Hop. apply list_elem_of_lookup_2, Hkeys in Hop as (Hv & _ & Hf). cbn [compose fst snd].
      change (Json.reread (opStat_json ?os)) with (opStat_json os). rewrite read_opStat by done.
      apply bool_decide_unpack in Hv. by rewrite Hv.
    + intros x Hx. apply list_elem_of_fmap in Hx as (op & -> & Hop). apply Hkeys in Hop as (_ & _ & Hf). cbn [compose fst snd].
      change (Json.reread (opStat_json ?os)) with (opStat_json os). by rewrite read_opStat.
  - assert (NoDup keys) as Hnd by (rewrite Hperm; apply NoDup_fst_map_to_list).
    assert (NoDup (reverse ((fun op => (op, get op)) <$> keys)).*1) as Hnd'.
    { rewrite fmap_reverse, <-list_fmap_compose, list_fmap_id by done. by rewrite reverse_Permutation. }
    intros op. apply option_eq. intros os. rewrite <-elem_of_list_to_map by done.
    rewrite elem_of_reverse, list_elem_of_fmap. split.
    + intros (op' & [= -> ->] & Hop). by apply Hkeys.
    + intros Hos. exists op. assert (op ∈ keys) as Hop; [|destruct (Hkeys _ Hop) as (_ & Hg & _); split; [congruence|done]].
      rewrite Hperm. destruct (m !! op) as [a|] eqn:Ha; [|done].
      apply list_elem_of_fmap. exists (op, a). split; [done|]. by apply elem_of_map_to_list.
Qed.

Lemma status_print v : Json.wf v -> Json.parse (Json.print 0 v ++ [nl]) = Some (Json.reread v).
Proof. intros Hv. apply Json.parse_print; [done|done|]. by intros c [= <-]. Qed.

Definition status_object (uptime : bytes) (o : Json.json) : Json.json :=
  Json.JObject [(str "filesystem", Json.JString (str "gomodfs")); (str "uptime", Json.JNumber uptime); (str "ops", o)].

Lemma status_members uptime o :
  let v := Json.reread (status_object uptime o) in
  member_of (str "filesystem") v = Some (Json.JString (str "gomodfs")) /\
  member_of (str "uptime") v = Some (Json.JNumber uptime) /\ member_of (str "ops") v = Some (Json.reread o).
Proof. done. Qed.

(** The status file reads back: after any run of spans and clones, the
    file has the file system's name, the uptime, and for each operation,
    whose names are valid UTF-8, the statistics it has at that moment, and
    for no other; rendering it leaves the statistics as they are, and a nil
    [*Stats] has no operations. *)
Theorem status_reads_back `{RL : !GoRangeLaws R} uptime :
  number uptime ->
  (exists text, FS_StatusJSON uptime None = Some (text, None) /\
     read_status text = Some (str "gomodfs", uptime, None)) /\
  forall es w, run es start_world = Some w -> (forall op, is_Some (opMap w !! op) -> Json.valid op) ->
  exists text st m, FS_StatusJSON uptime (Some (w_st w)) = Some (text, Some st) /\
    read_status text = Some (str "gomodfs", uptime, Some m) /\
    (forall op, m !! op = read (w_st w) (opMap w) op) /\
    (forall op, read st (default ∅ (ops st)) op = read (w_st w) (opMap w) op).
Proof.
  intros Hup. split.
  - eexists. split; [reflexivity|]. unfold read_status. rewrite status_print by (repeat split; try done; apply Hup). done.
  - intros es w Hr Hvalid. pose proof (stats_run_inv _ _ _ inv_start_world Hr) as Hw.
    destruct (step_clone w Hw) as (w1 & c & Hs & Hw1 & _ & Hcl & Hm & Hsame & Hread).
    unfold FS_StatusJSON. cbn [step] in Hs.
    destruct (Clone (Some (w_st w))) as [[[c'|] [st|]]|] eqn:Hc; try done. cbn [mbind option_bind] in Hs.
    injection Hs as Hs. assert (c' = c /\ w_st w1 = st) as [-> <-].
    { subst w1. cbn [w_clones] in Hcl. by apply app_inj_tail in Hcl as [_ ->]. }
    destruct (ops_read_back (heap (w_st w1)) c) as (l & m & Hl & Hwl & Hm' & Hlook).
    { intros op a Ha. pose proof (Hread op) as Hop. unfold read in Hop. rewrite Ha in Hop. cbn [mbind option_bind] in Hop.
      destruct (opMap w !! op) as [b|] eqn:Hb.
      - cbn [mbind option_bind] in Hop. rewrite (i_ops _ Hw _ _ Hb) in Hop.
        split; [apply Hvalid; by eexists|]. eexists. split; [done|]. apply summary_fits.
      - destruct (i_clones _ Hw1 c op a) as [[os Hos] _]; [rewrite Hcl; set_solver|done|]. by rewrite Hop in Hos. }
    cbn [mbind option_bind]. change (default ∅ (heap <$> Some (w_st w1))) with (heap (w_st w1)).
    unfold status_json. cbn [Ops mbind option_bind]. rewrite Hl. cbn [mbind option_bind].
    eexists _, _, m. split_and!; [reflexivity| |by intros op; rewrite Hlook, <-Hread|].
    + unfold read_status. rewrite status_print by (cbn; split_and!; try done; apply Hup). cbn [mbind option_bind].
      change (Json.JObject (_ ++ _)) with (status_object uptime (Json.JObject l)).
      destruct (status_members uptime (Json.JObject l)) as (-> & -> & ->). cbn [mbind option_bind]. by rewrite Hm'.
    + intros op. unfold read. fold (opMap w1). rewrite Hm. destruct (opMap w !! op) as [a|] eqn:Ha; [|done].
      cbn [mbind option_bind]. apply Hsame. by rewrite (i_ops _ Hw _ _ Ha).
Qed.

Definition test_number : bytes := str "12.5".

Lemma status_reads_back_witness :
  number test_number /\
  exists text st m, FS_StatusJSON (R := some_range) test_number (Some (w_st test_world)) = Some (text, Some st) /\
    read_status text = Some (str "gomodfs", test_number, Some m) /\
    m !! str "a" = Some (MkOpStat 2 2 1 1 45).
Proof.
  assert (number test_number) as Hn by (split; [done|repeat constructor]).
  assert (run (R := some_range) test_events start_world = Some test_world) as Hr by (vm_compute; reflexivity).
  split; [done|].
  assert (forall op, is_Some (opMap test_world !! op) -> Json.valid op) as Hv.
  { intros op [l Hl]. assert (forallb (fun x => Json.valid x.1) (map_to_list (opMap test_world)) = true) as Hall
      by (vm_compute; reflexivity).
    apply elem_of_map_to_list, list_elem_of_In in Hl. apply Is_true_true. by apply (proj1 (forallb_forall _ _) Hall (op, l)). }
  destruct (proj2 (status_reads_back (RL := some_range_laws) test_number Hn) test_events test_world Hr Hv)
    as (text & st & m & Ht & Hrd & Hm & _).
  exists text, st, m. split; [done|]. split; [done|]. rewrite Hm. vm_compute. reflexivity.
Defined.

(** The text, with the escapes. *)
Example status_text :
  (fun x => x.1) <$> FS_StatusJSON (R := some_range) test_number
    (Some (MkStats {[0 := MkOpStat 1 1 0 0 (-5)]} 1 (Some {[byte_of 255 :: str "<\" := 0]}))) =
  Some (mjoin ((fun l => l ++ [nl]) <$>
    [str "{"; str "  " ++ Json.quote (str "filesystem") ++ str ": " ++ Json.quote (str "gomodfs") ++ str ",";
     str "  " ++ Json.quote (str "uptime") ++ str ": 12.5,"; str "  " ++ Json.quote (str "ops") ++ str ": {";
     str "    " ++ dquote :: str "\ufffd\u003c\\" ++ dquote :: str ": {";
     str "      " ++ dquote :: str "Started" ++ dquote :: str ": 1,";
     str "      " ++ dquote :: str "Ended" ++ dquote :: str ": 1,";
     str "      " ++ dquote :: str "Errs" ++ dquote :: str ": 0,";
     str "      " ++ dquote :: str "CtxErrs" ++ dquote :: str ": 0,";
     str "      " ++ dquote :: str "TotalDur" ++ dquote :: str ": -5"; str "    }"; str "  }"; str "}"])).
Proof. vm_compute. reflexivity. Qed.
