(* ===== verification/Servers.v ===== *)
(** * server.go of go-nfs and portmap/portmap.go: the loops that accept
    connections and packets

    A loop is run on what its calls of [Accept] or [ReadFrom] return, in
    order; it waits for more when they are used up.  What it does is a list
    of events: the goroutines it starts, its sleeps and its replies. *)

From S2P Require Import Prelude GoStrings Store Rpc RpcProps Stats.

Local Open Scope gomodfs_scope.

(** ** go-nfs: Server.Serve *)

Module Accept.

(** The result of [l.Accept()]: a connection, a [net.Error] that is a
    time-out, or another error. *)
Inductive accepted {C : Type} : Type :=
  | AConn (c : C)
  | ATimeout (e : error)
  | AError (e : error).
Arguments accepted C : clear implicits.

(** [time.Sleep], [go c.serve(ctx)] and [l.Close()]. *)
Inductive event {Ctx C : Type} : Type :=
  | Sleep (d : Z)
  | GoServe (ctx : Ctx) (c : C)
  | Close.
Arguments event Ctx C : clear implicits.

(** The fields of [Server] that [Serve] uses. *)
Record Server {Ctx : Type} := MkServer { ID : bytes; Context_ : option Ctx }.
Arguments Server Ctx : clear implicits.
Arguments MkServer {Ctx}.

(** [conn], as [newConn] makes it: the server and the connection. *)
Record conn {Ctx C : Type} := MkConn { Server_ : Server Ctx; Conn_ : C }.
Arguments conn Ctx C : clear implicits.
Arguments MkConn {Ctx C}.

Section serve.
Context {Ctx C : Type}.

Definition newConn (s : Server Ctx) (nc : C) : conn Ctx C := MkConn s nc.

(** The [tempDelay] after one more time-out. *)
Definition next_delay (tempDelay : Z) : Z :=
  let tempDelay := if (tempDelay =? 0)%Z then i64 (5 * Duration.Millisecond) else i64 (tempDelay * 2) in
  let max := (1 * Duration.Second)%Z in
  if (max <? tempDelay)%Z then max else tempDelay.

(** The loop: its events and the error it returns, if it does. *)
Fixpoint accept_loop (s : Server Ctx) (baseCtx : Ctx) (tempDelay : Z) (l : list (accepted C))
    : list (event Ctx (conn Ctx C)) * option error :=
  match l with
  | [] => ([], None)
  | AConn c :: l' =>
      let '(ev, r) := accept_loop s baseCtx 0 l' in (GoServe baseCtx (newConn s c) :: ev, r)
  | ATimeout _ :: l' =>
      let d := next_delay tempDelay in
      let '(ev, r) := accept_loop s baseCtx d l' in (Sleep d :: ev, r)
  | AError e :: _ => ([], Some e)
  end.

(** [Serve]: the server with its ID, the events, and the error returned, if
    it has returned; [background] is [context.Background()], and [random]
    what reading the random bytes leaves in the ID, with the error. *)
Definition Serve (background : Ctx) (random : bytes * option error) (s : Server Ctx) (l : list (accepted C))
    : Server Ctx * list (event Ctx (conn Ctx C)) * option error :=
  let baseCtx := default background (Context_ s) in
  let '(s, failed) :=
    if decide (ID s = replicate 8 nul) then (MkServer random.1 (Context_ s), random.2) else (s, None) in
  let '(ev, r) := match failed with Some e => ([], Some e) | None => accept_loop s baseCtx 0 l end in
  (s, match r with Some _ => ev ++ [Close] | None => ev end, r).

(** *** What the loop should do *)

(** The connections before the first error that is no time-out, and that
    error. *)
Fixpoint before_error (l : list (accepted C)) : list C * option error :=
  match l with
  | [] => ([], None)
  | AConn c :: l' => (c :: (before_error l').1, (before_error l').2)
  | ATimeout _ :: l' => before_error l'
  | AError e :: _ => ([], Some e)
  end.

(** For each time-out before that error, how many there have been since the
    last connection; [k] is the number at the start. *)
Fixpoint streaks (k : nat) (l : list (accepted C)) : list nat :=
  match l with
  | AConn _ :: l' => streaks 0 l'
  | ATimeout _ :: l' => S k :: streaks (S k) l'
  | _ => []
  end.

(** The delay after [k] time-outs in a row: 5 ms, doubled up to 1 s. *)
Definition backoff (k : nat) : Z := Z.min (5 * 2 ^ (Z.of_nat k - 1)) 1000 * Duration.Millisecond.

Definition sleeps (ev : list (event Ctx (conn Ctx C))) : list Z :=
  omap (fun e => match e with Sleep d => Some d | _ => None end) ev.
Definition served (ev : list (event Ctx (conn Ctx C))) : list (Ctx * conn Ctx C) :=
  omap (fun e => match e with GoServe ctx c => Some (ctx, c) | _ => None end) ev.
Definition closes (ev : list (event Ctx (conn Ctx C))) : nat :=
  length (omap (fun e => match e with Close => Some () | _ => None end) ev).

Definition delay_after (k : nat) : Z := match k with O => 0 | _ => backoff k end.

Lemma next_delay_after k : next_delay (delay_after k) = backoff (S k).
Proof.
  unfold next_delay. destruct k as [|k]; [reflexivity|]. cbn [delay_after]. unfold backoff.
  replace (Z.of_nat (S (S k)) - 1)%Z with (Z.succ (Z.of_nat (S k) - 1)) by lia. rewrite Z.pow_succ_r by lia.
  assert (0 < 2 ^ (Z.of_nat (S k) - 1))%Z as Hp by (apply Z.pow_pos_nonneg; lia).
  generalize (2 ^ (Z.of_nat (S k) - 1))%Z, Hp. intros x Hx. unfold Duration.Millisecond, Duration.Second.
  rewrite (proj2 (Z.eqb_neq _ _)) by lia. rewrite i64_small by lia.
  destruct (Z.ltb_spec (1 * 1000000000) (Z.min (5 * x) 1000 * 1000000 * 2)); lia.
Qed.

Lemma backoff_range k : (5 * Duration.Millisecond <= backoff (S k) <= Duration.Second)%Z.
Proof.
  unfold backoff, Duration.Millisecond, Duration.Second.
  assert (0 < 2 ^ (Z.of_nat (S k) - 1))%Z by (apply Z.pow_pos_nonneg; lia). lia.
Qed.

Lemma accept_loop_spec s base k l :
  let '(ev, r) := accept_loop s base (delay_after k) l in
  served ev = (fun c => (base, newConn s c)) <$> (before_error l).1 /\ r = (before_error l).2 /\
  sleeps ev = backoff <$> streaks k l /\ closes ev = 0.
Proof.
  revert k. induction l as [|[c|e|e] l IH]; intros k; cbn [accept_loop]; [done| | |done].
  - specialize (IH 0). change (delay_after 0) with 0%Z in IH. destruct (accept_loop s base 0 l) as [ev r].
    destruct IH as (H1 & H2 & H3 & H4). cbn [before_error streaks fst snd fmap list_fmap].
    split_and!; [by rewrite <-H1|done|done|done].
  - specialize (IH (S k)). rewrite next_delay_after. change (delay_after (S k)) with (backoff (S k)) in IH.
    destruct (accept_loop s base (backoff (S k)) l) as [ev r]. destruct IH as (H1 & H2 & H3 & H4).
    cbn [before_error streaks fst snd fmap list_fmap]. split_and!; [done|done|by rewrite <-H3|done].
Qed.

Lemma streaks_positive k l n : n ∈ streaks k l -> exists m, n = S m.
Proof.
  revert k. induction l as [|[c|e|e] l IH]; intros k; cbn [streaks]; try by rewrite elem_of_nil.
  - apply IH.
  - rewrite elem_of_cons. intros [->|Hn]; [by eexists|by eapply IH].
Qed.
End serve.

(** C36: the NFS server serves every connection it accepts, once and in order,
    until [Accept] fails with an error that is no time-out; it returns that
    error and closes the listener, and only then.  After the [k]-th time-out
    in a row it sleeps 5 ms doubled [k - 1] times and at most a second, and a
    connection starts the count again, so that every sleep is between 5 ms
    and a second.  It makes up an ID exactly when it has none. *)
Theorem serve_accepts {Ctx C} background random s (l : list (accepted C)) :
  let '(s', ev, r) := Serve (Ctx := Ctx) background random s l in
  let no_id := bool_decide (ID s = replicate 8 nul) in
  let base := default background (Context_ s) in
  ID s' = (if no_id then random.1 else ID s) /\
  match (if no_id then random.2 else None) with
  | Some e => ev = [Close] /\ r = Some e
  | None =>
      served ev = (fun c => (base, newConn s' c)) <$> (before_error l).1 /\ r = (before_error l).2 /\
      sleeps ev = backoff <$> streaks 0 l /\
      Forall (fun d => 5 * Duration.Millisecond <= d <= Duration.Second)%Z (sleeps ev) /\
      closes ev = (match r with Some _ => 1 | None => 0 end) /\ (forall e, r = Some e -> last ev = Some Close)
  end.
Proof.
  unfold Serve. set (st := if decide (ID s = replicate 8 nul) then _ else _).
  assert (st = (MkServer (if bool_decide (ID s = replicate 8 nul) then random.1 else ID s) (Context_ s),
                if bool_decide (ID s = replicate 8 nul) then random.2 else None)) as ->.
  { subst st. rewrite bool_decide_decide. case_decide; [done|]. by destruct s. }
  cbv beta iota zeta. set (s' := MkServer _ _). destruct (if bool_decide _ then random.2 else None) as [e|]; [done|].
  pose proof (accept_loop_spec s' (default background (Context_ s)) 0 l) as Hl. change (delay_after 0) with 0%Z in Hl.
  destruct (accept_loop _ _ 0 l) as [ev r]. destruct Hl as (H1 & H2 & H3 & H4). split; [done|].
  assert (served (match r with Some _ => ev ++ [Close] | None => ev end) = served ev) as ->.
  { destruct r; [|done]. unfold served. by rewrite omap_app, app_nil_r. }
  assert (sleeps (match r with Some _ => ev ++ [Close] | None => ev end) = sleeps ev) as ->.
  { destruct r; [|done]. unfold sleeps. by rewrite omap_app, app_nil_r. }
  split_and!; [done|done|done| | |].
  - rewrite H3, Forall_fmap, Forall_forall. intros k Hk. apply streaks_positive in Hk as [m ->]. apply backoff_range.
  - destruct r; [|done]. unfold closes in *. rewrite omap_app, length_app. cbn. lia.
  - intros e ->. apply last_snoc.
Qed.

(** Three time-outs, a connection, a time-out and an error. *)
Example serve_test :
  Serve 0 (replicate 8 "i"%char, None) (MkServer (replicate 8 nul) (Some 7))
    [ATimeout (errText "i/o timeout"); ATimeout (errText "i/o timeout"); ATimeout (errText "i/o timeout"); AConn 1; ATimeout (errText "i/o timeout"); AError EOF; AConn 2] =
  (MkServer (replicate 8 "i"%char) (Some 7),
   [Sleep 5000000; Sleep 10000000; Sleep 20000000; GoServe 7 (MkConn (MkServer (replicate 8 "i"%char) (Some 7)) 1);
    Sleep 5000000; Close], Some EOF).
Proof. reflexivity. Qed.
End Accept.

(** ** The portmapper *)

Module PortmapServer.

(** [ServeTCP] on the results of [ln.Accept()]: the connections that
    [go s.serveConn] gets, and the error returned. *)
Fixpoint ServeTCP {C} (l : list (C + error)) : list C * option error :=
  match l with
  | [] => ([], None)
  | inl c :: l' => let '(cs, r) := ServeTCP l' in (c :: cs, r)
  | inr e :: _ => ([], Some e)
  end.

(** [ServeUDP] on the packets that [pc.ReadFrom] reads, each with its
    sender: the packets written, and the error returned.  An error of
    [pc.WriteTo] is only logged. *)
Fixpoint ServeUDP {A} (Port : Z) (l : list ((bytes * A) + error)) : list (bytes * A) * option error :=
  match l with
  | [] => ([], None)
  | inl (packet, addr) :: l' =>
      let '(out, r) := ServeUDP Port l' in
      (match Portmap.ServeUDP_one Port packet with
       | Some resp => (resp, addr) :: out
       | None => out
       end, r)
  | inr e :: _ => ([], Some e)
  end.

(** Packets as [ServeUDP] sees them: a call, or a packet without an answer. *)
Definition packet_of (Port : Z) (c : option call) (packet : bytes) : Prop :=
  match c with
  | Some c => call_ok c /\ packet = call_bytes c /\ (Z.of_nat (length packet) <= Portmap.maxRecord)%Z
  | None => Portmap.ServeUDP_one Port packet = None
  end.

(** Over UDP each call gets its reply, sent to where it came from and in
    order, whatever other packets come in between; only an error of reading
    ends the loop. *)
Lemma udp_replies {A} Port (l : list (option call * (bytes * A))) e :
  Forall (fun x => packet_of Port x.1 x.2.1) l ->
  ServeUDP Port ((inl <$> l.*2) ++ [inr e]) =
  (omap (fun x => c ← x.1; Some (reply_bytes Port c, x.2.2)) l, Some e).
Proof.
  induction 1 as [|[c [packet addr]] l Hp _ IH]; [done|]. cbn [fmap list_fmap fst snd app ServeUDP].
  rewrite IH. cbn [fst snd] in Hp. destruct c as [c|]; cbn [packet_of] in Hp; [|by rewrite Hp].
  destruct Hp as (Hc & -> & Hl). unfold Portmap.ServeUDP_one. rewrite take_ge by lia. by rewrite reply_call.
Qed.

Lemma tcp_serves_all {C} (cs : list C) e : ServeTCP ((inl <$> cs) ++ [inr e]) = (cs, Some e).
Proof. induction cs as [|c cs IH]; [done|]. cbn. by rewrite IH. Qed.

End PortmapServer.
