(* ===== verification/FrontEnds.v ===== *)
(** * The front ends give the same contents

    The NFS, WebDAV and WinFSP servers each look a path up in their own way:
    NFS asks the store for the file's info and then its contents, WebDAV for
    the contents and then, on an error, the directory, and WinFSP for the
    info when a file is opened and the contents, through a cache, when it is
    read.  Here they are shown to serve the same bytes. *)

From S2P Require Import Prelude GoStrings Lru Store StoreTree Paths NfsAttr NfsCache MemStore FS FSFacts FSProps Nfs NfsProps.
From S2P Require Import WebDav WinFsp.

Local Open Scope gomodfs_scope.

(** ** What is asked of the store

    Reading changes nothing, and a file that has contents has an info that
    is not a directory's. *)
Class StoreReads (S H : Type) `{!Store S H} : Prop := {
  GetFile_state mh p s : (GetFile mh p s).2 = s;
  Stat_state mh p s : (Stat mh p s).2 = s;
  Readdir_state mh p s : (Readdir mh p s).2 = s;
  GetFile_Stat mh p s c : (GetFile mh p s).1 = Ok c ->
    exists fi, (Stat mh p s).1 = Ok fi /\ fi_IsDir fi = false }.

#[export] Instance mem_reads : StoreReads mem ModuleVersion.
Proof.
  split; try done. intros mh p s c. cbn. destruct (find_file p (mem_files s mh)) as [f|]; [by eauto|].
  by case_match.
Qed.

Section fronts.
Context `{E : ModEscape} {S H W : Type} `{St : !Store S H} `{SR : !StoreReads S H} `{Wd : !World W} (cfg : config).
Context (now : Z) (json : bytes).
Local Abbreviation FS := (FS S H W).
Local Abbreviation M A := (pst FS (res A)).
Implicit Types f : FS.

Lemma call_reads {A} (m : S -> res A * S) f : (m (fs_store f)).2 = fs_store f ->
  call_store (H := H) (W := W) m f = Some ((m (fs_store f)).1, f).
Proof. intros Hm. unfold call_store. destruct (m (fs_store f)) as [r s]. cbn in *. subst. by destruct f. Qed.

(** ** The cache of contents by path *)

(** A file in [pathContents] belongs to a module whose zip root is known,
    and has the contents that the store has. *)
Definition paths_coherent f : Prop := forall mv p v, ((mv, p), v) ∈ pathContents f ->
  exists mh, zipRootCache f !! mv = Some mh /\ (GetFile mh p (fs_store f)).1 = Ok v.

Lemma spec_find_elem {K V} `{Countable K} (k : K) (v : V) l : Spec.find k l = Some v -> (k, v) ∈ l.
Proof.
  induction l as [|[k' v'] l IH]; cbn [Spec.find fst snd]; [done|].
  case_decide as Hk; [intros [= ->]; subst; by left|]. intros ?. right. by apply IH.
Qed.

Lemma get_ok_elem {K V} `{Countable K} (k : K) (v : V) l l' :
  Spec.get_ok k l = (Some v, l') -> (k, v) ∈ l /\ l' ⊆ l.
Proof.
  unfold Spec.get_ok. destruct (Spec.find k l) as [v'|] eqn:Hf; [|done]. intros [= -> <-].
  apply spec_find_elem in Hf. split; [done|]. unfold Spec.remove. intros x [->|Hx]%elem_of_cons; [done|].
  by apply list_elem_of_filter in Hx as [_ ?].
Qed.

Lemma evict_some {K V} (mx : Z) (esz : K -> V -> Z) l :
  (0 <= mx)%Z -> exists l', Spec.evict mx esz l = Some l' /\ l' ⊆ l.
Proof.
  intros Hmx. unfold Spec.evict.
  assert (exists rl', Spec.evict_rev mx esz (reverse l) = Some rl' /\ rl' ⊆ reverse l) as (rl' & -> & Hs).
  { induction (reverse l) as [|x rl IH]; cbn [Spec.evict_rev].
    - exists []. split; [|done]. unfold Spec.over. cbn. rewrite (proj2 (Z.ltb_ge _ _)), andb_false_r by done. done.
    - case_match; [|by exists (x :: rl)]. destruct IH as (rl' & -> & ?). exists rl'. set_solver. }
  cbn. eexists. split; [done|]. intros x Hx. apply elem_of_reverse. apply Hs. by apply elem_of_reverse.
Qed.

(** [getFileContents] gives what the store has, keeps the cache coherent, and
    changes nothing else but the counters. *)
Lemma getFileContents_ok mv mh p f :
  (0 <= GetFileCacheSize cfg)%Z -> zipRootCache f !! mv = Some mh ->
  (forall v, ((mv, p), v) ∈ pathContents f -> (GetFile mh p (fs_store f)).1 = Ok v) ->
  exists f', getFileContents cfg mv mh p f = Some ((GetFile mh p (fs_store f)).1, f') /\
    fs_store f' = fs_store f /\ zipRootCache f' = zipRootCache f /\ fetched f' = fetched f /\
    (paths_coherent f -> paths_coherent f').
Proof.
  intros Hmx Hz Hc. unfold getFileContents. erewrite try_ok by done. unfold id.
  destruct (Spec.get_ok (mv, p) (pathContents f)) as [[v|] l] eqn:Hg.
  - apply get_ok_elem in Hg as [Hin Hl]. rewrite (Hc _ Hin). eexists. split; [done|]. cbn. split_and!; try done.
    intros Hco mv' p' v' Hin'. by apply Hco, Hl.
  - assert (l = pathContents f) as -> by (unfold Spec.get_ok in Hg; case_match; by simplify_eq).
    erewrite bind_some by done. erewrite bind_some by done. cbn beta iota.
    set (f1 := upd_cacheMiss _ _).
    assert (call_store (H := H) (W := W) (GetFile mh p) f1 = Some ((GetFile mh p (fs_store f)).1, f1)) as Hcall.
    { rewrite call_reads by apply GetFile_state. done. }
    destruct ((GetFile mh p (fs_store f)).1) as [v|e] eqn:Hv.
    + erewrite try_ok by done. erewrite bind_some by done.
      destruct (evict_some (GetFileCacheSize cfg) path_size (((mv, p), v) :: Spec.remove (mv, p) (pathContents f)) Hmx)
        as (l' & Hev & Hl').
      unfold pst_bind at 1. cbn [pathContents upd_cacheFill upd_cacheMiss upd_pathContents f1]. unfold Spec.set. rewrite Hev.
      eexists. split; [done|]. cbn. split_and!; try done.
      intros Hco mv' p' v' [[= -> -> ->]|Hin]%Hl'%elem_of_cons; [by eauto|].
      apply list_elem_of_filter in Hin as [_ Hin]. by apply Hco.
    + rewrite (try_err _ _ _ _ _ Hcall). eexists. split; [done|]. done.
Qed.

(** ** The contents that each front end gives *)

Definition nfs_contents (name : bytes) : M bytes :=
  r <-? getFileContentsUncached cfg now json name ;; pst_ok r.1.

(** A client opens the file and reads [n] bytes at a time until the end. *)
Definition webdav_contents (fuel n : nat) (name : bytes) : M bytes :=
  file <-? Webdav.OpenFile cfg json name Webdav.O_RDONLY ;;
  match file with
  | Webdav.FRegular r =>
      match SectionReader.ReadAll fuel n (Webdav.ReadSeeker r) with Some c => pst_ok c | None => pst_panic end
  | _ => pst_err ErrIsDir
  end.

Fixpoint fsp_read (fuel n : nat) (off : Z) (file : Fsp.winFSPRegularFile (H := H)) : M bytes :=
  match fuel with
  | O => pst_panic
  | Datatypes.S fuel' =>
      r <-! Fsp.ReadAt cfg n off file ;;
      match r with
      | (_, Some EOF, _) => pst_ok []
      | (_, Some e, _) => pst_err e
      | (p, None, file') => q <-? fsp_read fuel' n (off + Z.of_nat (length p)) file' ;; pst_ok (p ++ q)
      end
  end.

Definition fsp_contents (fuel n : nat) (name : bytes) : M bytes :=
  file <-? Fsp.OpenFile cfg now json name Webdav.O_RDONLY ;;
  match file with
  | Fsp.FspRegular r => fsp_read fuel n 0 r
  | _ => pst_err ErrIsDir
  end.

(** The contents, if that is how the call ends. *)
Definition content_of {A} (x : option (res A * FS)) : option A :=
  match x with Some (Ok c, _) => Some c | _ => None end.

(** ** Reading a file to its end *)

Lemma webdav_reads fuel n c : (0 < n)%nat -> (length c < fuel)%nat ->
  SectionReader.ReadAll fuel n (SectionReader.NewReader c) = Some c.
Proof. intros Hn Hf. rewrite SectionReader.ReadAll_from; cbn; [done|done|lia..]. Qed.

Definition settled (file : Fsp.winFSPRegularFile (H := H)) : Prop :=
  Fsp.getContents file = None \/ Fsp.haveData file = true.

Lemma data_settled file f : settled file -> Fsp.data cfg file f = Some (Ok (Fsp.contents file, file), f).
Proof.
  unfold Fsp.data. intros [-> | Hd]; [done|]. destruct (Fsp.getContents file) as [[[mv mh] p]|]; [|done]. by rewrite Hd.
Qed.

(** What is remembered is used from then on. *)
Lemma data_then_settled file f c file' f' :
  Fsp.data cfg file f = Some (Ok (c, file'), f') -> settled file' /\ Fsp.contents file' = c.
Proof.
  unfold Fsp.data. destruct (Fsp.getContents file) as [[[mv mh] p]|] eqn:Hg.
  - destruct (Fsp.haveData file) eqn:Hd; [intros [= <- <- _]; split; [by right|done]|].
    unfold pst_try, pst_bind. destruct (getFileContents cfg mv mh p f) as [[[v|] f1]|]; [intros [= <- <- _]|done..].
    split; [by right|done].
  - intros [= <- <- _]. split; [by left|done].
Qed.

(** [ReadAt] once the contents are found: the bytes at the offset, and EOF
    exactly when there are none to give to a buffer that has room. *)
Lemma ReadAt_data n off file f c file' f' :
  (0 <= off)%Z -> Fsp.data cfg file f = Some (Ok (c, file'), f') ->
  Fsp.ReadAt cfg n off file f =
  Some ((if decide ((Z.of_nat (length c) <= off)%Z /\ 0 < n) then ([], Some EOF, file')
         else (take n (drop (Z.to_nat off) c), None, file')), f').
Proof.
  intros Ho Hd. unfold Fsp.ReadAt. rewrite (bind_some _ _ _ _ _ Hd). rewrite (proj2 (Z.ltb_ge _ _)) by lia.
  assert (drop (Z.to_nat (Z.min off (Z.of_nat (length c)))) c = drop (Z.to_nat off) c) as ->.
  { destruct (decide (off <= Z.of_nat (length c))%Z); [by rewrite Z.min_l|]. rewrite !drop_ge by lia. done. }
  rewrite length_take, length_drop.
  repeat case_decide; try done; lia.
Qed.

Lemma fsp_read_from fuel n off file f : (0 < n)%nat -> (0 <= off)%Z -> settled file ->
  (length (Fsp.contents file) - Z.to_nat off < fuel)%nat ->
  fsp_read fuel n off file f = Some (Ok (drop (Z.to_nat off) (Fsp.contents file)), f).
Proof.
  intros Hn Ho Hs. revert off Ho. induction fuel as [|fuel IH]; intros off Ho Hf; [lia|]. cbn [fsp_read].
  rewrite (bind_some _ _ _ _ _ (ReadAt_data n off _ _ _ _ _ Ho (data_settled file f Hs))).
  case_decide; [by rewrite drop_ge by lia|]. set (c := Fsp.contents file) in *.
  assert (length (take n (drop (Z.to_nat off) c)) = n `min` (length c - Z.to_nat off))%nat as Hl
    by (by rewrite length_take, length_drop).
  rewrite Hl. erewrite try_ok by (apply IH; fold c; lia). unfold pst_ok, pst_ret. do 3 f_equal.
  rewrite <-(take_drop n (drop (Z.to_nat off) c)) at 2. f_equal. rewrite drop_drop.
  destruct (decide (n <= length c - Z.to_nat off)%nat); [f_equal; lia|]. rewrite !drop_ge; [done|lia..].
Qed.

Lemma fsp_read_all fuel n file f c file' f' : (0 < n)%nat -> (length c < fuel)%nat ->
  Fsp.data cfg file f = Some (Ok (c, file'), f') -> fsp_read fuel n 0 file f = Some (Ok c, f').
Proof.
  intros Hn Hf Hd. destruct (data_then_settled _ _ _ _ _ Hd) as [Hs Hc].
  destruct fuel as [|fuel]; [lia|]. cbn [fsp_read].
  rewrite (bind_some _ _ _ _ _ (ReadAt_data n 0 _ _ _ _ _ ltac:(lia) Hd)).
  case_decide; [destruct c; [done|cbn in *; lia]|]. rewrite drop_0.
  assert (0 < length c)%nat by lia.
  erewrite try_ok by (apply (fsp_read_from fuel n _ file' f' Hn); [lia|done|rewrite Hc, length_take; lia]).
  assert (drop (Z.to_nat (0 + Z.of_nat (length (take n c)))) c = drop n c) as Hdrop.
  { rewrite length_take. destruct (decide (n <= length c)%nat); [f_equal; lia|]. rewrite !drop_ge; [done|lia..]. }
  rewrite Hc, Hdrop, take_drop. done.
Qed.

Lemma fsp_read_err fuel n file f e f' : Fsp.data cfg file f = Some (Err e, f') -> e <> EOF -> (0 < fuel)%nat ->
  fsp_read fuel n 0 file f = Some (Err e, f').
Proof.
  intros Hd He Hf. destruct fuel; [lia|]. cbn [fsp_read]. unfold Fsp.ReadAt, pst_bind. rewrite Hd. cbn. by destruct e.
Qed.

(** ** The common specification *)

(** The contents of the file that a path names, but for the status file. *)
Definition file_of_path (name : bytes) : M bytes :=
  let dp := parsed name in
  if NotExist dp then pst_err ErrNotExist
  else if decide (WellKnown dp = wkTSGoExtracted) then
    pst_ok (tsgoExtractedFileContents (t_Hash (default (MkTriple [] [] []) (isTSGoModule (ModVersion dp)))))
  else if decide (WellKnown dp <> []) then pst_err ErrNotExist
  else if decide (CacheDownloadFileExt dp <> []) then getMetaFileByExt cfg (ModVersion dp) (CacheDownloadFileExt dp)
  else if negb (InZip dp) then pst_err ErrIsDir
  else mh <-? getZipRoot cfg (ModVersion dp) ;; call_store (GetFile mh (Path dp)).

Lemma content_of_try {A B} (m : M A) (k : A -> M B) f :
  content_of (pst_try m k f) = match m f with Some (Ok a, f') => content_of (k a f') | _ => None end.
Proof. unfold pst_try, pst_bind. by destruct (m f) as [[[a|e] f']|]. Qed.

Lemma content_of_catch {A B} (m : M A) (k : res A -> M B) f :
  content_of (pst_try (catch m) k f) = match m f with Some (r, f') => content_of (k r f') | None => None end.
Proof. unfold pst_try, pst_bind, catch. by destruct (m f) as [[r f']|]. Qed.

Lemma nfs_refines name f : WellKnown (parsed name) <> statusFile ->
  content_of (nfs_contents name f) = content_of (file_of_path name f).
Proof.
  intros Hst. unfold nfs_contents, file_of_path, getFileContentsUncached. rewrite content_of_try.
  destruct (NotExist (parsed name)); [done|]. case_decide as Hts; [done|]. rewrite (decide_False (P := _ = statusFile)) by done.
  case_decide; [done|]. case_decide.
  - unfold pst_try, pst_bind. by destruct (getMetaFileByExt _ _ _ _) as [[[v|e] f']|].
  - destruct (InZip (parsed name)); cbn [negb] in *; [|done]. unfold pst_try at 1, pst_bind at 1. rewrite content_of_try.
    destruct (getZipRoot _ _ _) as [[[mh|e] f1]|]; [|done..]. cbn beta iota.
    rewrite (call_reads (GetFile mh _)) by apply GetFile_state.
    destruct ((GetFile mh (Path (parsed name)) (fs_store f1)).1) as [c|e] eqn:Hc.
    + destruct (GetFile_Stat _ _ _ _ Hc) as (fi & Hfi & Hd).
      erewrite try_ok by (rewrite call_reads by apply Stat_state; by rewrite Hfi). rewrite Hd.
      erewrite try_ok by (rewrite call_reads by apply GetFile_state; by rewrite Hc). done.
    + unfold pst_try at 1, pst_bind at 1. rewrite call_reads by apply Stat_state.
      destruct ((Stat _ _ _).1) as [fi|]; [|done]. destruct (fi_IsDir fi); [done|].
      by rewrite (try_err _ _ _ e f1) by (rewrite call_reads by apply GetFile_state; by rewrite Hc).
Qed.

Lemma webdav_refines fuel n name f : WellKnown (parsed name) <> statusFile -> (0 < n)%nat ->
  (forall c, content_of (file_of_path name f) = Some c -> (length c < fuel)%nat) ->
  content_of (webdav_contents fuel n name f) = content_of (file_of_path name f).
Proof.
  intros Hst Hn Hf. unfold webdav_contents, file_of_path, Webdav.OpenFile in *. rewrite content_of_try.
  change (negb (Z.land Webdav.O_RDONLY Webdav.writeFlags =? 0)%Z) with false. cbn iota beta.
  destruct (NotExist (parsed name)); [done|]. destruct (decide (WellKnown (parsed name) <> [])) as [Hw|Hw].
  { rewrite (decide_False (P := _ = statusFile)) by done. case_decide; [|done].
    cbn in *. by rewrite webdav_reads by auto. }
  assert (WellKnown (parsed name) = []) as Hwk by (destruct (WellKnown (parsed name)); naive_solver).
  rewrite (decide_False (P := _ = wkTSGoExtracted)) in * by (rewrite Hwk; done).
  case_decide.
  - unfold pst_try, pst_bind, catch. destruct (getMetaFileByExt _ _ _ _) as [[[v|e] f']|]; [|done..].
    cbn. by rewrite webdav_reads by auto.
  - destruct (InZip (parsed name)); cbn [negb] in *; [|done]. rewrite content_of_try in *. unfold pst_try at 1, pst_bind at 1.
    destruct (getZipRoot _ _ _) as [[[mh|e] f1]|]; [|done..]. cbn beta iota in *.
    rewrite (call_reads (GetFile mh _)) in * by apply GetFile_state.
    unfold pst_try at 1, pst_bind at 1, catch. rewrite (call_reads (GetFile mh _)) by apply GetFile_state.
    destruct ((GetFile mh (Path (parsed name)) (fs_store f1)).1) as [c|e].
    + cbn. by rewrite webdav_reads by auto.
    + destruct (errors_Is e is_ErrIsDir); [|done]. unfold pst_try, pst_bind.
      by destruct (call_store (Readdir _ _) _) as [[[ents|] ?]|].
Qed.

(** On Windows the hello file and the root directory come first. *)
Lemma fsp_refines fuel n wname f :
  let name := Fsp.unixifyPath wname in
  name <> [] -> name <> Fsp.helloName -> WellKnown (parsed name) <> statusFile -> (0 < n)%nat ->
  (0 <= GetFileCacheSize cfg)%Z -> paths_coherent f ->
  fst <$> file_of_path name f <> Some (Err EOF) ->
  (forall c, content_of (file_of_path name f) = Some c -> (length c < fuel)%nat) -> (0 < fuel)%nat ->
  content_of (fsp_contents fuel n wname f) = content_of (file_of_path name f).
Proof.
  intros name Hne Hnh Hst Hn Hmx Hco Heof Hf Hfu. unfold fsp_contents, file_of_path, Fsp.OpenFile in *. rewrite content_of_try.
  change (negb (Z.land Webdav.O_RDONLY Webdav.O_WRONLY =? 0)%Z || negb (Z.land Webdav.O_RDONLY Webdav.O_RDWR =? 0)%Z) with false.
  cbn iota beta. fold name. rewrite (decide_False (P := name = [])), (decide_False (P := name = Fsp.helloName)) by done.
  change (negb (Z.land Webdav.O_RDONLY Webdav.writeFlags =? 0)%Z) with false. cbn iota beta.
  destruct (NotExist (parsed name)); [done|]. destruct (decide (WellKnown (parsed name) <> [])) as [Hw|Hw].
  { rewrite (decide_False (P := _ = statusFile)) by done. case_decide; [|done].
    cbn in Hf. unfold pst_ok at 1, pst_ret. cbn iota beta. by erewrite fsp_read_all by (done || auto). }
  assert (WellKnown (parsed name) = []) as Hwk by (destruct (WellKnown (parsed name)); naive_solver).
  rewrite (decide_False (P := _ = wkTSGoExtracted)) in * by (rewrite Hwk; done).
  case_decide.
  - unfold pst_try, pst_bind, catch. destruct (getMetaFileByExt _ _ _ _) as [[[v|e] f']|]; [|done..].
    unfold pst_ok at 1, pst_ret. cbn iota beta. by erewrite fsp_read_all by (done || auto).
  - destruct (InZip (parsed name)); cbn [negb] in *; [|done]. rewrite content_of_try in *. unfold pst_try at 1, pst_bind at 1.
    unfold pst_try, pst_bind in Heof.
    destruct (getZipRoot cfg (ModVersion (parsed name)) f) as [[[mh|e] f1]|] eqn:Hz; [|done..]. cbn beta iota in *.
    rewrite (call_reads (GetFile mh _)) in * by apply GetFile_state. cbn [fmap option_fmap option_map fst] in Heof.
    assert (forall v, (((ModVersion (parsed name)), Path (parsed name)), v) ∈ pathContents f1 ->
              (GetFile mh (Path (parsed name)) (fs_store f1)).1 = Ok v) as Hc1.
    { intros v Hin. rewrite (proj2 (caches_getZipRoot _ _ _ _ _ Hz)) in Hin.
      destruct (Hco _ _ _ Hin) as (mh' & Hmh & Hv). rewrite (getZipRoot_hit _ _ _ _ Hmh) in Hz. by simplify_eq. }
    destruct (getFileContents_ok (ModVersion (parsed name)) mh (Path (parsed name)) f1 Hmx (getZipRoot_caches _ _ _ _ _ Hz) Hc1)
      as (f2 & Hg & _).
    unfold pst_try at 1, pst_bind at 1. rewrite (call_reads (Stat mh _)) by apply Stat_state.
    destruct ((GetFile mh (Path (parsed name)) (fs_store f1)).1) as [c|e] eqn:Hc.
    + destruct (GetFile_Stat _ _ _ _ Hc) as (fi & -> & ->). unfold pst_ok at 1, pst_ret. cbn iota beta.
      erewrite (fsp_read_all fuel n _ f1 c _ f2); [done|done|by apply Hf|].
      unfold Fsp.data. cbn [Fsp.getContents Fsp.haveData]. rewrite (try_ok _ _ _ _ _ Hg). reflexivity.
    + destruct ((Stat _ _ _).1) as [fi|]; [|done]. destruct (fi_IsDir fi).
      * unfold pst_try, pst_bind. by destruct (call_store (Readdir _ _) _) as [[[ents|] ?]|].
      * unfold pst_ok at 1, pst_ret. cbn iota beta. erewrite (fsp_read_err fuel n _ f1 e f2); [done| |intros ->; apply Heof; by f_equal|done].
        unfold Fsp.data. cbn [Fsp.getContents Fsp.haveData]. by rewrite (try_err _ _ _ _ _ Hg).
Qed.
End fronts.

(** C3: NFS, WebDAV and WinFSP give the same contents for every path: each
    gives what [file_of_path] says, or fails when it does.  The store's
    reads change nothing and agree with each other, the cache of contents is
    coherent, and the readers' buffers are not empty; the status file, whose
    text is made anew for each reader, and the two names that only WinFSP
    has, are apart, and the store does not fail with [io.EOF], which a reader
    takes for the end. *)
Theorem front_ends_agree {S H W} `{SR : StoreReads S H} `{E : ModEscape} `{Wd : !World W} cfg now json fuel n wname (f : FS S H W) :
  let name := Fsp.unixifyPath wname in
  name <> [] -> name <> Fsp.helloName -> WellKnown (parsed name) <> statusFile ->
  (0 <= GetFileCacheSize cfg)%Z -> paths_coherent f -> (0 < n)%nat -> (0 < fuel)%nat ->
  fst <$> file_of_path cfg name f <> Some (Err EOF) ->
  (forall c, content_of (file_of_path cfg name f) = Some c -> (length c < fuel)%nat) ->
  content_of (nfs_contents cfg now json name f) = content_of (file_of_path cfg name f) /\
  content_of (webdav_contents cfg json fuel n name f) = content_of (file_of_path cfg name f) /\
  content_of (fsp_contents cfg now json fuel n wname f) = content_of (file_of_path cfg name f).
Proof.
  intros name Hne Hnh Hst Hmx Hco Hn Hfu Heof Hf. split_and!.
  - by apply nfs_refines.
  - by apply webdav_refines.
  - by apply fsp_refines.
Qed.

(** A file opened on Windows is read from the store at most once.  A
    [ReadAt] at an offset that is not negative gives the bytes there, and
    EOF exactly when there are none and the buffer has room; after one has
    succeeded, every later one gives the same contents whatever the state of
    the file system, and changes nothing.  Until then a failure is returned
    and tried again. *)
Theorem fsp_reads_once {E : ModEscape} {S H W} {St : Store S H} {Wd : World W} cfg (file : Fsp.winFSPRegularFile (H := H)) (f : FS S H W) n off :
  (0 <= off)%Z ->
  (forall c file' f', Fsp.data cfg file f = Some (Ok (c, file'), f') ->
     Fsp.ReadAt cfg n off file f =
       Some ((if decide ((Z.of_nat (length c) <= off)%Z /\ 0 < n) then ([], Some EOF, file')
              else (take n (drop (Z.to_nat off) c), None, file')), f') /\
     forall n' off' (g : FS S H W), (0 <= off')%Z ->
       Fsp.ReadAt cfg n' off' file' g =
         Some ((if decide ((Z.of_nat (length c) <= off')%Z /\ 0 < n') then ([], Some EOF, file')
                else (take n' (drop (Z.to_nat off') c), None, file')), g)) /\
  (forall e f', Fsp.data cfg file f = Some (Err e, f') -> Fsp.ReadAt cfg n off file f = Some (([], Some e, file), f')).
Proof.
  intros Ho. split.
  - intros c file' f' Hd. split; [by apply ReadAt_data|]. intros n' off' g Ho'.
    destruct (data_then_settled _ _ _ _ _ _ Hd) as [Hs <-]. apply ReadAt_data; [done|]. by apply data_settled.
  - intros e f' Hd. unfold Fsp.ReadAt. by rewrite (bind_some _ _ _ _ _ Hd).
Qed.

Import BangEscape.

Definition test_wname : bytes := str "\a.b\!m@v1.0.0\x\y.go".

Lemma test_size : (0 <= GetFileCacheSize test_cfg)%Z.
Proof. done. Qed.

Lemma front_ends_agree_witness :
  content_of (nfs_contents test_cfg 0 [] (str "a.b/!m@v1.0.0/x/y.go") test_fs) =
    content_of (fsp_contents test_cfg 0 [] 9 2 test_wname test_fs) /\
  content_of (webdav_contents test_cfg [] 9 2 (str "a.b/!m@v1.0.0/x/y.go") test_fs) = Some (str "y").
Proof.
  assert (content_of (file_of_path test_cfg (Fsp.unixifyPath test_wname) test_fs) = Some (str "y")) as Hc
    by (vm_compute; reflexivity).
  pose proof (front_ends_agree test_cfg 0 [] 9 2 test_wname test_fs) as Ha. cbv zeta in Ha.
  destruct Ha as (H1 & H2 & H3); [by vm_compute|by vm_compute|by vm_compute|by apply test_size|..].
  - intros mv p v Hin. vm_compute in Hin. by apply not_elem_of_nil in Hin.
  - lia.
  - lia.
  - by vm_compute.
  - intros c. rewrite Hc. intros [= <-]. vm_compute. lia.
  - rewrite Hc in *. split; [|exact H2]. transitivity (Some (str "y")); [exact H1|symmetry; exact H3].
Defined.

Definition test_file : Fsp.winFSPRegularFile (H := ModuleVersion) :=
  Fsp.MkFspRegular (dir_info []) (Some (test_mv, test_mv, str "x/y.go")) [] false.

Definition test_data : option (res (bytes * Fsp.winFSPRegularFile (H := ModuleVersion)) * FS mem ModuleVersion unit) :=
  Fsp.data test_cfg test_file test_fs.

Lemma fsp_reads_once_witness :
  exists file' f', test_data = Some (Ok (str "y", file'), f') /\
    Fsp.ReadAt test_cfg 2 0 test_file test_fs = Some ((str "y", None, file'), f') /\
    Fsp.ReadAt test_cfg 2 3 file' mem_fs = Some (([], Some EOF, file'), mem_fs).
Proof.
  destruct test_data as [[[[c file']|e] f']|] eqn:Hd; [|by vm_compute in Hd..].
  assert (c = str "y") as -> by (vm_compute in Hd; by injection Hd as <- _ _).
  exists file', f'. split; [done|].
  destruct (fsp_reads_once test_cfg test_file test_fs 2 0 ltac:(lia)) as [Hr _]. destruct (Hr _ _ _ Hd) as [H1 H2].
  split; [exact H1|]. exact (H2 2 3%Z mem_fs ltac:(lia)).
Defined.
