(* ===== verification/FuseProps.v ===== *)
(** * Properties of the FUSE server

    The kernel's walk over the elements of a path, one [Lookup] each, finds
    what [parsePath] makes of the whole path; and the reads of a file, with
    what a node remembers. *)

From S2P Require Import Prelude GoStrings Lru Store StoreTree Paths PathDir NfsAttr NfsCache MemStore FS FSFacts FSProps Fuse.

Local Open Scope gomodfs_scope.

Module FuseFacts.
Import Fuse.

(** ** Directories *)

(** The last entry of a name, with what is below it. *)
Fixpoint find_kid (name : bytes) (kids : list (Dirent * tree)) : option (Dirent * tree) :=
  match kids with
  | [] => None
  | (e, k) :: kids' =>
      match find_kid name kids' with
      | Some r => Some r
      | None => if decide (d_Name e = name) then Some (e, k) else None
      end
  end.

Lemma entMap_kids kids m name :
  entMap kids.*1 m !! name = match find_kid name kids with Some (e, _) => Some e | None => m !! name end.
Proof.
  revert m. induction kids as [|[e k] kids IH]; intros m; [done|]. cbn [fmap list_fmap fst entMap find_kid]. rewrite IH.
  destruct (find_kid name kids) as [[e' k']|]; [done|]. case_decide as Hd; [subst; by rewrite lookup_insert_eq|].
  by rewrite lookup_insert_ne.
Qed.

(** The path of an entry, below a path that is empty at the root. *)
Definition sub_path (path name : bytes) : bytes := if decide (path <> []) then path ++ str "/" ++ name else name.

(** What is at the end of a list of names in a tree: the path, the mode and
    the size. *)
Fixpoint tree_walk (t : tree) (path : bytes) (mode size : Z) (names : list bytes) : eres (bytes * Z * Z) :=
  match names with
  | [] => Done (path, mode, size)
  | name :: names' =>
      match t with
      | Leaf => Errno ENOTDIR
      | Dir kids =>
          match find_kid name kids with
          | Some (e, k) => tree_walk k (sub_path path name) (d_Mode e) (d_Size e) names'
          | None => Errno ENOENT
          end
      end
  end.

Section walks.
Context `{E : ModEscape} {S H W : Type} `{St : !Store S H} `{Wd : !World W} (cfg : config).
Implicit Types f : FS S H W.
Local Abbreviation modNode := (moduleNameNode (H := H)).

Lemma holds_kid s mh path kids name e k :
  holds_tree s mh path (Dir kids) -> find_kid name kids = Some (e, k) ->
  d_Name e = name /\ mode_IsDir (d_Mode e) = is_Dir k /\ holds_tree s mh (join_path path name) k.
Proof.
  intros [_ Hk]. revert Hk. induction kids as [|[e' k'] kids IH]; [done|]. intros (He & Ht & Hk). cbn [find_kid].
  destruct (find_kid name kids) as [r|]; [intros [= ->]; by apply IH|].
  case_decide as Hd; [intros [= <- <-]; by subst|done].
Qed.

Lemma sub_join path name : sub_path path name = join_path path name.
Proof. unfold sub_path, join_path. destruct (decide (path = [])); [by rewrite decide_False by tauto|by rewrite decide_True]. Qed.

(** A walk in the module's tree, from a node whose entries were not read. *)
Lemma walk_tree mv mh t path mode size f names :
  holds_tree (fs_store f) mh path t -> mode_IsDir mode = is_Dir t ->
  walk cfg (zipNode (MkZipNode mv mh mode size path None [] None)) names f =
  Some (match tree_walk t path mode size names with
        | Done (p, m, n) => Done (zipNode (MkZipNode mv mh m n p None [] None))
        | Errno e => Errno e
        end, f).
Proof.
  revert t path mode size. induction names as [|name names IH]; intros t path mode size Ht Hm; [done|].
  cbn [walk tree_walk Lookup]. unfold zipNode_Lookup. cbn [zn_mode]. rewrite Hm. destruct t as [|kids]; [done|].
  cbn [is_Dir negb]. unfold initDirEntsLocked. cbn [zn_ent zn_root zn_path].
  pose proof Ht as [Hr _]. unfold pst_bind. rewrite (call_store_same _ _ _ Hr). cbn [pst_ret fst snd].
  cbn [zn_ent default from_option id]. rewrite entMap_kids, lookup_empty.
  destruct (find_kid name kids) as [[e k]|] eqn:Hf; [|done].
  destruct (holds_kid _ _ _ _ _ _ _ Ht Hf) as (_ & Hd & Hk). cbn [fst snd pst_ret].
  unfold childNode. cbn [zn_mv zn_root]. change (childPath _ name) with (sub_path path name).
  rewrite <-sub_join in Hk. by apply IH.
Qed.

Lemma walk_app n a b f :
  walk cfg n (a ++ b) f =
  match walk cfg n a f with
  | Some (Done n', f') => walk cfg n' b f'
  | Some (Errno e, f') => Some (Errno e, f')
  | None => None
  end.
Proof.
  revert n f. induction a as [|x a IH]; intros n f; [done|]. cbn [app walk]. unfold pst_bind.
  destruct (Lookup cfg n x _ f) as [[r f']|]; [|done]. destruct (r.1.1) as [[child m]|e]; [apply IH|done].
Qed.

(** ** Module directories *)

(** The element is none that the root treats apart. *)
Definition plain_root (name : bytes) : Prop :=
  name <> str "cache" /\ name <> statusFile /\ CutPrefix name (str "tsgo-") = None.

Lemma Contains_at_false s : "@"%char ∉ s -> Contains s (str "@") = false.
Proof. intros Hc. unfold Contains. by rewrite (Cut_byte_None s "@"%char Hc : Cut s (str "@") = None). Qed.

Lemma Cut_at a b : "@"%char ∉ a -> Cut (a ++ "@"%char :: b) (str "@") = Some (a, b).
Proof. apply Cut_byte. Qed.

Lemma Contains_at_true a b : "@"%char ∉ a -> Contains (a ++ "@"%char :: b) (str "@") = true.
Proof. intros Hc. unfold Contains. by rewrite Cut_at. Qed.

(** Elements without [@] only extend the path. *)
Lemma walk_names paths names rest f :
  (paths = [] -> forall x, head names = Some x -> plain_root x) -> Forall (fun w => "@"%char ∉ w) names ->
  walk cfg (modNode paths) (names ++ rest) f = walk cfg (modNode (paths ++ names)) rest f.
Proof.
  revert paths. induction names as [|x names IH]; intros paths Hp Hat; [by rewrite app_nil_r|].
  apply Forall_cons in Hat as [Hx Hat]. cbn [app walk Lookup]. unfold moduleNameNode_Lookup.
  rewrite (Contains_at_false x Hx).
  assert (forall out, (pst_bind (found (modNode (paths ++ [x])) dirMode out) (fun y => pst_ret (y, modNode paths))) f =
    Some ((Done (modNode (paths ++ [x]), dirMode), out), modNode paths, f)) as Hfound by done.
  replace (paths ++ x :: names) with ((paths ++ [x]) ++ names) by (by rewrite <-app_assoc).
  unfold pst_bind at 1. case_decide as Hd.
  - destruct (Hp Hd x eq_refl) as (Hc & Hs & Ht). rewrite !decide_False by done. rewrite Ht.
    rewrite Hfound. cbn [fst]. apply IH; [|done]. by destruct paths.
  - rewrite Hfound. cbn [fst]. apply IH; [|done]. by destruct paths.
Qed.

(** The element that has the version opens the zip root. *)
Lemma Lookup_module paths a ev em mv out f :
  (paths = [] -> plain_root (a ++ "@"%char :: ev)) -> "@"%char ∉ a ->
  em = join_byte slash (paths ++ [a]) ->
  UnescapePath em = Ok (Module mv) -> UnescapeVersion ev = Ok (Version mv) ->
  Lookup cfg (modNode paths) (a ++ "@"%char :: ev) out f =
  match getZipRoot cfg mv f with
  | Some (Ok root, f') => Some ((Done (newZipRoot mv root, dirMode), setLongTTL out), modNode paths, f')
  | Some (Err _, f') => Some ((Errno EIO_, setLongTTL out), modNode paths, f')
  | None => None
  end.
Proof.
  intros Hp Ha -> Hm Hv. cbn [Lookup]. unfold moduleNameNode_Lookup. rewrite (Contains_at_true a ev Ha).
  assert (forall out, (pst_bind (lookupModule cfg paths (a ++ "@"%char :: ev) out) (fun y => pst_ret (y, modNode paths))) f =
    match getZipRoot cfg mv f with
    | Some (Ok root, f') => Some ((Done (newZipRoot mv root, dirMode), out), modNode paths, f')
    | Some (Err _, f') => Some ((Errno EIO_, out), modNode paths, f')
    | None => None
    end) as Hl.
  { intros out'. unfold lookupModule. rewrite (Cut_at a ev Ha). cbn [default from_option id].
    assert ((if decide (paths = []) then a else join_byte slash paths ++ str "/" ++ a) = join_byte slash (paths ++ [a])) as ->.
    { case_decide as Hd; [by subst|]. by rewrite join_snoc. }
    rewrite Hm, Hv. replace (MkMV (Module mv) (Version mv)) with mv by (by destruct mv).
    unfold pst_bind. by destruct (getZipRoot cfg mv f) as [[[root|e] f']|]. }
  case_decide as Hd; [|apply Hl].
  destruct (Hp Hd) as (Hc & Hs & Ht). rewrite !decide_False by done. rewrite Ht. apply Hl.
Qed.

Lemma split_at em ev : slash ∉ ev ->
  exists dirs a, em = join_byte slash (dirs ++ [a]) /\
    splitSegs (em ++ "@"%char :: ev) = dirs ++ [a ++ "@"%char :: ev] /\ Forall (fun w => slash ∉ w) (dirs ++ [a]).
Proof.
  intros Hev. destruct (split_byte slash em) as [|x l] eqn:Hs using rev_ind; [by destruct (split_byte_nonempty slash em)|].
  clear IHl. rename l into dirs. pose proof (join_split slash em) as Hj. pose proof (split_byte_no_sep slash em) as Hf.
  rewrite Hs in Hj, Hf. exists dirs, x. split_and!; [done| |done].
  unfold splitSegs. rewrite decide_False by (by destruct em).
  apply Forall_app in Hf as [Hd Hx]. apply Forall_cons in Hx as [Hx _].
  assert (em ++ "@"%char :: ev = join_byte slash (dirs ++ [x ++ "@"%char :: ev])) as ->.
  { rewrite <-Hj. destruct (decide (dirs = [])) as [->|Hne]; [done|]. rewrite !join_snoc by done. by rewrite <-app_assoc. }
  apply split_join; [by destruct dirs|]. apply Forall_app. split; [done|]. constructor; [|done].
  rewrite elem_of_app, elem_of_cons. intros [?|[?|?]]; done.
Qed.

(** The first element of a module's directory is none that the root treats
    apart. *)
Lemma plain_head `{L : !ModEscapeLaws E} p em ev y rest :
  EscapePath p = Ok em -> head em <> Some dot -> CutPrefix (em ++ str "@" ++ ev) (str "tsgo-") = None ->
  em ++ str "@" ++ ev = y ++ rest -> (rest = [] \/ exists r, rest = slash :: r) -> plain_root y.
Proof.
  intros Hm Hd Ht Hy Hr. pose proof (EscapePath_at _ _ Hm) as Hat. destruct (EscapePath_dot _ _ Hm) as (a & b & -> & Ha). split_and!.
  - intros ->. rewrite <-app_assoc in Hy. destruct Hr as [->|[r ->]].
    + do 6 (destruct a as [|? a]; [by simplify_eq/=|]). by simplify_eq/=.
    + do 6 (destruct a as [|? a]; [by simplify_eq/=|]). simplify_eq/=. apply Ha. do 5 right. by left.
  - intros ->. destruct a as [|c a]; [done|]. by simplify_eq/=.
  - apply CutPrefix_None. intros [r ->]. apply CutPrefix_None in Ht. apply Ht. exists (r ++ rest). by rewrite Hy, <-app_assoc.
Qed.

Lemma walk_module `{L : !ModEscapeLaws E} mv em ev f :
  EscapePath (Module mv) = Ok em -> EscapeVersion (Version mv) = Ok ev ->
  head em <> Some dot -> CutPrefix (em ++ str "@" ++ ev) (str "tsgo-") = None ->
  walk cfg root (splitSegs (em ++ str "@" ++ ev)) f =
  match getZipRoot cfg mv f with
  | Some (Ok mh, f') => Some (Done (newZipRoot mv mh), f')
  | Some (Err _, f') => Some (Errno EIO_, f')
  | None => None
  end.
Proof.
  intros Hm Hv Hd Ht. destruct (EscapeVersion_elem _ _ Hv) as [_ Hs]. pose proof (EscapePath_at _ _ Hm) as Hat.
  change (str "@" ++ ev) with ("@"%char :: ev) in *.
  destruct (split_at em ev Hs) as (dirs & a & Hem & -> & Hno).
  assert (Forall (fun w => "@"%char ∉ w) (dirs ++ [a])) as Hats.
  { apply Forall_forall. intros w Hw Hin. apply Hat. rewrite Hem. clear -Hw Hin.
    induction (dirs ++ [a]) as [|x l IH]; [by apply not_elem_of_nil in Hw|]. destruct l as [|y l]; cbn [join_byte].
    - apply list_elem_of_singleton in Hw as ->. done.
    - apply elem_of_app. apply elem_of_cons in Hw as [->|Hw]; [by left|]. right. right. by apply IH. }
  apply Forall_app in Hats as [Hda Haa]. apply Forall_cons in Haa as [Haa _].
  assert (forall x r, dirs ++ [a ++ "@"%char :: ev] = x :: r -> plain_root x) as Hpl.
  { intros x r Hxr. apply (plain_head (Module mv) em ev x (match r with [] => [] | _ => slash :: join_byte slash r end)); try done.
    - change (str "@" ++ ev) with ("@"%char :: ev).
      assert (em ++ "@"%char :: ev = join_byte slash (dirs ++ [a ++ "@"%char :: ev])) as ->.
      { rewrite Hem. destruct (decide (dirs = [])) as [->|]; [done|]. rewrite !join_snoc by done. by rewrite <-app_assoc. }
      rewrite Hxr. destruct r; [by rewrite app_nil_r|done].
    - destruct r; [by left|]. right. eauto. }
  unfold root. rewrite walk_names; [|by intros _ x Hx; destruct dirs; simplify_eq/=; eapply Hpl|done].
  cbn [app walk]. unfold pst_bind.
  rewrite (Lookup_module dirs a ev em mv); [|by intros ->; eapply Hpl|done|done|by apply Unescape_EscapePath|by apply Unescape_EscapeVersion].
  by destruct (getZipRoot cfg mv f) as [[[mh|e] f']|].
Qed.

Lemma tree_walk_path t path mode size names p m n :
  Forall elem_ok names -> tree_walk t (join_byte slash path) mode size names = Done (p, m, n) ->
  Forall elem_ok path -> p = join_byte slash (path ++ names).
Proof.
  revert t path mode size. induction names as [|x names IH]; intros t path mode size Hn Hw Hp.
  - rewrite app_nil_r. cbn in Hw. by simplify_eq.
  - cbn in Hw. apply Forall_cons in Hn as [Hx Hn]. destruct t as [|kids]; [done|].
    destruct (find_kid x kids) as [[e k]|]; [|done].
    replace (path ++ x :: names) with ((path ++ [x]) ++ names) by (by rewrite <-app_assoc).
    eapply (IH k _ (d_Mode e) (d_Size e)); [done| |by apply Forall_app; split; [|constructor]].
    rewrite <-Hw. f_equal. unfold sub_path. destruct Hp as [|y path [Hy _] Hp]; [by rewrite decide_False by auto|].
    rewrite decide_True; [by rewrite join_snoc|]. destruct y; [done|]. by destruct path.
Qed.

(** ** The download cache *)

Lemma Lookup_download segs names rest f :
  Forall (fun w => "@"%char ∉ w) names ->
  walk cfg (cacheDownloadNode (H := H) segs []) (names ++ rest) f = walk cfg (cacheDownloadNode (segs ++ names) []) rest f.
Proof.
  revert segs. induction names as [|x names IH]; intros segs Hat; [by rewrite app_nil_r|].
  apply Forall_cons in Hat as [Hx Hat]. cbn [app walk Lookup]. unfold cacheDownloadNode_Lookup.
  rewrite decide_False by tauto. rewrite decide_False by (intros ->; apply Hx; by left).
  unfold found, pst_bind, pst_ret. cbn [fst]. rewrite IH by done. by rewrite <-app_assoc.
Qed.

Lemma not_partial ev ext : ext ∈ [str "mod"; str "ziphash"; str "info"] -> HasSuffix (ev ++ dot :: ext) (str ".partial") = false.
Proof.
  intros Hext. unfold HasSuffix. destruct (CutSuffix _ _) as [r|] eqn:Hc; [|done]. apply CutSuffix_Some in Hc. exfalso.
  change (str ".partial") with (str ".partia" ++ ["l"%char]) in Hc. rewrite app_assoc in Hc.
  assert (exists x c, dot :: ext = x ++ [c] /\ c <> "l"%char) as (x & c & Hx & Hne).
  { repeat (apply elem_of_cons in Hext as [->|Hext]; [|]).
    - by exists (str ".mo"), "d"%char.
    - by exists (str ".ziphas"), "h"%char.
    - by exists (str ".inf"), "o"%char.
    - by apply not_elem_of_nil in Hext. }
  rewrite Hx, app_assoc in Hc. apply app_inj_2 in Hc as [_ [= ->]]; done.
Qed.

Lemma lookup_meta module ev ext out f :
  slash ∉ ev -> ext ∈ [str "mod"; str "ziphash"; str "info"] ->
  lookupUnderModule cfg module (ev ++ dot :: ext) out f =
  match getMetaFileByExt cfg (MkMV module ev) ext f with
  | Some (Ok v, f') => Some (Done (memFile (H := H) v m644, fileMode), setSize (Z.of_nat (length v)) out, f')
  | Some (Err _, f') => Some (Errno EIO_, out, f')
  | None => None
  end.
Proof.
  intros Hev Hext. unfold lookupUnderModule. rewrite not_partial by done.
  assert (slash ∉ ext /\ dot ∉ ext /\ dot :: ext ∈ [str ".info"; str ".mod"; str ".ziphash"]) as (Hs & Hd & Hin).
  { repeat (apply elem_of_cons in Hext as [->|Hext]; [by split_and!; by_decide|]). by apply not_elem_of_nil in Hext. }
  rewrite path_Ext_elem by done. rewrite decide_True by done. rewrite TrimSuffix_app. cbn [drop]. unfold pst_bind.
  by destruct (getMetaFileByExt cfg _ _ f) as [[[v|e] f']|].
Qed.
End walks.
End FuseFacts.

Import Fuse FuseFacts.

Lemma splitSegs_below s names : s <> [] -> Forall elem_ok names ->
  splitSegs (join_byte slash (s :: names)) = splitSegs s ++ names.
Proof.
  intros Hs Hn. destruct (decide (names = [])) as [->|Hne]; [by rewrite app_nil_r|].
  assert (join_byte slash (s :: names) = join_byte slash (split_byte slash s ++ names)) as ->.
  { rewrite join_byte_app by (done || apply split_byte_nonempty). rewrite join_split. by destruct names. }
  unfold splitSegs. rewrite (decide_False (P := s = [])) by done. rewrite decide_False.
  - apply split_join; [by destruct (split_byte slash s)|]. apply Forall_app. split; [apply split_byte_no_sep|].
    eapply Forall_impl; [exact Hn|]. by intros w [_ ?].
  - rewrite join_byte_app by (done || apply split_byte_nonempty). by destruct (join_byte slash (split_byte slash s)).
Qed.

Lemma TrimSuffix_slash names : Forall elem_ok names -> TrimSuffix (join_byte slash names) (str "/") = join_byte slash names.
Proof.
  intros Hn. unfold TrimSuffix. destruct (CutSuffix _ _) as [r|] eqn:Hc; [|done]. apply CutSuffix_Some in Hc.
  destruct names as [|x names _] using rev_ind; [by destruct r|]. apply Forall_app in Hn as [_ [[Hx Hs] _]%Forall_cons].
  assert (exists p, join_byte slash (names ++ [x]) = p ++ x) as [p Hp].
  { destruct (decide (names = [])) as [->|]; [by exists []|]. exists (join_byte slash names ++ [slash]).
    by rewrite join_snoc, <-app_assoc. }
  rewrite Hc in Hp. destruct x as [|d x _] using rev_ind; [done|]. rewrite app_assoc in Hp.
  apply app_inj_2 in Hp as [_ [= <-]]; [|done]. set_solver.
Qed.

(** A walk below the directory of a module version. *)
Lemma walk_parsed {S H W} `{L : ModEscapeLaws} `{St : !Store S H} `{Wd : !World W} cfg mv em ev names t (f : FS S H W) :
  isTSGoModule mv = None -> EscapePath (Module mv) = Ok em -> EscapeVersion (Version mv) = Ok ev ->
  head em <> Some dot -> CutPrefix (em ++ str "@" ++ ev) (str "tsgo-") = None -> Forall elem_ok names ->
  (forall mh f1, getZipRoot cfg mv f = Some (Ok mh, f1) -> holds_tree (fs_store f1) mh [] t /\ is_Dir t = true) ->
  let name := join_byte slash ((em ++ str "@" ++ ev) :: names) in
  parsed name = MkPath [] false [] true (join_byte slash names) mv /\
  walk cfg root (splitSegs name) f =
  match getZipRoot cfg (ModVersion (parsed name)) f with
  | Some (Ok mh, f1) =>
      Some (match tree_walk t [] ModeDir 0 names with
            | Done (_, mode, size) =>
                Done (zipNode (MkZipNode (ModVersion (parsed name)) mh mode size (Path (parsed name)) None [] None))
            | Errno e => Errno e
            end, f1)
  | Some (Err _, f1) => Some (Errno EIO_, f1)
  | None => None
  end.
Proof.
  intros Hts Hm Hv Hd Ht Hn Htree name.
  assert (parsed name = MkPath [] false [] true (join_byte slash names) mv) as Hp.
  { destruct (EscapeVersion_elem _ _ Hv) as [_ Hs]. pose proof (EscapePath_at _ _ Hm) as Hat.
    assert (CutPrefix em (str "tsgo-") = None) as Ht'.
    { apply CutPrefix_None in Ht. apply CutPrefix_None. intros ?. by apply Ht, prefix_app_r. }
    unfold name. destruct names as [|x names].
    - cbn [join_byte]. rewrite <-(app_nil_r ev). rewrite parsed_module; [|done|done| |done|by left].
      + by rewrite (unescape_pair_escaped mv).
      + by eapply EscapePath_dot.
    - change (join_byte slash ((em ++ str "@" ++ ev) :: x :: names)) with
        ((em ++ str "@" ++ ev) ++ slash :: join_byte slash (x :: names)).
      rewrite <- !app_assoc. rewrite parsed_module; [|done|done| |done|by right].
      + rewrite (unescape_pair_escaped mv) by done. unfold module_result. cbn [fst snd].
        change (drop 1 (slash :: join_byte slash (x :: names))) with (join_byte slash (x :: names)).
        by rewrite TrimSuffix_slash.
      + by eapply EscapePath_dot. }
  split; [done|]. rewrite Hp. cbn [ModVersion Path]. unfold name.
  rewrite splitSegs_below; [|by destruct em|done]. rewrite walk_app, (walk_module cfg mv em ev f Hm Hv Hd Ht).
  destruct (getZipRoot cfg mv f) as [[[mh|e] f1]|] eqn:Hz; [|done..].
  destruct (Htree _ _ eq_refl) as [Hh Hdir]. unfold newZipRoot. rewrite (walk_tree cfg mv mh t [] ModeDir 0 f1 names Hh) by done.
  destruct (tree_walk t [] ModeDir 0 names) as [[[p m] n]|e] eqn:Hw; [|done].
  by rewrite (tree_walk_path t [] ModeDir 0 names p m n Hn Hw).
Qed.

(** C10: a walk of the kernel through the FUSE nodes finds what [parsePath]
    makes of the whole path.  For a path below the directory of a module
    version, the walk opens the version's zip root, or fails with EIO when
    that fails; it then follows the module's tree, to a node for the path in
    the zip that [parsePath] gives, with the mode and size of its entry; a
    name that is not there is ENOENT, one below a file ENOTDIR. *)
Theorem fuse_walk_parsed {S H W} `{L : ModEscapeLaws} `{St : !Store S H} `{Wd : !World W} cfg mv em ev names t (f : FS S H W) :
  isTSGoModule mv = None -> EscapePath (Module mv) = Ok em -> EscapeVersion (Version mv) = Ok ev ->
  head em <> Some dot -> CutPrefix (em ++ str "@" ++ ev) (str "tsgo-") = None -> Forall elem_ok names ->
  (forall mh f1, getZipRoot cfg mv f = Some (Ok mh, f1) -> holds_tree (fs_store f1) mh [] t /\ is_Dir t = true) ->
  let name := join_byte slash ((em ++ str "@" ++ ev) :: names) in
  parsed name = MkPath [] false [] true (join_byte slash names) mv /\
  walk cfg root (splitSegs name) f =
  match getZipRoot cfg (ModVersion (parsed name)) f with
  | Some (Ok mh, f1) =>
      Some (match tree_walk t [] ModeDir 0 names with
            | Done (_, mode, size) =>
                Done (zipNode (MkZipNode (ModVersion (parsed name)) mh mode size (Path (parsed name)) None [] None))
            | Errno e => Errno e
            end, f1)
  | Some (Err _, f1) => Some (Errno EIO_, f1)
  | None => None
  end.
Proof. apply walk_parsed. Qed.

(** C11: a walk to a file of the download cache, the path that [cdPath] prints
    for a module version and an extension, ends in that file of the module
    with the version as it is escaped in the name: [lookupUnderModule] does
    not undo the escaping, where [parsePath] does. *)
Theorem fuse_walk_meta {S H W} `{L : ModEscapeLaws} `{St : !Store S H} `{Wd : !World W} cfg mv em ev ext (f : FS S H W) :
  EscapePath (Module mv) = Ok em -> EscapeVersion (Version mv) = Ok ev -> head ev <> Some dot ->
  ext ∈ [str "mod"; str "ziphash"; str "info"] ->
  parsed (cdPath mv ext) = MkPath [] false ext false [] mv /\
  walk cfg root (splitSegs (cdPath mv ext)) f =
  match getMetaFileByExt cfg (MkMV (Module mv) ev) ext f with
  | Some (Ok v, f') => Some (Done (memFile v m644), f')
  | Some (Err _, f') => Some (Errno EIO_, f')
  | None => None
  end.
Proof.
  intros Hm Hv Hd Hext. destruct (EscapeVersion_elem _ _ Hv) as [Hne Hs]. pose proof (EscapePath_at _ _ Hm) as Hat. split.
  { unfold cdPath. rewrite Hm, Hv. cbn [ok_or_empty]. rewrite parsed_cache by done. by rewrite (unescape_pair_escaped mv). }
  assert (splitSegs (cdPath mv ext) = [str "cache"; str "download"] ++ split_byte slash em ++ [str "@v"; ev ++ dot :: ext]) as ->.
  { assert (slash ∉ ext) by (repeat (apply elem_of_cons in Hext as [->|Hext]; [by_decide|]); by apply not_elem_of_nil in Hext).
    unfold splitSegs. rewrite decide_False by done.
    rewrite <-(split_join slash (_ ++ _)); [f_equal|done|].
    - unfold cdPath. rewrite Hm, Hv. cbn [ok_or_empty].
      rewrite join_byte_app; [|done|by destruct (split_byte slash em)]. rewrite join_byte_app by (done || apply split_byte_nonempty).
      rewrite join_split. cbn [join_byte].
      change (str "cache/download/") with (str "cache" ++ slash :: str "download" ++ [slash]).
      change (str "/@v/") with (slash :: str "@v" ++ [slash]). rewrite <- !app_assoc. cbn [app]. by rewrite <- !app_assoc.
    - repeat (apply Forall_cons; split; [by_decide|]). apply Forall_app. split; [apply split_byte_no_sep|].
      apply Forall_cons. split; [by_decide|]. apply Forall_singleton.
      rewrite elem_of_app, elem_of_cons. intros [?|[?|?]]; done. }
  cbn [app walk]. unfold pst_bind at 1. cbn [Lookup root]. unfold moduleNameNode_Lookup.
  rewrite !decide_True by done. unfold found, pst_bind, pst_ret. cbn [fst snd].
  cbn [Lookup]. unfold cacheRootNode_Lookup. rewrite decide_False by tauto. unfold found, pst_bind, pst_ret. cbn [fst].
  rewrite Lookup_download.
  2:{ apply Forall_forall. intros w Hw Hin. apply Hat. rewrite <-(join_split slash em). clear -Hw Hin.
      induction (split_byte slash em) as [|x l IH]; [by apply not_elem_of_nil in Hw|]. destruct l as [|y l]; cbn [join_byte].
      - apply list_elem_of_singleton in Hw as ->. done.
      - apply elem_of_app. apply elem_of_cons in Hw as [->|Hw]; [by left|]. right. right. by apply IH. }
  cbn [app walk Lookup]. unfold cacheDownloadNode_Lookup. rewrite decide_False by tauto. rewrite decide_True by done.
  rewrite join_split, (Unescape_EscapePath _ _ Hm). unfold found, pst_bind, pst_ret. cbn [fst].
  cbn [Lookup]. unfold cacheDownloadNode_Lookup. rewrite decide_True by (by eapply EscapePath_nonempty).
  unfold pst_bind. rewrite lookup_meta by done.
  by destruct (getMetaFileByExt cfg _ ext f) as [[[v|e] f2]|].
Qed.

(** ** Reads *)

Lemma slice_ok c off dest : (0 <= off <= Z.of_nat (length c))%Z -> (off + Z.of_nat dest < 2 ^ 63)%Z ->
  slice c off (readEnd c off dest) = Some (take dest (drop (Z.to_nat off) c)).
Proof.
  intros Ho Hd. unfold slice, readEnd. rewrite i64_small by lia.
  destruct (Z.ltb_spec (Z.of_nat (length c)) (off + Z.of_nat dest)) as [Hl|Hl].
  - rewrite (proj2 (Z.leb_le 0 off)), (proj2 (Z.leb_le off _)), (proj2 (Z.leb_le _ _)) by lia. cbn [andb]. f_equal.
    rewrite !take_ge; [done|rewrite length_drop; lia..].
  - rewrite (proj2 (Z.leb_le 0 off)), (proj2 (Z.leb_le off _)), (proj2 (Z.leb_le (off + _) _)) by lia. cbn [andb].
    do 2 f_equal. lia.
Qed.

Lemma slice_panics c off dest : (Z.of_nat (length c) < off)%Z -> slice c off (readEnd c off dest) = None.
Proof.
  intros Ho. unfold slice, readEnd. rewrite (andb_comm (0 <=? off)%Z).
  destruct (Z.ltb_spec (Z.of_nat (length c)) (i64 (off + Z.of_nat dest))) as [Hl|Hl];
    by rewrite (proj2 (Z.leb_gt off _)) by lia.
Qed.

(** What a read at [off] of a file with contents [c] gives: a slice, or a
    panic past the end. *)
Definition read_of (c : bytes) (dest : nat) (off : Z) : option (eres bytes) :=
  if decide (off <= Z.of_nat (length c))%Z then Some (Done (take dest (drop (Z.to_nat off) c))) else None.

Lemma zipNode_Read_at_ok c dest off : (0 <= off)%Z -> (off + Z.of_nat dest < 2 ^ 63)%Z ->
  zipNode_Read_at c dest off = read_of c dest off.
Proof.
  intros Ho Hd. unfold zipNode_Read_at, read_of. rewrite i64_small by lia. rewrite (proj2 (Z.ltb_ge _ _)) by lia.
  case_decide; [by rewrite slice_ok by lia|]. by rewrite slice_panics by lia.
Qed.

Lemma memFile_Read_ok c dest off : (0 <= off)%Z -> (off + Z.of_nat dest < 2 ^ 63)%Z ->
  memFile_Read c dest off = read_of c dest off.
Proof.
  intros Ho Hd. unfold memFile_Read, read_of.
  case_decide; [by rewrite slice_ok by lia|]. by rewrite slice_panics by lia.
Qed.

(** The contents of a file node: remembered, or the store's. *)
Definition node_contents {S H W} `{St : !Store S H} (n : pathUnderZipRoot H) (f : FS S H W) : option (res bytes * FS S H W) :=
  match zn_fileContent n with
  | Some c => Some (Ok c, f)
  | None => call_store (GetFile (zn_root n) (zn_path n)) f
  end.

(** C24: reading a file through FUSE, in any of the three kinds of file,
    gives the bytes at the offset, at most as many as asked for, and panics
    for an offset past the end.  A node reads its file from the store once:
    when that succeeded, every later read gives the same contents in any
    state of the file system and changes nothing; when it failed the read is
    an EIO and the node is as before. *)
Theorem fuse_read {S H W} `{St : !Store S H} (n : pathUnderZipRoot H) dest off (f f' : FS S H W) r :
  mode_IsDir (zn_mode n) = false -> (0 <= off)%Z -> (off + Z.of_nat dest < 2 ^ 63)%Z ->
  node_contents n f = Some (r, f') ->
  match r with
  | Err _ => zipNode_Read n dest off f = Some (Errno EIO_, n, f')
  | Ok c =>
      memFile_Read c dest off = read_of c dest off /\
      statusFileNode_Read (Some c) dest off = read_of c dest off /\
      exists n', zipNode_Read n dest off f = (fun x => (x, n', f')) <$> read_of c dest off /\
        forall dest' off' g, (0 <= off')%Z -> (off' + Z.of_nat dest' < 2 ^ 63)%Z ->
          zipNode_Read (W := W) n' dest' off' g = (fun x => (x, n', g)) <$> read_of c dest' off'
  end.
Proof.
  intros Hm Ho Hd Hc.
  assert ((match zn_fileContent n with Some c => pst_ret (Ok c) | None => call_store (GetFile (zn_root n) (zn_path n)) end) f =
    Some (r, f')) as Hf by (unfold node_contents in Hc; by destruct (zn_fileContent n)).
  destruct r as [c|e]; [|unfold zipNode_Read; rewrite Hm; unfold pst_bind; by rewrite Hf].
  split_and!; [by apply memFile_Read_ok|by apply (memFile_Read_ok c)|].
  unfold zipNode_Read at 1. rewrite Hm. unfold pst_bind at 1. rewrite Hf.
  eexists. split.
  - rewrite zipNode_Read_at_ok by done. by destruct (read_of c dest off).
  - intros dest' off' g Ho' Hd'. unfold zipNode_Read. cbn [zn_mode zn_fileContent]. rewrite Hm.
    unfold pst_bind, pst_ret. rewrite zipNode_Read_at_ok by done. by destruct (read_of c dest' off').
Qed.

(** ** Listings *)

(** The last entry of a name. *)
Definition last_ent (name : bytes) (ents : list Dirent) : option Dirent :=
  foldl (fun r e => if decide (d_Name e = name) then Some e else r) None ents.

Lemma entMap_last ents name : entMap ents ∅ !! name = last_ent name ents.
Proof.
  unfold last_ent. rewrite <-(lookup_empty (M := gmap bytes) (A := Dirent) name) at 1.
  generalize (∅ : gmap bytes Dirent). induction ents as [|e ents IH]; intros m; [done|]. cbn [entMap foldl]. rewrite IH. f_equal.
  case_decide as Hn; [subst; by rewrite lookup_insert_eq|by rewrite lookup_insert_ne].
Qed.

(** A FUSE directory lists the store's entries, in order, with their
    modes; and what it lists is what [Lookup] finds: after the directory was
    read, a name is looked up without the store, in any state, and gives a
    node for the entry's path with the mode that was listed, or ENOENT when
    it was not listed. *)
Theorem fuse_listing {S H W} `{St : !Store S H} (n : pathUnderZipRoot H) (f : FS S H W) ents s :
  mode_IsDir (zn_mode n) = true -> zn_ent n = None -> zn_ents n = [] ->
  Readdir (zn_root n) (zn_path n) (fs_store f) = (Ok ents, s) ->
  exists n', zipNode_Readdir n f = Some (Done (imap dirEntry ents), n', upd_fs_store s f) /\
    forall name out g, zipNode_Lookup (W := W) n' name out g =
      Some (match last_ent name ents with
            | Some e => (Done (zipNode (childNode n' name e), fuseMode (d_Mode e)),
                         setMode (fuseMode (d_Mode e)) (setSize (u64 (d_Size e)) (setLongTTL out)))
            | None => (Errno ENOENT, setLongTTL out)
            end, n', g).
Proof.
  intros Hm Hn Hs Hr. unfold zipNode_Readdir, initDirEntsLocked at 1. rewrite Hn, Hs. unfold pst_bind, call_store. rewrite Hr.
  eexists. split; [done|]. intros name out g. unfold zipNode_Lookup. cbn [zn_mode]. rewrite Hm. cbn [negb].
  unfold initDirEntsLocked, pst_bind. cbn [zn_ent pst_ret default from_option id]. rewrite entMap_last.
  by destruct (last_ent name ents).
Qed.

Import BangEscape.

Definition test_node (path : bytes) (mode : Z) : pathUnderZipRoot ModuleVersion :=
  MkZipNode test_mv test_mv mode 1 path None [] None.

Lemma fuse_walk_parsed_witness :
  fst <$> walk test_cfg root (splitSegs (str "a.b/!m@v1.0.0/x/y.go")) test_fs = Some (Done (zipNode (test_node (str "x/y.go") 420))).
Proof.
  destruct (fuse_walk_parsed test_cfg test_mv (str "a.b/!m") (str "v1.0.0") [str "x"; str "y.go"] test_tree test_fs) as [Hp Hw];
    [by vm_compute..|by_decide| |].
  - intros mh f1 Hz. vm_compute in Hz. injection Hz as <- <-. split; [exact test_holds_tree|done].
  - change (join_byte slash ((str "a.b/!m" ++ str "@" ++ str "v1.0.0") :: [str "x"; str "y.go"])) with (str "a.b/!m@v1.0.0/x/y.go") in *.
    rewrite Hw, Hp. vm_compute. reflexivity.
Defined.

(** A pre-release version with upper-case letters, whose mod file is there. *)
Definition rc_mv : ModuleVersion := MkMV (str "a.b/M") (str "v1.0.0-RC1").
Definition rc_fs : FS mem ModuleVersion unit := upd_fs_store (MkMem ∅ {[rc_mv := str "module"]} ∅) mem_fs.

Lemma fuse_walk_meta_witness :
  fst <$> getMetaFileByExt test_cfg rc_mv (str "mod") rc_fs = Some (Ok (str "module")) /\
  fst <$> walk test_cfg root (splitSegs (cdPath rc_mv (str "mod"))) rc_fs = Some (Errno EIO_).
Proof.
  split; [vm_compute; reflexivity|].
  destruct (fuse_walk_meta test_cfg rc_mv (str "a.b/!m") (str "v1.0.0-!r!c1") (str "mod") rc_fs) as [_ Hw];
    [by vm_compute..|by_decide|].
  rewrite Hw. vm_compute. reflexivity.
Defined.

Lemma fuse_read_witness :
  fst <$> zipNode_Read (test_node (str "x/y.go") 420) 10 1 test_fs =
    Some (Done [], MkZipNode test_mv test_mv 420 1 (str "x/y.go") (Some (str "y")) [] None) /\
  zipNode_Read (test_node (str "x/y.go") 420) 10 2 test_fs = None.
Proof.
  destruct (fuse_read (test_node (str "x/y.go") 420) 10 2 test_fs test_fs (Ok (str "y"))) as (_ & _ & n' & Hr & _); [done|lia|lia|done|].
  split; [vm_compute; reflexivity|]. rewrite Hr. reflexivity.
Defined.

Lemma fuse_listing_witness :
  exists n', zipNode_Readdir (test_node [] ModeDir) test_fs =
      Some (Done [MkDirEntry (str "go.mod") (Z.lor S_IFREG m644) 0; MkDirEntry (str "x") (Z.lor S_IFDIR m755) 1], n', test_fs) /\
    fst ∘ fst ∘ fst <$> zipNode_Lookup n' (str "z") (MkEntryOut 0 0 0 0) mem_fs = Some (Errno ENOENT).
Proof.
  destruct (fuse_listing (test_node [] ModeDir) test_fs [MkDirent (str "go.mod") 420 1; MkDirent (str "x") ModeDir 0] test_mem)
    as (n' & Hl & Hk); [done..|vm_compute; reflexivity|].
  exists n'. split; [exact Hl|]. rewrite Hk. reflexivity.
Defined.
