(* ===== verification/NfsServe.v ===== *)
(** * go-nfs: mount.go, fakelock.go, server.go and a connection of conn.go

    The registry of procedures; the MOUNT procedures; the lock manager,
    which grants every lock; and the goroutines of a connection as a step
    relation: the loop that reads requests, up to 32 procedures at once, and
    the one goroutine that writes the replies. *)

From S2P Require Import Prelude GoStrings Sha Store NfsAttr NfsProc Rpc RpcProps.

Local Open Scope gomodfs_scope.
Local Open Scope Z_scope.

(** ** The registry (server.go, nfs.go, and the init functions) *)

Module Registry.

Definition nfsServiceID : Z := 100003.
Definition mountServiceID : Z := 100005.
Definition lockServiceID : Z := 100021.

(** The handler functions that are registered. *)
Inductive procedure : Type :=
  | onNull | onGetAttr | onSetAttr | onLookup | onAccess | onReadLink | onRead | onWrite | onCreate | onMkdir
  | onSymlink | onMknod | onRemove | onRmDir | onRename | onLink | onReadDir | onReadDirPlus | onFSStat
  | onFSInfo | onPathConf | onCommit
  | onMountNull | onMount | onUMount | onUMountAll | onMountExport
  | onLockNull | onLockFreeAll | onLockShare | onLockUnshare | onLockUnlockCancel.

(** [registeredHandlers], by program and procedure number; nil at first. *)
Definition handlers : Type := option (gmap (Z * Z) procedure).

Definition RegisterMessageHandler (protocol proc : Z) (handler : procedure) (m : handlers) : option error * handlers :=
  let m := default ∅ m in
  match m !! (protocol, proc) with
  | Some _ => (Some (errText "already registered"), Some m)
  | None => (None, Some (<[(protocol, proc) := handler]> m))
  end.

Definition handlerFor (m : handlers) (prog proc : Z) : option procedure := default ∅ m !! (prog, proc).

Definition nfs_registrations : list (Z * procedure) :=
  [(0, onNull); (1, onGetAttr); (2, onSetAttr); (3, onLookup); (4, onAccess); (5, onReadLink); (6, onRead);
   (7, onWrite); (8, onCreate); (9, onMkdir); (10, onSymlink); (11, onMknod); (12, onRemove); (13, onRmDir);
   (14, onRename); (15, onLink); (16, onReadDir); (17, onReadDirPlus); (18, onFSStat); (19, onFSInfo);
   (20, onPathConf); (21, onCommit)].
Definition mount_registrations : list (Z * procedure) :=
  [(0, onMountNull); (1, onMount); (3, onUMount); (4, onUMountAll); (5, onMountExport)].
Definition lock_registrations : list (Z * procedure) :=
  [(0, onLockNull); (23, onLockFreeAll); (20, onLockShare); (21, onLockUnshare); (2, onLockUnlockCancel);
   (22, onLockUnlockCancel); (3, onLockUnlockCancel); (4, onLockUnlockCancel)].

(** An [init] function: its errors are dropped. *)
Definition init (protocol : Z) (l : list (Z * procedure)) (m : handlers) : handlers :=
  fold_left (fun m r => (RegisterMessageHandler protocol r.1 r.2 m).2) l m.

(** The [init] functions run in the order of their files. *)
Definition registered : handlers :=
  init nfsServiceID nfs_registrations
    (init mountServiceID mount_registrations (init lockServiceID lock_registrations None)).

Definition table : list ((Z * Z) * procedure) :=
  ((fun r => ((lockServiceID, r.1), r.2)) <$> lock_registrations) ++
  ((fun r => ((mountServiceID, r.1), r.2)) <$> mount_registrations) ++
  ((fun r => ((nfsServiceID, r.1), r.2)) <$> nfs_registrations).

(** Every registration succeeds. *)
Lemma registered_table : registered = Some (list_to_map table).
Proof. vm_compute. reflexivity. Qed.

(** The registry answers with the procedures of the table: all 22 of NFS,
    MOUNT without DUMP, and the part of NLM that grants locks. *)
Lemma handlerFor_table prog proc p : handlerFor registered prog proc = Some p <-> ((prog, proc), p) ∈ table.
Proof.
  unfold handlerFor. rewrite registered_table. cbn [default from_option id]. symmetry. apply elem_of_list_to_map. by_decide.
Qed.
End Registry.

(** ** MOUNT (mount.go) *)

Module Mount.

(** What the XDR library does: reading variable-length opaque data, a
    string and a number, and the encodings of a handle, a list of flavors, a
    string and a boolean. *)
Class Xdr := {
  ReadOpaque : bytes -> res (bytes * bytes);
  ReadString : bytes -> res (bytes * bytes);
  ReadInt32 : bytes -> res (Z * bytes);
  w_opaque : bytes -> bytes;
  w_uint32s : list Z -> bytes;
  w_string : bytes -> bytes;
  w_bool : bool -> bytes }.

Definition MountStatusOk : Z := 0.
Definition AuthFlavorNull : Z := 0.

(** [NFSHandler.Mount]: the status and the flavors. *)
Definition Handler_Mount (dirpath : bytes) : Z * list Z := (MountStatusOk, [AuthFlavorNull]).

(** A procedure's error, and the response; [writeHeader] on a response that
    has begun is an error. *)
Definition header_only : Conn.HandleFunc := fun w =>
  let '(e, w) := Conn.writeHeader ResponseCodeSuccess w in (AppError <$> e, w).
Definition header_then (body : bytes) : Conn.HandleFunc := fun w =>
  let '(e, w) := Conn.writeHeader ResponseCodeSuccess w in
  match e with
  | Some e => (Some (AppError e), w)
  | None => let '(e, w) := Conn.Write body w in (AppError <$> e, w)
  end.

Section mount.
Context {X : Xdr} {U : Type} {Uh : NfsHandler U}.

Definition onMountNull : Conn.HandleFunc := header_only.
Definition onUMountAll : Conn.HandleFunc := header_only.
Definition onUMount (req : bytes) : Conn.HandleFunc := fun w =>
  match ReadOpaque req with Err e => (Some (AppError e), w) | Ok _ => header_only w end.
Definition onMountExport : Conn.HandleFunc :=
  header_then (w_string (str "gomodfs") ++ w_bool false ++ w_bool false).

(** [mount] is the handler's method [Mount]. *)
Definition onMount (mount : bytes -> Z * list Z) (req : bytes) (w : Conn.response)
    : pst U (option app_error * Conn.response) :=
  match ReadOpaque req with
  | Err e => pst_ret (Some (AppError e), w)
  | Ok (dirpath, _) =>
      let '(status, flavors) := mount dirpath in
      let '(e, w) := Conn.writeHeader ResponseCodeSuccess w in
      match e with
      | Some e => pst_ret (Some (AppError e), w)
      | None =>
          rootHndl <-! nh_ToHandle [] ;;
          let body := be_bytes 4 status ++
            (if status =? MountStatusOk then w_opaque rootHndl ++ w_uint32s flavors else []) in
          let '(e, w) := Conn.Write body w in pst_ret (AppError <$> e, w)
      end
  end.

(** ** Locks (fakelock.go) *)

Definition nlm4Granted : Z := 0.

Definition onLockNull : Conn.HandleFunc := header_only.

Definition onLockFreeAll (req : bytes) : Conn.HandleFunc := fun w =>
  match ReadString req with
  | Err e => (Some (AppError e), w)
  | Ok (_, req) =>
      match ReadInt32 req with
      | Err e => (Some (AppError e), w)
      | Ok _ => header_only w
      end
  end.

(** The cookie, after its length. *)
Definition read_cookie (req : bytes) (ok : Z -> option error) : res (Z * bytes) :=
  match ReadFull 4 req with
  | (Err e, _) => Err e
  | (Ok n, req) =>
      match ok (be_val n) with
      | Some e => Err e
      | None => cookie ← (ReadFull (Z.to_nat (be_val n)) req).1; Ok (be_val n, cookie)
      end
  end.

Definition too_long (n : Z) : option error := if 128 <? n then Some (errText "nlm: cookie too long") else None.
Definition share_len (n : Z) : option error :=
  if 128 <? n then Some (errText "nlm: cookie too long")
  else if negb (n mod 4 =? 0) then Some (errText "nlm: cookie length not multiple of 4") else None.

Definition onLockShareUnshare (req : bytes) : Conn.HandleFunc := fun w =>
  match read_cookie req share_len with
  | Err e => (Some (AppError e), w)
  | Ok (cookieLen, cookie) =>
      header_then (be_bytes 4 cookieLen ++ cookie ++ be_bytes 4 nlm4Granted ++ be_bytes 4 0) w
  end.
Definition onLockShare : bytes -> Conn.HandleFunc := onLockShareUnshare.
Definition onLockUnshare : bytes -> Conn.HandleFunc := onLockShareUnshare.

Definition onLockUnlockCancel (req : bytes) : Conn.HandleFunc := fun w =>
  match read_cookie req too_long with
  | Err e => (Some (AppError e), w)
  | Ok (cookieLen, cookie) => header_then (be_bytes 4 cookieLen ++ cookie ++ be_bytes 4 nlm4Granted) w
  end.
End mount.
End Mount.

(** *** What the lock manager answers *)

Module MountFacts.
Import Mount.

Lemma handle_header_then body xid :
  exists w, Conn.handle (Some (header_then body)) (Conn.newResponse xid) = (None, w) /\ Conn.writer w = header xid 0 ++ body.
Proof.
  unfold Conn.handle, header_then. rewrite writeHeader_fresh by done. cbn beta iota.
  rewrite Write_started by done. eexists. split; [done|]. cbn [Conn.emit Conn.writer Conn.newResponse Conn.xid app]. done.
Qed.

Lemma handle_error h e xid :
  h (Conn.newResponse xid) = (Some e, Conn.newResponse xid) -> Code (basicErrorFormatter e) = ResponseCodeSystemErr ->
  MarshalBinary (basicErrorFormatter e) = [] ->
  exists w, Conn.handle (Some h) (Conn.newResponse xid) = (None, w) /\ Conn.writer w = header xid ResponseCodeSystemErr.
Proof.
  intros Hh Hc Hb. unfold Conn.handle. rewrite Hh. cbn [Conn.responded Conn.newResponse].
  destruct (err_fresh e (Conn.newResponse xid) eq_refl) as (w & He & Hr & Hw). rewrite He, Hr. exists w. split; [done|].
  rewrite Hw. cbn [Conn.newResponse Conn.errorFmt Conn.writer Conn.xid]. by rewrite Hc, Hb, app_nil_r.
Qed.

Lemma read_cookie_ok (ok : Z -> option error) cookie rest :
  Z.of_nat (length cookie) < 2 ^ 32 ->
  read_cookie (be_bytes 4 (Z.of_nat (length cookie)) ++ cookie ++ rest) ok =
  match ok (Z.of_nat (length cookie)) with Some e => Err e | None => Ok (Z.of_nat (length cookie), cookie) end.
Proof.
  intros Hl. unfold read_cookie. rewrite ReadFull_4. rewrite be_val_u32 by lia. destruct (ok _); [done|].
  by rewrite Nat2Z.id, ReadFull_app.
Qed.

(** The lock manager refuses nothing.  A call to lock, unlock, cancel or
    share whose cookie has at most 128 bytes is answered with its cookie and
    GRANTED, whatever else it asks for and whatever was granted before; a
    longer cookie, a cut one, or one to share whose length is not a multiple
    of four, is a system error.  Each gets one reply. *)
Theorem locks_granted xid cookie rest :
  Z.of_nat (length cookie) < 2 ^ 32 ->
  let n := Z.of_nat (length cookie) in
  let req := be_bytes 4 n ++ cookie ++ rest in
  (exists w, Conn.handle (Some (onLockUnlockCancel req)) (Conn.newResponse xid) = (None, w) /\
     Conn.writer w = if n <=? 128 then header xid 0 ++ be_bytes 4 n ++ cookie ++ be_bytes 4 0
                     else header xid ResponseCodeSystemErr) /\
  (exists w, Conn.handle (Some (onLockShareUnshare req)) (Conn.newResponse xid) = (None, w) /\
     Conn.writer w = if (n <=? 128) && (n mod 4 =? 0) then header xid 0 ++ be_bytes 4 n ++ cookie ++ be_bytes 4 0 ++ be_bytes 4 0
                     else header xid ResponseCodeSystemErr) /\
  (forall cut, (length cut < 4 + length cookie)%nat -> cut `prefix_of` req ->
     exists w, Conn.handle (Some (onLockUnlockCancel cut)) (Conn.newResponse xid) = (None, w) /\
       Conn.writer w = header xid ResponseCodeSystemErr).
Proof.
  intros Hl n req. split_and!.
  - pose proof (read_cookie_ok too_long cookie rest Hl) as Hc. fold n req in Hc. unfold too_long in Hc at 2.
    rewrite Z.leb_antisym. destruct (128 <? n); cbn [negb].
    + eapply handle_error; [unfold onLockUnlockCancel; by rewrite Hc|done..].
    + destruct (handle_header_then (be_bytes 4 n ++ cookie ++ be_bytes 4 nlm4Granted) xid) as (w & Hw & Hb).
      exists w. split; [|done]. unfold Conn.handle, onLockUnlockCancel in *. by rewrite Hc.
  - pose proof (read_cookie_ok share_len cookie rest Hl) as Hc. fold n req in Hc. unfold share_len in Hc at 2.
    rewrite Z.leb_antisym. destruct (128 <? n); cbn [negb andb].
    + eapply handle_error; [unfold onLockShareUnshare; by rewrite Hc|done..].
    + destruct (n mod 4 =? 0); cbn [negb] in Hc.
      * destruct (handle_header_then (be_bytes 4 n ++ cookie ++ be_bytes 4 nlm4Granted ++ be_bytes 4 0) xid) as (w & Hw & Hb).
        exists w. split; [|done]. unfold Conn.handle, onLockShareUnshare in *. by rewrite Hc.
      * eapply handle_error; [unfold onLockShareUnshare; by rewrite Hc|done..].
  - intros cut Hcut [r Hr].
    assert (exists e, read_cookie cut too_long = Err e /\ Code (basicErrorFormatter (AppError e)) = ResponseCodeSystemErr /\
              MarshalBinary (basicErrorFormatter (AppError e)) = []) as (e & Hc & H1 & H2).
    { unfold read_cookie. unfold ReadFull at 1. destruct (Nat.ltb_spec (length cut) 4).
      { eexists. split; [done|]. by case_decide. }
      assert (take 4 cut = be_bytes 4 n) as ->.
      { transitivity (take 4 req); [rewrite Hr, take_app_le by lia; done|].
        unfold req. rewrite take_app_le by (by rewrite be_bytes_length). by rewrite take_ge by (by rewrite be_bytes_length). }
      rewrite be_val_u32 by lia. unfold too_long. destruct (128 <? n); [by eexists|].
      unfold ReadFull. rewrite (proj2 (Nat.ltb_lt _ _)) by (rewrite length_drop; lia).
      cbn [fst mbind res_bind]. eexists. split; [done|]. by case_decide. }
    eapply handle_error; [unfold onLockUnlockCancel; by rewrite Hc|done..].
Qed.

Lemma locks_granted_witness :
  exists w, Conn.handle (Some (onLockUnlockCancel (be_bytes 4 2 ++ str "ab" ++ str "xyz"))) (Conn.newResponse 7) = (None, w) /\
    Conn.writer w = header 7 0 ++ be_bytes 4 2 ++ str "ab" ++ be_bytes 4 0.
Proof. destruct (locks_granted 7 (str "ab") (str "xyz") ltac:(done)) as [H _]. exact H. Defined.
End MountFacts.

(** ** A connection (conn.go) *)

Module Serve.

Definition concurrentHandlers : nat := 32.

Section serve.
(** [rpc.Header], and the XDR library's reading of one. *)
Context {Hdr : Type} (read_header : bytes -> res (Hdr * bytes)).

Record request := MkRequest { r_xid : Z; r_Header : Hdr; r_Body : bytes }.

(** [readRequestHeader]; [None] is out of fuel. *)
Definition readRequestHeader (s : bytes) : option (res request * bytes) :=
  match Conn.ReadRPCRecord s with
  | None => None
  | Some (Err e, s) => Some (Err e, s)
  | Some (Ok rpcMsg, s) =>
      if (length rpcMsg <? 40)%nat then Some (Err Conn.ErrInputInvalid, s) else
      let '(x, r) := ReadFull 4 rpcMsg in
      let '(t, r) := ReadFull 4 r in
      Some (xid ← x; reqType ← t;
            if negb (be_val reqType =? 0) then Err Conn.ErrInputInvalid
            else '(h, body) ← read_header r; Ok (MkRequest (be_val xid) h body), s)
  end.

(** What the procedure of a request may do, in the state it finds: write
    parts of the reply and return an error; [None] when the registry has no
    procedure for it. *)
Context (runs : request -> option (list action * option app_error) -> Prop).

(** [handle] when the context is done: [err] then writes nothing. *)
Definition handle_done (h : option Conn.HandleFunc) (w : Conn.response) : option error * Conn.response :=
  match h with None => (None, w) | Some h => (None, (h w).2) end.

Definition outcome (done : bool) (req : request) (a : option (list action * option app_error)) : option error * Conn.response :=
  (if done then handle_done else Conn.handle) (uncurry procedure <$> a) (Conn.newResponse (r_xid req)).

(** The unread input; whether the loop of [serve] goes on, and the request
    it has read and not yet started; the requests whose goroutine runs, which
    hold the semaphore; the channel of replies; whether [serializeWrites]
    runs, and what it wrote to the client; and whether the context was
    cancelled. *)
Record conn := MkConn {
  input : bytes;
  reading : bool;
  pending : option request;
  running : list request;
  writeSerializer : list bytes;
  writing : bool;
  output : bytes;
  cancelled : bool }.

Definition start (s : bytes) : conn := MkConn s true None [] [] true [] false.

Inductive step : conn -> conn -> Prop :=
  (** The loop reads a request, *)
  | step_read s req s' l q wr o b :
      readRequestHeader s = Some (Ok req, s') ->
      step (MkConn s true None l q wr o b) (MkConn s' true (Some req) l q wr o b)
  (** waits for the semaphore and starts its goroutine. *)
  | step_accept s req l q wr o b :
      (length l < concurrentHandlers)%nat ->
      step (MkConn s true (Some req) l q wr o b) (MkConn s true None (l ++ [req]) q wr o b)
  (** It ends on an error, or when the context is done while it waits, and
      cancels the context. *)
  | step_error s e s' l q wr o b :
      readRequestHeader s = Some (Err e, s') ->
      step (MkConn s true None l q wr o b) (MkConn s false None l q wr o true)
  | step_leave s req l q wr o :
      step (MkConn s true (Some req) l q wr o true) (MkConn s false None l q wr o true)
  (** The server's context is cancelled. *)
  | step_cancel s rd p l q wr o b :
      step (MkConn s rd p l q wr o b) (MkConn s rd p l q wr o true)
  (** A goroutine handles its request and sends the reply. *)
  | step_reply s rd p l q wr o b i req done a w :
      l !! i = Some req -> runs req a -> (done = true -> b = true) -> outcome done req a = (None, w) ->
      (length q < concurrentHandlers)%nat ->
      step (MkConn s rd p l q wr o b) (MkConn s rd p (delete i l) (q ++ [Conn.writer w]) wr o b)
  (** A failure to write a reply cancels the context. *)
  | step_fail s rd p l q wr o b i req done a e w :
      l !! i = Some req -> runs req a -> (done = true -> b = true) -> outcome done req a = (Some e, w) ->
      step (MkConn s rd p l q wr o b) (MkConn s rd p (delete i l) q wr o true)
  (** When the context is done the reply may not be sent. *)
  | step_give_up s rd p l q wr o i req :
      l !! i = Some req ->
      step (MkConn s rd p l q wr o true) (MkConn s rd p (delete i l) q wr o true)
  (** [serializeWrites] writes a reply as one fragment; *)
  | step_write s rd p l msg q o b :
      step (MkConn s rd p l (msg :: q) true o b) (MkConn s rd p l q true (o ++ frame msg) b)
  (** it ends when a write fails, of which a part may have been sent, *)
  | step_cut s rd p l msg q o b part :
      part `prefix_of` frame msg ->
      step (MkConn s rd p l (msg :: q) true o b) (MkConn s rd p l q false (o ++ part) b)
  (** and when the context is done. *)
  | step_close s rd p l q o :
      step (MkConn s rd p l q true o true) (MkConn s rd p l q false o true).

(** The requests read from an input, and what remains of it. *)
Inductive reads : bytes -> list request -> bytes -> Prop :=
  | reads_nil s : reads s [] s
  | reads_snoc s l s1 req s2 : reads s l s1 -> readRequestHeader s1 = Some (Ok req, s2) -> reads s (l ++ [req]) s2.

(** A reply to a request: what its procedure wrote, behind its header; or
    nothing, and only when the context was done. *)
Definition replies_to (b : bool) (req : request) (msg : bytes) : Prop :=
  exists done a, runs req a /\ (done = true -> b = true) /\ msg = Conn.writer (outcome done req a).2 /\
    ((exists code body, msg = header (r_xid req) code ++ body) \/ done = true /\ msg = []).

Lemma outcome_ok done req a :
  exists w, outcome done req a = (None, w) /\
    ((exists code body, Conn.writer w = header (r_xid req) code ++ body) \/ done = true /\ Conn.writer w = []).
Proof.
  unfold outcome. destruct done, a as [[l e]|]; cbn [fmap option_fmap option_map uncurry].
  - eexists. split; [done|]. unfold procedure. cbn [snd].
    destruct (actions_fresh l (Conn.newResponse (r_xid req)) eq_refl) as [_ Hw].
    destruct (written l) as [[code body]|]; [left|right; split; [done|apply Hw]]. exists code, body. apply Hw.
  - eexists. split; [done|]. by right.
  - destruct (handle_once (r_xid req) l e) as (w & Hw & _ & Hb & _). exists w. split; [done|]. left. rewrite Hb.
    destruct (written l) as [[code body]|]; eauto.
  - destruct (handle_once (r_xid req) [] None) as (w & _ & _ & _ & w' & Hw & Hb). exists w'. split; [done|].
    left. exists 2, []. rewrite app_nil_r, Hb. done.
Qed.

Lemma replies_to_cancelled b req msg : replies_to b req msg -> replies_to true req msg.
Proof. intros (done & a & H1 & _ & H2). by exists done, a. Qed.

(** The accounts of a connection: [gone] are the requests given up, and
    [cut] is the reply whose writing failed. *)
Definition accounts (s : bytes) (c : conn) : Prop :=
  exists accepted answered gone sent cut part,
    reads s accepted (input c) /\
    accepted ≡ₚ answered ++ option_list (pending c) ++ running c ++ gone /\
    Forall2 (replies_to (cancelled c)) answered (sent ++ cut ++ writeSerializer c) /\
    output c = mjoin (frame <$> sent) ++ part /\ part `prefix_of` mjoin (frame <$> cut) /\ (length cut <= 1)%nat /\
    (length (running c) <= concurrentHandlers /\ length (writeSerializer c) <= concurrentHandlers)%nat /\
    (cancelled c = false -> gone = []) /\ (writing c = true -> cut = []).

Lemma accounts_start s : accounts s (start s).
Proof.
  exists [], [], [], [], [], []. split_and!; try done; try constructor; cbn; unfold concurrentHandlers; lia.
Qed.

Lemma accounts_cancel s c : accounts s c -> accounts s (MkConn (input c) (reading c) (pending c) (running c) (writeSerializer c) (writing c) (output c) true).
Proof.
  intros (acc & ans & gone & sent & cut & part & Hr & Hp & Hf & Ho & Hpart & Hc & Hl & Hg & Hw).
  exists acc, ans, gone, sent, cut, part. cbn. split_and!; try done; try apply Hl.
  eapply Forall2_impl; [exact Hf|]. intros ??. apply replies_to_cancelled.
Qed.

(** A goroutine ends and its request is given up. *)
Lemma accounts_give_up s c i req :
  running c !! i = Some req -> accounts s c ->
  accounts s (MkConn (input c) (reading c) (pending c) (delete i (running c)) (writeSerializer c) (writing c) (output c) true).
Proof.
  intros Hi Ha. apply accounts_cancel in Ha.
  destruct Ha as (acc & ans & gone & sent & cut & part & Hr & Hp & Hf & Ho & Hpart & Hc & [Hl1 Hl2] & Hg & Hw). cbn in *.
  exists acc, ans, (req :: gone), sent, cut, part. cbn. split_and!; try done.
  - rewrite Hp. do 2 apply Permutation_app_head. rewrite (delete_Permutation _ _ _ Hi) at 1. cbn. by rewrite <-Permutation_middle.
  - rewrite length_delete by (by eexists). lia.
Qed.

(** The writer takes the next reply from the channel. *)
Lemma accounts_take s inp rd p l msg q o b part :
  accounts s (MkConn inp rd p l (msg :: q) true o b) -> part `prefix_of` frame msg ->
  accounts s (MkConn inp rd p l q false (o ++ part) b) /\ accounts s (MkConn inp rd p l q true (o ++ frame msg) b).
Proof.
  intros (acc & ans & gone & sent & cut & part0 & Hr & Hp & Hf & Ho & Hpart & Hcut & [Hl1 Hl2] & Hg & Hw) Hpre. cbn in *.
  rewrite (Hw eq_refl) in *. cbn in Hf, Hpart. apply prefix_nil_inv in Hpart as ->. rewrite app_nil_r in Ho. split.
  - exists acc, ans, gone, sent, [msg], part. cbn. rewrite app_nil_r, Ho. by split_and!; try done; lia.
  - exists acc, ans, gone, (sent ++ [msg]), [], []. cbn. split_and!; try done; [by rewrite <-app_assoc|..|lia].
    by rewrite app_nil_r, Ho, fmap_app, join_app; cbn; rewrite app_nil_r.
Qed.

Lemma accounts_step s c c' : accounts s c -> step c c' -> accounts s c'.
Proof.
  intros Ha Hs. pose proof Ha as (acc & ans & gone & sent & cut & part & Hr & Hp & Hf & Ho & Hpart & Hcut & [Hl1 Hl2] & Hg & Hw).
  destruct Hs as [?? s' ????? Hq|????????|?? s' ?????? Hq|??????|????????|???????? i req d a w Hi Hrun Hd Hout Hlen
    |???????? i req d a e w Hi Hrun Hd Hout|??????? i req Hi|????????|???????? part' Hpre|??????]; cbn in *.
  - exists (acc ++ [req]), ans, gone, sent, cut, part. cbn. split_and!; try done; [by eapply reads_snoc|].
    rewrite Hp. rewrite <-app_assoc. apply Permutation_app_head. by rewrite (Permutation_app_comm _ [req]).
  - exists acc, ans, gone, sent, cut, part. cbn. split_and!; try done.
    + rewrite Hp. apply Permutation_app_head. rewrite <-app_assoc. cbn. by rewrite <-Permutation_middle.
    + rewrite length_app. cbn. lia.
  - apply accounts_cancel in Ha. cbn in Ha. exact Ha.
  - exists acc, ans, (req :: gone), sent, cut, part. cbn. split_and!; try done.
    rewrite Hp. apply Permutation_app_head. cbn. by rewrite <-Permutation_middle.
  - by apply accounts_cancel in Ha.
  - exists acc, (ans ++ [req]), gone, sent, cut, part. cbn. split_and!; try done.
    + rewrite Hp, <-app_assoc. apply Permutation_app_head. rewrite (delete_Permutation _ _ _ Hi) at 1.
      cbn. by rewrite <- !Permutation_middle.
    + rewrite !app_assoc. apply Forall2_app; [by rewrite <-app_assoc|]. constructor; [|done].
      exists d, a. destruct (outcome_ok d req a) as (w' & Hw' & Hb). rewrite Hout in Hw'. simplify_eq. rewrite Hout. by split_and!.
    + rewrite length_delete by (by eexists). lia.
    + rewrite length_app. cbn. lia.
  - destruct (outcome_ok d req a) as (w' & Hw' & _). congruence.
  - by eapply accounts_give_up in Ha.
  - by eapply accounts_take in Ha as [_ ?]; [|done].
  - by eapply accounts_take in Ha as [? _]; [|exact Hpre].
  - exists acc, ans, gone, sent, cut, part. by split_and!.
Qed.

Lemma accounts_reachable s c : rtc step (start s) c -> accounts s c.
Proof.
  intros Hs. remember (start s) as c0 eqn:Hc0. pose proof (accounts_start s) as Ha. rewrite <-Hc0 in Ha. clear Hc0.
  induction Hs as [c|c1 c2 c3 H12 _ IH]; [done|]. by eapply IH, accounts_step.
Qed.

(** While the context is not done and the writer runs, what was read can be
    answered: the writer drains the channel, a goroutine sends, and the
    request that waits is started. *)
Lemma drains c : (forall req, exists a, runs req a) -> writing c = true -> (reading c = true \/ pending c = None) ->
  exists c', rtc step c c' /\ pending c' = None /\ running c' = [] /\ writeSerializer c' = [] /\ input c' = input c /\
    cancelled c' = cancelled c /\ writing c' = true.
Proof.
  intros Hruns. remember (3 * length (option_list (pending c)) + 2 * length (running c) + length (writeSerializer c))%nat as n eqn:Hn.
  revert c Hn. induction n as [n IH] using lt_wf_ind. intros [s rd p l q wr o b] -> Hwr Hrd. cbn in Hwr, Hrd. subst wr.
  assert (forall s1 rd1 p1 l1 q1 o1 b1, step (MkConn s rd p l q true o b) (MkConn s1 rd1 p1 l1 q1 true o1 b1) ->
    (3 * length (option_list p1) + 2 * length l1 + length q1 < 3 * length (option_list p) + 2 * length l + length q)%nat ->
    s1 = s -> b1 = b -> (rd1 = true \/ p1 = None) ->
    exists c', rtc step (MkConn s rd p l q true o b) c' /\ pending c' = None /\ running c' = [] /\ writeSerializer c' = [] /\
      input c' = s /\ cancelled c' = b /\ writing c' = true) as Hnext.
  { intros s1 rd1 p1 l1 q1 o1 b1 Hs Hlt -> -> Hrd1. destruct (IH _ Hlt (MkConn s rd1 p1 l1 q1 true o1 b) eq_refl eq_refl Hrd1) as (c' & Hr & H1).
    exists c'. split; [by eapply rtc_l|done]. }
  destruct q as [|msg q]; [|eapply Hnext; [apply step_write|cbn; lia|done..]].
  destruct l as [|req l].
  - destruct p as [req|]; [|by eexists]. destruct Hrd as [->|]; [|done].
    eapply Hnext; [apply step_accept; cbn; unfold concurrentHandlers; lia|cbn; lia|done|done|by left].
  - destruct (Hruns req) as [a Ha]. destruct (outcome_ok false req a) as (w & Hw & _).
    eapply Hnext; [apply (step_reply _ _ _ _ _ _ _ _ 0 req false a w); [done|exact Ha|done|exact Hw|cbn; unfold concurrentHandlers; lia]|cbn; lia|done|done|done].
Qed.

(** A loop that has ended waits for nothing. *)
Lemma ended_waits_for_nothing s c : rtc step (start s) c -> reading c = true \/ pending c = None.
Proof.
  intros Hs. remember (start s) as c0 eqn:Hc0. assert (reading c0 = true \/ pending c0 = None) as Ha by (subst; by left). clear Hc0.
  induction Hs as [c|c1 c2 c3 H12 _ IH]; [done|]. apply IH. destruct H12; cbn in *; auto.
Qed.
End serve.

(** C23: a connection answers each request once.  In every reachable state,
    whatever the goroutines of up to 32 requests did in between, the client
    has been sent a sequence of whole replies (and, after a failed write, a
    part of one more), each the answer of a different request that was read,
    under its transaction number; the requests read are those answered, those
    in flight and, once the context was done, those given up.  Only then can
    an answer be empty.  Before that, and while the writer has not failed,
    all requests that were read can be answered without reading more. *)
Theorem connection_replies {Hdr} (read_header : bytes -> res (Hdr * bytes)) runs s c :
  rtc (step read_header runs) (start s) c ->
  accounts read_header runs s c /\
  ((forall req, exists a, runs req a) -> cancelled c = false -> writing c = true ->
   exists c' accepted answered sent, rtc (step read_header runs) c c' /\ input c' = input c /\
     reads read_header s accepted (input c) /\ accepted ≡ₚ answered /\
     Forall2 (fun req msg => exists a, runs req a /\ msg = Conn.writer (outcome false req a).2 /\
                exists code body, msg = header (r_xid req) code ++ body) answered sent /\
     output c' = mjoin (frame <$> sent)).
Proof.
  intros Hc. split; [by apply accounts_reachable|]. intros Hruns Hcan Hwr.
  destruct (drains read_header runs c Hruns Hwr (ended_waits_for_nothing _ _ _ _ Hc)) as (c' & Hr & H1 & H2 & H3 & H4 & H5 & H6).
  assert (accounts read_header runs s c') as (acc & ans & gone & sent & cut & part & Ha & Hp & Hf & Ho & Hpart & _ & _ & Hg & Hw)
    by (apply accounts_reachable; by etrans).
  rewrite H5, Hcan in *. rewrite H1, H2, H3, H4, Hg, Hw in * by done. cbn in Hp, Hf, Hpart. rewrite !app_nil_r in *.
  apply prefix_nil_inv in Hpart as ->. rewrite app_nil_r in Ho. exists c', acc, ans, sent. split_and!; try done.
  eapply Forall2_impl; [exact Hf|]. intros req msg ([] & a & H7 & H8 & H9 & H10); [by specialize (H8 eq_refl)|].
  exists a. destruct H10 as [?|[? _]]; by split_and!.
Qed.

(** A header of 32 bytes, of which the procedure is the last number before
    the two empty credentials; procedure 0 writes its body back. *)
Definition test_header (s : bytes) : res (Z * bytes) := Ok (be_val (take 4 (drop 12 s)), drop 32 s).
Definition test_runs (req : request (Hdr := Z)) (a : option (list action * option app_error)) : Prop :=
  a = if r_Header req =? 0 then Some ([Data (r_Body req)], None) else None.
Definition test_call (xid proc : Z) (body : bytes) : bytes :=
  frame (mjoin (be_bytes 4 <$> [xid; 0; 2; 100003; 3; proc; 0; 0; 0; 0]) ++ body).
Definition test_input : bytes := test_call 1 0 (str "ab") ++ test_call 2 7 [].
Definition test_req1 : request (Hdr := Z) := MkRequest 1 0 (str "ab").
Definition test_req2 : request (Hdr := Z) := MkRequest 2 7 [].
Definition test_reply1 : bytes := header 1 0 ++ str "ab".
Definition test_reply2 : bytes := header 2 2.

(** The second request is answered first. *)
Definition test_end : conn (Hdr := Z) := MkConn [] true None [] [] true (frame test_reply2 ++ frame test_reply1) false.

Lemma test_reads :
  readRequestHeader test_header test_input = Some (Ok test_req1, test_call 2 7 []) /\
  readRequestHeader test_header (test_call 2 7 []) = Some (Ok test_req2, []).
Proof. split; vm_compute; reflexivity. Qed.

Lemma test_outcomes :
  (exists w, outcome false test_req1 (Some ([Data (str "ab")], None)) = (None, w) /\ Conn.writer w = test_reply1) /\
  (exists w, outcome false test_req2 None = (None, w) /\ Conn.writer w = test_reply2).
Proof. split; eexists; split; vm_compute; reflexivity. Qed.

#[local] Opaque test_input test_call test_reply1 test_reply2 frame readRequestHeader outcome.

Lemma test_run : rtc (step test_header test_runs) (start test_input) test_end.
Proof.
  destruct test_reads as [H1 H2], test_outcomes as [(w1 & Ho1 & Hw1) (w2 & Ho2 & Hw2)].
  assert (1 < concurrentHandlers)%nat by (unfold concurrentHandlers; lia).
  unfold start. eapply rtc_l; [apply (step_read _ _ _ _ _ _ _ _ _ _ H1)|].
  eapply rtc_l; [apply step_accept; cbn; lia|]. eapply rtc_l; [apply (step_read _ _ _ _ _ _ _ _ _ _ H2)|].
  eapply rtc_l; [apply step_accept; cbn; lia|].
  eapply rtc_l; [apply (step_reply _ _ _ _ _ _ _ _ _ _ 1 test_req2 false None w2); [reflexivity|reflexivity|done|exact Ho2|cbn; lia]|].
  eapply rtc_l; [apply (step_reply _ _ _ _ _ _ _ _ _ _ 0 test_req1 false (Some ([Data (str "ab")], None)) w1); [reflexivity|reflexivity|done|exact Ho1|cbn; lia]|].
  rewrite Hw1, Hw2. eapply rtc_l; [apply step_write|]. eapply rtc_l; [apply step_write|]. apply rtc_refl.
Qed.

Lemma connection_replies_witness :
  exists acc ans, reads test_header test_input acc [] /\ acc ≡ₚ ans /\ length acc = length ans.
Proof.
  destruct (connection_replies test_header test_runs test_input test_end test_run)
    as [_ (c' & acc & ans & sent & _ & _ & Hr & Hp & _)]; [by eexists|done..|].
  exists acc, ans. split_and!; [exact Hr|exact Hp|by apply Permutation_length].
Defined.
End Serve.
