(* ===== verification/Served.v ===== *)
(** * From a proxy to the clients

    What the file system is for: a module version that the store does not
    have yet is downloaded, stored and served, and what a client reads at a
    path of the module is the file of that name in the zip archive of the
    proxy. *)

From S2P Require Import Prelude GoStrings Lru Store StoreTree Paths NfsAttr NfsCache MemStore FS FSFacts FSProps Nfs NfsProps.
From S2P Require Import WebDav WinFsp FrontEnds.

Local Open Scope gomodfs_scope.

(** ** What is asked of the store

    A module that was put has the files that were put, and no others. *)
Class StorePuts (S H : Type) `{!Store S H} : Prop := {
  Put_GetFile mv d s mh s' file c : PutModule mv d s = (Ok mh, s') -> NoDup (pf_Path <$> Files d) ->
    file ∈ Files d -> pf_Open file = Ok c -> (GetFile mh (pf_Path file) s').1 = Ok c;
  Put_no_file mv d s mh s' p : PutModule mv d s = (Ok mh, s') -> p ∉ pf_Path <$> Files d ->
    exists e, (GetFile mh p s').1 = Err e /\ e <> EOF }.

Lemma find_file_unique files file : NoDup (pf_Path <$> files) -> file ∈ files -> find_file (pf_Path file) files = Some file.
Proof.
  induction files as [|x files IH]; intros Hd Hin; [by apply not_elem_of_nil in Hin|].
  rewrite fmap_cons, NoDup_cons in Hd. destruct Hd as [Hx Hd]. unfold find_file. cbn [list_find].
  destruct (decide (pf_Path x = pf_Path file)) as [Heq|Hne].
  - apply elem_of_cons in Hin as [->|Hin]; [done|]. exfalso. apply Hx. rewrite Heq. by apply list_elem_of_fmap_2.
  - apply elem_of_cons in Hin as [->|Hin]; [done|]. specialize (IH Hd Hin). unfold find_file in IH.
    by destruct (list_find _ files) as [[i y]|].
Qed.

Lemma find_file_none files p : p ∉ pf_Path <$> files -> find_file p files = None.
Proof.
  intros Hp. unfold find_file. destruct (list_find _ files) as [[i x]|] eqn:Hf; [|done].
  apply list_find_Some in Hf as (Hi & <- & _). exfalso. apply Hp, list_elem_of_fmap_2. by eapply list_elem_of_lookup_2.
Qed.

#[export] Instance mem_puts : StorePuts mem ModuleVersion.
Proof.
  split; intros mv d s mh s'; cbn.
  - intros file c [= <- <-] Hd Hin Hc. unfold mem_files. cbn. rewrite lookup_insert_eq. by rewrite find_file_unique.
  - intros p [= <- <-] Hp. unfold mem_files. cbn. rewrite lookup_insert_eq, find_file_none by done. case_match; by eexists.
Qed.

(** ** The download *)

Section served.
Context `{L : ModEscapeLaws} {S H W : Type} `{St : !Store S H} `{SR : !StoreReads S H} `{SP : !StorePuts S H} `{Wd : !World W}.
Context (cfg : config) (answer : bytes -> res (Z * res bytes)).
Local Abbreviation FS := (FS S H W).
Implicit Types f : FS.

(** The zip, info and mod files that a proxy serves under [b], and the first
    proxy that serves all three. *)
Definition served_set (b : bytes) : option zipSet :=
  match slurped answer (b ++ str ".zip"), slurped answer (b ++ str ".info"), slurped answer (b ++ str ".mod") with
  | Ok z, Ok i, Ok m => Some (MkZipSet z i m)
  | _, _, _ => None
  end.

Fixpoint first_served (bases : list bytes) : option zipSet :=
  match bases with
  | [] => None
  | b :: bases' => match served_set b with Some d => Some d | None => first_served bases' end
  end.

Definition ok_option {A} (r : res A) : option A := match r with Ok a => Some a | Err _ => None end.

Hypothesis client_answer : forall u w, client_Do u w = (answer u, w).

Lemma downloadZipSet_served b f :
  exists r us, downloadZipSet b f = Some (r, after_fetch us f) /\ ok_option r = served_set b.
Proof.
  pose proof (slurp_ext_spec (S := S) (H := H) answer client_answer) as Hslurp. unfold downloadZipSet, served_set.
  change (str ".zip") with (str "." ++ str "zip"). change (str ".info") with (str "." ++ str "info").
  change (str ".mod") with (str "." ++ str "mod").
  destruct (slurped answer (b ++ str "." ++ str "zip")) as [z|] eqn:Hz.
  2:{ eexists _, _. split; [eapply try_err; rewrite Hslurp, Hz; done|done]. }
  erewrite try_ok by (rewrite Hslurp, Hz; done).
  destruct (slurped answer (b ++ str "." ++ str "info")) as [i|] eqn:Hi.
  2:{ eexists _, _. split; [eapply try_err; rewrite Hslurp, Hi, after_fetch_app; done|done]. }
  erewrite try_ok by (rewrite Hslurp, Hi; done).
  destruct (slurped answer (b ++ str "." ++ str "mod")) as [m|] eqn:Hm.
  2:{ eexists _, _. split; [eapply try_err; rewrite Hslurp, Hm, !after_fetch_app; done|done]. }
  erewrite try_ok by (rewrite Hslurp, Hm; done). eexists _, _. rewrite !after_fetch_app. split; done.
Qed.

Lemma downloadZip_loop_served bases d : first_served bases = Some d -> forall errs f,
  exists us, downloadZip_loop bases errs f = Some (Ok d, after_fetch us f).
Proof.
  induction bases as [|b bases IH]; intros Hd errs f; [done|]. cbn [downloadZip_loop first_served] in *.
  destruct (downloadZipSet_served b f) as (r & us & Hr & Hs). erewrite try_ok by (unfold catch; by rewrite Hr).
  destruct r as [d'|e]; cbn [ok_option] in Hs; rewrite <-Hs in Hd; [simplify_eq; by eexists|].
  destruct (IH Hd (errs ++ [e]) (after_fetch us f)) as [vs ->]. eexists. by rewrite after_fetch_app.
Qed.

(** The archive's files as [downloadZip] stores them, without the module's
    directory. *)
Definition zip_prefix (mv : ModuleVersion) : bytes := Module mv ++ str "@" ++ Version mv ++ str "/".
Definition put_of (mv : ModuleVersion) (z : zipFile) : PutFile :=
  MkPutFile (drop (length (zip_prefix mv)) (zf_Name z)) (zf_Mode z) (zf_Size z) (zf_Open z).

(** The archive is the module's: its files are in the module's directory,
    with different names, and can be read. *)
Definition zip_of_module (mv : ModuleVersion) (files : list zipFile) : Prop :=
  Forall (fun z => zip_prefix mv `prefix_of` zf_Name z /\ exists c, zf_Open z = Ok c) files /\
  NoDup (zf_Name <$> files).

(** The contents of the file of a name in the archive. *)
Definition zip_contents (files : list zipFile) (name : bytes) : option bytes :=
  match list_find (fun z => zf_Name z = name) files with
  | Some (_, z) => ok_option (zf_Open z)
  | None => None
  end.

Lemma put_files mv files : zip_of_module mv files ->
  mapM (put_file (length (Module mv) + 1 + length (Version mv) + 1)) files = Some (put_of mv <$> files).
Proof.
  intros [Hf _]. induction Hf as [|z files [[rest Hz] _] _ IH]; [done|]. cbn [mapM fmap list_fmap].
  assert (length (zip_prefix mv) = length (Module mv) + 1 + length (Version mv) + 1)%nat as Hl
    by (unfold zip_prefix; rewrite !length_app; cbn; lia).
  rewrite <-Hl in *. assert (put_file (length (zip_prefix mv)) z = Some (put_of mv z)) as ->
    by (unfold put_file; case_decide as Hn; [done|]; rewrite Hz, length_app in Hn; lia).
  cbn. by rewrite IH.
Qed.

(** A module version that the store misses and a proxy serves: [d] is what
    the first proxy serves, [files] the archive, [zh] its hash, [mh] the
    handle of the module once it is put, and [s2] the store's state then. *)
Record new_module (mv : ModuleVersion) f (d : zipSet) (files : list zipFile) (zh : bytes) (mh : H) (s2 : S) : Prop := {
  nm_plain : Module mv <> tsGoModule /\ Module mv <> toolchainModule;
  nm_download : ReadOnly cfg = false;
  nm_new : zipRootCache f !! mv = None;
  nm_maps : from_option maps_ok True (handleMaps f);
  nm_served : exists bases, modURLBases cfg mv = Ok bases /\ first_served bases = Some d;
  nm_zip : zip_NewReader (dl_zip d) = Ok files /\ dirhash_Hash1 (zf_Name <$> files) (zipOfFile files) = Ok zh /\
    zip_of_module mv files;
  nm_put : exists e s1, GetZipRoot mv (fs_store f) = (Err e, s1) /\ errors_Is e is_ErrCacheMiss = true /\
    PutModule mv (MkPutModuleData (Some (dl_info d)) (Some (dl_mod d)) (Some zh) (put_of mv <$> files)) s1 = (Ok mh, s2) }.

Lemma setZipRootCache_ok mv mh f : from_option maps_ok True (handleMaps f) ->
  exists f', setZipRootCache mv mh f = Some (Ok tt, f') /\ fs_store f' = fs_store f.
Proof.
  intros Hm. unfold setZipRootCache. destruct (handleMaps f) as [m|]; cbn in Hm; [|by eexists].
  destruct (addModule_total mv m Hm) as (m' & -> & _). by eexists.
Qed.

(** Getting the zip root downloads the module and puts it in the store. *)
Lemma getZipRoot_new mv f d files zh mh s2 : new_module mv f d files zh mh s2 ->
  exists f', getZipRoot cfg mv f = Some (Ok mh, f') /\ fs_store f' = s2.
Proof.
  intros [[Hts Htc] Hro Hnew Hmaps (bases & Hb & Hd) (Hzip & Hhash & Hfiles) (e & s1 & Hmiss & He & Hput)].
  unfold getZipRoot. unfold pst_bind at 1, getZipRootCached. rewrite Hnew.
  rewrite bool_decide_eq_false_2 by done. cbn [andb].
  erewrite try_ok by (unfold catch, call_store; by rewrite Hmiss). erewrite try_ok by done. cbn beta iota.
  rewrite He, Hro. cbn [negb].
  destruct (downloadZip_loop_served bases d Hd [] (upd_fs_store s1 f)) as [us Hloop].
  assert (downloadZip cfg mv (upd_fs_store s1 f) = Some (Ok mh, upd_fs_store s2 (after_fetch us f))) as Hdown.
  { unfold downloadZip. rewrite Hb. rewrite (try_ok _ _ _ _ _ Hloop), Hzip, Hhash. cbv zeta.
    rewrite put_files by done. rewrite decide_False by done. unfold call_store. cbn [fs_store after_fetch upd_fetched upd_fs_store].
    by rewrite Hput. }
  rewrite (try_ok _ _ _ _ _ Hdown).
  destruct (setZipRootCache_ok mv mh (upd_fs_store s2 (after_fetch us f)) Hmaps) as (f' & Hset & Hs).
  unfold pst_bind. rewrite Hset. by exists f'.
Qed.

Lemma zip_name mv files z : zip_of_module mv files -> z ∈ files -> zf_Name z = zip_prefix mv ++ pf_Path (put_of mv z).
Proof.
  intros [Hf _] Hz. rewrite Forall_forall in Hf. destruct (Hf _ Hz) as [[rest Hr] _]. unfold put_of. cbn.
  by rewrite Hr, drop_app_length.
Qed.

Lemma put_names mv files : zip_of_module mv files ->
  zf_Name <$> files = (fun p => zip_prefix mv ++ p) <$> (pf_Path <$> (put_of mv <$> files)).
Proof.
  intros Hf. rewrite <- !list_fmap_compose. apply list_fmap_ext. intros i z Hz.
  apply (zip_name mv files); [done|by eapply list_elem_of_lookup_2].
Qed.

(** The store then has the files of the archive. *)
Lemma stored_contents mv f d files zh mh s2 p : new_module mv f d files zh mh s2 ->
  match zip_contents files (zip_prefix mv ++ p) with
  | Some c => (GetFile mh p s2).1 = Ok c
  | None => exists e, (GetFile mh p s2).1 = Err e /\ e <> EOF
  end.
Proof.
  intros [_ _ _ _ _ (_ & _ & Hf) (e & s1 & _ & _ & Hput)]. pose proof (put_names _ _ Hf) as Hnames. unfold zip_contents.
  destruct (list_find _ files) as [[i z]|] eqn:Hz.
  - apply list_find_Some in Hz as (Hi & Hz & _). apply list_elem_of_lookup_2 in Hi.
    assert (exists c, zf_Open z = Ok c) as [c Hc] by (destruct Hf as [Hf _]; rewrite Forall_forall in Hf; apply (Hf _ Hi)).
    rewrite Hc. cbn [ok_option]. rewrite (zip_name _ _ _ Hf Hi) in Hz. apply (inj (app (zip_prefix mv))) in Hz as <-.
    eapply Put_GetFile; [exact Hput|..|exact Hc]; cbn [Files]; [|by apply list_elem_of_fmap_2].
    destruct Hf as [_ Hd]. rewrite Hnames in Hd. by eapply NoDup_fmap_1.
  - eapply Put_no_file; [exact Hput|]. cbn [Files]. intros Hp.
    assert (zip_prefix mv ++ p ∈ zf_Name <$> files) as Hin.
    { rewrite Hnames. by apply (list_elem_of_fmap_2 (fun p => zip_prefix mv ++ p)). }
    apply list_elem_of_fmap in Hin as (z & Hzn & Hin). apply list_find_None in Hz. rewrite Forall_forall in Hz. by eapply Hz.
Qed.

(** What [file_of_path] gives at a path of the module. *)
Lemma file_of_new_module mv em ev f d files zh mh s2 p : new_module mv f d files zh mh s2 ->
  EscapePath (Module mv) = Ok em -> EscapeVersion (Version mv) = Ok ev ->
  CutPrefix (em ++ str "@" ++ ev) (str "tsgo-") = None -> TrimSuffix p (str "/") = p ->
  let name := em ++ str "@" ++ ev ++ str "/" ++ p in
  parsed name = MkPath [] false [] true p mv /\
  exists r f', file_of_path cfg name f = Some (r, f') /\ ok_option r = zip_contents files (zip_prefix mv ++ p) /\ r <> Err EOF.
Proof.
  intros Hnm Hm Hv Hts Hp name.
  assert (isTSGoModule mv = None) as Hmod by (destruct (nm_plain _ _ _ _ _ _ _ Hnm); unfold isTSGoModule; by rewrite decide_True).
  assert (parsed name = MkPath [] false [] true p mv) as Hpar.
  { unfold name. change (str "/" ++ p) with (slash :: p). rewrite parsed_module; [|by eapply EscapePath_at|by eapply EscapeVersion_elem|by eapply EscapePath_dot| |by right].
    - rewrite (unescape_pair_escaped mv) by done. unfold module_result. cbn [fst snd]. change (drop 1 (slash :: p)) with p. by rewrite Hp.
    - apply CutPrefix_None in Hts. apply CutPrefix_None. intros ?. by apply Hts, prefix_app_r. }
  split; [done|]. destruct (getZipRoot_new _ _ _ _ _ _ _ Hnm) as (f' & Hz & Hs).
  unfold file_of_path. rewrite Hpar. cbn [NotExist WellKnown CacheDownloadFileExt InZip ModVersion Path negb].
  rewrite (decide_False (P := [] = wkTSGoExtracted)), !(decide_False (P := [] <> [])) by (done || auto). rewrite (try_ok _ _ _ _ _ Hz).
  rewrite call_reads by apply GetFile_state. rewrite Hs. eexists _, _. split; [done|].
  pose proof (stored_contents _ _ _ _ _ _ _ p Hnm) as Hc. destruct (zip_contents _ _) as [c|].
  - by rewrite Hc.
  - destruct Hc as (e & -> & He). split; [done|congruence].
Qed.
End served.

(** C4: a module version that no one asked for yet is served as the archive
    of the proxy has it.  When the store misses it, and [files] is the archive
    of the first proxy that serves its zip, info and mod files, then NFS,
    WebDAV and WinFSP each give, at the path of the module's directory and
    [p], the contents of the archive's file of that name, and fail when there
    is none; for a store that has what was put in it. *)
Theorem new_module_served {S H W} `{SR : StoreReads S H} `{SP : !StorePuts S H} `{L : ModEscapeLaws} `{Wd : !World W}
    cfg answer now json fuel n mv em ev (f : FS S H W) d files zh mh s2 p wname :
  (forall u w, client_Do u w = (answer u, w)) -> new_module cfg answer mv f d files zh mh s2 ->
  EscapePath (Module mv) = Ok em -> EscapeVersion (Version mv) = Ok ev ->
  CutPrefix (em ++ str "@" ++ ev) (str "tsgo-") = None -> TrimSuffix p (str "/") = p ->
  Fsp.unixifyPath wname = em ++ str "@" ++ ev ++ str "/" ++ p ->
  (0 <= GetFileCacheSize cfg)%Z -> paths_coherent f -> (0 < n)%nat -> (0 < fuel)%nat ->
  let contents := zip_contents files (Module mv ++ str "@" ++ Version mv ++ str "/" ++ p) in
  (forall c, contents = Some c -> (length c < fuel)%nat) ->
  content_of (nfs_contents cfg now json (Fsp.unixifyPath wname) f) = contents /\
  content_of (webdav_contents cfg json fuel n (Fsp.unixifyPath wname) f) = contents /\
  content_of (fsp_contents cfg now json fuel n wname f) = contents.
Proof.
  intros Hans Hnm Hm Hv Hts Hp Hw Hmx Hco Hn Hfu contents Hlen.
  destruct (file_of_new_module cfg answer Hans mv em ev f d files zh mh s2 p Hnm Hm Hv Hts Hp) as (Hpar & r & f' & Hfile & Hr & Heof).
  assert (zip_prefix mv ++ p = Module mv ++ str "@" ++ Version mv ++ str "/" ++ p) as Hname
    by (unfold zip_prefix; by rewrite <- !app_assoc).
  rewrite Hname in Hr. fold contents in Hr. rewrite <-Hw in Hpar, Hfile.
  assert (content_of (file_of_path cfg (Fsp.unixifyPath wname) f) = contents) as Hc by (rewrite Hfile, <-Hr; by destruct r).
  assert (WellKnown (parsed (Fsp.unixifyPath wname)) <> statusFile) as Hst by (by rewrite Hpar).
  assert ("@"%char ∈ Fsp.unixifyPath wname) as Hat by (rewrite Hw; set_solver).
  rewrite <-Hc. split_and!.
  - by apply nfs_refines.
  - apply webdav_refines; [done|done|]. by rewrite Hc.
  - apply fsp_refines; try done; [| | |by rewrite Hc].
    + intros Hnil. rewrite Hnil in Hat. by apply not_elem_of_nil in Hat.
    + intros Hh. rewrite Hh in Hat. revert Hat. change ("@"%char ∉ Fsp.helloName). by_decide.
    + rewrite Hfile. cbn. intros [= ->]. done.
Qed.

Import BangEscape.

Definition test_zip : list zipFile := [MkZipFile (str "a.b/M@v1.0.0/x/y.go") 420 3 (Ok (str "yyy"))].
Definition test_set : zipSet := MkZipSet (str "zip") (str "{}") (str "module a.b/M").
Definition test_data : PutModuleData :=
  MkPutModuleData (Some (str "{}")) (Some (str "module a.b/M")) (Some (str "h1:a.b/M@v1.0.0/x/y.go"))
    [MkPutFile (str "x/y.go") 420 3 (Ok (str "yyy"))].
Definition test_stored : mem := (PutModule (H := ModuleVersion) test_mv test_data empty_mem).2.

Lemma test_new : new_module test_cfg second_only test_mv mem_fs test_set test_zip (str "h1:a.b/M@v1.0.0/x/y.go") test_mv test_stored.
Proof.
  split; [by split|done|done|done|by exists test_bases; split; vm_compute| |by exists ErrCacheMiss, empty_mem].
  split_and!; [done|by vm_compute|]. split; [|apply NoDup_singleton]. apply Forall_singleton. split; [by_decide|by eexists].
Qed.

Lemma new_module_served_witness :
  content_of (nfs_contents test_cfg 0 [] (str "a.b/!m@v1.0.0/x/y.go") mem_fs) = Some (str "yyy") /\
  content_of (fsp_contents test_cfg 0 [] 9 2 (str "a.b\!m@v1.0.0\x\z.go") mem_fs) = None.
Proof.
  assert (paths_coherent mem_fs) as Hco by (intros mv p v Hin; by apply not_elem_of_nil in Hin). split.
  - refine (proj1 (new_module_served test_cfg second_only 0 [] 9 2 test_mv (str "a.b/!m") (str "v1.0.0") mem_fs _ _ _ _ _ (str "x/y.go")
      (str "a.b\!m@v1.0.0\x\y.go") (fun _ _ => eq_refl) test_new _ _ _ _ _ _ Hco _ _ _)); try (vm_compute; reflexivity); [done|lia..|].
    intros c Hc. vm_compute in Hc. injection Hc as <-. cbn. lia.
  - refine (proj2 (proj2 (new_module_served test_cfg second_only 0 [] 9 2 test_mv (str "a.b/!m") (str "v1.0.0") mem_fs _ _ _ _ _ (str "x/z.go")
      (str "a.b\!m@v1.0.0\x\z.go") (fun _ _ => eq_refl) test_new _ _ _ _ _ _ Hco _ _ _))); try (vm_compute; reflexivity); [done|lia..|].
    intros c Hc. vm_compute in Hc. discriminate Hc.
Defined.
