(* ===== verification/FrontFuse.v ===== *)
(** * FUSE gives the same contents as the other front ends

    A client of FUSE that walks to a file of a module and reads it to its
    end gets what the path names, as [FrontEnds] shows for the others. *)

From S2P Require Import Prelude GoStrings Lru Store StoreTree Paths PathDir NfsAttr NfsCache MemStore FS FSFacts FSProps.
From S2P Require Import Fuse FrontEnds FuseProps.

Local Open Scope gomodfs_scope.

Import Fuse FuseFacts.

Section front.
Context {S H W : Type} `{L : ModEscapeLaws} `{SR : StoreReads S H} `{Wd : !World W} (cfg : config).
Local Abbreviation FS := (FS S H W).
Local Abbreviation P A := (pst FS A).
Implicit Types f : FS.

(** The kernel reads [dest] bytes at a time until a read is short. *)
Fixpoint fuse_read_all (fuel dest : nat) (off : Z) (n : pathUnderZipRoot H) : P (eres bytes) :=
  match fuel with
  | O => pst_panic
  | Datatypes.S fuel' =>
      r <-! zipNode_Read n dest off ;;
      match r with
      | (Errno e, _) => pst_ret (Errno e)
      | (Done p, n) =>
          if decide (length p < dest)%nat then pst_ret (Done p) else
          q <-! fuse_read_all fuel' dest (off + Z.of_nat (length p)) n ;;
          pst_ret (match q with Done q => Done (p ++ q) | Errno e => Errno e end)
      end
  end.

(** A client walks to a file of a module and reads it. *)
Definition fuse_contents (fuel dest : nat) (name : bytes) : P (eres bytes) :=
  r <-! walk cfg root (splitSegs name) ;;
  match r with
  | Done (zipNode n) => fuse_read_all fuel dest 0 n
  | Done _ => pst_ret (Errno EISDIR)
  | Errno e => pst_ret (Errno e)
  end.

Definition done_of {A} (x : option (eres A * FS)) : option A :=
  match x with Some (Done a, _) => Some a | _ => None end.

Lemma fuse_read_rest fuel dest off n c f :
  mode_IsDir (zn_mode n) = false -> zn_fileContent n = Some c -> (0 < dest)%nat ->
  (0 <= off <= Z.of_nat (length c))%Z -> (Z.of_nat (length c) + Z.of_nat dest < 2 ^ 63)%Z ->
  (length c - Z.to_nat off < fuel)%nat ->
  fuse_read_all fuel dest off n f = Some (Done (drop (Z.to_nat off) c), f).
Proof.
  intros Hm Hc Hd. revert off. induction fuel as [|fuel IH]; intros off Ho Hl Hf; [lia|]. cbn [fuse_read_all].
  assert (zipNode_Read n dest off f = Some (Done (take dest (drop (Z.to_nat off) c)), n, f)) as Hr.
  { unfold zipNode_Read. rewrite Hm, Hc. unfold pst_bind, pst_ret. rewrite zipNode_Read_at_ok by lia.
    unfold read_of. rewrite decide_True by lia. cbn beta iota. do 3 f_equal. destruct n. cbn in *. by subst. }
  rewrite (bind_some _ _ _ _ _ Hr). cbn beta iota. rewrite length_take, length_drop.
  case_decide as Hs.
  - unfold pst_ret. do 3 f_equal. rewrite take_ge by (rewrite length_drop; lia). done.
  - erewrite bind_some by (apply IH; lia). cbn beta iota. unfold pst_ret. do 3 f_equal.
    rewrite <-(take_drop dest (drop (Z.to_nat off) c)) at 2. f_equal. rewrite drop_drop. f_equal. lia.
Qed.

Lemma fuse_read_file fuel dest n f :
  mode_IsDir (zn_mode n) = false -> zn_fileContent n = None -> (0 < dest)%nat -> (0 < fuel)%nat ->
  (forall c, (GetFile (zn_root n) (zn_path n) (fs_store f)).1 = Ok c ->
     (length c < fuel)%nat /\ (Z.of_nat (length c) + Z.of_nat dest < 2 ^ 63)%Z) ->
  done_of (fuse_read_all fuel dest 0 n f) =
    match (GetFile (zn_root n) (zn_path n) (fs_store f)).1 with Ok c => Some c | Err _ => None end.
Proof.
  intros Hm Hn Hd Hf Hb. destruct fuel as [|fuel]; [lia|]. cbn [fuse_read_all].
  pose proof (call_reads (W := W) (GetFile (zn_root n) (zn_path n)) f (GetFile_state _ _ _)) as Hcall.
  destruct ((GetFile (zn_root n) (zn_path n) (fs_store f)).1) as [c|e].
  - destruct (Hb c eq_refl) as [Hlen Hbig].
    set (n' := MkZipNode (zn_mv n) (zn_root n) (zn_mode n) (zn_size n) (zn_path n) (Some c) (zn_ents n) (zn_ent n)).
    assert (zipNode_Read n dest 0 f = Some (Done (take dest c), n', f)) as Hr.
    { unfold zipNode_Read. rewrite Hm, Hn. rewrite (bind_some _ _ _ _ _ Hcall). cbn beta iota zeta.
      rewrite zipNode_Read_at_ok by lia. unfold read_of. by rewrite decide_True by lia. }
    rewrite (bind_some _ _ _ _ _ Hr). cbn beta iota. rewrite length_take. case_decide as Hs.
    + unfold pst_ret. cbn. by rewrite take_ge by lia.
    + erewrite bind_some by (apply (fuse_read_rest fuel dest _ n' c f); [done..|lia|lia|lia]).
      cbn [done_of pst_ret].
      replace (Z.to_nat (0 + Z.of_nat (dest `min` length c))) with dest by lia. unfold pst_ret. cbn. by rewrite take_drop.
  - assert (zipNode_Read n dest 0 f = Some (Errno EIO_, n, f)) as Hr
      by (unfold zipNode_Read; rewrite Hm, Hn; by rewrite (bind_some _ _ _ _ _ Hcall)).
    by rewrite (bind_some _ _ _ _ _ Hr).
Qed.
End front.

(** FUSE refines [file_of_path] below the directory of a module version. *)
Lemma fuse_refines {S H W} `{L : ModEscapeLaws} `{SR : StoreReads S H} `{Wd : !World W} cfg mv em ev names t fuel dest (f : FS S H W) :
  isTSGoModule mv = None -> EscapePath (Module mv) = Ok em -> EscapeVersion (Version mv) = Ok ev ->
  head em <> Some dot -> CutPrefix (em ++ str "@" ++ ev) (str "tsgo-") = None -> Forall elem_ok names ->
  (forall mh f1, getZipRoot cfg mv f = Some (Ok mh, f1) -> holds_tree (fs_store f1) mh [] t /\ is_Dir t = true /\
     forall c, (GetFile mh (join_byte slash names) (fs_store f1)).1 = Ok c ->
       exists p m n, tree_walk t [] ModeDir 0 names = Done (p, m, n) /\ mode_IsDir m = false) ->
  let name := join_byte slash ((em ++ str "@" ++ ev) :: names) in
  (0 < dest)%nat -> (0 < fuel)%nat ->
  (forall c, content_of (file_of_path cfg name f) = Some c ->
     (length c < fuel)%nat /\ (Z.of_nat (length c) + Z.of_nat dest < 2 ^ 63)%Z) ->
  done_of (fuse_contents cfg fuel dest name f) = content_of (file_of_path cfg name f).
Proof.
  intros Hts Hm Hv Hh Ht Hn Htree name Hd Hf Hb.
  destruct (walk_parsed cfg mv em ev names t f Hts Hm Hv Hh Ht Hn) as [Hp Hw].
  { intros mh f1 Hz. by destruct (Htree _ _ Hz) as (? & ? & _). }
  fold name in Hp, Hw. unfold fuse_contents. unfold pst_bind at 1. rewrite Hw, Hp. cbn [ModVersion Path].
  unfold file_of_path in *. rewrite Hp in *.
  cbn [NotExist WellKnown CacheDownloadFileExt InZip ModVersion Path negb] in *.
  rewrite (decide_False (P := [] = wkTSGoExtracted)), !(decide_False (P := [] <> [])) in * by (done || auto).
  rewrite content_of_try in *. destruct (getZipRoot cfg mv f) as [[[mh|e] f1]|] eqn:Hz; [|done..].
  destruct (Htree mh f1 eq_refl) as (_ & _ & Hfile). rewrite call_reads in * by apply GetFile_state. cbn [content_of] in *.
  destruct (tree_walk t [] ModeDir 0 names) as [[[p m] n]|e] eqn:Hk.
  - destruct (mode_IsDir m) eqn:Hdir.
    + transitivity (@None bytes).
      * destruct fuel; [lia|]. cbn [fuse_read_all]. unfold zipNode_Read. cbn [zn_mode]. by rewrite Hdir.
      * destruct ((GetFile mh (join_byte slash names) (fs_store f1)).1) as [c|]; [|done].
        destruct (Hfile c eq_refl) as (p' & m' & n' & ? & ?). congruence.
    + rewrite fuse_read_file; [by destruct ((GetFile _ _ _).1)|done..|]. cbn [zn_root zn_path].
      intros c Hc. rewrite Hc in Hb. by apply Hb.
  - destruct ((GetFile mh (join_byte slash names) (fs_store f1)).1) as [c|]; [|done].
    destruct (Hfile c eq_refl) as (p' & m' & n' & ? & ?). congruence.
Qed.

(** C5: FUSE gives the contents that the path names, as the other front ends
    do: at every path below the directory of a module version, a client that
    walks there and reads gets what [file_of_path] says, or fails when it
    does; for a store whose directories list the files that can be read. *)
Theorem fuse_agrees {S H W} `{L : ModEscapeLaws} `{SR : StoreReads S H} `{Wd : !World W} cfg mv em ev names t fuel dest (f : FS S H W) :
  isTSGoModule mv = None -> EscapePath (Module mv) = Ok em -> EscapeVersion (Version mv) = Ok ev ->
  head em <> Some dot -> CutPrefix (em ++ str "@" ++ ev) (str "tsgo-") = None -> Forall elem_ok names ->
  (forall mh f1, getZipRoot cfg mv f = Some (Ok mh, f1) -> holds_tree (fs_store f1) mh [] t /\ is_Dir t = true /\
     forall c, (GetFile mh (join_byte slash names) (fs_store f1)).1 = Ok c ->
       exists p m n, tree_walk t [] ModeDir 0 names = Done (p, m, n) /\ mode_IsDir m = false) ->
  let name := join_byte slash ((em ++ str "@" ++ ev) :: names) in
  (0 < dest)%nat -> (0 < fuel)%nat ->
  (forall c, content_of (file_of_path cfg name f) = Some c ->
     (length c < fuel)%nat /\ (Z.of_nat (length c) + Z.of_nat dest < 2 ^ 63)%Z) ->
  done_of (fuse_contents cfg fuel dest name f) = content_of (file_of_path cfg name f).
Proof. apply fuse_refines. Qed.

Import BangEscape.

Lemma fuse_agrees_witness :
  done_of (fuse_contents test_cfg 9 2 (str "a.b/!m@v1.0.0/x/y.go") test_fs) = Some (str "y") /\
  content_of (file_of_path test_cfg (str "a.b/!m@v1.0.0/x/y.go") test_fs) = Some (str "y").
Proof.
  assert (content_of (file_of_path test_cfg (str "a.b/!m@v1.0.0/x/y.go") test_fs) = Some (str "y")) as Hc by (vm_compute; reflexivity).
  split; [|exact Hc].
  pose proof (fuse_agrees test_cfg test_mv (str "a.b/!m") (str "v1.0.0") [str "x"; str "y.go"] test_tree 9 2 test_fs) as Ha.
  cbv zeta in Ha. change (join_byte slash ((str "a.b/!m" ++ str "@" ++ str "v1.0.0") :: [str "x"; str "y.go"])) with (str "a.b/!m@v1.0.0/x/y.go") in Ha.
  rewrite Hc in Ha. apply Ha; [by vm_compute..|by_decide| |lia|lia|].
  - intros mh f1 Hz. vm_compute in Hz. injection Hz as <- <-. split_and!; [exact test_holds_tree|done|].
    intros c _. exists (str "x/y.go"), 420%Z, 1%Z. split; vm_compute; reflexivity.
  - intros c [= <-]. split; [change (1 < 9)%nat; lia|vm_compute; reflexivity].
Defined.
