(* ===== verification/ServedFuse.v ===== *)
(** * From a proxy to a FUSE client

    FUSE walks a module directory by directory, so that what a store lists
    matters too: the directories of a module that was put are those of its
    files.  [Served] has the clients that ask for a whole path. *)

From S2P Require Import Prelude GoStrings Lru Store StoreTree Paths PathDir NfsAttr NfsCache MemStore FS FSFacts FSProps.
From S2P Require Import Fuse FrontEnds FuseProps FrontFuse Served.

Local Open Scope gomodfs_scope.

Import Fuse FuseFacts.

(** ** What is asked of the store *)

(** Files whose names make a tree: there are some, of different names of
    non-empty elements, none is a directory, and none is below another. *)
Record tree_files (files : list PutFile) : Prop := {
  tf_some : files <> [];
  tf_nodup : NoDup (pf_Path <$> files);
  tf_clean f : f ∈ files -> Forall elem_ok (split_byte slash (pf_Path f)) /\ mode_IsDir (pf_Mode f) = false;
  tf_apart f g : f ∈ files -> g ∈ files -> ~ (pf_Path f ++ str "/") `prefix_of` pf_Path g }.

(** The files of a tree, by their names. *)
Definition tree_has (t : tree) (names : list bytes) : Prop :=
  exists p m n, tree_walk t [] ModeDir 0 names = Done (p, m, n) /\ mode_IsDir m = false.

Class StorePutTree (S H : Type) `{!Store S H} : Prop :=
  Put_tree mv d s mh s' : PutModule mv d s = (Ok mh, s') -> tree_files (Files d) ->
    exists t, holds_tree s' mh [] t /\ is_Dir t = true /\
      forall names, Forall elem_ok names -> join_byte slash names ∈ pf_Path <$> Files d -> tree_has t names.

(** ** The in-memory store *)

Section mem.
Context (files : list PutFile).

(** The tree of the files below [path]. *)
Fixpoint mem_tree (fuel : nat) (path : bytes) : tree :=
  match fuel with
  | O => Leaf
  | S fuel' =>
      Dir ((fun e => (e, if mode_IsDir (d_Mode e) then mem_tree fuel' (join_path path (d_Name e)) else Leaf))
             <$> mem_entries path files)
  end.

Lemma below_join path d f r : d <> [] ->
  below_dir (join_path path d) f = Some r <-> below_dir path f = Some (d ++ slash :: r).
Proof.
  intros Hd. unfold below_dir, join_path. destruct (decide (path = [])) as [->|Hp].
  - rewrite !decide_False by done. rewrite CutPrefix_Some, <-app_assoc.
    change (str "/" ++ r) with (slash :: r). split; [by intros ->|by intros [= ->]].
  - rewrite decide_False by (by destruct path). rewrite !CutPrefix_Some. change (str "/") with [slash]. by rewrite <- !app_assoc.
Qed.

Context (Hf : tree_files files).

Lemma below_clean path f rest : f ∈ files -> below_dir path f = Some rest -> Forall elem_ok (split_byte slash rest).
Proof.
  intros Hin Hr. destruct (tf_clean _ Hf f Hin) as [Hc _]. unfold below_dir in Hr. case_decide; [by simplify_eq|].
  apply CutPrefix_Some in Hr. change (str "/") with [slash] in Hr. rewrite Hr, <-app_assoc in Hc.
  change ([slash] ++ rest) with (slash :: rest) in Hc. rewrite split_byte_concat in Hc.
  by apply Forall_app in Hc as [_ ?].
Qed.

(** An entry is a file's, or the directory's of a file below it. *)
Lemma mem_dirent_inv path e : e ∈ mem_entries path files -> exists f, f ∈ files /\
  (below_dir path f = Some (d_Name e) /\ e = MkDirent (d_Name e) (pf_Mode f) (pf_Size f) \/
   exists r, below_dir path f = Some (d_Name e ++ slash :: r) /\ e = MkDirent (d_Name e) ModeDir 0).
Proof.
  unfold mem_entries. rewrite elem_of_remove_dups, list_elem_of_omap. intros (f & Hin & He). exists f. split; [done|].
  unfold mem_dirent in He. destruct (below_dir path f) as [rest|] eqn:Hr; [|done]. cbn [mbind option_bind] in He.
  change (str "/") with [slash] in He. destruct (Cut rest [slash]) as [[d r]|] eqn:Hc; simplify_eq; [right|by left].
  apply Cut_byte_Some in Hc as [-> _]. by exists r.
Qed.

(** Entries of one name are the same. *)
Lemma mem_entries_unique path e1 e2 :
  e1 ∈ mem_entries path files -> e2 ∈ mem_entries path files -> d_Name e1 = d_Name e2 -> e1 = e2.
Proof.
  assert (forall f g d r, f ∈ files -> g ∈ files -> below_dir path f = Some d -> below_dir path g = Some (d ++ slash :: r) -> False) as Hap.
  { intros f g d r H1 H2 Hd Hr. apply (tf_apart _ Hf f g H1 H2). exists r. unfold below_dir in *. change (str "/") with [slash] in *.
    case_decide; [simplify_eq; by rewrite <-app_assoc|].
    apply CutPrefix_Some in Hd, Hr. rewrite Hd, Hr, <- !app_assoc. done. }
  intros (f1 & Hf1 & H1)%mem_dirent_inv (f2 & Hf2 & H2)%mem_dirent_inv Hn. rewrite Hn in *.
  destruct H1 as [[Hb1 He1]|(r1 & Hb1 & He1)], H2 as [[Hb2 He2]|(r2 & Hb2 & He2)];
    [|exfalso; by eapply (Hap f1 f2)|exfalso; by eapply (Hap f2 f1)|congruence].
  assert (pf_Path f1 = pf_Path f2) as Hp.
  { unfold below_dir in *. case_decide; [congruence|]. apply CutPrefix_Some in Hb1, Hb2. congruence. }
  assert (find_file (pf_Path f1) files = Some f1) as Hff1 by (apply find_file_unique; [apply Hf|done]).
  assert (find_file (pf_Path f2) files = Some f2) as Hff2 by (apply find_file_unique; [apply Hf|done]).
  congruence.
Qed.

Lemma find_kid_map (g : Dirent -> tree) (l : list Dirent) e :
  e ∈ l -> (forall e', e' ∈ l -> d_Name e' = d_Name e -> e' = e) -> find_kid (d_Name e) ((fun e => (e, g e)) <$> l) = Some (e, g e).
Proof.
  induction l as [|x l IH]; intros Hin Hu; [by apply not_elem_of_nil in Hin|]. cbn [fmap list_fmap find_kid].
  destruct (decide (e ∈ l)) as [Hl|Hl]; [rewrite IH; set_solver|].
  apply elem_of_cons in Hin as [<-|?]; [|done].
  destruct (find_kid _ _) as [[e' k]|] eqn:Hk; [|by rewrite decide_True].
  exfalso. apply Hl. assert (e' ∈ l /\ d_Name e' = d_Name e) as [He' Hn].
  { clear -Hk. revert Hk. induction l as [|y l IH]; [done|]. cbn [fmap list_fmap find_kid].
    destruct (find_kid _ _) as [r|]; [intros [= ->]; destruct IH; [done|split; [by right|done]]|].
    case_decide; [|done]. intros [= <- _]. split; [by left|done]. }
  rewrite <-(Hu e'); [done|by right|done].
Qed.

Lemma mem_entry path f rest : f ∈ files -> below_dir path f = Some rest ->
  match Cut rest (str "/") with Some (d, _) => MkDirent d ModeDir 0 | None => MkDirent rest (pf_Mode f) (pf_Size f) end
    ∈ mem_entries path files.
Proof.
  intros Hin Hr. unfold mem_entries. apply elem_of_remove_dups, list_elem_of_omap. exists f. split; [done|].
  unfold mem_dirent. rewrite Hr. cbn [mbind option_bind]. by destruct (Cut rest (str "/")) as [[d r]|].
Qed.

(** An entry that is a directory has files below it. *)
Lemma mem_dir_entry path e : e ∈ mem_entries path files -> mode_IsDir (d_Mode e) = true ->
  d_Name e <> [] /\ exists f r, f ∈ files /\ below_dir path f = Some (d_Name e ++ slash :: r).
Proof.
  intros (f & Hin & [[Hb He]|(r & Hb & He)])%mem_dirent_inv Hd.
  - rewrite He in Hd. cbn in Hd. destruct (tf_clean _ Hf f Hin). congruence.
  - split; [|eauto]. pose proof (below_clean _ _ _ Hin Hb) as Hc. rewrite split_byte_concat in Hc.
    intros Hn. rewrite Hn in Hc. apply Forall_cons in Hc as [[] _]. done.
Qed.

Lemma mem_tree_holds s mv : mem_files s mv = files -> forall fuel path,
  (exists f r, f ∈ files /\ below_dir path f = Some r) ->
  (forall f r, f ∈ files -> below_dir path f = Some r -> (length r < fuel)%nat) ->
  holds_tree s mv path (mem_tree fuel path) /\ is_Dir (mem_tree fuel path) = true.
Proof.
  intros Hs. induction fuel as [|fuel IH]; intros path (f & r & Hin & Hr) Hlen; [specialize (Hlen _ _ Hin Hr); lia|].
  split; [|done]. cbn [mem_tree holds_tree]. split.
  - cbn. rewrite Hs, <-list_fmap_compose. change (fst ∘ _) with (@id Dirent). rewrite list_fmap_id.
    pose proof (mem_entry path f r Hin Hr). destruct (mem_entries path files); [by apply not_elem_of_nil in H|done].
  - assert (forall e, e ∈ mem_entries path files -> e ∈ mem_entries path files) as Hsub by done. revert Hsub.
    generalize (mem_entries path files) at 1 3 as l. induction l as [|e l IHl]; [done|]. intros Hl. cbn [fmap list_fmap].
    assert (e ∈ mem_entries path files) as He by (apply Hl; by left).
    assert (mode_IsDir (d_Mode e) = true -> holds_tree s mv (join_path path (d_Name e)) (mem_tree fuel (join_path path (d_Name e))) /\
      is_Dir (mem_tree fuel (join_path path (d_Name e))) = true) as Hdir.
    { intros Hd. destruct (mem_dir_entry _ _ He Hd) as (Hne & g & r' & Hg & Hr'). apply IH.
      - exists g, r'. split; [done|]. by apply below_join.
      - intros g' r'' Hg' Hr''%below_join; [|done]. specialize (Hlen _ _ Hg' Hr''). rewrite length_app in Hlen. cbn in Hlen. lia. }
    split_and!; [| |apply IHl; intros; apply Hl; by right]; destruct (mode_IsDir (d_Mode e)); try done;
      destruct Hdir as [Hh Hd]; done.
Qed.

Lemma mem_tree_walk f : f ∈ files -> forall names fuel path p0 m0 n0,
  Forall elem_ok names -> names <> [] -> below_dir path f = Some (join_byte slash names) ->
  (length (join_byte slash names) < fuel)%nat ->
  exists p m n, tree_walk (mem_tree fuel path) p0 m0 n0 names = Done (p, m, n) /\ mode_IsDir m = false.
Proof.
  intros Hin. induction names as [|x names IH]; intros fuel path p0 m0 n0 Hn Hne Hb Hlen; [done|].
  apply Forall_cons in Hn as [[Hx Hs] Hn]. destruct fuel as [|fuel]; [lia|]. cbn [mem_tree tree_walk].
  pose proof (mem_entry path f _ Hin Hb) as He. change (str "/") with [slash] in He. destruct names as [|y names].
  - cbn [join_byte] in *. rewrite Cut_byte_None in He by done. set (e := MkDirent _ _ _) in He.
    change x with (d_Name e) at 1. rewrite find_kid_map; [|done|intros; by eapply mem_entries_unique].
    cbn [tree_walk]. eexists _, _, _. split; [done|]. by apply (tf_clean _ Hf f Hin).
  - change (join_byte slash (x :: y :: names)) with (x ++ slash :: join_byte slash (y :: names)) in *.
    rewrite Cut_byte in He by done. set (e := MkDirent _ _ _) in He.
    change x with (d_Name e) at 1. rewrite find_kid_map; [|done|intros; by eapply mem_entries_unique].
    change (mode_IsDir (d_Mode e)) with true. cbn iota. apply IH; [done|done|by apply below_join|].
    rewrite length_app in Hlen. cbn [length] in Hlen. lia.
Qed.
End mem.

#[export] Instance mem_put_tree : StorePutTree mem ModuleVersion.
Proof.
  intros mv d s mh s' [= <- <-] Hf. set (s' := MkMem _ _ _).
  assert (mem_files s' mv = Files d) as Hs by (unfold mem_files; cbn; by rewrite lookup_insert_eq).
  set (fuel := S (max_list (length ∘ pf_Path <$> Files d))).
  assert (forall f, f ∈ Files d -> (length (pf_Path f) < fuel)%nat) as Hlen.
  { intros f Hin. unfold fuel. pose proof (max_list_elem_of_le (length (pf_Path f)) (length ∘ pf_Path <$> Files d)) as Hm.
    specialize (Hm ltac:(by apply (list_elem_of_fmap_2 (length ∘ pf_Path)))). lia. }
  destruct (mem_tree_holds _ Hf s' mv Hs fuel []) as [Hh Hd].
  - destruct (Files d) as [|f l] eqn:Hl; [by destruct (tf_some _ Hf)|]. exists f, (pf_Path f). split; [by left|done].
  - intros f r Hin [= <-]. by apply Hlen.
  - exists (mem_tree (Files d) fuel []). split_and!; [done|done|]. intros names Hn (f & Hp & Hin)%list_elem_of_fmap.
    unfold tree_has. apply (mem_tree_walk _ Hf f Hin); [done| |by rewrite Hp|rewrite Hp; by apply Hlen].
    intros ->. destruct (tf_clean _ Hf f Hin) as [Hc _]. rewrite <-Hp in Hc. cbn in Hc. apply Forall_cons in Hc as [[] _]. done.
Qed.

(** ** The module is served *)

Section served.
Context `{L : ModEscapeLaws} {S H W : Type} `{SR : StoreReads S H} `{SP : !StorePuts S H} `{ST : !StorePutTree S H} `{Wd : !World W}.
Context (cfg : config) (answer : bytes -> res (Z * res bytes)).
Hypothesis client_answer : forall u w, client_Do u w = (answer u, w).

(** The store lists the files of the archive, and what it can read is
    among them. *)
Lemma stored_tree mv (f : FS S H W) d files zh mh s2 : new_module cfg answer mv f d files zh mh s2 ->
  tree_files (put_of mv <$> files) ->
  exists t, holds_tree s2 mh [] t /\ is_Dir t = true /\
    forall names c, Forall elem_ok names -> (GetFile mh (join_byte slash names) s2).1 = Ok c -> tree_has t names.
Proof.
  intros Hnm Htf. pose proof Hnm as [_ _ _ _ _ (_ & _ & Hz) (e & s1 & _ & _ & Hput)].
  destruct (Put_tree _ _ _ _ _ Hput Htf) as (t & Ht & Hd & Hnames). exists t. split_and!; [done..|].
  intros names c Hn Hc. apply Hnames; [done|]. cbn [Files].
  pose proof (stored_contents cfg answer mv f d files zh mh s2 (join_byte slash names) Hnm) as Hs.
  unfold zip_contents in Hs. destruct (list_find _ files) as [[i z]|] eqn:Hf.
  - apply list_find_Some in Hf as (Hi & Hzn & _). apply list_elem_of_lookup_2 in Hi.
    rewrite (zip_name _ _ _ Hz Hi) in Hzn. apply (inj (app (zip_prefix mv))) in Hzn as <-.
    by apply list_elem_of_fmap_2, list_elem_of_fmap_2.
  - destruct Hs as (e' & He & _). congruence.
Qed.

Lemma fuse_of_new_module mv em ev (f : FS S H W) d files zh mh s2 names fuel dest : new_module cfg answer mv f d files zh mh s2 ->
  tree_files (put_of mv <$> files) ->
  EscapePath (Module mv) = Ok em -> EscapeVersion (Version mv) = Ok ev ->
  head em <> Some dot -> CutPrefix (em ++ str "@" ++ ev) (str "tsgo-") = None -> Forall elem_ok names -> names <> [] ->
  (0 < dest)%nat -> (0 < fuel)%nat ->
  let contents := zip_contents files (zip_prefix mv ++ join_byte slash names) in
  (forall c, contents = Some c -> (length c < fuel)%nat /\ (Z.of_nat (length c) + Z.of_nat dest < 2 ^ 63)%Z) ->
  done_of (fuse_contents cfg fuel dest (join_byte slash ((em ++ str "@" ++ ev) :: names)) f) = contents.
Proof.
  intros Hnm Htf Hm Hv Hh Hts Hn Hne Hd Hf contents Hb.
  destruct (stored_tree _ _ _ _ _ _ _ Hnm Htf) as (t & Ht & Hdir & Hread).
  destruct (getZipRoot_new cfg answer client_answer mv f d files zh mh s2 Hnm) as (f' & Hz & Hs).
  destruct (file_of_new_module cfg answer client_answer mv em ev f d files zh mh s2 (join_byte slash names) Hnm Hm Hv Hts)
    as (_ & r & f1 & Hfile & Hr & _); [by apply TrimSuffix_slash|].
  assert (join_byte slash ((em ++ str "@" ++ ev) :: names) = em ++ str "@" ++ ev ++ str "/" ++ join_byte slash names) as Hname.
  { destruct names as [|x names]; [done|].
    change (join_byte slash ((em ++ str "@" ++ ev) :: x :: names)) with ((em ++ str "@" ++ ev) ++ slash :: join_byte slash (x :: names)).
    by rewrite <- !app_assoc. }
  assert (content_of (file_of_path cfg (join_byte slash ((em ++ str "@" ++ ev) :: names)) f) = contents) as Hc
    by (rewrite Hname, Hfile; unfold contents; rewrite <-Hr; by destruct r).
  rewrite <-Hc. apply (fuse_refines cfg mv em ev names t fuel dest f); [|done..| |done|done|by rewrite Hc].
  - destruct (nm_plain _ _ _ _ _ _ _ _ _ Hnm). unfold isTSGoModule. by rewrite decide_True.
  - intros mh' f2 Hz'. rewrite Hz in Hz'. injection Hz' as <- <-. rewrite Hs. split_and!; [done..|].
    intros c Hgc. by apply (Hread names c).
Qed.
End served.

(** C6: FUSE serves a module version that no one asked for yet as the archive
    of the proxy has it: when the store misses it, and the names in the
    archive of the first proxy that serves its files make a tree, a client
    that walks to a path below the module's directory and reads gets the
    contents of the archive's file of that name, and fails when there is
    none; for a store that has and lists what was put in it. *)
Theorem new_module_walked {S H W} `{SR : StoreReads S H} `{SP : !StorePuts S H} `{ST : !StorePutTree S H} `{L : ModEscapeLaws} `{Wd : !World W}
    cfg answer mv em ev (f : FS S H W) d files zh mh s2 names fuel dest :
  (forall u w, client_Do u w = (answer u, w)) -> new_module cfg answer mv f d files zh mh s2 ->
  tree_files (put_of mv <$> files) ->
  EscapePath (Module mv) = Ok em -> EscapeVersion (Version mv) = Ok ev ->
  head em <> Some dot -> CutPrefix (em ++ str "@" ++ ev) (str "tsgo-") = None ->
  Forall elem_ok names -> names <> [] -> (0 < dest)%nat -> (0 < fuel)%nat ->
  let contents := zip_contents files (zip_prefix mv ++ join_byte slash names) in
  (forall c, contents = Some c -> (length c < fuel)%nat /\ (Z.of_nat (length c) + Z.of_nat dest < 2 ^ 63)%Z) ->
  done_of (fuse_contents cfg fuel dest (join_byte slash ((em ++ str "@" ++ ev) :: names)) f) = contents.
Proof. intros Hans Hnm. intros. by apply (fuse_of_new_module cfg answer Hans mv em ev f d files zh mh s2). Qed.

Import BangEscape.

Lemma test_tree_files : tree_files (put_of test_mv <$> test_zip).
Proof.
  split.
  - done.
  - apply NoDup_singleton.
  - intros f ->%list_elem_of_singleton. split; [by_decide|done].
  - intros f g ->%list_elem_of_singleton ->%list_elem_of_singleton. apply CutPrefix_None. by vm_compute.
Qed.

Lemma new_module_walked_witness :
  done_of (fuse_contents test_cfg 9 2 (str "a.b/!m@v1.0.0/x/y.go") mem_fs) = Some (str "yyy") /\
  done_of (fuse_contents test_cfg 9 2 (str "a.b/!m@v1.0.0/x") mem_fs) = None.
Proof.
  pose proof (fun names => new_module_walked test_cfg second_only test_mv (str "a.b/!m") (str "v1.0.0") mem_fs _ _ _ _ _ names 9 2
    (fun _ _ => eq_refl) test_new test_tree_files eq_refl eq_refl) as Hw.
  cbv zeta in Hw. split.
  - assert (zip_contents test_zip (zip_prefix test_mv ++ join_byte slash [str "x"; str "y.go"]) = Some (str "yyy")) as Hc
      by (vm_compute; reflexivity).
    specialize (Hw [str "x"; str "y.go"]). rewrite Hc in Hw.
    change (join_byte slash ((str "a.b/!m" ++ str "@" ++ str "v1.0.0") :: [str "x"; str "y.go"])) with (str "a.b/!m@v1.0.0/x/y.go") in Hw.
    apply Hw; [done|by vm_compute|by_decide|done|lia|lia|].
    intros c [= <-]. split; [change (3 < 9)%nat; lia|vm_compute; reflexivity].
  - assert (zip_contents test_zip (zip_prefix test_mv ++ join_byte slash [str "x"]) = None) as Hc by (vm_compute; reflexivity).
    specialize (Hw [str "x"]). rewrite Hc in Hw.
    change (join_byte slash ((str "a.b/!m" ++ str "@" ++ str "v1.0.0") :: [str "x"])) with (str "a.b/!m@v1.0.0/x") in Hw.
    apply Hw; [done|by vm_compute|by_decide|done|lia|lia|done].
Defined.
