(* ===== verification/ServedStatus.v ===== *)
(** * The status file through the front ends

    [Status] shows that the text [StatusJSON] renders reads back as the
    statistics; here a client reads that text as a file, over NFS, WebDAV,
    WinFSP or FUSE. *)

From S2P Require Import Prelude GoStrings Store Paths FS Nfs WebDav WinFsp Fuse FrontEnds FuseProps MemStore FSProps Stats Status.

Local Open Scope gomodfs_scope.

Import Fuse FuseFacts.

Section served.
Context `{E : ModEscape} {S H W : Type} `{St : !Store S H} `{Wd : !World W} (cfg : config) (now : Z) (text : bytes).
Implicit Types f : FS S H W.

Lemma statusFile_parsed : parsed statusFile = MkPath statusFile false [] false [] (MkMV [] []).
Proof. vm_compute. reflexivity. Qed.

(** What the NFS server gives: the text that it made less than two seconds
    before, or a new one. *)
Definition nfs_status (f : FS S H W) : bytes :=
  match statusCache f with
  | Some m => if (now - sm_modTime m <? 2 * second)%Z then sm_json m else text
  | None => text
  end.

Lemma nfs_gives_status f : content_of (nfs_contents cfg now text statusFile f) = Some (nfs_status f).
Proof.
  unfold nfs_contents, getFileContentsUncached. rewrite statusFile_parsed. cbn [NotExist WellKnown].
  rewrite (decide_False (P := statusFile = wkTSGoExtracted)), (decide_True (P := statusFile = statusFile)) by done.
  unfold nfs_status, statusFile_, pst_try, pst_bind, gets. destruct (statusCache f) as [m|]; [|done].
  by destruct (now - sm_modTime m <? 2 * second)%Z.
Qed.

Lemma webdav_gives_status fuel n f : (0 < n)%nat -> (length text < fuel)%nat ->
  content_of (webdav_contents cfg text fuel n statusFile f) = Some text.
Proof.
  intros Hn Hf. unfold webdav_contents, Webdav.OpenFile. rewrite statusFile_parsed. cbn [NotExist WellKnown].
  change (negb (Z.land Webdav.O_RDONLY Webdav.writeFlags =? 0)%Z) with false. cbv iota zeta.
  rewrite (decide_True (P := statusFile <> [])), (decide_True (P := statusFile = statusFile)) by done.
  unfold pst_try, pst_bind, pst_ok, pst_ret. cbn iota beta. unfold Webdav.newWDFileFromContents. cbn [Webdav.ReadSeeker].
  by rewrite webdav_reads.
Qed.

Lemma winfsp_gives_status fuel n wname f : Fsp.unixifyPath wname = statusFile -> (0 < n)%nat -> (length text < fuel)%nat ->
  content_of (fsp_contents cfg now text fuel n wname f) = Some text.
Proof.
  intros Hw Hn Hf. unfold fsp_contents, Fsp.OpenFile. rewrite Hw, statusFile_parsed. cbn [NotExist WellKnown].
  change (negb (Z.land Webdav.O_RDONLY Webdav.O_WRONLY =? 0)%Z || negb (Z.land Webdav.O_RDONLY Webdav.O_RDWR =? 0)%Z) with false.
  change (negb (Z.land Webdav.O_RDONLY Webdav.writeFlags =? 0)%Z) with false. cbv iota zeta.
  rewrite (decide_False (P := statusFile = [])), (decide_False (P := statusFile = Fsp.helloName)),
    (decide_True (P := statusFile <> [])), (decide_True (P := statusFile = statusFile)) by done.
  unfold pst_try, pst_bind, pst_ok, pst_ret. cbn iota beta. by erewrite fsp_read_all.
Qed.

(** *** FUSE: the kernel walks to the file, opens it, and reads [dest] bytes
    at a time until a read is short *)

Fixpoint status_read_all (fuel dest : nat) (off : Z) (h : option statusFH) : option (eres bytes) :=
  match fuel with
  | O => None
  | Datatypes.S fuel' =>
      r ← statusFileNode_Read h dest off;
      match r with
      | Errno e => Some (Errno e)
      | Done p =>
          if decide (length p < dest)%nat then Some (Done p) else
          q ← status_read_all fuel' dest (off + Z.of_nat (length p)) h;
          Some (match q with Done q => Done (p ++ q) | Errno e => Errno e end)
      end
  end.

Definition fuse_status (fuel dest : nat) (f : FS S H W) : option (eres bytes) :=
  match walk cfg root [statusFile] f with
  | Some (Done statusFileNode, _) =>
      match statusFileNode_Open text 0 with
      | Done (h, _) => status_read_all fuel dest 0 h
      | Errno e => Some (Errno e)
      end
  | _ => None
  end.

Lemma status_read_rest fuel dest off :
  (0 < dest)%nat -> (0 <= off <= Z.of_nat (length text))%Z -> (Z.of_nat (length text) + Z.of_nat dest < 2 ^ 63)%Z ->
  (length text - Z.to_nat off < fuel)%nat ->
  status_read_all fuel dest off (Some text) = Some (Done (drop (Z.to_nat off) text)).
Proof.
  intros Hd. revert off. induction fuel as [|fuel IH]; intros off Ho Hl Hf; [lia|]. cbn [status_read_all].
  unfold statusFileNode_Read. rewrite slice_ok by lia. cbn [fmap option_fmap option_map mbind option_bind].
  rewrite length_take, length_drop. case_decide as Hs.
  - by rewrite take_ge by (rewrite length_drop; lia).
  - rewrite IH by lia. cbn [mbind option_bind]. do 2 f_equal.
    rewrite <-(take_drop dest (drop (Z.to_nat off) text)) at 2. f_equal. rewrite drop_drop. f_equal. lia.
Qed.

Lemma fuse_gives_status fuel dest f : (0 < dest)%nat -> (length text < fuel)%nat ->
  (Z.of_nat (length text) + Z.of_nat dest < 2 ^ 63)%Z -> fuse_status fuel dest f = Some (Done text).
Proof. intros Hd Hf Hl. change (fuse_status fuel dest f) with (status_read_all fuel dest 0 (Some text)). by rewrite status_read_rest by lia. Qed.
End served.


Import BangEscape.

