(* ===== verification/Names.v ===== *)
(** * go-nfs: names for logs (nfsinterface.go, mountinterface.go, errors.go,
    file.go, conn.go), and the logger of log.go

    What the server prints: the names of procedures, statuses and file
    types, the texts of errors, the text of a request, and which messages
    the default logger prints at which level. *)

From S2P Require Import Prelude GoStrings Store NfsAttr Rpc NfsServe.

Local Open Scope gomodfs_scope.
Local Open Scope Z_scope.

(** ** Names *)

(** A [switch] over constants. *)
Definition name_of (names : list (Z * string)) (other : string) (z : Z) : bytes :=
  str (match list_find (fun x => x.1 = z) names with Some (_, (_, s)) => s | None => other end).

(** The constants [NFSProcedure...] with their names. *)
Definition NFSProcedure_names : list (Z * string) :=
  [(0, "Null"); (1, "GetAttr"); (2, "SetAttr"); (3, "Lookup"); (4, "Access"); (5, "ReadLink"); (6, "Read");
   (7, "Write"); (8, "Create"); (9, "Mkdir"); (10, "Symlink"); (11, "Mknod"); (12, "Remove"); (13, "Rmdir");
   (14, "Rename"); (15, "Link"); (16, "ReadDir"); (17, "ReadDirPlus"); (18, "FSStat"); (19, "FSInfo");
   (20, "PathConf"); (21, "Commit")]%stdpp.
Definition NFSProcedure_String (z : Z) : bytes := name_of NFSProcedure_names "Unknown" z.

(** The constants [NFSStatus...]. *)
Definition NFSStatus_names : list (Z * string) :=
  [(0, "Call Completed Successfull"); (1, "Not Owner"); (2, "No such file or directory"); (5, "I/O error");
   (6, "I/O error: No such device"); (13, "Permission denied"); (17, "File exists");
   (18, "Attempt to do a cross device hard link"); (19, "No such device"); (20, "Not a directory");
   (21, "Is a directory"); (22, "Invalid argument"); (27, "File too large"); (28, "No space left on device");
   (30, "Read only file system"); (31, "Too many hard links"); (63, "Name too long"); (66, "Not empty");
   (69, "Resource quota exceeded"); (70, "Invalid file handle"); (71, "Too many levels of remote in path");
   (10001, "Illegal NFS file handle"); (10002, "Synchronization mismatch"); (10003, "Cookie is Stale");
   (10004, "Operation not supported"); (10005, "Buffer or request too small"); (10006, "Unmapped error (EIO)");
   (10007, "Type not supported"); (10008, "Initiated, but too slow. Try again with new txn")]%stdpp.
Definition NFSStatus_String (z : Z) : bytes := name_of NFSStatus_names "unknown" z.

(** The constants [MountProc...]. *)
Definition MountProcedure_names : list (Z * string) :=
  [(0, "Null"); (1, "Mount"); (2, "Dump"); (3, "Umnt"); (4, "UmntAll"); (5, "Export")]%stdpp.
Definition MountProcedure_String (z : Z) : bytes := name_of MountProcedure_names "Unknown" z.

(** The constants [AuthStat...], with the texts of [AuthError.Error]. *)
Definition AuthStat_names : list (Z * string) :=
  [(0, "Auth Status: OK"); (1, "Auth Status: bad credential"); (2, "Auth Status: client must begin new session");
   (3, "Auth Status: bad verifier"); (4, "Auth Status: verifier expired or replayed");
   (5, "Auth Status: rejected for security reasons"); (6, "Auth Status: bogus response verifier");
   (7, "Auth Status: reason unknown"); (8, "Auth Status: kerberos generic error");
   (9, "Auth Status: time of credential expired"); (10, "Auth Status: problem with ticket file");
   (11, "Auth Status: can't decode authenticator"); (12, "Auth Status: wrong net address in ticket");
   (13, "Auth Status: no credentials for user"); (14, "Auth Status: problem with context")]%stdpp.
Definition AuthError_Error (z : Z) : bytes := name_of AuthStat_names "Auth Status: Unknown" z.

(** [FileType.String]. *)
Definition FileType_String (t : FileType) : bytes :=
  match t with
  | FileTypeRegular => str "Regular" | FileTypeDirectory => str "Directory" | FileTypeBlock => str "Block Device"
  | FileTypeCharacter => str "Character Device" | FileTypeLink => str "Symbolic Link" | FileTypeSocket => str "Socket"
  | FileTypeFIFO => str "FIFO"
  end.

(** ** Errors *)

Definition RPCMismatchError_Error (Low High : Z) : bytes :=
  str "RPC Mismatch: Expected version between " ++ Itoa Low ++ str " and " ++ Itoa High ++ str ".".
Definition ResponseCodeProcUnavailableError_Error : bytes := str "The requested procedure is unexported".
Definition ResponseCodeSystemError_Error : bytes := str "memory allocation failure".

(** [NFSStatusError.Error], with the text of the wrapped error, if any. *)
Definition NFSStatusError_Error (status : Z) (wrapped : option bytes) : bytes :=
  match wrapped with
  | Some text => NFSStatus_String status ++ str ": " ++ text
  | None => NFSStatus_String status
  end.

(** ** Requests *)

(** [request.String], by the fields it prints. *)
Definition request_String (xid Prog Proc : Z) : bytes :=
  let start := str "RPC #" ++ Itoa xid ++ str " (" in
  if (Prog =? Registry.nfsServiceID)%Z then start ++ str "nfs." ++ NFSProcedure_String Proc ++ str ")"
  else if (Prog =? Registry.mountServiceID)%Z then start ++ str "mount." ++ MountProcedure_String Proc ++ str ")"
  else if (Prog =? Registry.lockServiceID)%Z then start ++ str "lock." ++ Itoa Proc ++ str ")"
  else start ++ Itoa Prog ++ str "." ++ Itoa Proc ++ str ")".

(** ** The logger *)

Module Log.

Definition LogLevel : Type := Z.
Definition PanicLevel : LogLevel := 0%Z.
Definition FatalLevel : LogLevel := 1%Z.
Definition ErrorLevel : LogLevel := 2%Z.
Definition WarnLevel : LogLevel := 3%Z.
Definition InfoLevel : LogLevel := 4%Z.
Definition DebugLevel : LogLevel := 5%Z.
Definition TraceLevel : LogLevel := 6%Z.

Record DefaultLogger := MkLogger { Level : LogLevel }.

Definition GetLevel (l : DefaultLogger) : LogLevel := Level l.
Definition SetLevel (level : LogLevel) (l : DefaultLogger) : DefaultLogger := MkLogger level.

(** The level, and the error. *)
Definition ParseLevel (level : bytes) : LogLevel * option error :=
  if decide (level = str "panic") then (PanicLevel, None)
  else if decide (level = str "fatal") then (FatalLevel, None)
  else if decide (level = str "error") then (ErrorLevel, None)
  else if decide (level = str "warn") then (WarnLevel, None)
  else if decide (level = str "info") then (InfoLevel, None)
  else if decide (level = str "debug") then (DebugLevel, None)
  else if decide (level = str "trace") then (TraceLevel, None)
  else (0%Z, Some (errText "invalid log level")).

(** [init], with [LOG_LEVEL] of the environment. *)
Definition init (LOG_LEVEL : bytes) (l : DefaultLogger) : DefaultLogger :=
  if decide (LOG_LEVEL <> []) then
    match ParseLevel LOG_LEVEL with
    | (level, None) => SetLevel level l
    | (_, Some _) => l
    end
  else SetLevel InfoLevel l.

(** An operand of [fmt.Sprint]: whether it is a string, and its text.  A
    space goes between two that are no strings. *)
Fixpoint Sprint (args : list (bool * bytes)) : bytes :=
  match args with
  | [] => []
  | [a] => a.2
  | a :: (b :: _) as rest => a.2 ++ (if negb a.1 && negb b.1 then str " " else []) ++ Sprint rest
  end.

(** A method that prints at a level: what it prints, if it does.  Of the
    methods with a format, [text] is what [fmt.Sprintf] makes of theirs; the
    prefix has no verbs. *)
Definition print_at (level : LogLevel) (prefix : string) (l : DefaultLogger) (args : list (bool * bytes)) : option bytes :=
  if (Level l <? level)%Z then None else Some (Sprint ((true, str prefix) :: args)).
Definition printf_at (level : LogLevel) (prefix : string) (l : DefaultLogger) (text : bytes) : option bytes :=
  if (Level l <? level)%Z then None else Some (str prefix ++ text).

Definition Panic := print_at PanicLevel "[PANIC] ".
Definition Panicf := printf_at PanicLevel "[PANIC] ".
Definition Fatal := print_at FatalLevel "[FATAL] ".
Definition Fatalf := printf_at FatalLevel "[FATAL] ".
Definition Error := print_at ErrorLevel "[ERROR] ".
Definition Errorf := printf_at ErrorLevel "[ERROR] ".
Definition Warn := print_at WarnLevel "[WARN] ".
Definition Warnf := printf_at WarnLevel "[WARN] ".
Definition Info := print_at InfoLevel "[INFO] ".
Definition Infof := printf_at InfoLevel "[INFO] ".
Definition Debug := print_at DebugLevel "[DEBUG] ".
Definition Debugf := printf_at DebugLevel "[DEBUG] ".
Definition Trace := print_at TraceLevel "[TRACE] ".
Definition Tracef := printf_at TraceLevel "[TRACE] ".
Definition Print (l : DefaultLogger) (args : list (bool * bytes)) : option bytes := Some (Sprint args).
Definition Printf (l : DefaultLogger) (text : bytes) : option bytes := Some text.
End Log.

(** ** Facts *)

Lemma Itoa_inj n m : 0 <= n -> 0 <= m -> Itoa n = Itoa m -> n = m.
Proof. intros Hn Hm He. pose proof (parse_Itoa n Hn) as H. rewrite He, parse_Itoa in H by done. by injection H. Qed.

(** What a request's text says of the procedure. *)
Definition call_text (k : Z * Z) : bytes :=
  if k.1 =? Registry.nfsServiceID then str "nfs." ++ NFSProcedure_String k.2 ++ str ")"
  else if k.1 =? Registry.mountServiceID then str "mount." ++ MountProcedure_String k.2 ++ str ")"
  else if k.1 =? Registry.lockServiceID then str "lock." ++ Itoa k.2 ++ str ")"
  else Itoa k.1 ++ str "." ++ Itoa k.2 ++ str ")".

Lemma request_String_call xid prog proc :
  request_String xid prog proc = str "RPC #" ++ Itoa xid ++ " "%char :: "("%char :: call_text (prog, proc).
Proof. unfold request_String, call_text. cbn [fst snd]. repeat case_match; by rewrite <- !app_assoc. Qed.

Definition procedures : list (Z * Z) := Registry.table.*1.

Lemma call_texts_differ k k' : k ∈ procedures -> k' ∈ procedures -> call_text k = call_text k' -> k = k'.
Proof.
  assert (forallb (fun k => forallb (fun k' => bool_decide (call_text k = call_text k' -> k = k')) procedures) procedures = true) as H
    by (vm_compute; reflexivity).
  rewrite forallb_forall in H. intros Hk Hk'. specialize (H k ltac:(by apply list_elem_of_In)).
  rewrite forallb_forall in H. specialize (H k' ltac:(by apply list_elem_of_In)). by apply bool_decide_eq_true in H.
Qed.

(** The text of a request for a registered procedure tells its transaction
    number, its program and its procedure. *)
Lemma request_String_tells xid prog proc xid' prog' proc' :
  0 <= xid -> 0 <= xid' ->
  is_Some (Registry.handlerFor Registry.registered prog proc) ->
  is_Some (Registry.handlerFor Registry.registered prog' proc') ->
  request_String xid prog proc = request_String xid' prog' proc' ->
  xid = xid' /\ prog = prog' /\ proc = proc'.
Proof.
  intros Hx Hx' [p Hp] [p' Hp'] He. rewrite !request_String_call in He. apply app_inv_head in He.
  assert (forall n, 0 <= n -> " "%char ∉ Itoa n) as Hn by (intros n Hn; by apply Itoa_notin).
  pose proof (Cut_byte (Itoa xid) " "%char ("("%char :: call_text (prog, proc)) (Hn _ Hx)) as Hs.
  rewrite He, (Cut_byte (Itoa xid') " "%char _ (Hn _ Hx')) in Hs.
  injection Hs as Hi Ht. split; [symmetry in Hi; exact (Itoa_inj _ _ Hx Hx' Hi)|].
  assert (forall k p, Registry.handlerFor Registry.registered k.1 k.2 = Some p -> k ∈ procedures) as Hin.
  { intros [a b] q Hq. apply Registry.handlerFor_table in Hq. by apply list_elem_of_fmap_2 with (f := fst) in Hq. }
  pose proof (call_texts_differ (prog, proc) (prog', proc') (Hin (prog, proc) p Hp) (Hin (prog', proc') p' Hp') (eq_sym Ht)) as Hk.
  injection Hk as -> ->. split; reflexivity.
Qed.

(** Every status has its own text, and every registered procedure of NFS and
    MOUNT a name. *)
Lemma names_distinct :
  NoDup ((fun x => str x.2) <$> NFSStatus_names) /\ NoDup ((fun x => str x.2) <$> AuthStat_names) /\
  Forall (fun r => NFSProcedure_String r.1 <> str "Unknown") Registry.nfs_registrations /\
  Forall (fun r => MountProcedure_String r.1 <> str "Unknown") Registry.mount_registrations.
Proof. split_and!; by_decide. Qed.

(** A message at a level is printed exactly by a logger of that level or a
    higher one, and every level is read back from its name. *)
Lemma log_levels l args text :
  Forall (fun x => is_Some (x.2 l args) <-> x.1 <= Log.GetLevel l)
    [(Log.PanicLevel, Log.Panic); (Log.FatalLevel, Log.Fatal); (Log.ErrorLevel, Log.Error); (Log.WarnLevel, Log.Warn);
     (Log.InfoLevel, Log.Info); (Log.DebugLevel, Log.Debug); (Log.TraceLevel, Log.Trace)] /\
  Forall (fun x => is_Some (x.2 l text) <-> x.1 <= Log.GetLevel l)
    [(Log.PanicLevel, Log.Panicf); (Log.FatalLevel, Log.Fatalf); (Log.ErrorLevel, Log.Errorf); (Log.WarnLevel, Log.Warnf);
     (Log.InfoLevel, Log.Infof); (Log.DebugLevel, Log.Debugf); (Log.TraceLevel, Log.Tracef)] /\
  Log.ParseLevel <$> [str "panic"; str "fatal"; str "error"; str "warn"; str "info"; str "debug"; str "trace"] =
    (fun level => (level, None)) <$> [0; 1; 2; 3; 4; 5; 6].
Proof.
  assert (forall level p, is_Some (Log.print_at level p l args) <-> level <= Log.GetLevel l) as H1.
  { intros level p. unfold Log.print_at, Log.GetLevel. destruct (Z.ltb_spec (Log.Level l) level); rewrite is_Some_alt; [|split; [lia|done]].
    split; [done|lia]. }
  assert (forall level p, is_Some (Log.printf_at level p l text) <-> level <= Log.GetLevel l) as H2.
  { intros level p. unfold Log.printf_at, Log.GetLevel. destruct (Z.ltb_spec (Log.Level l) level); rewrite is_Some_alt; [|split; [lia|done]].
    split; [done|lia]. }
  split_and!; [repeat (constructor; [apply H1|]); constructor|repeat (constructor; [apply H2|]); constructor|reflexivity].
Qed.
