(* ===== verification/Metrics.v ===== *)
(** * metrics.go, and NewStatsWithRegistry of stats/stats.go: the metrics

    [RegisterMetrics] ranges over the fields of [FS] by reflection and
    registers each [expvar.Int] under the name in its tag.  The struct is a
    list of fields with their tags, and the registry of Prometheus, a
    library, is a class. *)

From S2P Require Import Prelude GoStrings Store GitStore.

Local Open Scope gomodfs_scope.

(** ** reflect.StructTag *)

(** The bytes up to the closing quote, after the opening one, and the rest. *)
Fixpoint tag_quoted (s : bytes) : option (bytes * bytes) :=
  match s with
  | [] => None
  | c :: s' =>
      if decide (c = dquote) then Some ([dquote], s')
      else if decide (c = "\"%char) then
        match s' with
        | [] => None
        | d :: s2 => '(q, r) ← tag_quoted s2; Some (c :: d :: q, r)
        end
      else '(q, r) ← tag_quoted s'; Some (c :: q, r)
  end.

Definition tag_key_byte (c : ascii) : bool :=
  (32 <? byte_val c)%Z && bool_decide (c <> ":"%char /\ c <> dquote /\ c <> byte_of 127).

Fixpoint tag_key (s : bytes) : bytes * bytes :=
  match s with
  | c :: s' => if tag_key_byte c then let '(k, r) := tag_key s' in (c :: k, r) else ([], s)
  | [] => ([], [])
  end.

(** [Lookup], whose every round takes at least a byte. *)
Fixpoint tag_Lookup (fuel : nat) (tag key : bytes) : option bytes :=
  match fuel with
  | O => None
  | S fuel' =>
      let '(name, r) := tag_key (TrimLeft tag " "%char) in
      if decide (name = []) then None else
      r ← CutPrefix r [":"%char; dquote];
      '(q, r) ← tag_quoted r;
      if decide (key = name) then Unquote (dquote :: q) else tag_Lookup fuel' r key
  end.

(** [Get]. *)
Definition tag_Get (tag key : bytes) : bytes := default [] (tag_Lookup (S (length tag)) tag key).

(** ** The fields of FS *)

(** A field: its name, whether it is an [expvar.Int], and its tag. *)
Record field := MkField { sf_Name : bytes; sf_isInt : bool; sf_Tag : bytes }.

Definition tag_pair (key value : bytes) : bytes := key ++ str ":" ++ dquote :: value ++ [dquote].
Definition tag_text (type name help : string) : bytes :=
  tag_pair (str "type") (str type) ++ str " " ++ tag_pair (str "name") (str name) ++ str " " ++ tag_pair (str "help") (str help).

Definition plain (name : string) : field := MkField (str name) false [].
Definition metric_field (fname type name help : string) : field := MkField (str fname) true (tag_text type name help).

Definition FS_fields : list field :=
  (plain <$> ["Store"; "Stats"; "Client"; "sf"; "ModuleProxyURL"; "ModuleProxyURLs"; "Logf"; "Verbose"; "ReadOnly";
              "FileCacheSize"]%stdpp) ++
  [metric_field "MetricFileContentCacheHit" "counter" "file_content_cache_hit" "number of file content cache hits";
   metric_field "MetricFileContentCacheMiss" "counter" "file_content_cache_miss" "number of file content cache misses";
   metric_field "MetricFileContentCacheFill" "counter" "file_content_cache_fill" "number of file content cache fills";
   metric_field "MetricFileEntryCount" "gauge" "file_content_entry_count" "current number of file entries in the file content cache";
   metric_field "MetricBlobEntryCount" "gauge" "blob_entry_count" "current number of blob entries in the blob cache";
   metric_field "MetricBlobEntrySize" "gauge" "blob_entry_size" "current total size of all blob entries in the blob cache"] ++
  (plain <$> ["mu"; "zipRootCache"; "modVerHash"; "pathHashTarget"; "statusCache"; "handle"; "entCache"; "blobCache";
              "blobCount"; "pathContentsMu"; "pathContents"]%stdpp).

(** ** Registering *)

(** A [prometheus.Desc], and a collector: a metric over the [expvar.Int] of
    a field, or a vector of counters by label. *)
Record Desc := MkDesc { d_fqName : bytes; d_help : bytes }.
Inductive collector : Type :=
  | expvarCounterMetric (desc : Desc) (v : bytes)
  | expvarGaugeMetric (desc : Desc) (v : bytes)
  | CounterVec (desc : Desc) (labels : list bytes).

Definition desc_of (c : collector) : Desc :=
  match c with expvarCounterMetric d _ | expvarGaugeMetric d _ | CounterVec d _ => d end.

(** [MustRegister] of one collector; [None] is a panic. *)
Class Registry (R : Type) := { MustRegister : collector -> R -> option R; registered : R -> list collector }.
(** It takes a collector whose name is new, if it is a name of lower-case
    letters and underscores. *)
Definition metric_name (n : bytes) : bool :=
  forallb (fun c => (97 <=? byte_val c)%Z && (byte_val c <=? 122)%Z || bool_decide (c = "_"%char)) n.
Class RegistryLaws {R} (G : Registry R) := {
  MustRegister_new c r : metric_name (d_fqName (desc_of c)) -> d_fqName (desc_of c) ∉ d_fqName ∘ desc_of <$> registered r ->
    exists r', MustRegister c r = Some r' /\ registered r' = registered r ++ [c] }.

(** The two [Write] methods: the kind that is set, and the value. *)
Inductive written : Type :=
  | Counter (val : Z)
  | Gauge (val : Z).
Definition expvarCounterMetric_Write (v : Z) : written := Counter v.
Definition expvarGaugeMetric_Write (v : Z) : written := Gauge v.

Section register.
Context {R} `{G : Registry R}.

(** One field; [None] is a panic. *)
Definition register_field (sf : field) (reg : R) : option R :=
  if negb (sf_isInt sf) then Some reg else
  let typ := tag_Get (sf_Tag sf) (str "type") in
  let name := tag_Get (sf_Tag sf) (str "name") in
  if decide (typ = []) then None else
  if decide (name = []) then None else
  let desc := MkDesc (str "gomodfs_" ++ name) (tag_Get (sf_Tag sf) (str "help")) in
  if decide (typ = str "gauge") then MustRegister (expvarGaugeMetric desc (sf_Name sf)) reg
  else if decide (typ = str "counter") then MustRegister (expvarCounterMetric desc (sf_Name sf)) reg
  else Some reg.

Fixpoint register_fields (l : list field) (reg : R) : option R :=
  match l with
  | [] => Some reg
  | sf :: l' => reg ← register_field sf reg; register_fields l' reg
  end.

Definition RegisterMetrics (reg : R) : option R := register_fields FS_fields reg.

(** [NewStatsWithRegistry]: its three vectors, and the registry. *)
Definition MetricOpStarted : collector :=
  CounterVec (MkDesc (str "gomodfs_operation_started") (str "Total number of operations started by gomodfs.")) [str "op"].
Definition MetricOpEnded : collector :=
  CounterVec (MkDesc (str "gomodfs_operation_ended") (str "Total number of operations ended by gomodfs.")) [str "op"].
Definition MetricOpDuration : collector :=
  CounterVec (MkDesc (str "gomodfs_operation_duration_seconds_total")
    (str "Total duration of operations performed by gomodfs in seconds.")) [str "op"].

Definition NewStatsWithRegistry (reg : R) : option R :=
  reg ← MustRegister MetricOpStarted reg; reg ← MustRegister MetricOpEnded reg; MustRegister MetricOpDuration reg.
End register.

(** ** The metrics of the command *)

(** The collectors of the metrics, each over the field of its name. *)
Definition FS_metrics : list collector :=
  (fun x => expvarCounterMetric (MkDesc (str x.1.2) (str x.2)) (str x.1.1)) <$>
    [("MetricFileContentCacheHit", "gomodfs_file_content_cache_hit", "number of file content cache hits");
     ("MetricFileContentCacheMiss", "gomodfs_file_content_cache_miss", "number of file content cache misses");
     ("MetricFileContentCacheFill", "gomodfs_file_content_cache_fill", "number of file content cache fills")]%stdpp.
Definition FS_gauges : list collector :=
  (fun x => expvarGaugeMetric (MkDesc (str x.1.2) (str x.2)) (str x.1.1)) <$>
    [("MetricFileEntryCount", "gomodfs_file_content_entry_count", "current number of file entries in the file content cache");
     ("MetricBlobEntryCount", "gomodfs_blob_entry_count", "current number of blob entries in the blob cache");
     ("MetricBlobEntrySize", "gomodfs_blob_entry_size", "current total size of all blob entries in the blob cache")]%stdpp.
Definition all_metrics : list collector := [MetricOpStarted; MetricOpEnded; MetricOpDuration] ++ FS_metrics ++ FS_gauges.

Definition names (l : list collector) : list bytes := d_fqName ∘ desc_of <$> l.

Section facts.
Context {R} `{G : Registry R} {GL : RegistryLaws G}.

Fixpoint register_all (l : list collector) (reg : R) : option R :=
  match l with
  | [] => Some reg
  | c :: l' => reg ← MustRegister c reg; register_all l' reg
  end.

Lemma register_all_app l1 l2 reg : register_all (l1 ++ l2) reg = reg ← register_all l1 reg; register_all l2 reg.
Proof. revert reg. induction l1 as [|c l1 IH]; intros reg; [done|]. cbn. destruct (MustRegister c reg); [apply IH|done]. Qed.

Lemma register_all_new l reg :
  NoDup (names l) -> (forall n, n ∈ names l -> metric_name n /\ n ∉ names (registered reg)) ->
  exists reg', register_all l reg = Some reg' /\ registered reg' = registered reg ++ l.
Proof.
  revert reg. induction l as [|c l IH]; intros reg Hd Hn; [exists reg; by rewrite app_nil_r|].
  apply NoDup_cons in Hd as [Hc Hd]. destruct (MustRegister_new c reg) as (r1 & H1 & Hr1); [apply Hn; by left..|].
  destruct (IH r1 Hd) as (r2 & H2 & Hr2).
  - intros n Hin. split; [apply Hn; by right|]. rewrite Hr1. unfold names. rewrite fmap_app. apply not_elem_of_app. split; [apply Hn; by right|]. cbn.
    rewrite list_elem_of_singleton. intros ->. by apply Hc.
  - exists r2. cbn. rewrite H1. cbn. by rewrite H2, Hr2, Hr1, <- app_assoc.
Qed.

Lemma RegisterMetrics_all reg : RegisterMetrics reg = register_all (FS_metrics ++ FS_gauges) reg.
Proof. reflexivity. Qed.

Lemma NewStatsWithRegistry_all reg :
  NewStatsWithRegistry reg = register_all [MetricOpStarted; MetricOpEnded; MetricOpDuration] reg.
Proof.
  unfold NewStatsWithRegistry. cbn [register_all]. do 2 (destruct (MustRegister _ _) as [?|]; [|done]; cbn [mbind option_bind]).
  by destruct (MustRegister _ _).
Qed.

(** What [main] registers, on a registry with none of the names, is
    registered without a panic: three vectors for the statistics, and a
    metric of its kind for each [expvar.Int] of [FS]. *)
Lemma metrics_registered reg :
  (forall n, n ∈ names all_metrics -> n ∉ names (registered reg)) ->
  exists reg', (reg ← NewStatsWithRegistry reg; RegisterMetrics reg) = Some reg' /\
    registered reg' = registered reg ++ all_metrics.
Proof.
  intros Hn. destruct (register_all_new all_metrics reg) as (reg' & Hr & Hreg); [by_decide| |].
  { intros n Hin. split; [|by apply Hn]. assert (forallb metric_name (names all_metrics) = true) as Hv by (vm_compute; reflexivity).
    apply Is_true_true. by apply (proj1 (forallb_forall _ _) Hv), list_elem_of_In. }
  exists reg'. split; [|done]. rewrite <-Hr. unfold all_metrics. rewrite register_all_app, NewStatsWithRegistry_all.
  by destruct (register_all _ reg).
Qed.
End facts.

(** A registry that is a list. *)
#[export] Instance list_registry : Registry (list collector) := {|
  MustRegister c r := if decide (d_fqName (desc_of c) ∈ names r) then None else Some (r ++ [c]);
  registered r := r |}.
#[export] Instance list_registry_laws : RegistryLaws list_registry.
Proof. split. intros c r _ Hc. exists (r ++ [c]). split; [|done]. cbn. by rewrite decide_False. Qed.

Lemma metrics_registered_witness :
  exists reg, (reg ← NewStatsWithRegistry (@nil collector); RegisterMetrics reg) = Some reg /\ length reg = 9.
Proof.
  destruct (metrics_registered (@nil collector)) as (reg & Hr & Hreg).
  - intros n _. apply not_elem_of_nil.
  - exists reg. split; [exact Hr|]. change (reg = [] ++ all_metrics) in Hreg. rewrite Hreg. reflexivity.
Defined.

(** A second call panics. *)
Example metrics_twice : (reg ← RegisterMetrics (@nil collector); RegisterMetrics reg) = None.
Proof. vm_compute. reflexivity. Qed.
