(* ===== verification/Os.v ===== *)
(** * Programs that call the operating system, and IP addresses

    The commands and the functions that mount are programs over a few calls
    ([os.*], [net.Listen], [exec.Command], the start of a goroutine, and the
    FUSE and WinFSP libraries): a tree that, for every answer of a call, goes
    on as the code does ([io]).  [runs] is a run up to any point, [wp] what
    holds of every call of every run and of the result.  [NetIP] is what the
    code uses of [net/netip]. *)

From S2P Require Import Prelude GoStrings Store FS.

Local Open Scope gomodfs_scope.

(** ** net/netip *)

Module NetIP.
Local Open Scope Z_scope.

Inductive Addr : Type :=
  | V4 (ip : bytes)
  | V6 (ip : bytes).

Definition AddrFromSlice (ip : bytes) : option Addr :=
  if (length ip =? 4)%nat then Some (V4 ip) else if (length ip =? 16)%nat then Some (V6 ip) else None.

(** The prefix of the addresses that stand for one of version 4. *)
Definition v4_prefix : bytes := replicate 10 nul ++ [byte_of 255; byte_of 255].

Definition Unmap (a : Addr) : Addr :=
  match a with
  | V6 ip => if decide (take 12 ip = v4_prefix) then V4 (drop 12 ip) else a
  | V4 _ => a
  end.

Definition IsUnspecified (a : Addr) : bool :=
  match a with
  | V4 ip => bool_decide (ip = replicate 4 nul)
  | V6 ip => bool_decide (ip = replicate 16 nul)
  end.

Definition IsLoopback (a : Addr) : bool :=
  match Unmap a with
  | V4 ip => bool_decide (head ip = Some (byte_of 127))
  | V6 ip => bool_decide (ip = replicate 15 nul ++ [byte_of 1])
  end.

Definition dotted (ip : bytes) : bytes := join_byte dot ((fun c => Itoa (byte_val c)) <$> ip).

(** The eight groups of an address of version 6, and one of them. *)
Fixpoint groups (ip : bytes) : list Z :=
  match ip with
  | a :: b :: ip' => (256 * byte_val a + byte_val b) :: groups ip'
  | _ => []
  end.

Definition hex16 (v : Z) : bytes :=
  let d := [hex_digit (v / 4096); hex_digit (v / 256 mod 16); hex_digit (v / 16 mod 16); hex_digit (v mod 16)] in
  if 4096 <=? v then d else if 256 <=? v then drop 1 d else if 16 <=? v then drop 2 d else drop 3 d.

Fixpoint zeros_run (l : list Z) : nat :=
  match l with
  | z :: l' => if z =? 0 then S (zeros_run l') else 0
  | [] => 0
  end.

(** The first of the longest runs of at least two zero groups: where it
    starts and ends, with [acc] for the groups before [i]. *)
Fixpoint longest_zeros (i : nat) (l : list Z) (acc : option (nat * nat)) : option (nat * nat) :=
  match l with
  | [] => acc
  | _ :: l' =>
      let n := zeros_run l in
      let best := match acc with Some (a, b) => (b - a)%nat | None => 0%nat end in
      longest_zeros (S i) l' (if (2 <=? n)%nat && (best <? n)%nat then Some (i, i + n)%nat else acc)
  end.

Definition colons : list Z -> bytes := fun l => join_byte ":"%char (hex16 <$> l).

Definition String (a : Addr) : bytes :=
  match a with
  | V4 ip => dotted ip
  | V6 ip =>
      if decide (take 12 ip = v4_prefix) then str "::ffff:" ++ dotted (drop 12 ip) else
      let l := groups ip in
      match longest_zeros 0 l None with
      | Some (i, j) => colons (take i l) ++ str "::" ++ colons (drop j l)
      | None => colons l
      end
  end.

Example addr_texts :
  (fun l => String (V6 (byte_of <$> l))) <$>
    [[0;0;0;0;0;0;0;0;0;0;0;0;0;0;0;0]; [0;0;0;0;0;0;0;0;0;0;0;0;0;0;0;1]; [254;128;0;0;0;0;0;0;0;1;0;0;0;0;10;11];
     [0;0;0;0;0;0;0;0;0;0;255;255;10;0;0;1]; [32;1;13;184;0;0;0;1;0;0;0;0;0;0;0;0]] =
  [str "::"; str "::1"; str "fe80::1:0:0:a0b"; str "::ffff:10.0.0.1"; str "2001:db8:0:1::"].
Proof. vm_compute. reflexivity. Qed.
End NetIP.

(** ** The calls *)

(** [*net.TCPAddr]. *)
Record TCPAddr := MkTCPAddr { IP : bytes; Port : Z }.

(** A listener, or a packet connection, is told apart by a number. *)
Record listener := MkListener { ln_id : nat; ln_Addr : TCPAddr }.
Record packetConn := MkPacketConn { pc_id : nat }.

(** The store of a file system, and the [FS] as the commands set it up. *)
Inductive backend : Type :=
  | RemoteStore (BaseURL : bytes)
  | GitStorage (GitRepo : bytes).
Record filesystem := MkFilesystem { fs_Store : backend; fs_Verbose : bool; fs_config : config }.

Inductive http_handler : Type :=
  | DebugMux (mfs : filesystem)
  | StoreAPI (mfs : filesystem)
  | WebDAVHandler (mfs : filesystem) (debug : bool).

(** The goroutines that are started. *)
Inductive task : Type :=
  | ServeHTTP (h : http_handler) (ln : listener)
  | ServeNFS (mfs : filesystem) (ForWindowsClients : bool) (ln : listener)
  | ServePortmapTCP (Port : Z) (ln : listener)
  | ServePortmapUDP (Port : Z) (pc : packetConn).

Inductive MountRunner : Type :=
  | FuseServer (id : nat)
  | WinFSPRunner (id : nat)
  | WebdavMount (path : bytes) (ln : listener).

(** A call, and the type of its answer.  [Run] is [exec.Command], with the
    output and the error of [Run] or [CombinedOutput]; [Fatal] logs and ends
    the process, with the message up to its first verb; [Forever] is
    [select {}], and [NilDeref] the panic of a nil pointer. *)
Inductive os : Type :=
  | UserHomeDir
  | Getenv (key : bytes)
  | MkdirAll (path : bytes) (perm : Z)
  | Run (argv : list bytes) (dir : bytes)
  | Listen (network address : bytes)
  | ListenPacket (network address : bytes)
  | CloseListener (ln : listener)
  | Go (t : task)
  | FuseMount (mfs : filesystem) (dir : bytes) (debug : bool)
  | WinfspMount (mfs : filesystem) (dir : bytes)
  | Cancel (path : bytes)
  | WaitFor (m : MountRunner)
  | SetLogLevel (level : Z)
  | Fatal (msg : string)
  | Forever
  | NilDeref.

Definition answer (o : os) : Type :=
  match o with
  | UserHomeDir => res bytes
  | Getenv _ => bytes
  | MkdirAll _ _ | CloseListener _ => option error
  | Run _ _ => bytes * option error
  | Listen _ _ => res listener
  | ListenPacket _ _ => res packetConn
  | FuseMount _ _ _ | WinfspMount _ _ => res nat
  | Go _ | Cancel _ | WaitFor _ | SetLogLevel _ => unit
  | Fatal _ | Forever | NilDeref => Empty_set
  end.

Inductive io (A : Type) : Type :=
  | Ret (a : A)
  | Do (o : os) (k : answer o -> io A).
Arguments Ret {A} _.
Arguments Do {A} _ _.

Fixpoint io_bind {A B} (f : A -> io B) (p : io A) : io B :=
  match p with
  | Ret a => f a
  | Do o k => Do o (fun x => io_bind f (k x))
  end.
Notation "x <<- p ;; k" := (io_bind (fun x => k) p) (at level 60, p at next level, right associativity) : gomodfs_scope.
Notation "' x <<- p ;; k" := (io_bind (fun x => k) p)
  (at level 60, x pattern, p at next level, right associativity) : gomodfs_scope.

Definition call (o : os) : io (answer o) := Do o Ret.

(** The calls that do not return. *)
Definition fatal {A} (msg : string) : io A := Do (Fatal msg) (fun x => match x with end).
Definition forever {A} : io A := Do Forever (fun x => match x with end).
Definition nil_deref {A} : io A := Do NilDeref (fun x => match x with end).

(** ** Runs *)

Inductive event : Type :=
  | Ev (o : os) (x : answer o).

(** A run up to some point: the calls with their answers, and the program
    that is left. *)
Inductive runs {A} : io A -> list event -> io A -> Prop :=
  | runs_nil p : runs p [] p
  | runs_cons (o : os) k x t p : runs (k x) t p -> runs (Do o k) (Ev o x :: t) p.

(** Every call, made after the calls [h], satisfies [ok], and every result
    satisfies [Q]. *)
Definition rule : Type := list event -> os -> Prop.

Fixpoint wp {A} (ok : rule) (h : list event) (p : io A) (Q : list event -> A -> Prop) : Prop :=
  match p with
  | Ret a => Q h a
  | Do o k => ok h o /\ forall x, wp ok (h ++ [Ev o x]) (k x) Q
  end.

Lemma wp_bind {A B} ok h (p : io A) (f : A -> io B) Q :
  wp ok h p (fun h' a => wp ok h' (f a) Q) -> wp ok h (io_bind f p) Q.
Proof.
  revert h. induction p as [a|o k IH]; intros h; cbn; [done|]. intros [Ho Hk]. split; [done|].
  intros x. apply IH, Hk.
Qed.

Lemma wp_mono {A} ok h (p : io A) (Q Q' : list event -> A -> Prop) :
  wp ok h p Q -> (forall h' a, Q h' a -> Q' h' a) -> wp ok h p Q'.
Proof.
  intros Hp HQ. revert h Hp. induction p as [a|o k IH]; intros h; cbn; [apply HQ|]. intros [Ho Hk].
  split; [done|]. intros x. apply IH, Hk.
Qed.

(** After any run, the next call is allowed, and a result is as promised. *)
Lemma wp_runs {A} ok (p : io A) Q t p' :
  wp ok [] p Q -> runs p t p' ->
  match p' with Ret a => Q t a | Do o _ => ok t o end.
Proof.
  intros Hp Hr. change t with ([] ++ t). revert Hp. generalize (@nil event) as h.
  induction Hr as [p|o k x t p Hr IH]; intros h Hp.
  - rewrite app_nil_r. destruct p as [a|o k]; [done|]. apply Hp.
  - replace (h ++ Ev o x :: t) with ((h ++ [Ev o x]) ++ t) by (by rewrite <- app_assoc). apply IH, Hp.
Qed.

(** The programs answered by a function: where a run gets to in [n] calls. *)
Fixpoint exec {A} (reply : list event -> forall o : os, option (answer o)) (n : nat) (h : list event) (p : io A)
    : list event * io A :=
  match n, p with
  | S n', Do o k => match reply h o with
                    | Some x => exec reply n' (h ++ [Ev o x]) (k x)
                    | None => (h, p)
                    end
  | _, _ => (h, p)
  end.

Lemma exec_runs {A} reply n h (p : io A) :
  exists t, (exec reply n h p).1 = h ++ t /\ runs p t (exec reply n h p).2.
Proof.
  revert h p. induction n as [|n IH]; intros h [a|o k]; cbn [exec].
  1-3: exists []; rewrite app_nil_r; split; [done|constructor].
  destruct (reply h o) as [x|]; [|exists []; rewrite app_nil_r; split; [done|constructor]].
  destruct (IH (h ++ [Ev o x]) (k x)) as (t & Ht & Hr). exists (Ev o x :: t).
  rewrite Ht, <- app_assoc. split; [done|]. by constructor.
Qed.
