(* ===== verification/Commands.v ===== *)
(** * cmd/gomodfs, and the mounting of gomodfs.go, fuse.go and winfsp.go

    The commands as programs over the calls of [Os]: [main] sets up the file
    system from the flags, starts the servers and mounts.  The message of a
    log line is left out, and so is the watch on the parent process; flags
    are parsed by the library. *)

From S2P Require Import Prelude GoStrings Store FS Names Os.

Local Open Scope gomodfs_scope.

(** ** Mounting *)

Definition linuxNFSMountOpts (nfsPort : Z) : bytes :=
  join_byte ","%char
    [str "port=" ++ Itoa nfsPort; str "mountport=" ++ Itoa nfsPort; str "vers=3"; str "tcp"; str "local_lock=all";
     str "timeo=1800"; str "ro"].

Definition darwinNFSMountOpts (nfsPort : Z) : bytes :=
  join_byte ","%char
    [str "port=" ++ Itoa nfsPort; str "mountport=" ++ Itoa nfsPort; str "vers=3"; str "tcp"; str "locallocks";
     str "timeo=1800"; str "rdonly"].

Section commands.
(** [runtime.GOOS], and [filepath.Join] of that system. *)
Context (GOOS : bytes) (filepath_Join : list bytes -> bytes).

(** [MountNFS]: the address is an interface, which may be nil. *)
Definition MountNFS (mntDir : bytes) (nfsAddr : option TCPAddr) : io (option error) :=
  match nfsAddr with
  | None => nil_deref
  | Some addr =>
      match NetIP.AddrFromSlice (IP addr) with
      | None => Ret (Some (errText "gomodfs: invalid NFS address"))
      | Some ip =>
          let ip := if NetIP.IsUnspecified ip || NetIP.IsLoopback ip
                    then NetIP.V4 (byte_of <$> [127; 0; 0; 1]%Z) else ip in
          let command :=
            if decide (GOOS = str "darwin") then Some (str "/sbin/mount", darwinNFSMountOpts (Port addr))
            else if decide (GOOS = str "linux") then Some (str "/usr/bin/mount", linuxNFSMountOpts (Port addr))
            else None in
          match command with
          | None => Ret (Some (errText "gomodfs: unsupported OS; NFS mount is currently only supported on linux and darwin"))
          | Some (mountBin, mountOpts) =>
              '(_, err) <<- call (Run [mountBin; str "-t"; str "nfs"; str "-o"; mountOpts;
                                     NetIP.String ip ++ str ":/"; mntDir] []) ;;
              Ret (errWrap "gomodfs: failed to run mount command" <$> err)
          end
      end
  end.

(** [MountWebDAV]; a nil [*MountOpts] has [Debug] unset. *)
Definition MountWebDAV (mfs : filesystem) (mntPoint : bytes) (opt : option bool) : io (res MountRunner) :=
  if negb (bool_decide (GOOS = str "darwin")) then
    Ret (Err (errText "gomodfs: WebDAV mount is currently only supported on macOS")) else
  let debug := default false opt in
  ln <<- call (Listen (str "tcp") (str "localhost:8793")) ;;
  ln <<- match ln with Ok ln => Ret (Ok ln) | Err _ => call (Listen (str "tcp") (str "localhost:0")) end ;;
  match ln with
  | Err e => Ret (Err (errWrap "gomodfs: failed to listen on port" e))
  | Ok ln =>
      _ <<- call (Go (ServeHTTP (WebDAVHandler mfs debug) ln)) ;;
      '(_, err) <<- call (Run [str "/sbin/mount_webdav"; str "-S"; str "-v"; str "gomodfs";
                             str "http://localhost:" ++ Itoa (Port (ln_Addr ln)); mntPoint] []) ;;
      match err with
      | Some e => Ret (Err (errWrap "gomodfs: failed to mount WebDAV" e))
      | None => Ret (Ok (WebdavMount mntPoint ln))
      end
  end.

(** The methods of [*webdavMount]. *)
Definition webdavMount_Unmount (path : bytes) (ln : listener) : io (option error) :=
  _ <<- call (Cancel path) ;;
  err <<- call (CloseListener ln) ;;
  match err with
  | Some e => Ret (Some (errWrap "gomodfs: failed to close WebDAV listener" e))
  | None =>
      '(_, err) <<- call (Run [str "/sbin/umount"; path] []) ;;
      Ret (errWrap "gomodfs: failed to unmount WebDAV" <$> err)
  end.
Definition webdavMount_Wait (path : bytes) (ln : listener) : io unit := call (WaitFor (WebdavMount path ln)).

(** [MountFUSE] and its stub, [MountWinFSP] and its stub. *)
Definition MountFUSE (mfs : filesystem) (mntPoint : bytes) (opt : option bool) : io (res MountRunner) :=
  if decide (GOOS = str "windows") then
    Ret (Err (errText "FUSE mounting is not supported on Windows; use NFS or WebDAV mode instead"))
  else
    server <<- call (FuseMount mfs mntPoint (default false opt)) ;;
    Ret (match server with Ok id => Ok (FuseServer id) | Err e => Err e end).

Definition MountWinFSP (mfs : filesystem) (mntPoint : bytes) : io (res MountRunner) :=
  if decide (GOOS = str "windows") then
    fspFS <<- call (WinfspMount mfs mntPoint) ;;
    Ret (match fspFS with Ok id => Ok (WinFSPRunner id) | Err e => Err (errWrap "winfsp.Mount" e) end)
  else Ret (Err (errText "WinFSP mounting is only supported on Windows")).

(** The methods of [*winFSPRunner]; [Wait] ranges over a ticker for ever. *)
Definition winFSPRunner_Unmount : io (option error) := fatal "TODO: unmount".
Definition winFSPRunner_Wait : io unit := forever.

(** [Wait] of a [MountRunner]; that of a FUSE server is the library's. *)
Definition Wait (m : MountRunner) : io unit :=
  match m with
  | FuseServer id => call (WaitFor m)
  | WinFSPRunner id => winFSPRunner_Wait
  | WebdavMount path ln => webdavMount_Wait path ln
  end.

(** ** The portmapper of the command *)

Definition rpcBindAddr : bytes := str ":111".
Definition staticPort : Z := 2049.

Definition startPortmapper : io (option error) :=
  tcpLn <<- call (Listen (str "tcp") rpcBindAddr) ;;
  match tcpLn with
  | Err e => Ret (Some e)
  | Ok tcpLn =>
      udpConn <<- call (ListenPacket (str "udp") rpcBindAddr) ;;
      match udpConn with
      | Err e => _ <<- call (CloseListener tcpLn) ;; Ret (Some e)
      | Ok udpConn =>
          _ <<- call (Go (ServePortmapTCP staticPort tcpLn)) ;;
          _ <<- call (Go (ServePortmapUDP staticPort udpConn)) ;;
          Ret None
      end
  end.

(** ** main *)

Record flags := MkFlags {
  debugListen : bytes;
  verbose : bool;
  useWebDAV : bool;
  flagNFS : bytes;
  flagMountPoint : bytes;
  flagMemLimitMB : Z;
  portmapper : bool;
  flagWinFSP : bool;
  flagNFSForWindows : bool;
  flagRemoteStore : bytes;
  flagServeStoreAPI : bytes }.

Section main.
Context (f : flags).

(** The file system of the flags: the remote store, read-only, or the git
    store in the home directory. *)
Definition main_store : io filesystem :=
  if decide (flagRemoteStore f <> []) then
    Ret (MkFilesystem (RemoteStore (flagRemoteStore f)) (verbose f) (MkConfig [] [] true 0))
  else
    homeDir <<- call UserHomeDir ;;
    match homeDir with
    | Err _ => fatal "os.UserHomeDir"
    | Ok homeDir =>
        let gitCache := filepath_Join [homeDir; str ".cache"; str "gomodfs"] in
        err <<- call (MkdirAll gitCache 493) ;;
        match err with
        | Some _ => fatal "Failed to create git cache directory"
        | None =>
            _ <<- call (Run [str "git"; str "init"; gitCache] gitCache) ;;
            Ret (MkFilesystem (GitStorage gitCache) (verbose f) (MkConfig [] [] false 0))
        end
    end.

(** [-mem-limit-mb]. *)
Definition main_limit (mfs : filesystem) : filesystem :=
  if (flagMemLimitMB f =? 0)%Z then mfs else
  let c := fs_config mfs in
  MkFilesystem (fs_Store mfs) (fs_Verbose mfs)
    (MkConfig (ModuleProxyURL c) (ModuleProxyURLs c) (ReadOnly c) (i64 (Z.shiftl (flagMemLimitMB f) 20))).

(** The mount directory, which a mount that is left over is removed from. *)
Definition main_directory (mntDir : bytes) : io unit :=
  if bool_decide (mntDir <> []) && negb (bool_decide (GOOS = str "windows")) then
    _ <<- call (Run [str "umount"; mntDir] []) ;;
    goos <<- call (Getenv (str "GOOS")) ;;
    _ <<- (if decide (goos = str "darwin") then
           _ <<- call (Run [str "diskutil"; str "unmount"; str "force"; mntDir] []) ;; Ret tt
         else Ret tt) ;;
    err <<- call (MkdirAll mntDir 493) ;;
    match err with
    | Some _ => fatal "Failed to create mount directory"
    | None => Ret tt
    end
  else Ret tt.

Definition main_portmapper : io unit :=
  if portmapper f then
    err <<- startPortmapper ;;
    match err with Some _ => fatal "Failed to start portmapper" | None => Ret tt end
  else Ret tt.

(** A listener on [addr], if that is set, and what is started on it. *)
Definition listen_and_go (addr : bytes) (msg : string) (t : listener -> task) : io (option TCPAddr) :=
  if decide (addr <> []) then
    ln <<- call (Listen (str "tcp") addr) ;;
    match ln with
    | Err _ => fatal msg
    | Ok ln => _ <<- call (Go (t ln)) ;; Ret (Some (ln_Addr ln))
    end
  else Ret None.

Definition main_nfs (mfs : filesystem) : io (option TCPAddr) :=
  _ <<- (if bool_decide (flagNFS f <> []) && verbose f then call (SetLogLevel Log.TraceLevel) else Ret tt) ;;
  listen_and_go (flagNFS f) "Failed to listen on NFS port" (ServeNFS mfs (flagNFSForWindows f)).

(** The mount that the flags choose, and its runner, which is nil for NFS. *)
Definition main_mount (mfs : filesystem) (mntDir : bytes) (nfsListenAddr : option TCPAddr) : io (res (option MountRunner)) :=
  if useWebDAV f then
    m <<- MountWebDAV mfs mntDir (Some (verbose f)) ;; Ret (match m with Ok m => Ok (Some m) | Err e => Err e end)
  else if flagWinFSP f then
    m <<- MountWinFSP mfs mntDir ;; Ret (match m with Ok m => Ok (Some m) | Err e => Err e end)
  else if decide (flagNFS f <> []) then
    err <<- MountNFS mntDir nfsListenAddr ;; Ret (match err with None => Ok None | Some e => Err e end)
  else
    m <<- MountFUSE mfs mntDir (Some (verbose f)) ;; Ret (match m with Ok m => Ok (Some m) | Err e => Err e end).

Definition main : io unit :=
  let mntDir := flagMountPoint f in
  mfs <<- main_store ;;
  let mfs := main_limit mfs in
  _ <<- main_directory mntDir ;;
  _ <<- main_portmapper ;;
  _ <<- listen_and_go (debugListen f) "Failed to listen on" (ServeHTTP (DebugMux mfs)) ;;
  _ <<- listen_and_go (flagServeStoreAPI f) "Failed to listen on store API address" (ServeHTTP (StoreAPI mfs)) ;;
  nfsListenAddr <<- main_nfs mfs ;;
  let mntDir :=
    if bool_decide (GOOS = str "windows") && flagWinFSP f && bool_decide (mntDir = []) then str "M:" else mntDir in
  if decide (mntDir = []) then forever else
  mount <<- main_mount mfs mntDir nfsListenAddr ;;
  match mount with
  | Err _ => fatal "Failed to mount filesystem"
  | Ok (Some m) => Wait m
  | Ok None => forever
  end.
End main.
End commands.

(** ** What main does, for all flags and whatever the calls answer *)

Section safety.
Context (GOOS : bytes) (filepath_Join : list bytes -> bytes) (f : flags).

Definition remote : bool := bool_decide (flagRemoteStore f <> []).

Definition opened (h : list event) (ln : listener) : Prop :=
  exists network addr, Ev (Listen network addr) (Ok ln) ∈ h.

(** The file system that the flags ask for: read-only exactly over a remote
    store, and over a git repository only after [git init] was run there. *)
Definition as_asked (h : list event) (mfs : filesystem) : Prop :=
  ReadOnly (fs_config mfs) = remote /\
  match fs_Store mfs with
  | RemoteStore url => remote = true /\ url = flagRemoteStore f
  | GitStorage dir => remote = false /\ exists x, Ev (Run [str "git"; str "init"; dir] dir) x ∈ h
  end.

Definition task_ok (h : list event) (t : task) : Prop :=
  match t with
  | ServeHTTP (DebugMux mfs | StoreAPI mfs | WebDAVHandler mfs _) ln => opened h ln /\ as_asked h mfs
  | ServeNFS mfs w ln => opened h ln /\ as_asked h mfs /\ w = flagNFSForWindows f
  | ServePortmapTCP port ln => opened h ln /\ portmapper f = true
  | ServePortmapUDP port pc => (exists network addr, Ev (ListenPacket network addr) (Ok pc) ∈ h) /\ portmapper f = true
  end.

(** A mount of NFS uses the port of the NFS server that was started. *)
Definition nfs_mount_ok (h : list event) (argv : list bytes) : Prop :=
  forall bin opts source dir, argv = [bin; str "-t"; str "nfs"; str "-o"; opts; source; dir] ->
  exists mfs w ln, Ev (Go (ServeNFS mfs w ln)) tt ∈ h /\
    (opts = linuxNFSMountOpts (Port (ln_Addr ln)) \/ opts = darwinNFSMountOpts (Port (ln_Addr ln))).

Definition command_ok : rule := fun h o =>
  match o with
  | Go t => task_ok h t
  | Run argv dir => (head argv = Some (str "git") -> remote = false) /\ nfs_mount_ok h argv
  | FuseMount mfs _ _ | WinfspMount mfs _ => as_asked h mfs
  | NilDeref => False
  | _ => True
  end.

Lemma extends_opened h h' ln : h ⊆ h' -> opened h ln -> opened h' ln.
Proof. intros Hh (n & a & Hin). exists n, a. by apply Hh. Qed.

Lemma extends_as_asked h h' mfs : h ⊆ h' -> as_asked h mfs -> as_asked h' mfs.
Proof. intros Hh [Hr Hs]. split; [done|]. destruct (fs_Store mfs) as [|dir]; [done|]. destruct Hs as (? & x & Hin). eauto. Qed.

Lemma extends_call h (o : os) x : h ⊆ h ++ [Ev o x].
Proof. intros e He. by apply elem_of_app; left. Qed.

Lemma last_call h (o : os) x : Ev o x ∈ h ++ [Ev o x].
Proof. apply elem_of_app. right. by apply list_elem_of_singleton. Qed.

(** A stage: allowed calls, and a result that has [Q], with the calls made
    before still there. *)
Definition stage {A} (h : list event) (p : io A) (Q : list event -> A -> Prop) : Prop :=
  wp command_ok h p (fun h' a => h ⊆ h' /\ Q h' a).

Lemma stage_bind {A B} h (p : io A) (k : A -> io B) Q Q' :
  stage h p Q -> (forall h' a, h ⊆ h' -> Q h' a -> stage h' (k a) Q') -> stage h (io_bind k p) Q'.
Proof.
  intros Hp Hk. apply wp_bind. eapply wp_mono; [exact Hp|]. cbn beta. intros h' a [Hh HQ].
  eapply wp_mono; [exact (Hk h' a Hh HQ)|]. cbn beta. intros h2 b [Hh' HQ']. split; [by etrans|done].
Qed.

Lemma stage_ret {A} h (a : A) (Q : list event -> A -> Prop) : Q h a -> stage h (Ret a) Q.
Proof. by split. Qed.

Lemma stage_fatal {A} h msg (Q : list event -> A -> Prop) : stage h (fatal msg) Q.
Proof. split; [done|]. intros []. Qed.

Lemma stage_forever {A} h (Q : list event -> A -> Prop) : stage h forever Q.
Proof. split; [done|]. intros []. Qed.

(** One call. *)
Lemma stage_call h (o : os) : command_ok h o -> stage h (call o) (fun h' x => Ev o x ∈ h').
Proof. intros Ho. split; [done|]. intros x. split; [apply extends_call|apply last_call]. Qed.

(** A run that is neither git nor a mount of NFS. *)
Lemma other_run h argv dir :
  bool_decide (head argv = Some (str "git")) = false -> length argv <> 7 -> command_ok h (Run argv dir).
Proof. intros Hg%bool_decide_eq_false Ht. split; [done|]. by intros bin opts source d ->. Qed.

Lemma store_stage h : stage h (main_store filepath_Join f) as_asked.
Proof.
  unfold main_store. case_decide as Hr.
  - assert (remote = true) as Hl by (by apply bool_decide_eq_true_2). apply stage_ret. by split.
  - assert (remote = false) as Hl by (apply bool_decide_eq_false_2; naive_solver).
    eapply stage_bind; [by apply stage_call|]. intros h1 [home|e] _ _; [|apply stage_fatal].
    eapply stage_bind; [by apply stage_call|]. intros h2 [e|] _ _; [apply stage_fatal|].
    eapply stage_bind; [apply stage_call; by split|]. intros h3 x _ Hx. apply stage_ret.
    split; [done|]. split; [done|]. by exists x.
Qed.

Lemma as_asked_limit h mfs : as_asked h mfs -> as_asked h (main_limit f mfs).
Proof. unfold main_limit. by case_match. Qed.

Lemma directory_stage h mntDir : stage h (main_directory GOOS mntDir) (fun _ _ => True).
Proof.
  unfold main_directory. case_match; [|by apply stage_ret].
  eapply stage_bind; [by apply stage_call, other_run|]. intros h1 _ _ _.
  eapply stage_bind; [by apply stage_call|]. intros h2 goos _ _.
  eapply (stage_bind _ _ _ (fun _ _ => True)).
  { destruct (decide (goos = str "darwin")); [|by apply stage_ret]. eapply stage_bind; [by apply stage_call, other_run|]. intros. by apply stage_ret. }
  intros h3 _ _ _. eapply stage_bind; [by apply stage_call|]. intros h4 [e|] _ _; [apply stage_fatal|by apply stage_ret].
Qed.

Lemma portmapper_stage h : stage h (main_portmapper f) (fun _ _ => True).
Proof.
  unfold main_portmapper. destruct (portmapper f) eqn:Hp; [|by apply stage_ret].
  eapply (stage_bind _ _ _ (fun _ _ => True));
    [|intros h1 [e|] _ _; [apply stage_fatal|by apply stage_ret]].
  unfold startPortmapper. eapply stage_bind; [by apply stage_call|]. intros h1 [ln|e] _ Hln; [|by apply stage_ret].
  eapply stage_bind; [by apply stage_call|]. intros h2 [pc|e] H2 Hpc.
  - eapply stage_bind; [apply stage_call; split; [by exists (str "tcp"), rpcBindAddr; apply H2|done]|]. intros h3 _ H3 _.
    eapply stage_bind; [apply stage_call; split; [by exists (str "udp"), rpcBindAddr; apply H3|done]|]. intros h4 _ _ _.
    by apply stage_ret.
  - eapply stage_bind; [by apply stage_call|]. intros. by apply stage_ret.
Qed.

(** What is started on a listener, and whose address is the result. *)
Lemma listen_stage h addr msg t :
  (forall h' ln, h ⊆ h' -> opened h' ln -> task_ok h' (t ln)) ->
  stage h (listen_and_go addr msg t)
    (fun h' a => match a with
                 | Some a => exists ln, a = ln_Addr ln /\ Ev (Go (t ln)) tt ∈ h'
                 | None => addr = []
                 end).
Proof.
  intros Ht. unfold listen_and_go. case_decide as Ha; [|by apply stage_ret].
  eapply stage_bind; [by apply stage_call|]. intros h1 [ln|e] H1 Hln; [|apply stage_fatal].
  eapply stage_bind; [apply stage_call, Ht; [done|by exists (str "tcp"), addr]|]. intros h2 [] _ Hgo.
  apply stage_ret. by exists ln.
Qed.

(** The address that [main] keeps is that of the server of NFS. *)
Definition nfs_addr (h : list event) (a : option TCPAddr) : Prop :=
  match a with
  | Some a => exists mfs w ln, a = ln_Addr ln /\ Ev (Go (ServeNFS mfs w ln)) tt ∈ h
  | None => flagNFS f = []
  end.

Lemma nfs_stage h mfs : as_asked h mfs -> stage h (main_nfs f mfs) nfs_addr.
Proof.
  intros Hm. unfold main_nfs. eapply (stage_bind _ _ _ (fun _ _ => True)).
  { case_match; [|by apply stage_ret]. eapply wp_mono; [by apply stage_call|]. by intros h' a [? _]. }
  intros h1 _ H1 _. eapply wp_mono.
  - apply listen_stage. intros h' ln Hh Hln. split; [done|]. split; [|done]. eapply extends_as_asked; [|done]. by etrans.
  - intros h' [a|] [Hh Ha]; split; try done. destruct Ha as (ln & -> & Hgo). by exists mfs, (flagNFSForWindows f), ln.
Qed.

Lemma MountNFS_stage h dir a : nfs_addr h a -> flagNFS f <> [] -> stage h (MountNFS GOOS dir a) (fun _ _ => True).
Proof.
  intros Ha Hne. unfold MountNFS. destruct a as [a|]; [|done].
  destruct (NetIP.AddrFromSlice (IP a)) as [ip|]; [|by apply stage_ret]. cbv zeta.
  set (cmd := if decide (GOOS = str "darwin") then _ else _).
  assert (forall bin opts, cmd = Some (bin, opts) ->
    (bin = str "/sbin/mount" \/ bin = str "/usr/bin/mount") /\
    (opts = linuxNFSMountOpts (Port a) \/ opts = darwinNFSMountOpts (Port a))) as Hcmd.
  { intros bin opts. subst cmd. repeat case_decide; naive_solver. }
  destruct cmd as [[bin opts]|]; [|by apply stage_ret]. destruct (Hcmd bin opts eq_refl) as [Hbin Hopts].
  eapply stage_bind; [apply stage_call; split|].
  - cbn. by destruct Hbin as [-> | ->].
  - intros bin' opts' source d [= <- <- _ _]. destruct Ha as (mfs & w & ln & -> & Hgo). by exists mfs, w, ln.
  - intros h' [out err] _ _. by apply stage_ret.
Qed.

Lemma WebDAV_stage h mfs dir opt : as_asked h mfs -> stage h (MountWebDAV GOOS mfs dir opt) (fun _ _ => True).
Proof.
  intros Hm. unfold MountWebDAV. case_match; [by apply stage_ret|].
  eapply stage_bind; [by apply stage_call|]. intros h1 ln1 H1 Hln1.
  eapply (stage_bind _ _ _ (fun h ln => match ln with Ok ln => opened h ln | Err _ => True end)).
  { destruct ln1 as [ln|e]; [apply stage_ret; by exists (str "tcp"), (str "localhost:8793")|].
    eapply wp_mono; [by apply stage_call|]. intros h' [ln|e'] [? Hln]; split; try done. by exists (str "tcp"), (str "localhost:0"). }
  intros h2 [ln|e] H2 Hln; [|by apply stage_ret].
  eapply stage_bind; [apply stage_call; split; [done|eapply extends_as_asked; [|done]; by etrans]|]. intros h3 _ _ _.
  eapply stage_bind; [by apply stage_call, other_run|]. intros h4 [out [e|]] _ _; by apply stage_ret.
Qed.

Lemma mount_stage h mfs dir a :
  as_asked h mfs -> nfs_addr h a -> stage h (main_mount GOOS f mfs dir a) (fun _ _ => True).
Proof.
  intros Hm Ha. unfold main_mount. destruct (useWebDAV f); [|destruct (flagWinFSP f); [|destruct (decide (flagNFS f <> []))]];
    (eapply (stage_bind _ _ _ (fun _ _ => True)); [|intros; by apply stage_ret]).
  - by apply WebDAV_stage.
  - unfold MountWinFSP. destruct (decide (GOOS = str "windows")); [|by apply stage_ret].
    eapply stage_bind; [by apply stage_call|]. intros. by apply stage_ret.
  - by apply MountNFS_stage.
  - unfold MountFUSE. destruct (decide (GOOS = str "windows")); [by apply stage_ret|].
    eapply stage_bind; [by apply stage_call|]. intros. by apply stage_ret.
Qed.

(** [main] ends normally only when the mount is waited for and gone. *)
Lemma main_stage : stage [] (main GOOS filepath_Join f) (fun h _ => exists m, Ev (WaitFor m) tt ∈ h).
Proof.
  unfold main. eapply stage_bind; [apply store_stage|]. intros h1 mfs _ Hm%as_asked_limit. cbv zeta.
  set (fs := main_limit f mfs) in *. clearbody fs.
  eapply stage_bind; [apply directory_stage|]. intros h2 _ H2 _.
  eapply stage_bind; [apply portmapper_stage|]. intros h3 _ H3 _.
  assert (as_asked h3 fs) as Hm3 by (eapply extends_as_asked; [|done]; by etrans).
  assert (forall h' ln, h3 ⊆ h' -> opened h' ln -> opened h' ln /\ as_asked h' fs) as Ht.
  { intros h' ln Hh Hln. split; [done|]. by eapply extends_as_asked. }
  eapply stage_bind; [apply listen_stage; exact Ht|]. intros h4 _ H4 _.
  eapply stage_bind; [apply listen_stage; intros h' ln Hh; apply Ht; by etrans|]. intros h5 _ H5 _.
  assert (as_asked h5 fs) as Hm5 by (eapply extends_as_asked; [|done]; by etrans).
  eapply stage_bind; [by apply nfs_stage|]. intros h6 a H6 Ha.
  assert (as_asked h6 fs) as Hm6 by by eapply extends_as_asked.
  case_match; [by apply stage_forever|].
  eapply stage_bind; [by apply mount_stage|]. intros h7 [[m|]|e] _ _; [|apply stage_forever|apply stage_fatal].
  destruct m as [id|id|path ln]; cbn [Wait]; [| apply stage_forever |];
    (eapply wp_mono; [by apply stage_call|]); intros h' [] [? Hw]; (split; [done|]); by eexists.
Qed.
End safety.

(** C37: whatever the flags and the answers of the system, every call that
    [gomodfs] makes is in order.  Its servers run on listeners it opened, and
    serve the file system that the flags ask for: over a remote store
    read-only, and without git; otherwise over a repository that [git init]
    has been run in.  NFS is mounted only after the NFS server was started
    and with its port, so that no nil address is used, and the command ends
    by itself only after waiting for a mount. *)
Theorem main_in_order GOOS filepath_Join f t p :
  runs (main GOOS filepath_Join f) t p ->
  match p with
  | Ret _ => exists m, Ev (WaitFor m) tt ∈ t
  | Do o _ => command_ok f t o
  end.
Proof.
  intros Hr. pose proof (wp_runs _ _ _ _ _ (main_stage GOOS filepath_Join f) Hr) as Hp.
  destruct p as [a|o k]; [|done]. by destruct Hp.
Qed.

(** [gomodfs -nfs :2049 -mount /m] on Linux, up to the call of mount. *)
Definition test_flags : flags :=
  MkFlags [] false false (str ":2049") (str "/m") 0 false false false [] [].
Definition test_listener : listener := MkListener 0 (MkTCPAddr (replicate 16 nul) 2049).
Definition test_home : bytes := str "/home/u".
Definition test_git : bytes := str "/home/u/.cache/gomodfs".
Definition test_mfs : filesystem := MkFilesystem (GitStorage test_git) false (MkConfig [] [] false 0).
Definition test_trace : list event :=
  [Ev UserHomeDir (Ok test_home); Ev (MkdirAll test_git 493) None;
   Ev (Run [str "git"; str "init"; test_git] test_git) ([], None);
   Ev (Run [str "umount"; str "/m"] []) ([], None); Ev (Getenv (str "GOOS")) []; Ev (MkdirAll (str "/m") 493) None;
   Ev (Listen (str "tcp") (str ":2049")) (Ok test_listener); Ev (Go (ServeNFS test_mfs false test_listener)) tt].
Definition test_mount : list bytes :=
  [str "/usr/bin/mount"; str "-t"; str "nfs"; str "-o";
   str "port=2049,mountport=2049,vers=3,tcp,local_lock=all,timeo=1800,ro"; str "127.0.0.1:/"; str "/m"].

Definition test_reply (h : list event) (o : os) : option (answer o) :=
  match o return option (answer o) with
  | UserHomeDir => Some (Ok test_home)
  | Getenv _ => Some []
  | MkdirAll _ _ => Some None
  | Run _ _ => Some ([], None)
  | Listen _ _ => Some (Ok test_listener)
  | Go _ => Some tt
  | _ => None
  end.
Definition test_left : io unit := (exec test_reply 8 [] (main (str "linux") path_Join test_flags)).2.
Definition next_run (p : io unit) : list bytes :=
  match p with
  | Ret _ => []
  | Do o _ => match o with Run argv _ => argv | _ => [] end
  end.

Lemma main_in_order_witness :
  runs (main (str "linux") path_Join test_flags) test_trace test_left /\ next_run test_left = test_mount /\
  exists mfs w ln, Ev (Go (ServeNFS mfs w ln)) tt ∈ test_trace /\
    (nth 4 test_mount [] = linuxNFSMountOpts (Port (ln_Addr ln)) \/
     nth 4 test_mount [] = darwinNFSMountOpts (Port (ln_Addr ln))).
Proof.
  assert (runs (main (str "linux") path_Join test_flags) test_trace test_left) as Hr.
  { destruct (exec_runs test_reply 8 [] (main (str "linux") path_Join test_flags)) as (t & Ht & Hr).
    assert ((exec test_reply 8 [] (main (str "linux") path_Join test_flags)).1 = test_trace) as He by (vm_compute; reflexivity).
    rewrite He in Ht. cbn [app] in Ht. by rewrite Ht. }
  assert (next_run test_left = test_mount) as Hn by (vm_compute; reflexivity).
  split; [exact Hr|]. split; [exact Hn|].
  pose proof (main_in_order (str "linux") path_Join test_flags test_trace test_left Hr) as Hp.
  revert Hp Hn. destruct test_left as [a|o k]; [done|]. destruct o; try done. cbn [next_run]. intros [_ Hp] ->.
  exact (Hp _ _ _ _ eq_refl).
Defined.

(** ** The options of the mount *)

Definition mount_option (name : bytes) (opts : bytes) : option bytes :=
  head (omap (fun o => CutPrefix o (name ++ str "=")) (split_byte ","%char opts)).

(** Both ports are the server's, and the mount is read-only. *)
Lemma mount_options_ok port opts ro :
  (0 <= port < 2 ^ 16)%Z ->
  (opts = linuxNFSMountOpts port /\ ro = str "ro" \/ opts = darwinNFSMountOpts port /\ ro = str "rdonly") ->
  (mount_option (str "port") opts ≫= Atoi) = Some port /\ (mount_option (str "mountport") opts ≫= Atoi) = Some port /\
  ro ∈ split_byte ","%char opts.
Proof.
  intros Hp Ho. assert (","%char ∉ Itoa port) as Hc by (by apply Itoa_notin; [lia|]).
  assert (Atoi (Itoa port) = Some port) as Ha by (apply ParseInt_Itoa; cbn; lia).
  assert (forall l, Forall (fun w => ","%char ∉ w) ((str "port=" ++ Itoa port) :: (str "mountport=" ++ Itoa port) :: l) <->
    Forall (fun w => ","%char ∉ w) l) as Hports.
  { intros l. rewrite !Forall_cons, !not_elem_of_app. assert (","%char ∉ str "port=" /\ ","%char ∉ str "mountport=") by by_decide. naive_solver. }
  unfold mount_option. destruct Ho as [[-> ->]|[-> ->]]; unfold linuxNFSMountOpts, darwinNFSMountOpts;
    (rewrite !split_join; [|done|apply Hports; by_decide]); (split_and!; [exact Ha|exact Ha|]);
    rewrite !elem_of_cons; naive_solver.
Qed.
