(* ===== verification/DumpPack.v ===== *)
(** * cmd/dumppack/dumppack.go: listing a pack

    [dumpPackfile] over the pack scanner of go-git, a library: a class of
    its methods, whose laws say that on a pack in git's format, as
    [GitPack.read_pack] reads it, the scanner gives the objects in turn. *)

From S2P Require Import Prelude GoStrings Sha GitTree GitPack.

Local Open Scope gomodfs_scope.

(** ** go-git *)

Record ObjectHeader := MkObjectHeader { oh_Type : Z; oh_Length : Z; oh_Offset : Z }.

(** [packfile.Scanner]; [ReadObject] with what [io.ReadAll] then reads of
    it. *)
Class Scanner (S : Type) := {
  NewScanner : bytes -> S;
  Header : S -> res (Z * Z) * S;
  NextObjectHeader : S -> res ObjectHeader * S;
  ReadObject : S -> res (res bytes) * S;
  Checksum : S -> res bytes * S }.

(** [object.Tree] after [Decode], which sees of the object the results of
    its methods: its type, hash, size and contents. *)
Record Tree := MkTree { t_Hash : bytes; t_Entries : list (bytes * bytes) }.
Class TreeDecoder := { Tree_Decode : Z -> bytes -> Z -> bytes -> res Tree }.

(** ** The command *)

Record encodedObject := MkEncoded { eo_typ : Z; eo_b : bytes }.
Definition encodedObject_Type (eo : encodedObject) : Z := eo_typ eo.
Definition encodedObject_Hash (eo : encodedObject) : bytes :=
  if (length (eo_b eo) <? 1)%nat then replicate 20 nul else sha1 (eo_b eo).
Definition encodedObject_Size (eo : encodedObject) : Z := i64 (Z.of_nat (length (eo_b eo))).
Definition encodedObject_Reader (eo : encodedObject) : bytes := eo_b eo.

(** What is logged. *)
Inductive line : Type :=
  | VersionLine (version objects : Z)
  | EndLine (n objects : Z)
  | ObjectLine (n : Z) (ref : bytes) (typ size offset : Z)
  | TreeErrorLine (e : error)
  | TreeLine (hash : bytes) (entries : nat)
  | EntryLine (name hash : bytes)
  | ChecksumLine (sum : bytes).

Section dump.
Context {S : Type} `{Sc : Scanner S} `{D : TreeDecoder}.

(** The lines of an object that was read, the [n]-th from 0. *)
Definition dump_object (n : Z) (oh : ObjectHeader) (all : bytes) : list line :=
  ObjectLine n (sha1 all) (oh_Type oh) (oh_Length oh) (oh_Offset oh) ::
  if negb (oh_Type oh =? objTree)%Z then [] else
  let eo := MkEncoded (oh_Type oh) all in
  match Tree_Decode (encodedObject_Type eo) (encodedObject_Hash eo) (encodedObject_Size eo) (encodedObject_Reader eo) with
  | Err e => [TreeErrorLine e]
  | Ok t => TreeLine (t_Hash t) (length (t_Entries t)) :: ((fun e => EntryLine e.1 e.2) <$> t_Entries t)
  end.

(** The loop, until the end of the pack or as many objects as the header
    says; [fuel] bounds the rounds, and [None] is out of fuel. *)
Fixpoint dump_loop (fuel : nat) (objects n : Z) (sc : S) : option (list line * option error * S) :=
  match fuel with
  | O => None
  | Datatypes.S fuel' =>
      match NextObjectHeader sc with
      | (Err e, sc) =>
          match e with
          | EOF => Some ([EndLine n objects], None, sc)
          | _ => Some ([], Some (errWrap "failed to read next object header" e), sc)
          end
      | (Ok oh, sc) =>
          match ReadObject sc with
          | (Err e, sc) => Some ([], Some (errWrap "failed to read object" e), sc)
          | (Ok (Err e), sc) => Some ([], Some (errWrap "failed to read object content" e), sc)
          | (Ok (Ok all), sc) =>
              let lines := dump_object n oh all in
              let n := i64 (n + 1) in
              if (u32 n =? objects)%Z then Some (lines, None, sc)
              else '(ls, r, sc) ← dump_loop fuel' objects n sc; Some (lines ++ ls, r, sc)
          end
      end
  end.

(** [dumpPackfile]: the lines, and the error. *)
Definition dumpPackfile (fuel : nat) (r : bytes) : option (list line * option error) :=
  match Header (NewScanner r) with
  | (Err e, _) => Some ([], Some (errWrap "failed to read packfile header" e))
  | (Ok (version, objects), sc) =>
      '(ls, err, sc) ← dump_loop fuel objects 0 sc;
      let ls := VersionLine version objects :: ls in
      match err with
      | Some e => Some (ls, Some e)
      | None =>
          match Checksum sc with
          | (Err e, _) => Some (ls, Some (errWrap "failed to read packfile checksum" e))
          | (Ok sum, _) => Some (ls ++ [ChecksumLine sum], None)
          end
      end
  end.
End dump.

(** ** The scanner on a pack in git's format

    [sc_at sc pack k]: the scanner has read the header and [k] objects. *)
Class ScannerLaws {S} (Sc : Scanner S) `{ZL : ZlibLaws} := {
  sc_at : S -> bytes -> nat -> Prop;
  sc_header pack objs : read_pack pack = Some objs ->
    exists sc, Header (NewScanner pack) = (Ok (2, Z.of_nat (length objs))%Z, sc) /\ sc_at sc pack 0;
  sc_next pack objs k sc : read_pack pack = Some objs -> sc_at sc pack k ->
    match objs !! k with
    | None => (NextObjectHeader sc).1 = Err EOF /\ sc_at (NextObjectHeader sc).2 pack k
    | Some (typ, content) =>
        exists offset sc1 sc2, NextObjectHeader sc = (Ok (MkObjectHeader typ (Z.of_nat (length content)) offset), sc1) /\
          ReadObject sc1 = (Ok (Ok content), sc2) /\ sc_at sc2 pack (Datatypes.S k)
    end;
  sc_checksum pack objs sc : read_pack pack = Some objs -> sc_at sc pack (length objs) ->
    (Checksum sc).1 = Ok (drop (length pack - 20) pack) }.

Section facts.
Context {S : Type} `{Sc : Scanner S} `{D : TreeDecoder} `{ZL : ZlibLaws} {SL : ScannerLaws Sc}.

(** The lines of the objects from the [n]-th on, at the offsets. *)
Definition object_lines (n : nat) (objs : list (Z * bytes)) (offsets : list Z) : list line :=
  mjoin (imap (fun i x => dump_object (Z.of_nat (n + i)) (MkObjectHeader x.1.1 (Z.of_nat (length x.1.2)) x.2) x.1.2)
           (zip objs offsets)).

Lemma object_lines_cons n x objs off offs :
  object_lines n (x :: objs) (off :: offs) =
  dump_object (Z.of_nat n) (MkObjectHeader x.1 (Z.of_nat (length x.2)) off) x.2 ++ object_lines (Datatypes.S n) objs offs.
Proof.
  unfold object_lines. cbn [zip zip_with imap fst snd]. rewrite Nat.add_0_r.
  change (mjoin (?a :: ?l)) with (a ++ mjoin l). f_equal. f_equal. apply imap_ext.
  intros i y _. cbn [compose]. by rewrite Nat.add_succ_r.
Qed.

Lemma dump_loop_pack pack objs rest k sc fuel :
  read_pack pack = Some objs -> (Z.of_nat (length objs) < 2 ^ 32)%Z -> objs = take k objs ++ rest -> rest <> [] ->
  sc_at sc pack k -> k + length rest = length objs -> length rest <= fuel ->
  exists offsets sc', length offsets = length rest /\ sc_at sc' pack (length objs) /\
    dump_loop fuel (Z.of_nat (length objs)) (Z.of_nat k) sc = Some (object_lines k rest offsets, None, sc').
Proof.
  intros Hp Hl. revert k sc fuel. induction rest as [|[typ content] rest IH]; intros k sc fuel Hobjs Hne Hat Hk Hf; [done|].
  cbn [length] in Hk, Hf. destruct fuel as [|fuel]; [lia|]. cbn [dump_loop]. pose proof (sc_next pack objs k sc Hp Hat) as Hn.
  assert (objs !! k = Some (typ, content)) as Hlook.
  { rewrite Hobjs, lookup_app_r by (rewrite length_take; lia). rewrite length_take. by replace (k - k `min` length objs) with 0 by lia. }
  rewrite Hlook in Hn. destruct Hn as (off & sc1 & sc2 & -> & -> & Hat2).
  rewrite i64_small by lia. replace (Z.of_nat k + 1)%Z with (Z.of_nat (Datatypes.S k)) by lia. rewrite u32_small by lia.
  set (first := dump_object _ _ _).
  destruct rest as [|x rest].
  - cbn [length] in Hk. rewrite (proj2 (Z.eqb_eq _ _)) by lia. exists [off], sc2.
    split_and!; [done|by replace (length objs) with (Datatypes.S k) by lia|].
    rewrite object_lines_cons. change (object_lines _ [] []) with (@nil line). by rewrite app_nil_r.
  - cbn [length] in Hk, Hf, IH. rewrite (proj2 (Z.eqb_neq _ _)) by lia.
    destruct (IH (Datatypes.S k) sc2 fuel) as (offs & sc' & Hlo & Hat' & Hd); [|done|done|lia|lia|].
    + rewrite (take_S_r _ _ _ Hlook), <- app_assoc. exact Hobjs.
    + exists (off :: offs), sc'. split_and!; [cbn; lia|done|]. rewrite Hd. by rewrite object_lines_cons.
Qed.

(** Dumping a pack in git's format ends without an error, after as many
    rounds as it has objects, and lists its header, every object in order
    with its type and size, and the checksum at its end.  ([sendToGit] sends
    packs of this kind.)  What it calls the ref of an object is the SHA-1 of
    the bare contents. *)
Theorem dumpPackfile_lists pack objs fuel :
  read_pack pack = Some objs -> (Z.of_nat (length objs) < 2 ^ 32)%Z -> length objs < fuel ->
  exists offsets, length offsets = length objs /\
    dumpPackfile fuel pack =
    Some (VersionLine 2 (Z.of_nat (length objs)) ::
          (match objs with [] => [EndLine 0 0] | _ => object_lines 0 objs offsets end) ++
          [ChecksumLine (drop (length pack - 20) pack)], None).
Proof.
  intros Hp Hl Hf. unfold dumpPackfile. destruct (sc_header _ _ Hp) as (sc & -> & Hat).
  destruct (decide (objs = [])) as [->|Hne].
  - destruct fuel as [|fuel]; [cbn in Hf; lia|]. exists []. split; [done|]. cbn [dump_loop length].
    pose proof (sc_next _ _ _ _ Hp Hat) as [Hn Hat']. destruct (NextObjectHeader sc) as [oh sc1]. cbn [fst snd] in *. subst oh.
    cbn [mbind option_bind]. pose proof (sc_checksum _ _ _ Hp Hat') as Hc.
    destruct (Checksum sc1) as [sum sc2]. cbn [fst] in Hc. by subst sum.
  - destruct (dump_loop_pack pack objs objs 0 sc fuel) as (offs & sc' & Hlo & Hat' & Hd); try done; [lia|].
    exists offs. split; [done|]. change (Z.of_nat 0) with 0%Z in Hd. rewrite Hd. cbn [mbind option_bind].
    pose proof (sc_checksum _ _ _ Hp Hat') as Hc. destruct (Checksum sc') as [sum sc2]. cbn [fst] in Hc. subst sum.
    by destruct objs.
Qed.
End facts.

(** A scanner that reads the pack as a whole: the pack, and how many objects
    it has read. *)
Definition whole `{ZL : ZlibLaws} (pack : bytes) : list (Z * bytes) := default [] (read_pack pack).
#[export] Instance whole_scanner `{ZL : ZlibLaws} : Scanner (bytes * nat) := {|
  NewScanner r := (r, 0);
  Header s := (match read_pack s.1 with Some objs => Ok (2, Z.of_nat (length objs))%Z | None => Err EOF end, s);
  NextObjectHeader s :=
    (match whole s.1 !! s.2 with
     | Some (typ, content) => Ok (MkObjectHeader typ (Z.of_nat (length content)) 0)
     | None => Err EOF
     end, s);
  ReadObject s := (match whole s.1 !! s.2 with Some (_, content) => Ok (Ok content) | None => Err EOF end, (s.1, Datatypes.S s.2));
  Checksum s := (Ok (drop (length s.1 - 20) s.1), s) |}.

#[export] Instance whole_scanner_laws `{ZL : ZlibLaws} : ScannerLaws whole_scanner.
Proof.
  refine {| sc_at s pack k := s = (pack, k) |}.
  - intros pack objs Hp. exists (pack, 0). cbn [Header NewScanner whole_scanner fst]. by rewrite Hp.
  - intros pack objs k sc Hp ->. cbn [NextObjectHeader ReadObject whole_scanner fst snd]. unfold whole.
    rewrite Hp. cbn [default from_option id]. destruct (objs !! k) as [[typ content]|] eqn:Hk; [|done].
    exists 0%Z, (pack, k), (pack, Datatypes.S k). cbn [fst snd]. rewrite Hp. cbn [default from_option id]. by rewrite Hk.
  - by intros pack objs sc _ ->.
Qed.
#[export] Instance no_tree_decoder : TreeDecoder := {| Tree_Decode _ _ _ _ := Err EOF |}.

Definition test_pack : bytes :=
  let s := str "PACK" ++ be_bytes 4 2 ++ be_bytes 4 2 ++
           object_header objBlob 2 ++ zlib_compress (str "hi") ++ object_header objTree 0 ++ zlib_compress [] in
  s ++ sha1 s.

Lemma dumpPackfile_lists_witness :
  read_pack test_pack = Some [(objBlob, str "hi"); (objTree, [])] /\
  exists offsets, length offsets = 2 /\
    dumpPackfile 3 test_pack =
    Some (VersionLine 2 2 :: object_lines 0 [(objBlob, str "hi"); (objTree, [])] offsets ++
          [ChecksumLine (drop (length test_pack - 20) test_pack)], None).
Proof.
  assert (read_pack test_pack = Some [(objBlob, str "hi"); (objTree, [])]) as Hp by (vm_compute; reflexivity).
  split; [exact Hp|]. apply (dumpPackfile_lists test_pack _ 3 Hp); [reflexivity|cbn; lia].
Defined.

(** The ref is not the object's name. *)
Example ref_is_not_the_name : sha1 (str "hi") <> mkObjRef (str "blob") (str "hi").
Proof. by_decide. Qed.
